(** * View correction: convolution inpainting of depth maps

    A shallow embedding of
    [src/view_correction/cuda_convolution_inpainting.cu] (the three CUDA
    kernels and the host function [InpaintDepthMapWithConvolutionCUDA]) and of
    [CUDABuffer<T>::GetCachedTextureObject] from
    [src/view_correction/cuda_buffer_inl.h].

    Modelling conventions.
    - Machine integers are [Z] with the conversions of the C++ types written
      out ([u32], [u16], [u8], [i32]).
    - [float] is idealised: finite values are exact rationals, the IEEE
      special values (infinities, NaN) and their rules for division by zero
      are kept, rounding, overflow and signed zeros are not modelled.
    - A [CUDABuffer_<T>] is a row-major array; the pitch is the width.
    - A thread block is executed barrier phase by barrier phase: all reads of
      a phase see the shared memory left by the previous phase.  The blocks
      of one launch are executed one after the other in block-index order.
    - The host loop is run with fuel, and it logs every diffusion launch. *)

From Stdlib Require Import ZArith QArith Qreduction Qabs Lia Lqa Bool.
From stdpp Require Import base tactics option list list_numbers gmap.

Local Open Scope Z_scope.

(** ** Idealised single-precision values *)

Module Float.

Inductive float : Type :=
| FNum (q : Q)
| FInf (negative : bool)
| FNaN.

Definition zero : float := FNum 0.
Definition one : float := FNum 1.

Definition of_Z (z : Z) : float := FNum (inject_Z z).
Definition of_bool (b : bool) : float := of_Z (if b then 1 else 0).

Definition Qlt_bool (a b : Q) : bool := negb (Qle_bool b a).
Definition Qneg_bool (a : Q) : bool := Qlt_bool a 0.

Definition fneg (x : float) : float :=
  match x with
  | FNum a => FNum (Qred (- a))
  | FInf s => FInf (negb s)
  | FNaN => FNaN
  end.

Definition fabs (x : float) : float :=
  match x with
  | FNum a => FNum (Qred (Qabs a))
  | FInf _ => FInf false
  | FNaN => FNaN
  end.

Definition fadd (x y : float) : float :=
  match x, y with
  | FNaN, _ | _, FNaN => FNaN
  | FNum a, FNum b => FNum (Qred (a + b))
  | FInf s, FNum _ | FNum _, FInf s => FInf s
  | FInf s, FInf t => if eqb s t then FInf s else FNaN
  end.

Definition fsub (x y : float) : float := fadd x (fneg y).

Definition fmul (x y : float) : float :=
  match x, y with
  | FNaN, _ | _, FNaN => FNaN
  | FNum a, FNum b => FNum (Qred (a * b))
  | FInf s, FNum b | FNum b, FInf s =>
      if Qeq_bool b 0 then FNaN else FInf (xorb s (Qneg_bool b))
  | FInf s, FInf t => FInf (xorb s t)
  end.

(** Division follows IEEE on its special cases: [0/0] and [inf/inf] are NaN,
    [x/0] is an infinity with the sign of [x]. *)
Definition fdiv (x y : float) : float :=
  match x, y with
  | FNaN, _ | _, FNaN => FNaN
  | FNum a, FNum b =>
      if Qeq_bool b 0
      then (if Qeq_bool a 0 then FNaN else FInf (Qneg_bool a))
      else FNum (Qred (a / b))
  | FNum _, FInf _ => FNum 0
  | FInf s, FNum b => FInf (xorb s (Qneg_bool b))
  | FInf _, FInf _ => FNaN
  end.

(** Comparisons; every comparison with NaN is false. *)
Definition flt (x y : float) : bool :=
  match x, y with
  | FNaN, _ | _, FNaN => false
  | FNum a, FNum b => Qlt_bool a b
  | FNum _, FInf s => negb s
  | FInf s, FNum _ => s
  | FInf s, FInf t => s && negb t
  end.

Definition fle (x y : float) : bool :=
  match x, y with
  | FNaN, _ | _, FNaN => false
  | FNum a, FNum b => Qle_bool a b
  | FNum _, FInf s => negb s
  | FInf s, FNum _ => s
  | FInf s, FInf t => s || negb t
  end.

Definition feq (x y : float) : bool :=
  match x, y with
  | FNum a, FNum b => Qeq_bool a b
  | FInf s, FInf t => eqb s t
  | _, _ => false
  end.

Definition fgt (x y : float) : bool := flt y x.

Definition is_zero (x : float) : bool := feq x zero.

Definition finite (x : float) : Prop :=
  match x with FNum _ => True | _ => False end.

End Float.

Export Float.

(** ** Machine integers *)

Definition u32 (z : Z) : Z := z mod 2 ^ 32.
Definition u16 (z : Z) : Z := z mod 2 ^ 16.
Definition u8 (z : Z) : Z := z mod 2 ^ 8.
Definition i32 (z : Z) : Z := (z + 2 ^ 31) mod 2 ^ 32 - 2 ^ 31.

(** ** Arrays, buffers and textures *)

(** An access outside the array is undefined behaviour in the source; in the
    model a read returns the default and a write does nothing. *)
Definition zget {T : Type} (d : T) (l : list T) (i : Z) : T :=
  if i <? 0 then d else default d (l !! Z.to_nat i).

Definition zset {T : Type} (l : list T) (i : Z) (v : T) : list T :=
  if i <? 0 then l else <[Z.to_nat i := v]> l.

Record CUDABuffer_ (T : Type) : Type := Buffer {
  address_ : list T;
  height_ : Z;
  width_ : Z
}.
Arguments Buffer {T} _ _ _.
Arguments address_ {T} _.
Arguments height_ {T} _.
Arguments width_ {T} _.

(** [buffer(y, x)], as an rvalue and as an assignment target. *)
Definition at_ {T : Type} (b : CUDABuffer_ T) (y x : Z) : Z := y * width_ b + x.

Definition load {T : Type} (d : T) (b : CUDABuffer_ T) (y x : Z) : T :=
  zget d (address_ b) (at_ b y x).

Definition store {T : Type} (b : CUDABuffer_ T) (y x : Z) (v : T) : CUDABuffer_ T :=
  Buffer (zset (address_ b) (at_ b y x) v) (height_ b) (width_ b).

(** One barrier phase of a block, or the stores of a launch: every element of
    [l] (a thread) whose guard holds stores its value into its cell. *)
Definition writes {A T : Type} (g : A -> bool) (key : A -> Z) (val : A -> T)
           (a0 : list T) (l : list A) : list T :=
  foldl (fun acc t => if g t then zset acc (key t) (val t) else acc) a0 l.

(** The same for stores into a buffer. *)
Definition stores {A T : Type} (g : A -> bool) (row col : A -> Z) (val : A -> T)
           (b : CUDABuffer_ T) (l : list A) : CUDABuffer_ T :=
  foldl (fun out t => if g t then store out (row t) (col t) (val t) else out) b l.

(** A block-wide sum of a flag, as [cub::BlockReduce::Sum] returns it. *)
Definition block_sum {A : Type} (flag : A -> bool) (l : list A) : Z :=
  foldl (fun n t => n + (if flag t then 1 else 0)) 0 l.

(** A texture object is the fetch function of its sampler (address and filter
    modes included). *)
Definition cudaTextureObject_t (T : Type) : Type := Z -> Z -> T.
Definition tex2D {T : Type} (t : cudaTextureObject_t T) (x y : Z) : T := t x y.

(** ** Constants of the kernels *)

Definition kIterationsPerKernelCall : Z := 4.
Definition kBlockWidth : Z := 32.
Definition kBlockHeight : Z := 32.
Definition kSqrt2 : float := FNum (14142135623731 # 10000000000000).
Definition kDiagonal : float := FNum (73235 # 1000000).
Definition kAxis : float := FNum (176765 # 1000000).

(** The threads of one block, [threadIdx.y] outer and [threadIdx.x] inner. *)
Definition threads (block_size_x block_size_y : Z) : list (Z * Z) :=
  ty ← seqZ 0 block_size_y; tx ← seqZ 0 block_size_x; [(tx, ty)].

(** The first four conjuncts of [kOutput]: the thread is outside the halo. *)
Definition in_output_region (block_size_x block_size_y tx ty : Z) : bool :=
  (u32 kIterationsPerKernelCall <=? tx) &&
  (u32 kIterationsPerKernelCall <=? ty) &&
  (tx <? u32 (block_size_x - kIterationsPerKernelCall)) &&
  (ty <? u32 (block_size_y - kIterationsPerKernelCall)).

(** ** ConvolutionInpaintingInitializeVariablesKernel *)

Module Init.
Section Kernel.
Variables block_size_x block_size_y : Z.
Variable grid_dim_x : Z.
Variable depth_input_scaling_factor : float.
Variable depth_map_input : cudaTextureObject_t float.

Definition kBlockOutputSizeX : Z := block_size_x - 2 * kIterationsPerKernelCall.
Definition kBlockOutputSizeY : Z := block_size_y - 2 * kIterationsPerKernelCall.

Definition x (bx tx : Z) : Z := u32 (bx * kBlockOutputSizeX + tx - kIterationsPerKernelCall).
Definition y (by_ ty : Z) : Z := u32 (by_ * kBlockOutputSizeY + ty - kIterationsPerKernelCall).

Definition kOutput (width height bx by_ tx ty : Z) : bool :=
    in_output_region block_size_x block_size_y tx ty &&
    (x bx tx <? u32 width) &&
    (y by_ ty <? u32 height).

Definition depth_input (bx by_ tx ty : Z) : float :=
    fmul depth_input_scaling_factor (tex2D depth_map_input (x bx tx) (y by_ ty)).

Definition thread_is_active (width height bx by_ tx ty : Z) : bool :=
  kOutput width height bx by_ tx ty && feq (depth_input bx by_ tx ty) zero.

(** One block: the stores of its threads, the block-wide sum of
    [thread_is_active], and the store of that sum by thread (0, 0). *)
Definition block (st : CUDABuffer_ float * CUDABuffer_ Z) (b : Z * Z)
  : CUDABuffer_ float * CUDABuffer_ Z :=
  let '(bx, by_) := b in
  let width := width_ st.1 in
  let height := height_ st.1 in
  let num_active_threads :=
    block_sum (fun t => thread_is_active width height bx by_ t.1 t.2)
              (threads block_size_x block_size_y) in
  (stores (fun t => kOutput width height bx by_ t.1 t.2)
          (fun t => y by_ t.2) (fun t => x bx t.1)
          (fun t => depth_input bx by_ t.1 t.2)
          st.1 (threads block_size_x block_size_y),
   store st.2 0 (u32 (bx + by_ * grid_dim_x)) (u16 num_active_threads)).

(** The launch over a grid of [gx] by [gy] blocks. *)
Definition blocks (gx gy : Z) : list (Z * Z) :=
    by_ ← seqZ 0 gy; bx ← seqZ 0 gx; [(bx, by_)].

Definition launch (gx gy : Z) (depth_map_output : CUDABuffer_ float)
             (block_coordinates : CUDABuffer_ Z)
    : CUDABuffer_ float * CUDABuffer_ Z :=
    foldl block (depth_map_output, block_coordinates) (blocks gx gy).
End Kernel.
End Init.

(** ** ConvolutionInpaintingKernel (no weighting) *)

Module Plain.
Section Kernel.
Variables block_size_x block_size_y : Z.
Variable check_convergence : bool.
Variable block_coordinates : CUDABuffer_ Z.
Variable depth_map_input : cudaTextureObject_t float.
Variable max_change_rate_threshold : float.
(** [depth_map_output.width()] and [depth_map_output.height()]. *)
Variables width height : Z.
Variable blockIdx_x : Z.

Definition origin_x : Z := load 0 block_coordinates 0 (u32 (2 * blockIdx_x + 0)).
Definition origin_y : Z := load 0 block_coordinates 0 (u32 (2 * blockIdx_x + 1)).

(** [block_coordinates(..) + threadIdx.x - kIterationsPerKernelCall] is
    computed in [unsigned int]. *)
Definition raw_x (tx : Z) : Z := u32 (origin_x + tx - kIterationsPerKernelCall).
Definition raw_y (ty : Z) : Z := u32 (origin_y + ty - kIterationsPerKernelCall).

(** CUDA's [min] and [max] on an [int] and an [unsigned int] compare both as
    [unsigned int]; the result is converted back to [int]. *)
Definition x (tx : Z) : Z := i32 (Z.max (u32 0) (Z.min (u32 (width - 1)) (raw_x tx))).
Definition y (ty : Z) : Z := i32 (Z.max (u32 0) (Z.min (u32 (height - 1)) (raw_y ty))).

Definition kIsPixelToInpaint (tx ty : Z) : bool :=
  fle (tex2D depth_map_input (x tx) (y ty)) zero.

Definition kOutput (tx ty : Z) : bool :=
  in_output_region block_size_x block_size_y tx ty &&
  (raw_x tx <? u32 width) &&
  (raw_y ty <? u32 height).

Definition shared_mem_index (tx ty : Z) : Z := tx + block_size_x * ty.

(** Loading [depth_shared] from the working buffer. *)
Definition load_shared (depth_map_output : CUDABuffer_ float) : list float :=
  writes (fun _ => true)
         (fun t => shared_mem_index t.1 t.2)
         (fun t => load zero depth_map_output (y t.2) (x t.1))
         (replicate (Z.to_nat (block_size_x * block_size_y)) zero)
         (threads block_size_x block_size_y).

Definition is_inner (tx ty : Z) : bool :=
  (0 <? tx) && (0 <? ty) && (tx <? block_size_x - 1) && (ty <? block_size_y - 1).

(** The eight neighbours in the order of the source: the offset in shared
    memory, the in-image condition and the kernel weight. *)
Definition neighbours (x y : Z) : list (Z * bool * float) :=
  [ (-1 - block_size_x, (0 <? y) && (0 <? x), kDiagonal);
    (- block_size_x, (0 <? y), kAxis);
    (1 - block_size_x, (0 <? y) && (x <? width - 1), kDiagonal);
    (-1, (0 <? x), kAxis);
    (1, (x <? width - 1), kAxis);
    (-1 + block_size_x, (y <? height - 1) && (0 <? x), kDiagonal);
    (block_size_x, (y <? height - 1), kAxis);
    (1 + block_size_x, (y <? height - 1) && (x <? width - 1), kDiagonal) ].

(** [result += pixel_weight * temp_depth; weight += pixel_weight]. *)
Definition add_neighbour (depth_shared : list float) (i : Z)
           (acc : float * float) (n : Z * bool * float) : float * float :=
  let temp_depth := zget zero depth_shared (i + n.1.1) in
  let pixel_weight := fmul (of_bool (n.1.2 && fgt temp_depth zero)) n.2 in
  (fadd acc.1 (fmul pixel_weight temp_depth), fadd acc.2 pixel_weight).

(** The pair [(result, weight)] of one thread in one sub-iteration. *)
Definition accumulate (depth_shared : list float) (tx ty : Z) : float * float :=
  if kIsPixelToInpaint tx ty && is_inner tx ty
  then foldl (add_neighbour depth_shared (shared_mem_index tx ty)) (zero, zero)
             (neighbours (x tx) (y ty))
  else (zero, zero).

Definition weight (depth_shared : list float) (tx ty : Z) : float :=
  (accumulate depth_shared tx ty).2.

Definition new_depth (depth_shared : list float) (tx ty : Z) : float :=
  fdiv (accumulate depth_shared tx ty).1 (accumulate depth_shared tx ty).2.

(** Whether the thread evaluates the relative change in sub-iteration [i]. *)
Definition tests_convergence (i tx ty : Z) : bool :=
  check_convergence && kOutput tx ty && kIsPixelToInpaint tx ty &&
  (i =? kIterationsPerKernelCall - 1).

(** The operands of the division in the convergence test. *)
Definition change_operands (depth_shared : list float) (tx ty : Z) : float * float :=
  (fsub (new_depth depth_shared tx ty)
        (zget zero depth_shared (shared_mem_index tx ty)),
   zget zero depth_shared (shared_mem_index tx ty)).

Definition change (depth_shared : list float) (i tx ty : Z) : float :=
  if tests_convergence i tx ty
  then fabs (fdiv (change_operands depth_shared tx ty).1
                  (change_operands depth_shared tx ty).2)
  else zero.

(** The block-wide sum of [change > max_change_rate_threshold]. *)
Definition active_pixels (depth_shared : list float) (i : Z) : Z :=
  block_sum (fun t => fgt (change depth_shared i t.1 t.2) max_change_rate_threshold)
            (threads block_size_x block_size_y).

Definition writes_shared (depth_shared : list float) (tx ty : Z) : bool :=
  kIsPixelToInpaint tx ty && fgt (weight depth_shared tx ty) zero.

(** One sub-iteration of the block: every thread reads the shared memory of
    the previous phase and writes its own cell. *)
Definition sub_iteration (st : list float * CUDABuffer_ Z) (i : Z)
  : list float * CUDABuffer_ Z :=
  let depth_shared := st.1 in
  (writes (fun t => writes_shared depth_shared t.1 t.2)
          (fun t => shared_mem_index t.1 t.2)
          (fun t => new_depth depth_shared t.1 t.2)
          depth_shared (threads block_size_x block_size_y),
   if check_convergence
   then store st.2 0 blockIdx_x (if 0 <? active_pixels depth_shared i then 1 else 0)
   else st.2).

Definition sub_iterations (depth_shared : list float) (max_change : CUDABuffer_ Z)
  : list float * CUDABuffer_ Z :=
  foldl sub_iteration (depth_shared, max_change) (seqZ 0 kIterationsPerKernelCall).

(** The state of the block when its sub-iteration [i] starts. *)
Definition before_sub_iteration (i : Z) (depth_shared : list float)
           (max_change : CUDABuffer_ Z) : list float * CUDABuffer_ Z :=
  foldl sub_iteration (depth_shared, max_change) (seqZ 0 i).

(** The number of pixels of the tile whose relative change exceeds the
    threshold in the last sub-iteration. *)
Definition final_active_pixels (depth_shared : list float)
           (max_change : CUDABuffer_ Z) : Z :=
  active_pixels
    (before_sub_iteration (kIterationsPerKernelCall - 1) depth_shared max_change).1
    (kIterationsPerKernelCall - 1).

(** The final store of the cached values of the hole pixels. *)
Definition write_back (depth_shared : list float) (depth_map_output : CUDABuffer_ float)
  : CUDABuffer_ float :=
  stores (fun t => kOutput t.1 t.2 && kIsPixelToInpaint t.1 t.2)
         (fun t => y t.2) (fun t => x t.1)
         (fun t => zget zero depth_shared (shared_mem_index t.1 t.2))
         depth_map_output (threads block_size_x block_size_y).
End Kernel.

(** One block of the launch. *)
Definition block (block_size_x block_size_y : Z) (check_convergence : bool)
           (block_coordinates : CUDABuffer_ Z)
           (depth_map_input : cudaTextureObject_t float)
           (max_change_rate_threshold : float)
           (st : CUDABuffer_ Z * CUDABuffer_ float) (blockIdx_x : Z)
  : CUDABuffer_ Z * CUDABuffer_ float :=
  let '(max_change, depth_map_output) := st in
  let width := width_ depth_map_output in
  let height := height_ depth_map_output in
  let '(depth_shared, max_change') :=
    sub_iterations block_size_x block_size_y check_convergence block_coordinates
      depth_map_input max_change_rate_threshold width height blockIdx_x
      (load_shared block_size_x block_size_y block_coordinates width height
         blockIdx_x depth_map_output)
      max_change in
  (max_change',
   write_back block_size_x block_size_y block_coordinates depth_map_input
     width height blockIdx_x depth_shared depth_map_output).

(** The launch over [grid_dim_active] blocks. *)
Definition launch (block_size_x block_size_y : Z) (check_convergence : bool)
           (grid_dim_active : Z)
           (block_coordinates : CUDABuffer_ Z)
           (depth_map_input : cudaTextureObject_t float)
           (max_change : CUDABuffer_ Z)
           (max_change_rate_threshold : float)
           (depth_map_output : CUDABuffer_ float)
  : CUDABuffer_ Z * CUDABuffer_ float :=
  foldl (block block_size_x block_size_y check_convergence block_coordinates
           depth_map_input max_change_rate_threshold)
        (max_change, depth_map_output) (seqZ 0 grid_dim_active).
End Plain.

(** ** ConvolutionInpaintingKernelWithWeighting *)

Module Weighted.
Section Kernel.
Variables block_size_x block_size_y : Z.
Variable check_convergence : bool.
Variable block_coordinates : CUDABuffer_ Z.
Variable depth_map_input : cudaTextureObject_t float.
Variable gradient_magnitude_div_sqrt2 : cudaTextureObject_t Z.
Variable max_change_rate_threshold : float.
Variables width height : Z.
Variable blockIdx_x : Z.

Definition origin_x : Z := load 0 block_coordinates 0 (u32 (2 * blockIdx_x + 0)).
Definition origin_y : Z := load 0 block_coordinates 0 (u32 (2 * blockIdx_x + 1)).

(** The unsigned sum is converted to [int]. *)
Definition raw_x (tx : Z) : Z := i32 (u32 (origin_x + tx - kIterationsPerKernelCall)).
Definition raw_y (ty : Z) : Z := i32 (u32 (origin_y + ty - kIterationsPerKernelCall)).

Definition kInImage (tx ty : Z) : bool :=
  (0 <=? raw_x tx) && (0 <=? raw_y ty) && (raw_x tx <? width) && (raw_y ty <? height).

Definition x (tx : Z) : Z := Z.max 0 (Z.min (width - 1) (raw_x tx)).
Definition y (ty : Z) : Z := Z.max 0 (Z.min (height - 1) (raw_y ty)).

Definition kIsPixelToInpaint (tx ty : Z) : bool :=
  fle (tex2D depth_map_input (x tx) (y ty)) zero.

Definition kOutput (tx ty : Z) : bool :=
  in_output_region block_size_x block_size_y tx ty &&
  kInImage tx ty && kIsPixelToInpaint tx ty.

Definition shared_mem_index (tx ty : Z) : Z := tx + block_size_x * ty.

(** [tex2D<uchar>] returns an unsigned char. *)
Definition base_weight (tx ty : Z) : float :=
  fdiv (fmul (of_Z (if kInImage tx ty then 1 else 0)) one)
       (fadd one
             (fdiv (fmul (fmul (of_Z 50)
                               (of_Z (u8 (tex2D gradient_magnitude_div_sqrt2 (x tx) (y ty)))))
                         kSqrt2)
                   (of_Z 255))).

(** Loading [depth_shared] and [weights_shared]. *)
Definition load_shared (depth_map_output : CUDABuffer_ float) : list float * list float :=
  (writes (fun _ => true)
          (fun t => shared_mem_index t.1 t.2)
          (fun t => load zero depth_map_output (y t.2) (x t.1))
          (replicate (Z.to_nat (block_size_x * block_size_y)) zero)
          (threads block_size_x block_size_y),
   writes (fun _ => true)
          (fun t => shared_mem_index t.1 t.2)
          (fun t => fmul (base_weight t.1 t.2)
                         (of_bool (fgt (load zero depth_map_output (y t.2) (x t.1)) zero)))
          (replicate (Z.to_nat (block_size_x * block_size_y)) zero)
          (threads block_size_x block_size_y)).

Definition is_inner (tx ty : Z) : bool :=
  (0 <? tx) && (0 <? ty) && (tx <? block_size_x - 1) && (ty <? block_size_y - 1).

(** The eight neighbours in the order of the source: offset and kernel weight. *)
Definition neighbours : list (Z * float) :=
  [ (-1 - block_size_x, kDiagonal);
    (- block_size_x, kAxis);
    (1 - block_size_x, kDiagonal);
    (-1, kAxis);
    (1, kAxis);
    (-1 + block_size_x, kDiagonal);
    (block_size_x, kAxis);
    (1 + block_size_x, kDiagonal) ].

(** [new_depth += pixel_weight * depth_shared[..]; weight += pixel_weight]. *)
Definition add_neighbour (shared : list float * list float) (i : Z)
           (acc : float * float) (n : Z * float) : float * float :=
  let pixel_weight := fmul n.2 (zget zero shared.2 (i + n.1)) in
  (fadd acc.1 (fmul pixel_weight (zget zero shared.1 (i + n.1))), fadd acc.2 pixel_weight).

(** The sum and the accumulated weight inside the [if]; a thread that does
    not enter it has accumulated nothing. *)
Definition accumulate (shared : list float * list float) (tx ty : Z) : float * float :=
  if kIsPixelToInpaint tx ty && is_inner tx ty
  then foldl (add_neighbour shared (shared_mem_index tx ty)) (zero, zero) neighbours
  else (zero, zero).

Definition weight (shared : list float * list float) (tx ty : Z) : float :=
  (accumulate shared tx ty).2.

Definition new_depth (shared : list float * list float) (tx ty : Z) : float :=
  if kIsPixelToInpaint tx ty && is_inner tx ty
  then fdiv (accumulate shared tx ty).1 (accumulate shared tx ty).2
  else zero.

Definition tests_convergence (i : Z) : bool :=
  check_convergence && (i =? kIterationsPerKernelCall - 1).

Definition change_operands (shared : list float * list float) (tx ty : Z) : float * float :=
  (fsub (new_depth shared tx ty) (zget zero shared.1 (shared_mem_index tx ty)),
   zget zero shared.1 (shared_mem_index tx ty)).

Definition change (shared : list float * list float) (tx ty : Z) : float :=
  if kOutput tx ty
  then fabs (fdiv (change_operands shared tx ty).1 (change_operands shared tx ty).2)
  else zero.

Definition active_pixels (shared : list float * list float) : Z :=
  block_sum (fun t => fgt (change shared t.1 t.2) max_change_rate_threshold)
            (threads block_size_x block_size_y).

Definition writes_shared (shared : list float * list float) (tx ty : Z) : bool :=
  kIsPixelToInpaint tx ty && fgt (new_depth shared tx ty) zero.

Definition sub_iteration (st : (list float * list float) * CUDABuffer_ Z) (i : Z)
  : (list float * list float) * CUDABuffer_ Z :=
  let shared := st.1 in
  ((writes (fun t => writes_shared shared t.1 t.2)
           (fun t => shared_mem_index t.1 t.2)
           (fun t => new_depth shared t.1 t.2)
           shared.1 (threads block_size_x block_size_y),
    writes (fun t => writes_shared shared t.1 t.2 && (i <? kIterationsPerKernelCall - 1))
           (fun t => shared_mem_index t.1 t.2)
           (fun t => fmul (base_weight t.1 t.2)
                          (of_bool (fgt (new_depth shared t.1 t.2) zero)))
           shared.2 (threads block_size_x block_size_y)),
   if tests_convergence i
   then store st.2 0 blockIdx_x (if 0 <? active_pixels shared then 1 else 0)
   else st.2).

Definition sub_iterations (shared : list float * list float) (max_change : CUDABuffer_ Z)
  : (list float * list float) * CUDABuffer_ Z :=
  foldl sub_iteration (shared, max_change) (seqZ 0 kIterationsPerKernelCall).

(** The state of the block when its sub-iteration [i] starts. *)
Definition before_sub_iteration (i : Z) (shared : list float * list float)
           (max_change : CUDABuffer_ Z) : (list float * list float) * CUDABuffer_ Z :=
  foldl sub_iteration (shared, max_change) (seqZ 0 i).

(** The number of pixels of the tile whose relative change exceeds the
    threshold in the last sub-iteration. *)
Definition final_active_pixels (shared : list float * list float)
           (max_change : CUDABuffer_ Z) : Z :=
  active_pixels
    (before_sub_iteration (kIterationsPerKernelCall - 1) shared max_change).1.

Definition write_back (depth_shared : list float) (depth_map_output : CUDABuffer_ float)
  : CUDABuffer_ float :=
  stores (fun t => kOutput t.1 t.2)
         (fun t => y t.2) (fun t => x t.1)
         (fun t => zget zero depth_shared (shared_mem_index t.1 t.2))
         depth_map_output (threads block_size_x block_size_y).
End Kernel.

Definition block (block_size_x block_size_y : Z) (check_convergence : bool)
           (block_coordinates : CUDABuffer_ Z)
           (depth_map_input : cudaTextureObject_t float)
           (gradient_magnitude_div_sqrt2 : cudaTextureObject_t Z)
           (max_change_rate_threshold : float)
           (st : CUDABuffer_ Z * CUDABuffer_ float) (blockIdx_x : Z)
  : CUDABuffer_ Z * CUDABuffer_ float :=
  let '(max_change, depth_map_output) := st in
  let width := width_ depth_map_output in
  let height := height_ depth_map_output in
  let '(shared, max_change') :=
    sub_iterations block_size_x block_size_y check_convergence block_coordinates
      depth_map_input gradient_magnitude_div_sqrt2 max_change_rate_threshold
      width height blockIdx_x
      (load_shared block_size_x block_size_y block_coordinates
         gradient_magnitude_div_sqrt2 width height blockIdx_x depth_map_output)
      max_change in
  (max_change',
   write_back block_size_x block_size_y block_coordinates depth_map_input
     width height blockIdx_x shared.1 depth_map_output).

Definition launch (block_size_x block_size_y : Z) (check_convergence : bool)
           (grid_dim_active : Z)
           (block_coordinates : CUDABuffer_ Z)
           (depth_map_input : cudaTextureObject_t float)
           (gradient_magnitude_div_sqrt2 : cudaTextureObject_t Z)
           (max_change : CUDABuffer_ Z)
           (max_change_rate_threshold : float)
           (depth_map_output : CUDABuffer_ float)
  : CUDABuffer_ Z * CUDABuffer_ float :=
  foldl (block block_size_x block_size_y check_convergence block_coordinates
           depth_map_input gradient_magnitude_div_sqrt2 max_change_rate_threshold)
        (max_change, depth_map_output) (seqZ 0 grid_dim_active).
End Weighted.

(** ** InpaintDepthMapWithConvolutionCUDA *)

Module Host.

Definition kBlockOutputSizeX : Z := kBlockWidth - 2 * kIterationsPerKernelCall.
Definition kBlockOutputSizeY : Z := kBlockHeight - 2 * kIterationsPerKernelCall.

(** *** The compaction of the active blocks *)

Record compaction : Type := Compaction {
  block_coordinates_cpu : list Z;
  active_block_count : Z;
  pixel_to_inpaint_count : Z
}.

(** The body of the two nested loops, for the tile [(x, y)]. *)
Definition compact_step (grid_dim_x : Z) (block_activity : list Z)
           (c : compaction) (b : Z * Z) : compaction :=
  let '(x, y) := b in
  if 0 <? zget 0 block_activity (x + y * grid_dim_x)
  then Compaction
         (zset (zset (block_coordinates_cpu c)
                     (2 * active_block_count c + 0) (u16 (x * kBlockOutputSizeX)))
               (2 * active_block_count c + 1) (u16 (y * kBlockOutputSizeY)))
         (i32 (active_block_count c + 1))
         (u32 (pixel_to_inpaint_count c + zget 0 block_activity (x + y * grid_dim_x)))
  else c.

Definition compact (grid_dim_x grid_dim_y : Z) (block_activity : list Z) : compaction :=
  foldl (compact_step grid_dim_x block_activity)
        (Compaction (replicate (Z.to_nat (u32 (2 * grid_dim_x * grid_dim_y))) 0) 0 0)
        (Init.blocks grid_dim_x grid_dim_y).

(** The first [active_block_count] origin pairs of the compacted array. *)
Definition origins (coordinates : list Z) (count : Z) : list (Z * Z) :=
  (fun j => (zget 0 coordinates (2 * j + 0), zget 0 coordinates (2 * j + 1)))
    <$> seqZ 0 count.

(** [DownloadPartAsync(0, n * sizeof(T), ..)] and
    [UploadPartAsync(0, n * sizeof(T), ..)] on a buffer of height 1. *)
Definition DownloadPart {T : Type} (b : CUDABuffer_ T) (n : Z) : list T :=
  take (Z.to_nat n) (address_ b).

Definition UploadPart {T : Type} (b : CUDABuffer_ T) (n : Z) (data : list T)
  : CUDABuffer_ T :=
  Buffer (take (Z.to_nat n) data ++ drop (Z.to_nat n) (address_ b))
         (height_ b) (width_ b).

(** The tile origins read by the blocks of a launch over [n] blocks. *)
Definition tiles_read (block_coordinates : CUDABuffer_ Z) (n : Z) : list (Z * Z) :=
  (fun b => (Plain.origin_x block_coordinates b, Plain.origin_y block_coordinates b))
    <$> seqZ 0 n.

(** *** The iteration loop *)

(** A diffusion launch, as logged: the value of [i], the template argument
    [check_convergence], the grid size and the tile origins the blocks read. *)
Record launch_record : Type := Launch {
  launch_i : Z;
  launch_check_convergence : bool;
  launch_grid_dim_active : Z;
  launch_tiles : list (Z * Z)
}.

(** A convergence check, as logged: the value of [i], the size of the active
    list, its tile origins and the downloaded flags. *)
Record check_record : Type := Check {
  check_i : Z;
  check_active_block_count : Z;
  check_tiles : list (Z * Z);
  check_max_change_cpu : list Z
}.

Record loop_state : Type := LoopState {
  i : Z;
  last_convergence_check_iteration : Z;
  max_change : CUDABuffer_ Z;
  depth_map_output : CUDABuffer_ float;
  launches : list launch_record;
  checks : list check_record
}.

Section Loop.
Variable use_weighting : bool.
Variable max_num_iterations : Z.
Variable max_change_rate_threshold : float.
Variable gradient_magnitude_div_sqrt2 : cudaTextureObject_t Z.
Variable depth_map_input : cudaTextureObject_t float.
Variable block_coordinates : CUDABuffer_ Z.
Variable active_block_count : Z.

(** The kernel selected by [use_weighting] and [check_convergence], launched
    over [grid_dim_active] blocks. *)
Definition launch_blocks (grid_dim_active : Z) (check_convergence : bool)
           (max_change : CUDABuffer_ Z) (depth_map_output : CUDABuffer_ float)
  : CUDABuffer_ Z * CUDABuffer_ float :=
  if use_weighting
  then Weighted.launch 32 32 check_convergence grid_dim_active
         block_coordinates depth_map_input gradient_magnitude_div_sqrt2
         max_change max_change_rate_threshold depth_map_output
  else Plain.launch 32 32 check_convergence grid_dim_active
         block_coordinates depth_map_input
         max_change max_change_rate_threshold depth_map_output.

(** The launch of the loop: [dim3 grid_dim_active(active_block_count)]. *)
Definition launch_kernel (check_convergence : bool)
           (max_change : CUDABuffer_ Z) (depth_map_output : CUDABuffer_ float)
  : CUDABuffer_ Z * CUDABuffer_ float :=
  launch_blocks (u32 active_block_count) check_convergence
    max_change depth_map_output.

(** The number of pixels of the tile of block [b] whose relative change
    exceeds the threshold in the last sub-iteration of a launch that checks
    convergence, the block starting from the buffers [st]. *)
Definition block_final_active_pixels (st : CUDABuffer_ Z * CUDABuffer_ float)
           (b : Z) : Z :=
  if use_weighting
  then Weighted.final_active_pixels 32 32 true block_coordinates depth_map_input
         gradient_magnitude_div_sqrt2 max_change_rate_threshold
         (width_ st.2) (height_ st.2) b
         (Weighted.load_shared 32 32 block_coordinates
            gradient_magnitude_div_sqrt2 (width_ st.2) (height_ st.2) b st.2)
         st.1
  else Plain.final_active_pixels 32 32 true block_coordinates depth_map_input
         max_change_rate_threshold (width_ st.2) (height_ st.2) b
         (Plain.load_shared 32 32 block_coordinates
            (width_ st.2) (height_ st.2) b st.2)
         st.1.

(** In a launch that checks convergence, from the buffers given, no pixel of
    any tile has a relative change above the threshold in the last
    sub-iteration; block [b] starts from what the blocks before it left. *)
Definition no_pixel_exceeds_threshold
           (max_change : CUDABuffer_ Z) (depth_map_output : CUDABuffer_ float) : Prop :=
  forall b, 0 <= b < u32 active_block_count ->
    block_final_active_pixels (launch_blocks b true max_change depth_map_output) b = 0.

(** [new_active_block_count] after the loop over the downloaded flags. *)
Definition count_set (max_change_cpu : list Z) (n : Z) : Z :=
  foldl (fun c j => if zget 0 max_change_cpu j =? 0 then c else c + 1)
        0 (seqZ 0 n).

(** The flags that a pass with [check_convergence] downloads into
    [max_change_cpu]. *)
Definition downloaded_flags (st : loop_state) : list Z :=
  DownloadPart (launch_kernel true (max_change st) (depth_map_output st)).1
               active_block_count.

(** One pass through the body of the [for] loop, [i += ..] included: [inl]
    when the loop goes on to its next test, [inr] when it leaves by [break]. *)
Definition body (st : loop_state) : loop_state + loop_state :=
  let check_convergence :=
    25 <=? i32 (i st - last_convergence_check_iteration st) in
  let dev := launch_kernel check_convergence (max_change st) (depth_map_output st) in
  let log :=
    launches st ++
    [Launch (i st) check_convergence (u32 active_block_count)
            (tiles_read block_coordinates (u32 active_block_count))] in
  if check_convergence then
    let max_change_cpu := DownloadPart dev.1 active_block_count in
    let new_active_block_count := count_set max_change_cpu active_block_count in
    let log' :=
      checks st ++
      [Check (i st) active_block_count
             (tiles_read block_coordinates active_block_count) max_change_cpu] in
    if new_active_block_count =? 0
    then inr (LoopState (i32 (i st + kIterationsPerKernelCall))
                (last_convergence_check_iteration st) dev.1 dev.2 log log')
    else inl (LoopState (i32 (i st + kIterationsPerKernelCall)) (i st)
                dev.1 dev.2 log log')
  else inl (LoopState (i32 (i st + kIterationsPerKernelCall))
              (last_convergence_check_iteration st) dev.1 dev.2 log (checks st)).

(** The [for] loop; [None] when the fuel runs out before the loop ends. *)
Fixpoint iterate (fuel : nat) (st : loop_state) : option loop_state :=
  if i st <? max_num_iterations then
    match fuel with
    | O => None
    | S fuel' =>
        match body st with
        | inl st' => iterate fuel' st'
        | inr st' => Some st'
        end
    end
  else Some st.
End Loop.

(** *** The host function *)

Record result : Type := Result {
  iterations : Z;
  pixel_to_inpaint_count_out : Z;
  depth_map_output_out : CUDABuffer_ float;
  block_coordinates_out : CUDABuffer_ Z;
  max_change_out : CUDABuffer_ Z;
  launches_out : list launch_record;
  checks_out : list check_record
}.

Section Inpaint.
(** [cuda_util::GetBlockCount] is declared in [cuda_util.h]; it is a
    parameter of the model. *)
Variable GetBlockCount : Z -> Z -> Z.

Variable use_weighting : bool.
Variable max_num_iterations : Z.
Variable max_change_rate_threshold : float.
Variable depth_input_scaling_factor : float.
Variable gradient_magnitude_div_sqrt2 : cudaTextureObject_t Z.
Variable depth_map_input : cudaTextureObject_t float.
Variable max_change : CUDABuffer_ Z.
Variable depth_map_output : CUDABuffer_ float.
Variable block_coordinates : CUDABuffer_ Z.

Definition grid_dim_x : Z := u32 (GetBlockCount (width_ depth_map_output) kBlockOutputSizeX).
Definition grid_dim_y : Z := u32 (GetBlockCount (height_ depth_map_output) kBlockOutputSizeY).

(** The device buffers after the initialisation kernel. *)
Definition initialized : CUDABuffer_ float * CUDABuffer_ Z :=
  Init.launch 32 32 grid_dim_x depth_input_scaling_factor depth_map_input
    grid_dim_x grid_dim_y depth_map_output block_coordinates.

Definition block_activity : list Z :=
  DownloadPart initialized.2 (u32 (grid_dim_x * grid_dim_y)).

Definition compacted : compaction := compact grid_dim_x grid_dim_y block_activity.

Definition uploaded : CUDABuffer_ Z :=
  UploadPart initialized.2 (2 * active_block_count compacted)
             (block_coordinates_cpu compacted).

(** The loop variables before the first test of the [for] loop. *)
Definition initial_state : loop_state :=
  LoopState 0 (-9999) max_change initialized.1 [] [].

Definition InpaintDepthMapWithConvolutionCUDA (fuel : nat) : option result :=
  if active_block_count compacted =? 0
  then Some (Result 0 (pixel_to_inpaint_count compacted)
               initialized.1 initialized.2 max_change [] [])
  else
    st ← iterate use_weighting max_num_iterations max_change_rate_threshold
           gradient_magnitude_div_sqrt2 depth_map_input uploaded
           (active_block_count compacted) fuel initial_state;
    Some (Result (i st) (pixel_to_inpaint_count compacted)
            (Host.depth_map_output st) uploaded (Host.max_change st)
            (launches st) (checks st)).
End Inpaint.
End Host.

(** ** CUDABuffer<T>::GetCachedTextureObject *)

Module TextureCache.

Inductive cudaTextureAddressMode : Type :=
| cudaAddressModeWrap
| cudaAddressModeClamp
| cudaAddressModeMirror
| cudaAddressModeBorder.

Inductive cudaTextureFilterMode : Type :=
| cudaFilterModePoint
| cudaFilterModeLinear.

Inductive cudaTextureReadMode : Type :=
| cudaReadModeElementType
| cudaReadModeNormalizedFloat.

#[global] Instance address_mode_eq_dec : EqDecision cudaTextureAddressMode.
Proof. solve_decision. Defined.
#[global] Instance filter_mode_eq_dec : EqDecision cudaTextureFilterMode.
Proof. solve_decision. Defined.
#[global] Instance read_mode_eq_dec : EqDecision cudaTextureReadMode.
Proof. solve_decision. Defined.

(** The fields of [cudaTextureDesc] that [CreateTextureObject] sets. *)
Record cudaTextureDesc : Type := TextureDesc {
  addressMode0 : cudaTextureAddressMode;
  addressMode1 : cudaTextureAddressMode;
  filterMode : cudaTextureFilterMode;
  readMode : cudaTextureReadMode;
  normalizedCoords : Z
}.

(** The CUDA runtime, as far as texture objects go: the live objects with
    their descriptors, the next fresh handle, and the calls made so far. *)
Inductive runtime_call : Type :=
| Created (handle : N) (desc : cudaTextureDesc)
| Destroyed (handle : N).

Record runtime : Type := Runtime {
  live : gmap N cudaTextureDesc;
  next_handle : N;
  calls : list runtime_call
}.

Definition cudaCreateTextureObject (desc : cudaTextureDesc) (rt : runtime) : N * runtime :=
  (next_handle rt,
   Runtime (<[next_handle rt := desc]> (live rt)) (N.succ (next_handle rt))
           (calls rt ++ [Created (next_handle rt) desc])).

Definition cudaDestroyTextureObject (handle : N) (rt : runtime) : runtime :=
  Runtime (delete handle (live rt)) (next_handle rt) (calls rt ++ [Destroyed handle]).

(** The members of [CUDABuffer<T>] that the cache uses. *)
Record CUDABuffer : Type := CachedBuffer {
  texture_object_allocated_ : bool;
  texture_object_ : N;
  address_mode_x_ : cudaTextureAddressMode;
  address_mode_y_ : cudaTextureAddressMode;
  filter_mode_ : cudaTextureFilterMode;
  read_mode_ : cudaTextureReadMode;
  use_normalized_coordinates_ : bool
}.

Definition CreateTextureObject
           (address_mode_x address_mode_y : cudaTextureAddressMode)
           (filter_mode : cudaTextureFilterMode) (read_mode : cudaTextureReadMode)
           (use_normalized_coordinates : bool) (rt : runtime) : N * runtime :=
  cudaCreateTextureObject
    (TextureDesc address_mode_x address_mode_y filter_mode read_mode
                 (if use_normalized_coordinates then 1 else 0))
    rt.

(** [CreateTextureObject(.., &texture_object_)] and the assignments after it:
    the new object, the buffer and the runtime. *)
Definition rebuild
           (address_mode_x address_mode_y : cudaTextureAddressMode)
           (filter_mode : cudaTextureFilterMode) (read_mode : cudaTextureReadMode)
           (use_normalized_coordinates : bool) (rt : runtime) : N * CUDABuffer * runtime :=
  let '(texture_object, rt') :=
    CreateTextureObject address_mode_x address_mode_y filter_mode read_mode
      use_normalized_coordinates rt in
  (texture_object,
   CachedBuffer true texture_object address_mode_x address_mode_y filter_mode
                read_mode use_normalized_coordinates,
   rt').

(** The texture object written through the out-pointer, the buffer and the
    runtime after the call. *)
Definition GetCachedTextureObject
           (address_mode_x address_mode_y : cudaTextureAddressMode)
           (filter_mode : cudaTextureFilterMode) (read_mode : cudaTextureReadMode)
           (use_normalized_coordinates : bool)
           (this : CUDABuffer) (rt : runtime) : N * CUDABuffer * runtime :=
  if texture_object_allocated_ this then
    if bool_decide (address_mode_x_ this = address_mode_x) &&
       bool_decide (address_mode_y_ this = address_mode_y) &&
       bool_decide (filter_mode_ this = filter_mode) &&
       bool_decide (read_mode_ this = read_mode) &&
       bool_decide (use_normalized_coordinates_ this = use_normalized_coordinates)
    then (texture_object_ this, this, rt)
    else rebuild address_mode_x address_mode_y filter_mode read_mode
           use_normalized_coordinates
           (cudaDestroyTextureObject (texture_object_ this) rt)
  else rebuild address_mode_x address_mode_y filter_mode read_mode
         use_normalized_coordinates rt.

(** The configuration the cache holds. *)
Definition cached_configuration (this : CUDABuffer)
  : option (cudaTextureAddressMode * cudaTextureAddressMode * cudaTextureFilterMode *
            cudaTextureReadMode * bool) :=
  if texture_object_allocated_ this
  then Some (address_mode_x_ this, address_mode_y_ this, filter_mode_ this,
             read_mode_ this, use_normalized_coordinates_ this)
  else None.

End TextureCache.

(** ** Inputs for the examples *)

Module Examples.

(** A texture over the rows of an image, with clamped addressing. *)
Definition image_texture {T : Type} (d : T) (rows : list (list T)) : cudaTextureObject_t T :=
  fun x y =>
    let row := default [] (rows !! Z.to_nat (Z.max 0 (Z.min (Z.of_nat (length rows) - 1) y))) in
    default d (row !! Z.to_nat (Z.max 0 (Z.min (Z.of_nat (length row) - 1) x))).

(** An instance of the parameter [GetBlockCount]: the number of blocks of
    [block_size] pixels that cover [pixel_count] pixels. *)
Definition GetBlockCount (pixel_count block_size : Z) : Z :=
  (pixel_count + block_size - 1) / block_size.

Definition no_gradient : cudaTextureObject_t Z := fun _ _ => 0.

(** A buffer of the given size, filled with [v]. *)
Definition filled {T : Type} (v : T) (height width : Z) : CUDABuffer_ T :=
  Buffer (replicate (Z.to_nat (height * width)) v) height width.

(** A row of four holes next to one measurement. *)
Definition four_holes : list (list float) :=
  [[FNum 0; FNum 0; FNum 0; FNum 0; FNum 10]].

(** A row of 48 pixels, two tiles: 32 holes, then 16 measurements. *)
Definition two_tiles : list (list float) :=
  [replicate 32 (FNum 0) ++ replicate 16 (FNum 10)].

(** One pixel, a hole. *)
Definition one_hole : list (list float) := [[FNum 0]].

(** Two measurements. *)
Definition no_hole : list (list float) := [[FNum 1; FNum 2]].

(** A hole and a measurement. *)
Definition hole_and_measurement : list (list float) := [[FNum 0; FNum 10]].

(** A hole next to an infinite depth, which is not negative. *)
Definition infinite_neighbour : list (list float) := [[FInf false; FNum 0]].

(** The function on an image of one row, with [GetBlockCount] above, no
    gradient, scratch buffers of the size of the grid, and fuel 100. *)
Abbreviation inpaint_row use_weighting max_num_iterations rows width :=
  (Host.InpaintDepthMapWithConvolutionCUDA GetBlockCount use_weighting
     max_num_iterations (FNum (1 # 100)) one no_gradient
     (image_texture zero rows)
     (filled 0 1 (GetBlockCount width 24))
     (filled zero 1 width)
     (filled 0 1 (2 * GetBlockCount width 24)) 100%nat).

End Examples.

(** ** The statements of the specification that the code is compared with *)

Module Stated.
Import Host.

(** [m] rounded up to the next multiple of [k]. *)
Definition round_up (m k : Z) : Z := k * ((m + k - 1) / k).

(** The shrinking of the active list as the specification words it: a tile
    whose flag is not set at a convergence check is in no later launch. *)
Definition drops_unflagged_tiles (r : result) : Prop :=
  forall c l j tile,
    c ∈ checks_out r -> l ∈ launches_out r -> check_i c < launch_i l ->
    check_tiles c !! j = Some tile ->
    zget 0 (check_max_change_cpu c) (Z.of_nat j) = 0 ->
    tile ∉ launch_tiles l.

(** The tiles with a positive count, in the order of the two loops. *)
Definition active_tiles (grid_dim_x grid_dim_y : Z) (block_activity : list Z)
  : list (Z * Z) :=
  filter (fun b => 0 < zget 0 block_activity (b.1 + b.2 * grid_dim_x))
         (Init.blocks grid_dim_x grid_dim_y).

Definition sum_counts (grid_dim_x : Z) (block_activity : list Z) (tiles : list (Z * Z)) : Z :=
  foldr (fun b s => zget 0 block_activity (b.1 + b.2 * grid_dim_x) + s) 0 tiles.

(** The compaction as the specification words it: the origins
    [(tile_x * width, tile_y * height)] of the tiles with a positive count,
    and the sum of these counts. *)
Definition compaction_as_stated (grid_dim_x grid_dim_y : Z) (block_activity : list Z)
  : Prop :=
  let c := compact grid_dim_x grid_dim_y block_activity in
  origins (block_coordinates_cpu c) (active_block_count c) =
    (fun b => (b.1 * kBlockOutputSizeX, b.2 * kBlockOutputSizeY))
      <$> active_tiles grid_dim_x grid_dim_y block_activity /\
  pixel_to_inpaint_count c =
    sum_counts grid_dim_x block_activity
      (active_tiles grid_dim_x grid_dim_y block_activity).

(** The hole test as the specification words it: on the scaled input, [== 0]
    without weighting and [<= 0] with weighting. *)
Definition hole_as_stated (use_weighting : bool) (scaled_input : float) : bool :=
  if use_weighting then fle scaled_input zero else feq scaled_input zero.

End Stated.

(** ** Invariants of the iteration loop *)

Module Invariants.
Import Host.

(** The launch and check logs follow the schedule: launches at [i = 4 k],
    checking exactly when [i] is a multiple of 28; checks at [i = 28 k]. *)
Definition schedule_logs (first_flags : list Z) (s : loop_state) : Prop :=
  (forall k l, launches s !! k = Some l ->
     launch_i l = 4 * Z.of_nat k /\
     launch_check_convergence l = (launch_i l mod 28 =? 0)) /\
  (forall k c, checks s !! k = Some c -> check_i c = 28 * Z.of_nat k) /\
  (forall c, checks s !! 0%nat = Some c -> check_max_change_cpu c = first_flags).

(** The loop variables at the test of the [for] loop: either nothing has run
    yet, or the last check was at the latest multiple of 28 below [i] and
    the first check found a flag set. *)
Definition schedule_invariant (init : loop_state) (first_flags : list Z) (n : Z)
           (s : loop_state) : Prop :=
  schedule_logs first_flags s /\
  i s = 4 * Z.of_nat (length (launches s)) /\
  (s = init \/
   ((1 <= length (launches s))%nat /\ (1 <= length (checks s))%nat /\
    last_convergence_check_iteration s = 28 * (Z.of_nat (length (checks s)) - 1) /\
    4 <= i s - last_convergence_check_iteration s <= 28 /\
    count_set first_flags n <> 0)).

(** A finite positive value; a finite value that is not negative. *)
Definition positive (v : float) : Prop :=
  exists q, v = FNum q /\ (0 < q)%Q.

Definition nonneg (v : float) : Prop :=
  exists q, v = FNum q /\ (0 <= q)%Q.

End Invariants.

(** ** Counting the pixels of a rectangle *)

Module Counting.

Definition sumZ {A : Type} (f : A -> Z) (l : list A) : Z :=
  foldl (fun n t => n + f t) 0 l.

(** The pixels of the rectangle of [nx] columns from [x0] and [ny] rows from
    [y0], row by row. *)
Definition pixels (x0 nx y0 ny : Z) : list (Z * Z) :=
  py ← seqZ y0 ny; px ← seqZ x0 nx; [(px, py)].

(** The number of pixels of the rectangle whose value equals zero. *)
Definition zero_pixels (value : Z -> Z -> float) (x0 nx y0 ny : Z) : Z :=
  block_sum (fun p => feq (value p.1 p.2) zero) (pixels x0 nx y0 ny).

(** The part of a tile of 24 columns (or rows) from [origin] that lies in an
    image of [size] columns (or rows). *)
Definition tile_extent (size origin : Z) : Z :=
  Z.max 0 (Z.min 24 (size - origin)).

(** The number of pixels of the output tile [(bx, by_)] whose value equals
    zero. *)
Definition tile_zero_pixels (value : Z -> Z -> float) (width height bx by_ : Z) : Z :=
  zero_pixels value (bx * 24) (tile_extent width (bx * 24))
                    (by_ * 24) (tile_extent height (by_ * 24)).

End Counting.

(** ** Invariants for the range of the depths *)

Module Range.

(** A finite value that, when positive, lies between [lo] and [hi]. *)
Definition within (lo hi : Q) (v : float) : Prop :=
  exists q, v = FNum q /\ ((0 < q)%Q -> (lo <= q <= hi)%Q).

(** The sums of a thread: the weight is not negative and the weighted sum
    lies between [lo] and [hi] times the weight. *)
Definition ranged_sums (lo hi : Q) (acc : float * float) : Prop :=
  exists qr qw, acc = (FNum qr, FNum qw) /\
    (0 <= qw)%Q /\ (lo * qw <= qr <= hi * qw)%Q.

(** Every cell of [depth_shared] is within the range. *)
Definition ranged_cells (lo hi : Q) (depth_shared : list float) : Prop :=
  forall j, within lo hi (zget zero depth_shared j).

(** The shared memory of the weighted kernel: both arrays have [size] cells,
    a weight is finite and not negative, and a cell with a positive weight
    holds a positive depth. *)
Definition ranged_pairs (lo hi : Q) (size : Z) (shared : list float * list float)
  : Prop :=
  Z.of_nat (length shared.1) = size /\ Z.of_nat (length shared.2) = size /\
  forall j, exists qd qs,
    zget zero shared.1 j = FNum qd /\ zget zero shared.2 j = FNum qs /\
    (0 <= qs)%Q /\ ((0 < qd)%Q -> (lo <= qd <= hi)%Q) /\
    ((0 < qs)%Q -> (0 < qd)%Q).

(** The working buffer has the size of the image and every pixel of the
    image is within the range. *)
Definition ranged (lo hi : Q) (width height : Z) (out : CUDABuffer_ float) : Prop :=
  width_ out = width /\ height_ out = height /\
  forall px py, 0 <= px < width -> 0 <= py < height ->
    within lo hi (load zero out py px).

End Range.

(** ** CUDABuffer<T>: construction, destruction and the texture objects *)

Module Lifetime.
Import TextureCache.

Definition size_t (z : Z) : Z := z mod 2 ^ 64.

(** The device allocator: the live allocations and the next fresh address.
    An allocation that fails ends the program in [CUDA_CHECKED_CALL]; the
    model covers the runs in which it succeeds. *)
Record allocator : Type := Allocator {
  allocated : gset N;
  next_address : N
}.

(** [CUDABuffer_<T>], by address. *)
Record CUDABuffer_ : Type := Data {
  address_ : N;
  height_ : Z;
  width_ : Z;
  pitch_ : Z
}.

(** [CUDABuffer<T>]: [data_] and the members of the texture cache. *)
Record CUDABuffer : Type := Object {
  data_ : CUDABuffer_;
  cache_ : TextureCache.CUDABuffer
}.

(** The handles created and destroyed by a list of runtime calls. *)
Definition created_handles (l : list runtime_call) : list N :=
  omap (fun c => match c with Created h _ => Some h | Destroyed _ => None end) l.

Definition destroyed_handles (l : list runtime_call) : list N :=
  omap (fun c => match c with Created _ _ => None | Destroyed h => Some h end) l.

(** Every live texture object has a handle below the next fresh one, and
    every live allocation an address below the next fresh one. *)
Definition fresh_handles (rt : runtime) : Prop :=
  forall h, is_Some (live rt !! h) -> (h < next_handle rt)%N.

Definition fresh_addresses (mem : allocator) : Prop :=
  forall a, a ∈ allocated mem -> (a < next_address mem)%N.

(** The descriptor of the configuration that the cache holds. *)
Definition cached_descriptor (this : TextureCache.CUDABuffer) : cudaTextureDesc :=
  TextureDesc (address_mode_x_ this) (address_mode_y_ this) (filter_mode_ this)
              (read_mode_ this) (if use_normalized_coordinates_ this then 1 else 0).

(** The runtime while a buffer lives, against the runtime [rt0] in which
    the buffer was constructed: the calls made since then create fresh
    handles, each once, and destroy them again, but for the cached object,
    which is the one texture object that has been added. *)
Definition owned (rt0 : runtime) (this : TextureCache.CUDABuffer) (rt : runtime) : Prop :=
  (next_handle rt0 <= next_handle rt)%N /\
  exists new,
    calls rt = calls rt0 ++ new /\
    NoDup (created_handles new) /\
    (forall h, h ∈ created_handles new -> (next_handle rt0 <= h < next_handle rt)%N) /\
    (if texture_object_allocated_ this
     then (created_handles new ≡ₚ texture_object_ this :: destroyed_handles new) /\
          live rt = <[texture_object_ this := cached_descriptor this]> (live rt0)
     else (created_handles new ≡ₚ destroyed_handles new) /\
          live rt = live rt0).

Section Buffer.
(** The pitch that [cudaMallocPitch] chooses for a row of that many bytes. *)
Variable pitch_of : Z -> Z.
Variable sizeof_T : Z.
(** The contents of the device memory, and [CUDABuffer_<T>::SetTo(texture,
    stream)] of cuda_buffer.h on them. *)
Variable device : Type.
Variable data_SetTo : N -> CUDABuffer_ -> device -> device.

Definition cudaMallocPitch (width_in_bytes height : Z) (mem : allocator)
  : N * Z * allocator :=
  (next_address mem, pitch_of width_in_bytes,
   Allocator ({[next_address mem]} ∪ allocated mem) (N.succ (next_address mem))).

Definition cudaFree (address : N) (mem : allocator) : allocator :=
  Allocator (allocated mem ∖ {[address]}) (next_address mem).

(** [CUDABuffer(height, width)]: the object, whether the warning about the
    pitch is logged, and the allocator.  [uninitialized] stands for the
    members that the constructor does not initialise. *)
Definition constructor (uninitialized : TextureCache.CUDABuffer) (height width : Z)
           (mem : allocator) : CUDABuffer * bool * allocator :=
  let '(address, pitch, mem') :=
    cudaMallocPitch (size_t (width * sizeof_T)) height mem in
  (Object (Data address height width pitch)
          (CachedBuffer false
             (texture_object_ uninitialized)
             (address_mode_x_ uninitialized) (address_mode_y_ uninitialized)
             (filter_mode_ uninitialized) (read_mode_ uninitialized)
             (use_normalized_coordinates_ uninitialized)),
   negb (pitch =? size_t (width * sizeof_T)),
   mem').

(** [~CUDABuffer()]. *)
Definition destructor (this : CUDABuffer) (rt : runtime) (mem : allocator)
  : runtime * allocator :=
  ((if texture_object_allocated_ (cache_ this)
    then cudaDestroyTextureObject (texture_object_ (cache_ this)) rt
    else rt),
   cudaFree (address_ (data_ this)) mem).

(** [GetCachedTextureObject] on the whole object. *)
Definition GetCachedTextureObject
           (address_mode_x address_mode_y : cudaTextureAddressMode)
           (filter_mode : cudaTextureFilterMode) (read_mode : cudaTextureReadMode)
           (use_normalized_coordinates : bool)
           (this : CUDABuffer) (rt : runtime) : N * CUDABuffer * runtime :=
  let '(texture_object, cache', rt') :=
    TextureCache.GetCachedTextureObject address_mode_x address_mode_y filter_mode
      read_mode use_normalized_coordinates (cache_ this) rt in
  (texture_object, Object (data_ this) cache', rt').

(** [SetTo(other, stream)]: a texture object of [other] is created, handed
    to [data_.SetTo] and destroyed. *)
Definition SetTo (this other : CUDABuffer) (rt : runtime) (dev : device)
  : runtime * device :=
  let '(texture, rt1) :=
    CreateTextureObject cudaAddressModeClamp cudaAddressModeClamp
      cudaFilterModePoint cudaReadModeElementType false rt in
  let dev' := data_SetTo texture (data_ this) dev in
  (cudaDestroyTextureObject texture rt1, dev').

(** What a client does with a buffer between its construction and its
    destruction: it requests the cached texture object, copies the buffer
    into another one ([destination.SetTo(buffer)]) or copies another one
    into it ([buffer.SetTo(source)]). *)
Inductive operation : Type :=
| Request (address_mode_x address_mode_y : cudaTextureAddressMode)
          (filter_mode : cudaTextureFilterMode) (read_mode : cudaTextureReadMode)
          (use_normalized_coordinates : bool)
| CopyTo (destination : CUDABuffer)
| CopyFrom (source : CUDABuffer).

Definition perform (st : CUDABuffer * runtime * device) (op : operation)
  : CUDABuffer * runtime * device :=
  let '(this, rt, dev) := st in
  match op with
  | Request ax ay f r n =>
      let '(_, this', rt') := GetCachedTextureObject ax ay f r n this rt in
      (this', rt', dev)
  | CopyTo destination =>
      let '(rt', dev') := SetTo destination this rt dev in (this, rt', dev')
  | CopyFrom source =>
      let '(rt', dev') := SetTo this source rt dev in (this, rt', dev')
  end.

(** A buffer is constructed, used and destroyed. *)
Definition lifetime (uninitialized : TextureCache.CUDABuffer) (height width : Z)
           (ops : list operation) (rt : runtime) (mem : allocator) (dev : device)
  : runtime * allocator * device :=
  let '(this, _, mem1) := constructor uninitialized height width mem in
  let '(this', rt', dev') := foldl perform (this, rt, dev) ops in
  let '(rt'', mem2) := destructor this' rt' mem1 in
  (rt'', mem2, dev').

End Buffer.
End Lifetime.

(** ** CUDABuffer<T>: uploads and downloads *)

Module Transfer.
Import Counting Lifetime.

Section Bytes.
(** The bytes, and the byte that a read outside an array gives. *)
Context {B : Type}.
Variable zero_byte : B.
Variable sizeof_T : Z.

(** [cudaMemcpy2D(dst, dpitch, src, spitch, width, height, kind)], and
    [cudaMemcpy2DAsync] once the stream has executed it, between two byte
    arrays: [height] rows of [width] bytes, the rows [dpitch] bytes apart
    from the offset [dst] of the one array and [spitch] bytes apart from
    the offset [src] of the other. *)
Definition cudaMemcpy2D (dst_mem : list B) (dst dpitch : Z)
           (src_mem : list B) (src spitch : Z) (width height : Z) : list B :=
  writes (fun _ => true)
         (fun p => dst + p.2 * dpitch + p.1)
         (fun p => zget zero_byte src_mem (src + p.2 * spitch + p.1))
         dst_mem (pixels 0 width 0 height).

(** [data_.width_ * sizeof(T)]. *)
Definition row_bytes (this : CUDABuffer_) : Z := size_t (width_ this * sizeof_T).

(** The uploads: the device memory after the call, or [None] when a check
    fails.  A host pointer is [None] when null and else the array that it
    points to. *)
Definition DebugUpload (this : CUDABuffer_) (data : option (list B)) (dev : list B)
  : option (list B) :=
  data ← data;
  Some (cudaMemcpy2D dev (Z.of_N (address_ this)) (pitch_ this)
          data 0 (row_bytes this) (row_bytes this) (size_t (height_ this))).

Definition DebugUploadPitched (this : CUDABuffer_) (pitch : Z)
           (data : option (list B)) (dev : list B) : option (list B) :=
  data ← data;
  Some (cudaMemcpy2D dev (Z.of_N (address_ this)) (pitch_ this)
          data 0 pitch (row_bytes this) (size_t (height_ this))).

Definition UploadAsync (this : CUDABuffer_) (data : option (list B)) (dev : list B)
  : option (list B) :=
  data ← data;
  Some (cudaMemcpy2D dev (Z.of_N (address_ this)) (pitch_ this)
          data 0 (row_bytes this) (row_bytes this) (size_t (height_ this))).

Definition UploadPitchedAsync (this : CUDABuffer_) (pitch : Z)
           (data : option (list B)) (dev : list B) : option (list B) :=
  data ← data;
  Some (cudaMemcpy2D dev (Z.of_N (address_ this)) (pitch_ this)
          data 0 pitch (row_bytes this) (size_t (height_ this))).

Definition UploadPartAsync (this : CUDABuffer_) (start length : Z)
           (data : option (list B)) (dev : list B) : option (list B) :=
  if negb (height_ this =? 1) then None else
  data ← data;
  Some (cudaMemcpy2D dev (Z.of_N (address_ this) + start) (pitch_ this)
          data 0 (row_bytes this) length (size_t (height_ this))).

(** The downloads: the host array after the call, or [None] when a check
    fails. *)
Definition DebugDownload (this : CUDABuffer_) (data : option (list B)) (dev : list B)
  : option (list B) :=
  data ← data;
  Some (cudaMemcpy2D data 0 (row_bytes this)
          dev (Z.of_N (address_ this)) (pitch_ this)
          (row_bytes this) (size_t (height_ this))).

Definition DebugDownloadPitched (this : CUDABuffer_) (pitch : Z)
           (data : option (list B)) (dev : list B) : option (list B) :=
  data ← data;
  Some (cudaMemcpy2D data 0 pitch
          dev (Z.of_N (address_ this)) (pitch_ this)
          (row_bytes this) (size_t (height_ this))).

Definition DownloadPitchedAsync (this : CUDABuffer_) (pitch : Z)
           (data : option (list B)) (dev : list B) : option (list B) :=
  data ← data;
  Some (cudaMemcpy2D data 0 pitch
          dev (Z.of_N (address_ this)) (pitch_ this)
          (row_bytes this) (size_t (height_ this))).

Definition DownloadAsync (this : CUDABuffer_) (data : option (list B)) (dev : list B)
  : option (list B) :=
  data ← data;
  Some (cudaMemcpy2D data 0 (row_bytes this)
          dev (Z.of_N (address_ this)) (pitch_ this)
          (row_bytes this) (size_t (height_ this))).

Definition DownloadPartAsync (this : CUDABuffer_) (start length : Z)
           (data : option (list B)) (dev : list B) : option (list B) :=
  if negb (height_ this =? 1) then None else
  data ← data;
  Some (cudaMemcpy2D data 0 (row_bytes this)
          dev (Z.of_N (address_ this) + start) (pitch_ this)
          length (size_t (height_ this))).

(** [DownloadRectAsync] into the pixel array [image_data] of an image whose
    rows are [image_step] bytes apart; the image pointer is [None] when
    null. *)
Definition DownloadRectAsync (this : CUDABuffer_)
           (src_y src_x height width dest_y dest_x : Z)
           (image : option (Z * list B)) (dev : list B) : option (list B) :=
  '(image_step, image_data) ← image;
  Some (cudaMemcpy2D image_data
          (size_t (dest_y * image_step) + size_t (dest_x * sizeof_T)) image_step
          dev
          (Z.of_N (address_ this) + size_t (src_y * pitch_ this) + src_x * sizeof_T)
          (pitch_ this)
          (size_t (width * sizeof_T)) (size_t height)).

(** The buffer lies in the device memory, with rows that fit its pitch, as
    [cudaMallocPitch] allocates it. *)
Definition allocated_in (this : CUDABuffer_) (dev : list B) : Prop :=
  0 <= height_ this < 2 ^ 31 /\ 0 <= width_ this < 2 ^ 31 /\
  0 < sizeof_T < 2 ^ 31 /\
  width_ this * sizeof_T <= pitch_ this < 2 ^ 32 /\
  Z.of_N (address_ this) + height_ this * pitch_ this <= Z.of_nat (length dev).

End Bytes.
End Transfer.

(** ** What a hole holds *)

Module Overwrite.

(** A candidate that a thread of the plain kernel writes into its cell: the
    quotient of the sums over some shared memory whose accumulated weight
    tests positive. *)
Definition plain_candidate (block_coordinates : CUDABuffer_ Z)
           (depth_map_input : cudaTextureObject_t float) (width height : Z)
           (v : float) : Prop :=
  exists blockIdx_x depth_shared tx ty,
    fgt (Plain.weight 32 32 block_coordinates depth_map_input width height
           blockIdx_x depth_shared tx ty) zero = true /\
    v = Plain.new_depth 32 32 block_coordinates depth_map_input width height
          blockIdx_x depth_shared tx ty.

(** A candidate that a thread of the weighted kernel writes into its cell:
    it tests positive. *)
Definition weighted_candidate (block_coordinates : CUDABuffer_ Z)
           (depth_map_input : cudaTextureObject_t float) (width height : Z)
           (v : float) : Prop :=
  fgt v zero = true /\
  exists blockIdx_x shared tx ty,
    v = Weighted.new_depth 32 32 block_coordinates depth_map_input width height
          blockIdx_x shared tx ty.

(** The buffer has the size of the image, and every pixel that the diffusion
    kernels take as a hole holds its scaled input or a value that satisfies
    [written]. *)
Definition held_or_written (scaled : Z -> Z -> float)
           (depth_map_input : cudaTextureObject_t float)
           (written : float -> Prop) (width height : Z)
           (out : CUDABuffer_ float) : Prop :=
  width_ out = width /\ height_ out = height /\
  forall px py, 0 <= px < width -> 0 <= py < height ->
    fle (tex2D depth_map_input px py) zero = true ->
    load zero out py px = scaled px py \/ written (load zero out py px).

(** The conclusion of the specification on a former hole: its scaled input
    unchanged, or a positive value. *)
Definition zero_or_positive_as_stated (scaled_input v : float) : Prop :=
  v = scaled_input \/ fgt v zero = true.

End Overwrite.

(** * Properties *)

(** ** The cached texture object *)

Module TextureCacheProps.
Import TextureCache.

Lemma configuration_matches this ax ay f r n :
  cached_configuration this = Some (ax, ay, f, r, n) ->
  bool_decide (address_mode_x_ this = ax) &&
  bool_decide (address_mode_y_ this = ay) &&
  bool_decide (filter_mode_ this = f) &&
  bool_decide (read_mode_ this = r) &&
  bool_decide (use_normalized_coordinates_ this = n) = true.
Proof.
  unfold cached_configuration. destruct (texture_object_allocated_ this); [|done].
  intros [= <- <- <- <- <-]. by rewrite !bool_decide_eq_true_2.
Qed.

Lemma configuration_differs this c ax ay f r n :
  cached_configuration this = Some c -> c ≠ (ax, ay, f, r, n) ->
  bool_decide (address_mode_x_ this = ax) &&
  bool_decide (address_mode_y_ this = ay) &&
  bool_decide (filter_mode_ this = f) &&
  bool_decide (read_mode_ this = r) &&
  bool_decide (use_normalized_coordinates_ this = n) = false.
Proof.
  unfold cached_configuration. destruct (texture_object_allocated_ this); [|done].
  intros [= <-] Hne. apply not_true_is_false. intros H.
  rewrite !andb_true_iff, !bool_decide_eq_true in H.
  destruct H as [[[[H1 H2] H3] H4] H5]. apply Hne. congruence.
Qed.

Lemma configuration_allocated this c :
  cached_configuration this = Some c -> texture_object_allocated_ this = true.
Proof. unfold cached_configuration. by destruct (texture_object_allocated_ this). Qed.

(** C9.  A request that equals the cached configuration returns the cached
    object and leaves the buffer and the runtime as they are (no call is
    made), so an identical request that follows returns the same object; a
    request that differs in a parameter destroys the cached object, creates
    one with the requested descriptor and caches it; after every request
    the cache holds the requested configuration and the returned object. *)
Theorem GetCachedTextureObject_cache ax ay f r n this rt :
  let '(obj, this', rt') := GetCachedTextureObject ax ay f r n this rt in
  (cached_configuration this = Some (ax, ay, f, r, n) ->
     obj = texture_object_ this ∧ this' = this ∧ rt' = rt) ∧
  (forall c, cached_configuration this = Some c -> c ≠ (ax, ay, f, r, n) ->
     calls rt' = calls rt ++
       [Destroyed (texture_object_ this);
        Created obj (TextureDesc ax ay f r (if n then 1 else 0))] ∧
     obj = next_handle rt ∧
     live rt' = <[obj := TextureDesc ax ay f r (if n then 1 else 0)]>
                  (delete (texture_object_ this) (live rt))) ∧
  cached_configuration this' = Some (ax, ay, f, r, n) ∧
  texture_object_ this' = obj ∧
  GetCachedTextureObject ax ay f r n this' rt' = (obj, this', rt').
Proof.
  unfold GetCachedTextureObject at 1.
  destruct (texture_object_allocated_ this) eqn:Ha.
  - destruct (_ && _) eqn:Heq.
    + assert (Hc : cached_configuration this = Some (ax, ay, f, r, n)).
      { unfold cached_configuration. rewrite Ha.
        rewrite !andb_true_iff, !bool_decide_eq_true in Heq.
        destruct Heq as [[[[H1 H2] H3] H4] H5]. congruence. }
      split_and!; try done.
      * intros c Hc' Hne. congruence.
      * unfold GetCachedTextureObject. by rewrite Ha, Heq.
    + cbn. split_and!; try done.
      * intros Hc. apply configuration_matches in Hc. congruence.
      * intros c _ _. split_and!; try done. by rewrite <- app_assoc.
      * unfold GetCachedTextureObject. cbn. by rewrite !bool_decide_eq_true_2.
  - cbn. split_and!; try done.
    + intros Hc. apply configuration_allocated in Hc. congruence.
    + intros c Hc. apply configuration_allocated in Hc. congruence.
    + unfold GetCachedTextureObject. cbn. by rewrite !bool_decide_eq_true_2.
Qed.

End TextureCacheProps.

(** ** Arrays *)

Module ArrayProps.

Lemma i32_small z : - 2 ^ 31 <= z < 2 ^ 31 -> i32 z = z.
Proof. intros H. unfold i32. rewrite Z.mod_small; lia. Qed.

Lemma u32_small z : 0 <= z < 2 ^ 32 -> u32 z = z.
Proof. intros H. unfold u32. rewrite Z.mod_small; lia. Qed.

Lemma u16_small z : 0 <= z < 2 ^ 16 -> u16 z = z.
Proof. intros H. unfold u16. rewrite Z.mod_small; lia. Qed.

Lemma u32_small_eq z v : 0 <= v < 2 ^ 32 -> z = v -> u32 z = v.
Proof. intros H ->. by apply u32_small. Qed.

Section Arrays.
Context {T : Type}.
Implicit Types (l : list T) (d v : T) (i j : Z).

Lemma length_zset l i v : length (zset l i v) = length l.
Proof. unfold zset. destruct (i <? 0); [done|]. apply length_insert. Qed.

Lemma zget_zset_eq d l i v :
  0 <= i < Z.of_nat (length l) -> zget d (zset l i v) i = v.
Proof.
  intros H. unfold zget, zset. destruct (Z.ltb_spec i 0); [lia|].
  rewrite list_lookup_insert_eq by lia. done.
Qed.

Lemma zget_zset_ne d l i j v : i <> j -> zget d (zset l i v) j = zget d l j.
Proof.
  intros H. unfold zget, zset.
  destruct (Z.ltb_spec i 0); [done|]. destruct (Z.ltb_spec j 0); [done|].
  rewrite list_lookup_insert_ne by lia. done.
Qed.

(** A cell after a store holds the value stored into it or what it held
    before. *)
Lemma zget_zset_cases d l i j v :
  (i = j /\ zget d (zset l i v) j = v) \/ zget d (zset l i v) j = zget d l j.
Proof.
  destruct (Z.eq_dec i j) as [<-|Hne]; [|right; by apply zget_zset_ne].
  unfold zget, zset. destruct (Z.ltb_spec i 0); [by right|].
  destruct (decide (Z.to_nat i < length l)%nat).
  - left. by rewrite list_lookup_insert_eq.
  - right. by rewrite list_insert_ge by lia.
Qed.

End Arrays.

Lemma zget_take {T : Type} (d : T) (l : list T) n k :
  zget d (take n l) k = if decide (0 <= k < Z.of_nat n) then zget d l k else d.
Proof.
  unfold zget. destruct (Z.ltb_spec k 0).
  - by destruct (decide _); [lia|].
  - destruct (decide _) as [Hk|Hk].
    + by rewrite lookup_take_lt by lia.
    + by rewrite lookup_take_ge by lia.
Qed.

Lemma zget_zset_zero (l : list Z) k j :
  zget 0 l j = 0 -> zget 0 (zset l k 0) j = 0.
Proof. intros H. by destruct (zget_zset_cases 0 l k j 0) as [[_ ->]| ->]. Qed.

Lemma zget_zset_same_zero (l : list Z) k : zget 0 (zset l k 0) k = 0.
Proof.
  unfold zget, zset. destruct (Z.ltb_spec k 0); [done|].
  destruct (decide (Z.to_nat k < length l)%nat).
  - by rewrite list_lookup_insert_eq.
  - by rewrite lookup_ge_None_2 by (rewrite length_insert; lia).
Qed.

End ArrayProps.

(** ** The iteration loop of the host function *)

Module LoopProps.
Import Host ArrayProps.

Section Loop.
Variable use_weighting : bool.
Variable max_num_iterations : Z.
Variable max_change_rate_threshold : float.
Variable gradient_magnitude_div_sqrt2 : cudaTextureObject_t Z.
Variable depth_map_input : cudaTextureObject_t float.
Variable block_coordinates : CUDABuffer_ Z.
Variable active_block_count : Z.

Local Abbreviation body :=
  (Host.body use_weighting max_change_rate_threshold gradient_magnitude_div_sqrt2
     depth_map_input block_coordinates active_block_count).
Local Abbreviation iterate :=
  (Host.iterate use_weighting max_num_iterations max_change_rate_threshold
     gradient_magnitude_div_sqrt2 depth_map_input block_coordinates
     active_block_count).

(** The proof rule of the loop: [I] is kept by the passes that go on, [F]
    holds where the loop is left, by [break] or by its test. *)
Lemma iterate_rule (I F : loop_state -> Prop) :
  (forall st st', I st -> i st < max_num_iterations -> body st = inl st' -> I st') ->
  (forall st st', I st -> i st < max_num_iterations -> body st = inr st' -> F st') ->
  (forall st, I st -> max_num_iterations <= i st -> F st) ->
  forall fuel st st', I st -> iterate fuel st = Some st' -> F st'.
Proof.
  intros Hstep Hbreak Hexit fuel.
  induction fuel as [|fuel IH]; intros st st' HI Hrun; cbn in Hrun.
  - destruct (Z.ltb_spec (i st) max_num_iterations); [congruence|].
    injection Hrun as <-. by apply Hexit.
  - destruct (Z.ltb_spec (i st) max_num_iterations) as [Hlt|Hge].
    + destruct (body st) as [st1|st1] eqn:Hb.
      * eapply IH; [|exact Hrun]. eapply Hstep; eauto.
      * injection Hrun as <-. eapply Hbreak; eauto.
    + injection Hrun as <-. by apply Hexit.
Qed.

(** A property kept by every pass through the body holds when the loop ends. *)
Lemma iterate_invariant (I : loop_state -> Prop) :
  (forall st st', I st -> i st < max_num_iterations ->
                  body st = inl st' \/ body st = inr st' -> I st') ->
  forall fuel st st', I st -> iterate fuel st = Some st' -> I st'.
Proof.
  intros Hstep. apply iterate_rule; eauto.
Qed.

Local Abbreviation downloaded_flags :=
  (Host.downloaded_flags use_weighting max_change_rate_threshold
     gradient_magnitude_div_sqrt2 depth_map_input block_coordinates
     active_block_count).

(** What one pass does to the loop variables and to the logs. *)
Lemma body_cases st st' :
  body st = inl st' \/ body st = inr st' ->
  let check := 25 <=? i32 (i st - last_convergence_check_iteration st) in
  i st' = i32 (i st + kIterationsPerKernelCall) /\
  launches st' =
    launches st ++
    [Launch (i st) check (u32 active_block_count)
            (tiles_read block_coordinates (u32 active_block_count))] /\
  (check = false ->
     last_convergence_check_iteration st' = last_convergence_check_iteration st /\
     checks st' = checks st /\ body st = inl st') /\
  (check = true ->
     checks st' = checks st ++
       [Check (i st) active_block_count
              (tiles_read block_coordinates active_block_count)
              (downloaded_flags st)] /\
     (count_set (downloaded_flags st) active_block_count = 0 ->
        body st = inr st' /\
        last_convergence_check_iteration st' = last_convergence_check_iteration st) /\
     (count_set (downloaded_flags st) active_block_count <> 0 ->
        body st = inl st' /\ last_convergence_check_iteration st' = i st)).
Proof.
  unfold Host.body, Host.downloaded_flags. cbn zeta.
  destruct (25 <=? i32 (i st - last_convergence_check_iteration st)) eqn:Hc.
  - match goal with |- context [count_set ?f ?n =? 0] =>
      destruct (Z.eqb_spec (count_set f n) 0) as [Hz|Hz] end;
      intros [[= <-]|[= <-]]; cbn; (split_and!; [done|done|done|]);
      intros _; (split_and!; [reflexivity| |]); intros; try done.
  - intros [[= <-]|[= <-]]; cbn; split_and!; try done.
Qed.

(** The working buffer after one pass is the one the launch leaves. *)
Lemma body_output st st' :
  body st = inl st' \/ body st = inr st' ->
  Host.depth_map_output st' =
    (launch_kernel use_weighting max_change_rate_threshold
       gradient_magnitude_div_sqrt2 depth_map_input block_coordinates
       active_block_count
       (25 <=? i32 (i st - last_convergence_check_iteration st))
       (Host.max_change st) (Host.depth_map_output st)).2.
Proof.
  unfold Host.body. cbn zeta.
  destruct (25 <=? i32 (i st - last_convergence_check_iteration st)).
  - match goal with |- context [count_set ?f ?n =? 0] =>
      destruct (count_set f n =? 0) end; by intros [[= <-]|[= <-]].
  - by intros [[= <-]|[= <-]].
Qed.

(** With [i] a multiple of four below the bound, the fuel [(bound - i) / 4]
    is enough. *)
Lemma iterate_terminates (n : nat) st :
  max_num_iterations <= 2 ^ 31 - 4 ->
  - 2 ^ 31 <= i st ->
  max_num_iterations - i st <= 4 * Z.of_nat n ->
  exists st', iterate n st = Some st'.
Proof.
  intros Hmax. revert st. induction n as [|n IH]; intros st Hlo Hn; cbn.
  - destruct (Z.ltb_spec (i st) max_num_iterations); [lia|eauto].
  - destruct (Z.ltb_spec (i st) max_num_iterations) as [Hlt|Hge]; [|eauto].
    destruct (body st) as [st1|st1] eqn:Hb; [|eauto].
    destruct (body_cases st st1 (or_introl Hb)) as (Hi & _).
    unfold kIterationsPerKernelCall in Hi. rewrite i32_small in Hi by lia.
    apply IH; lia.
Qed.

Lemma iterate_more_fuel (n m : nat) st st' :
  iterate n st = Some st' -> (n <= m)%nat -> iterate m st = Some st'.
Proof.
  revert m st. induction n as [|n IH]; intros m st Hrun Hle; cbn in Hrun.
  - destruct m; cbn; destruct (i st <? max_num_iterations); congruence.
  - destruct m as [|m]; [lia|]. cbn.
    destruct (i st <? max_num_iterations); [|done].
    destruct (body st); [|done]. apply IH; [done|lia].
Qed.

End Loop.
End LoopProps.

Module HostProps.
Import Host ArrayProps LoopProps Stated Invariants.

Section Inpaint.
Variable GetBlockCount : Z -> Z -> Z.
Variable use_weighting : bool.
Variable max_num_iterations : Z.
Variable max_change_rate_threshold : float.
Variable depth_input_scaling_factor : float.
Variable gradient_magnitude_div_sqrt2 : cudaTextureObject_t Z.
Variable depth_map_input : cudaTextureObject_t float.
Variable max_change : CUDABuffer_ Z.
Variable depth_map_output : CUDABuffer_ float.
Variable block_coordinates : CUDABuffer_ Z.

Local Abbreviation Inpaint :=
  (InpaintDepthMapWithConvolutionCUDA GetBlockCount use_weighting
     max_num_iterations max_change_rate_threshold depth_input_scaling_factor
     gradient_magnitude_div_sqrt2 depth_map_input max_change depth_map_output
     block_coordinates).
Local Abbreviation the_compacted :=
  (compacted GetBlockCount depth_input_scaling_factor depth_map_input
     depth_map_output block_coordinates).
Local Abbreviation the_uploaded :=
  (uploaded GetBlockCount depth_input_scaling_factor depth_map_input
     depth_map_output block_coordinates).
Local Abbreviation the_initialized :=
  (initialized GetBlockCount depth_input_scaling_factor depth_map_input
     depth_map_output block_coordinates).
Local Abbreviation the_loop :=
  (iterate use_weighting max_num_iterations max_change_rate_threshold
     gradient_magnitude_div_sqrt2 depth_map_input the_uploaded
     (active_block_count the_compacted)).
Local Abbreviation the_body :=
  (body use_weighting max_change_rate_threshold
     gradient_magnitude_div_sqrt2 depth_map_input the_uploaded
     (active_block_count the_compacted)).

Local Abbreviation the_initial_state :=
  (initial_state GetBlockCount depth_input_scaling_factor depth_map_input
     max_change depth_map_output block_coordinates).

(** The two ways the host function returns. *)
Lemma Inpaint_cases fuel r :
  Inpaint fuel = Some r ->
  (active_block_count the_compacted = 0 /\
   r = Result 0 (pixel_to_inpaint_count the_compacted)
         the_initialized.1 the_initialized.2 max_change [] []) \/
  (active_block_count the_compacted <> 0 /\
   exists st, the_loop fuel the_initial_state = Some st /\
     r = Result (i st) (pixel_to_inpaint_count the_compacted)
           (Host.depth_map_output st) the_uploaded (Host.max_change st)
           (launches st) (checks st)).
Proof.
  unfold InpaintDepthMapWithConvolutionCUDA.
  destruct (Z.eqb_spec (active_block_count the_compacted) 0) as [Hz|Hz].
  - intros [= <-]. by left.
  - intros H. right. split; [done|].
    destruct (the_loop fuel the_initial_state) as [st|]; [|done].
    injection H as <-. eauto.
Qed.

(** Every diffusion launch of a run is issued over the whole list built by
    the initial compaction, and the size of the active list sampled at the
    convergence checks is constant, hence non-increasing. *)
Lemma active_list_is_constant fuel r :
  Inpaint fuel = Some r ->
  (forall l, l ∈ launches_out r ->
     launch_grid_dim_active l = u32 (active_block_count the_compacted) /\
     launch_tiles l = tiles_read the_uploaded (u32 (active_block_count the_compacted))) /\
  (forall c, c ∈ checks_out r ->
     check_active_block_count c = active_block_count the_compacted /\
     check_tiles c = tiles_read the_uploaded (active_block_count the_compacted)) /\
  (forall j k c c', (j <= k)%nat ->
     checks_out r !! j = Some c -> checks_out r !! k = Some c' ->
     check_active_block_count c' <= check_active_block_count c).
Proof.
  intros Hrun.
  assert (Hinv :
    (forall l, l ∈ launches_out r ->
       launch_grid_dim_active l = u32 (active_block_count the_compacted) /\
       launch_tiles l = tiles_read the_uploaded (u32 (active_block_count the_compacted))) /\
    (forall c, c ∈ checks_out r ->
       check_active_block_count c = active_block_count the_compacted /\
       check_tiles c = tiles_read the_uploaded (active_block_count the_compacted))).
  { destruct (Inpaint_cases _ _ Hrun) as [[_ ->]|(_ & st & Hloop & ->)]; cbn.
    - split; intros ? H; by apply elem_of_nil in H.
    - revert Hloop.
      apply (iterate_invariant _ _ _ _ _ _ _ (fun s =>
        (forall l, l ∈ launches s ->
           launch_grid_dim_active l = u32 (active_block_count the_compacted) /\
           launch_tiles l =
             tiles_read the_uploaded (u32 (active_block_count the_compacted))) /\
        (forall c, c ∈ checks s ->
           check_active_block_count c = active_block_count the_compacted /\
           check_tiles c = tiles_read the_uploaded (active_block_count the_compacted)))).
      + intros st1 st2 [Hl Hc] _ Hb.
        destruct (body_cases _ _ _ _ _ _ _ _ Hb) as (_ & Hlog & Hno & Hyes).
        split.
        * intros l. rewrite Hlog, elem_of_app, list_elem_of_singleton.
          intros [Hin| ->]; [by apply Hl|done].
        * intros c.
          destruct (25 <=? i32 (i st1 - last_convergence_check_iteration st1)).
          -- destruct (Hyes eq_refl) as (-> & _).
             rewrite elem_of_app, list_elem_of_singleton.
             intros [Hin| ->]; [by apply Hc|done].
          -- destruct (Hno eq_refl) as (_ & -> & _). apply Hc.
      + split; intros ? H; by apply elem_of_nil in H. }
  destruct Hinv as [Hl Hc]. split_and!; [done|done|].
  intros j k c c' _ Hj Hk.
  apply list_elem_of_lookup_2 in Hj, Hk.
  destruct (Hc _ Hj) as [-> _], (Hc _ Hk) as [-> _]. lia.
Qed.

Lemma round_up_spec m : 0 <= m -> m <= round_up m 4 /\ round_up m 4 mod 4 = 0.
Proof.
  intros Hm. unfold round_up. split.
  - pose proof (Z.div_mod (m + 4 - 1) 4 ltac:(lia)).
    pose proof (Z.mod_pos_bound (m + 4 - 1) 4 ltac:(lia)). lia.
  - rewrite Z.mul_comm. apply Z.mod_mul. lia.
Qed.

(** C4 (as the code has it).  With [max_num_iterations] at most [2^31 - 4]
    (so that [i += 4] does not overflow) the loop ends for every input, the
    result does not depend on the fuel, and the returned count is a multiple
    of four between 0 and [max_num_iterations], taken as 0 when negative,
    rounded up to the next multiple of four. *)
Theorem iteration_count_is_bounded :
  max_num_iterations <= 2 ^ 31 - 4 ->
  exists fuel r,
    Inpaint fuel = Some r /\
    (forall fuel' r', Inpaint fuel' = Some r' -> r' = r) /\
    0 <= iterations r <= round_up (Z.max 0 max_num_iterations) 4 /\
    iterations r mod 4 = 0.
Proof.
  intros Hmax.
  set (R := round_up (Z.max 0 max_num_iterations) 4).
  destruct (round_up_spec (Z.max 0 max_num_iterations) ltac:(lia)) as [HR1 HR2].
  fold R in HR1, HR2.
  assert (Hex : exists fuel r, Inpaint fuel = Some r).
  { unfold InpaintDepthMapWithConvolutionCUDA.
    destruct (active_block_count the_compacted =? 0); [by exists 0%nat; eauto|].
    destruct (iterate_terminates use_weighting max_num_iterations
                max_change_rate_threshold gradient_magnitude_div_sqrt2
                depth_map_input the_uploaded (active_block_count the_compacted)
                (Z.to_nat (Z.max 0 max_num_iterations)) the_initial_state)
      as [st Hst]; [done|cbn; lia|cbn; lia|].
    exists (Z.to_nat (Z.max 0 max_num_iterations)). rewrite Hst. cbn. eauto. }
  destruct Hex as (fuel & r & Hrun). exists fuel, r.
  assert (Hmono : forall n m r1, Inpaint n = Some r1 -> (n <= m)%nat -> Inpaint m = Some r1).
  { intros n m r1. unfold InpaintDepthMapWithConvolutionCUDA.
    destruct (active_block_count the_compacted =? 0); [done|].
    destruct (the_loop n the_initial_state) as [st|] eqn:Hn; [|done].
    intros H Hle. by rewrite (iterate_more_fuel _ _ _ _ _ _ _ _ _ _ _ Hn Hle). }
  split; [done|]. split; [|split].
  - intros fuel' r' Hrun'.
    pose proof (Hmono _ (Nat.max fuel fuel') _ Hrun ltac:(lia)) as H1.
    pose proof (Hmono _ (Nat.max fuel fuel') _ Hrun' ltac:(lia)) as H2.
    congruence.
  - destruct (Inpaint_cases _ _ Hrun) as [[_ ->]|(_ & st & Hloop & ->)]; cbn; [lia|].
    revert Hloop.
    apply (iterate_invariant _ _ _ _ _ _ _
             (fun s => (0 <= i s <= R) /\ i s mod 4 = 0)); [|cbn; split; [lia|done]].
    intros st1 st2 [Hi Hm] Hlt Hb.
    destruct (body_cases _ _ _ _ _ _ _ _ Hb) as (-> & _).
    unfold kIterationsPerKernelCall. rewrite i32_small by lia.
    apply Z.mod_divide in Hm, HR2; try lia.
    destruct Hm as [p Hp], HR2 as [q Hq]. split.
    + lia.
    + rewrite Hp. replace (p * 4 + 4) with ((p + 1) * 4) by lia.
      apply Z.mod_mul. lia.
  - destruct (Inpaint_cases _ _ Hrun) as [[_ ->]|(_ & st & Hloop & ->)]; cbn; [done|].
    revert Hloop.
    apply (iterate_invariant _ _ _ _ _ _ _
             (fun s => (0 <= i s) /\ i s mod 4 = 0)); [|cbn; split; [lia|done]].
    intros st1 st2 [Hi Hm] Hlt Hb.
    destruct (body_cases _ _ _ _ _ _ _ _ Hb) as (-> & _).
    unfold kIterationsPerKernelCall. rewrite i32_small by lia.
    apply Z.mod_divide in Hm; try lia. destruct Hm as [p Hp]. split; [lia|].
    rewrite Hp. replace (p * 4 + 4) with ((p + 1) * 4) by lia.
    apply Z.mod_mul. lia.
Qed.

End Inpaint.
End HostProps.

(** ** The compaction of the active blocks *)

Module CompactionProps.
Import Host ArrayProps Stated.

Lemma elem_of_blocks gx gy bx by_ :
  (bx, by_) ∈ Init.blocks gx gy <-> (0 <= bx < gx) /\ (0 <= by_ < gy).
Proof.
  unfold Init.blocks. rewrite list_elem_of_bind. split.
  - intros (y & Hin & Hy). apply list_elem_of_bind in Hin as (x & Hin & Hx).
    apply list_elem_of_singleton in Hin as [= -> ->].
    apply elem_of_seqZ in Hx, Hy. lia.
  - intros [Hx Hy]. exists by_. split; [|apply elem_of_seqZ; lia].
    apply list_elem_of_bind. exists bx. split; [|apply elem_of_seqZ; lia].
    by apply list_elem_of_singleton.
Qed.

Lemma length_blocks gx gy :
  0 <= gx -> 0 <= gy -> Z.of_nat (length (Init.blocks gx gy)) = gx * gy.
Proof.
  intros Hx Hy. unfold Init.blocks.
  assert (Hrow : forall y : Z, length (seqZ 0 gx ≫= fun bx => [(bx, y)]) = Z.to_nat gx).
  { intros y. rewrite <- (length_seqZ 0 gx).
    induction (seqZ 0 gx) as [|a l IH]; [done|]. cbn. by rewrite IH. }
  assert (Hall : forall l : list Z,
             length (l ≫= fun y => seqZ 0 gx ≫= fun bx => [(bx, y)])
             = (length l * Z.to_nat gx)%nat).
  { induction l as [|a l IH]; [done|]. cbn. rewrite length_app, Hrow, IH. lia. }
  rewrite Hall, length_seqZ. lia.
Qed.

Lemma origins_snoc (cpu : list Z) n a b :
  0 <= n -> 2 * n + 1 < Z.of_nat (length cpu) ->
  origins (zset (zset cpu (2 * n + 0) a) (2 * n + 1) b) (n + 1)
  = origins cpu n ++ [(a, b)].
Proof.
  intros Hn Hlen. unfold origins.
  rewrite seqZ_app by lia. rewrite fmap_app. f_equal.
  - apply list_fmap_ext. intros k j Hj.
    apply list_elem_of_lookup_2, elem_of_seqZ in Hj.
    rewrite !zget_zset_ne by lia. done.
  - rewrite seqZ_cons by lia. rewrite seqZ_nil by lia. cbn. f_equal. f_equal.
    + rewrite zget_zset_ne by lia. apply zget_zset_eq. lia.
    + apply zget_zset_eq. rewrite length_zset. lia.
Qed.

Lemma u32_add_l a b : u32 (u32 a + b) = u32 (a + b).
Proof. unfold u32. by rewrite Zplus_mod_idemp_l. Qed.

Section Fold.
Variable grid_dim_x : Z.
Variable block_activity : list Z.

Local Abbreviation active :=
  (fun b : Z * Z => 0 < zget 0 block_activity (b.1 + b.2 * grid_dim_x)).
Local Abbreviation stored :=
  (fun b : Z * Z => (u16 (b.1 * kBlockOutputSizeX), u16 (b.2 * kBlockOutputSizeY))).

(** The loop over any list of tiles appends the stored origins of its active
    tiles and adds their counts modulo [2^32]. *)
Lemma compact_fold (l : list (Z * Z)) (c : compaction) :
  0 <= active_block_count c ->
  2 * (active_block_count c + Z.of_nat (length l))
    <= Z.of_nat (length (block_coordinates_cpu c)) ->
  active_block_count c + Z.of_nat (length l) < 2 ^ 31 ->
  let c' := foldl (compact_step grid_dim_x block_activity) c l in
  active_block_count c' = active_block_count c + Z.of_nat (length (filter active l)) /\
  origins (block_coordinates_cpu c') (active_block_count c')
  = origins (block_coordinates_cpu c) (active_block_count c)
    ++ (stored <$> filter active l) /\
  u32 (pixel_to_inpaint_count c')
  = u32 (pixel_to_inpaint_count c + sum_counts grid_dim_x block_activity (filter active l)) /\
  (0 <= pixel_to_inpaint_count c < 2 ^ 32 -> 0 <= pixel_to_inpaint_count c' < 2 ^ 32).
Proof.
  revert c. induction l as [|[x y] l IH]; intros c Hn Hlen Hmax; cbn zeta.
  - cbn. rewrite !Z.add_0_r, app_nil_r. done.
  - cbn [foldl]. rewrite filter_cons. cbn [length] in Hlen, Hmax.
    destruct (decide (0 < zget 0 block_activity ((x, y).1 + (x, y).2 * grid_dim_x)))
      as [Hact|Hact]; cbn [fst snd] in Hact.
    + pose (c1 := Compaction
         (zset (zset (block_coordinates_cpu c)
                     (2 * active_block_count c + 0) (u16 (x * kBlockOutputSizeX)))
               (2 * active_block_count c + 1) (u16 (y * kBlockOutputSizeY)))
         (i32 (active_block_count c + 1))
         (u32 (pixel_to_inpaint_count c + zget 0 block_activity (x + y * grid_dim_x)))).
      assert (Hstep : compact_step grid_dim_x block_activity c (x, y) = c1).
      { unfold compact_step.
        by destruct (Z.ltb_spec 0 (zget 0 block_activity (x + y * grid_dim_x))); [|lia]. }
      rewrite Hstep.
      assert (Hn1 : active_block_count c1 = active_block_count c + 1).
      { cbn. apply i32_small. lia. }
      destruct (IH c1) as (Hcount & Horig & Hsum & Hrange).
      * lia.
      * unfold c1 at 2. cbn [block_coordinates_cpu]. rewrite !length_zset.
        rewrite Hn1. lia.
      * lia.
      * split_and!.
        -- rewrite Hcount, Hn1. cbn [length]. lia.
        -- rewrite Horig, Hn1. unfold c1 at 1. cbn [block_coordinates_cpu].
           rewrite origins_snoc by lia. rewrite <- app_assoc. done.
        -- rewrite Hsum. unfold c1. cbn [pixel_to_inpaint_count sum_counts foldr fst snd].
           rewrite u32_add_l. f_equal. fold (sum_counts grid_dim_x block_activity (filter active l)). lia.
        -- intros _. apply Hrange. unfold c1. cbn [pixel_to_inpaint_count].
           apply Z.mod_pos_bound. lia.
    + assert (Hstep : compact_step grid_dim_x block_activity c (x, y) = c).
      { unfold compact_step.
        by destruct (Z.ltb_spec 0 (zget 0 block_activity (x + y * grid_dim_x))); [lia|]. }
      rewrite Hstep.
      destruct (IH c) as (Hcount & Horig & Hsum & Hrange); [lia|lia|lia|].
      done.
Qed.

End Fold.

Lemma sum_counts_nonneg gx act l :
  Forall (fun b : Z * Z => 0 < zget 0 act (b.1 + b.2 * gx)) l ->
  0 <= sum_counts gx act l.
Proof.
  induction 1 as [|b l Hb _ IH]; cbn; [lia|].
  fold (sum_counts gx act l). lia.
Qed.

(** C7 (as the code has it).  For a grid whose tile origins fit the 16-bit
    entries of the list and whose counts sum to less than [2^32], the
    compaction yields the origins
    [(tile_x * output_width, tile_y * output_height)] of the tiles with a
    positive count, [y] outer and [x] inner, and the sum of their counts. *)
Theorem compaction_lists_active_tiles grid_dim_x grid_dim_y block_activity :
  0 <= grid_dim_x -> 0 <= grid_dim_y ->
  (grid_dim_x - 1) * kBlockOutputSizeX < 2 ^ 16 ->
  (grid_dim_y - 1) * kBlockOutputSizeY < 2 ^ 16 ->
  sum_counts grid_dim_x block_activity
    (active_tiles grid_dim_x grid_dim_y block_activity) < 2 ^ 32 ->
  compaction_as_stated grid_dim_x grid_dim_y block_activity /\
  active_block_count (compact grid_dim_x grid_dim_y block_activity)
  = Z.of_nat (length (active_tiles grid_dim_x grid_dim_y block_activity)).
Proof.
  intros Hx Hy Hfx Hfy Hsum. unfold compaction_as_stated, compact. cbn zeta.
  unfold kBlockOutputSizeX, kBlockOutputSizeY, kBlockWidth, kBlockHeight,
    kIterationsPerKernelCall in *.
  assert (Hcells : grid_dim_x * grid_dim_y < 2 ^ 30) by nia.
  pose proof (length_blocks grid_dim_x grid_dim_y Hx Hy) as Hlen.
  match goal with |- context [foldl _ ?c0 _] => set (c0' := c0) end.
  destruct (compact_fold grid_dim_x block_activity
              (Init.blocks grid_dim_x grid_dim_y) c0')
    as (Hcount & Horig & Hs & Hrange).
  { done. }
  { subst c0'. cbn. rewrite length_replicate, u32_small by nia. nia. }
  { subst c0'. cbn. lia. }
  fold (active_tiles grid_dim_x grid_dim_y block_activity) in Hcount, Horig, Hs.
  split_and!.
  - rewrite Horig. subst c0'. cbn [block_coordinates_cpu active_block_count].
    unfold origins at 1. rewrite seqZ_nil by lia. cbn [fmap list_fmap app].
    apply list_fmap_ext. intros k [bx by_] Hb.
    apply list_elem_of_lookup_2, list_elem_of_filter in Hb as [_ Hb].
    apply elem_of_blocks in Hb. cbn.
    unfold kBlockOutputSizeX, kBlockOutputSizeY, kBlockWidth, kBlockHeight,
      kIterationsPerKernelCall.
    rewrite !u16_small by lia. done.
  - assert (Hnn : 0 <= sum_counts grid_dim_x block_activity
                         (active_tiles grid_dim_x grid_dim_y block_activity)).
    { apply sum_counts_nonneg, Forall_forall. intros b Hb.
      by apply list_elem_of_filter in Hb as [Hb _]. }
    rewrite <- (u32_small (pixel_to_inpaint_count _)) by (apply Hrange; by cbn).
    rewrite Hs. subst c0'. cbn [pixel_to_inpaint_count]. apply u32_small. lia.
  - rewrite Hcount. subst c0'. cbn. lia.
Qed.

End CompactionProps.

(** ** Threads that write one cell each *)

Module FoldProps.
Import ArrayProps.

Lemma foldl_preserves {A B : Type} (P : A -> Prop) (f : A -> B -> A) (l : list B) (a : A) :
  P a -> (forall a b, b ∈ l -> P a -> P (f a b)) -> P (foldl f a l).
Proof.
  revert a. induction l as [|b l IH]; intros a Ha Hf; cbn; [done|].
  apply IH.
  - apply Hf; [left|done].
  - intros a' b' Hb'. apply Hf. by right.
Qed.

Section Writes.
Context {A T : Type} `{EqDecision A}.
Variable g : A -> bool.
Variable key : A -> Z.
Variable val : A -> T.

Local Abbreviation wr := (writes g key val).

Lemma length_writes a0 l : length (wr a0 l) = length a0.
Proof.
  unfold writes. apply (foldl_preserves (fun a => length a = length a0)); [done|].
  intros a b _ Ha. destruct (g b); [|done]. by rewrite length_zset.
Qed.

(** A cell holds its old value or the value of an element that wrote it. *)
Lemma writes_cases d a0 l j :
  zget d (wr a0 l) j = zget d a0 j \/
  exists t, t ∈ l /\ g t = true /\ key t = j /\ zget d (wr a0 l) j = val t.
Proof.
  unfold writes. revert a0.
  induction l as [|t l IH]; intros a0; cbn; [by left|].
  destruct (IH (if g t then zset a0 (key t) (val t) else a0))
    as [Hold|(t' & Hin & Hg & Hk & Hv)].
  - rewrite Hold. destruct (g t) eqn:Hg; [|by left].
    destruct (zget_zset_cases d a0 (key t) j (val t)) as [[Hk Hv]|Hv]; rewrite Hv.
    + right. exists t. split_and!; [left|done|done|done].
    + by left.
  - right. exists t'. split_and!; [by right|done|done|done].
Qed.

(** A cell that some element writes, all its writers agreeing on [v], holds
    [v]; a cell that already holds [v] keeps it. *)
Lemma writes_stable d a0 l j v :
  (forall t, t ∈ l -> g t = true -> key t = j -> val t = v) ->
  zget d a0 j = v -> zget d (wr a0 l) j = v.
Proof.
  intros Hv H0. destruct (writes_cases d a0 l j) as [->|(t & Hin & Hg & Hk & ->)];
    [done|by apply Hv].
Qed.

Lemma writes_determined d a0 l j v :
  (forall t, t ∈ l -> g t = true -> key t = j -> val t = v) ->
  (exists t, t ∈ l /\ g t = true /\ key t = j) ->
  0 <= j < Z.of_nat (length a0) ->
  zget d (wr a0 l) j = v.
Proof.
  unfold writes. revert a0.
  induction l as [|t l IH]; intros a0 Hv (t0 & Hin & Hg & Hk) Hrange.
  { by apply elem_of_nil in Hin. }
  cbn [foldl]. apply elem_of_cons in Hin as [<-|Hin].
  - rewrite Hg, <- Hk.
    apply (writes_stable d _ l (key t0) v).
    + intros t' Ht' Hg' Hk'. apply Hv; [by right|done|congruence].
    + rewrite zget_zset_eq by lia. apply Hv; [left|done|done].
  - apply IH.
    + intros t' Ht'. apply Hv. by right.
    + eauto.
    + destruct (g t); [by rewrite length_zset|done].
Qed.

Lemma writes_untouched d a0 l j :
  (forall t, t ∈ l -> g t = true -> key t <> j) ->
  zget d (wr a0 l) j = zget d a0 j.
Proof.
  intros Hne. destruct (writes_cases d a0 l j) as [H|(t & Hin & Hg & Hk & _)]; [done|].
  by destruct (Hne t Hin Hg).
Qed.

(** With one element per cell, the cell of an element holds its value when
    its guard holds and is unchanged otherwise. *)
Lemma writes_lookup d a0 l t0 :
  t0 ∈ l ->
  (forall t, t ∈ l -> key t = key t0 -> t = t0) ->
  0 <= key t0 < Z.of_nat (length a0) ->
  zget d (wr a0 l) (key t0) = if g t0 then val t0 else zget d a0 (key t0).
Proof.
  unfold writes. revert a0. induction l as [|t l IH]; intros a0 Hin Hinj Hrange.
  { by apply elem_of_nil in Hin. }
  cbn [foldl].
  destruct (decide (t0 ∈ l)) as [Hin'|Hnin].
  - rewrite IH; [|done|intros t' Ht'; apply Hinj; by right|].
    + destruct (g t0) eqn:Hg0; [done|].
      destruct (g t) eqn:Hg; [|done].
      apply zget_zset_ne. intros Hk.
      assert (t = t0) by (apply Hinj; [left|done]). congruence.
    + destruct (g t); [by rewrite length_zset|done].
  - apply elem_of_cons in Hin as [<-|Hin]; [|done].
    fold (wr (if g t0 then zset a0 (key t0) (val t0) else a0) l).
    rewrite writes_untouched.
    + destruct (g t0); [by apply zget_zset_eq|done].
    + intros t' Ht' _ Hk. apply Hnin.
      assert (t' = t0) by (apply Hinj; [by right|done]). congruence.
Qed.

End Writes.

(** Stores into a buffer are writes into its array. *)
Section Stores.
Context {A T : Type}.
Variable g : A -> bool.
Variables row col : A -> Z.
Variable val : A -> T.

Lemma stores_are_writes (b : CUDABuffer_ T) (l : list A) :
  stores g row col val b l
  = Buffer (writes g (fun t => row t * width_ b + col t) val (address_ b) l)
           (height_ b) (width_ b).
Proof.
  unfold writes, stores. revert b. induction l as [|t l IH]; intros b; cbn.
  { by destruct b. }
  rewrite IH. destruct (g t); done.
Qed.

End Stores.

(** Two cells of a row-major array with in-range columns differ when the
    pixels differ. *)
Lemma at_inj {T : Type} (b : CUDABuffer_ T) y x y' x' :
  0 <= x < width_ b -> 0 <= x' < width_ b ->
  at_ b y x = at_ b y' x' -> x = x' /\ y = y'.
Proof.
  unfold at_. intros Hx Hx' He.
  assert (Hy : (y * width_ b + x) / width_ b = y).
  { rewrite Z.div_add_l by lia. rewrite (Z.div_small x) by lia. lia. }
  assert (Hy' : (y' * width_ b + x') / width_ b = y').
  { rewrite Z.div_add_l by lia. rewrite (Z.div_small x') by lia. lia. }
  rewrite He, Hy' in Hy. subst y'. lia.
Qed.

End FoldProps.

(** ** What a diffusion launch leaves untouched *)

Module FrameProps.
Import ArrayProps FoldProps.

Lemma load_stores_untouched {A T : Type} (g : A -> bool) (row col : A -> Z)
      (val : A -> T) (b : CUDABuffer_ T) (l : list A) (d : T) (py px : Z) :
  (forall t, t ∈ l -> g t = true -> at_ b (row t) (col t) <> at_ b py px) ->
  load d (stores g row col val b l) py px = load d b py px.
Proof.
  intros Hne. rewrite stores_are_writes. unfold load, at_. cbn.
  apply writes_untouched. intros t Hin Hg. by apply Hne.
Qed.

Lemma width_stores {A T : Type} (g : A -> bool) (row col : A -> Z)
      (val : A -> T) (b : CUDABuffer_ T) (l : list A) :
  width_ (stores g row col val b l) = width_ b /\
  height_ (stores g row col val b l) = height_ b /\
  length (address_ (stores g row col val b l)) = length (address_ b).
Proof. rewrite stores_are_writes. cbn. by rewrite length_writes. Qed.

(** The clamped column of a thread of the plain kernel is a column of the
    image. *)
Lemma plain_x_range bc width b tx :
  1 <= width <= 2 ^ 31 -> 0 <= Plain.x bc width b tx < width.
Proof.
  intros Hw. unfold Plain.x, Plain.raw_x.
  rewrite (u32_small 0), (u32_small (width - 1)) by lia.
  match goal with |- context [u32 ?z] =>
    pose proof (Z.mod_pos_bound z (2 ^ 32) ltac:(lia)) as Hr; fold (u32 z) in Hr end.
  rewrite i32_small; lia.
Qed.

Lemma plain_y_range bc height b ty :
  1 <= height <= 2 ^ 31 -> 0 <= Plain.y bc height b ty < height.
Proof.
  intros Hw. unfold Plain.y, Plain.raw_y.
  rewrite (u32_small 0), (u32_small (height - 1)) by lia.
  match goal with |- context [u32 ?z] =>
    pose proof (Z.mod_pos_bound z (2 ^ 32) ltac:(lia)) as Hr; fold (u32 z) in Hr end.
  rewrite i32_small; lia.
Qed.

Lemma weighted_x_range bc width b tx :
  1 <= width -> 0 <= Weighted.x bc width b tx < width.
Proof. intros Hw. unfold Weighted.x. lia. Qed.

Lemma weighted_y_range bc height b ty :
  1 <= height -> 0 <= Weighted.y bc height b ty < height.
Proof. intros Hw. unfold Weighted.y. lia. Qed.

Section Launch.
Variable check_convergence : bool.
Variable block_coordinates : CUDABuffer_ Z.
Variable depth_map_input : cudaTextureObject_t float.
Variable gradient_magnitude_div_sqrt2 : cudaTextureObject_t Z.
Variable max_change_rate_threshold : float.
Variables px py : Z.
Hypothesis not_a_hole : fle (tex2D depth_map_input px py) zero = false.

Lemma plain_block_frame bsx bsy st b d :
  width_ st.2 <= 2 ^ 31 -> 0 <= px < width_ st.2 ->
  let st' := Plain.block bsx bsy check_convergence block_coordinates depth_map_input
               max_change_rate_threshold st b in
  load d st'.2 py px = load d st.2 py px /\
  width_ st'.2 = width_ st.2 /\ height_ st'.2 = height_ st.2.
Proof.
  intros Hw Hpx. destruct st as [mc out]. unfold Plain.block. cbn [fst snd] in *.
  destruct (Plain.sub_iterations _ _ _ _ _ _ _ _ _ _ _) as [shared mc'].
  cbn [fst snd]. unfold Plain.write_back. split; [|split; apply width_stores].
  apply load_stores_untouched. intros [tx ty] _ Hg Hat. cbn [fst snd] in *.
  apply andb_true_iff in Hg as [_ Hhole].
  apply at_inj in Hat as [Hx Hy];
    [|apply plain_x_range; lia|done].
  unfold Plain.kIsPixelToInpaint in Hhole. rewrite Hx, Hy in Hhole. congruence.
Qed.

Lemma weighted_block_frame bsx bsy st b d :
  0 <= px < width_ st.2 ->
  let st' := Weighted.block bsx bsy check_convergence block_coordinates depth_map_input
               gradient_magnitude_div_sqrt2 max_change_rate_threshold st b in
  load d st'.2 py px = load d st.2 py px /\
  width_ st'.2 = width_ st.2 /\ height_ st'.2 = height_ st.2.
Proof.
  intros Hpx. destruct st as [mc out]. unfold Weighted.block. cbn [fst snd] in *.
  destruct (Weighted.sub_iterations _ _ _ _ _ _ _ _ _ _ _ _) as [shared mc'].
  cbn [fst snd]. unfold Weighted.write_back. split; [|split; apply width_stores].
  apply load_stores_untouched. intros [tx ty] _ Hg Hat. cbn [fst snd] in *.
  unfold Weighted.kOutput in Hg. apply andb_true_iff in Hg as [_ Hhole].
  apply at_inj in Hat as [Hx Hy];
    [|apply weighted_x_range; lia|done].
  unfold Weighted.kIsPixelToInpaint in Hhole. rewrite Hx, Hy in Hhole. congruence.
Qed.

(** C5.  In a diffusion launch of either variant, over any number of blocks
    and any tile list, whether a pixel is a hole is read from the input
    texture alone, and a pixel of the image whose texture value does not
    test as a hole keeps the value it has in the working buffer; the size of
    the buffer is kept too. *)
Theorem launch_keeps_valid_pixels use_weighting active_block_count
        max_change depth_map_output d :
  width_ depth_map_output <= 2 ^ 31 - 1 ->
  0 <= px < width_ depth_map_output ->
  0 <= py < height_ depth_map_output ->
  let out' :=
    (Host.launch_kernel use_weighting max_change_rate_threshold
       gradient_magnitude_div_sqrt2 depth_map_input block_coordinates
       active_block_count check_convergence max_change depth_map_output).2 in
  load d out' py px = load d depth_map_output py px /\
  width_ out' = width_ depth_map_output /\
  height_ out' = height_ depth_map_output.
Proof.
  intros Hw Hpx Hpy. unfold Host.launch_kernel, Host.launch_blocks.
  set (P := fun st : CUDABuffer_ Z * CUDABuffer_ float =>
              load d st.2 py px = load d depth_map_output py px /\
              width_ st.2 = width_ depth_map_output /\
              height_ st.2 = height_ depth_map_output).
  destruct use_weighting; unfold Weighted.launch, Plain.launch;
    apply (foldl_preserves P); try done.
  - intros st b _ (Hl & Hwd & Hht).
    destruct (weighted_block_frame 32 32 st b d) as (Hl' & Hw' & Hh'); [lia|].
    unfold P. rewrite Hl', Hw', Hh'. done.
  - intros st b _ (Hl & Hwd & Hht).
    destruct (plain_block_frame 32 32 st b d) as (Hl' & Hw' & Hh'); [lia|lia|].
    unfold P. rewrite Hl', Hw', Hh'. done.
Qed.

End Launch.
End FrameProps.

(** ** The hole test *)

Module HoleProps.
Import ArrayProps FrameProps Stated.

Lemma in_output_region_32 tx ty :
  in_output_region 32 32 tx ty = true <-> (4 <= tx < 28) /\ (4 <= ty < 28).
Proof.
  unfold in_output_region, kIterationsPerKernelCall.
  rewrite !andb_true_iff, !Z.leb_le, !Z.ltb_lt.
  change (u32 4) with 4. change (u32 (32 - 4)) with 28. lia.
Qed.

(** C2 (as the code has it).  For a thread of the output region whose pixel
    [(px, py)] is in the image: the initialisation pass counts the pixel as a
    hole exactly when the scaled input is [== 0], whatever the variant; both
    diffusion kernels, the plain one as the weighted one, take the pixel as a
    hole exactly when the unscaled input texture is [<= 0]. *)
Theorem hole_tests depth_input_scaling_factor
        (depth_map_input : cudaTextureObject_t float)
        (block_coordinates : CUDABuffer_ Z) width height tx ty :
  1 <= width <= 2 ^ 31 - 1 -> 1 <= height <= 2 ^ 31 - 1 ->
  in_output_region 32 32 tx ty = true ->
  (forall bx by_,
     let px := bx * 24 + tx - 4 in
     let py := by_ * 24 + ty - 4 in
     0 <= bx -> 0 <= by_ -> px < width -> py < height ->
     Init.thread_is_active 32 32 depth_input_scaling_factor depth_map_input
       width height bx by_ tx ty
     = feq (fmul depth_input_scaling_factor (tex2D depth_map_input px py)) zero) /\
  (forall b,
     let px := Plain.origin_x block_coordinates b + tx - 4 in
     let py := Plain.origin_y block_coordinates b + ty - 4 in
     0 <= Plain.origin_x block_coordinates b -> 0 <= Plain.origin_y block_coordinates b ->
     px < width -> py < height ->
     Plain.kIsPixelToInpaint block_coordinates depth_map_input width height b tx ty
     = fle (tex2D depth_map_input px py) zero /\
     Weighted.kIsPixelToInpaint block_coordinates depth_map_input width height b tx ty
     = fle (tex2D depth_map_input px py) zero).
Proof.
  intros Hw Hh Hreg. pose proof Hreg as Hreg'.
  apply in_output_region_32 in Hreg' as [Htx Hty]. split.
  - intros bx by_ px py Hbx Hby Hpx Hpy.
    unfold Init.thread_is_active, Init.kOutput, Init.depth_input.
    rewrite Hreg. unfold Init.x, Init.y, Init.kBlockOutputSizeX,
      Init.kBlockOutputSizeY, kIterationsPerKernelCall.
    change (32 - 2 * 4) with 24. fold px py.
    rewrite (u32_small px), (u32_small py), (u32_small width), (u32_small height)
      by (subst px py; lia).
    destruct (Z.ltb_spec px width); [|lia].
    destruct (Z.ltb_spec py height); [|lia]. done.
  - intros b px py Hox Hoy Hpx Hpy.
    unfold Plain.kIsPixelToInpaint, Weighted.kIsPixelToInpaint.
    assert (Hx : Plain.x block_coordinates width b tx = px).
    { unfold Plain.x, Plain.raw_x, kIterationsPerKernelCall. fold px.
      rewrite (u32_small 0), (u32_small (width - 1)), (u32_small px)
        by (subst px; lia).
      rewrite i32_small; subst px; lia. }
    assert (Hy : Plain.y block_coordinates height b ty = py).
    { unfold Plain.y, Plain.raw_y, kIterationsPerKernelCall. fold py.
      rewrite (u32_small 0), (u32_small (height - 1)), (u32_small py)
        by (subst py; lia).
      rewrite i32_small; subst py; lia. }
    assert (Hx' : Weighted.x block_coordinates width b tx = px).
    { unfold Weighted.x, Weighted.raw_x, kIterationsPerKernelCall.
      change (Weighted.origin_x block_coordinates b)
        with (Plain.origin_x block_coordinates b). fold px.
      rewrite (u32_small px), i32_small by (subst px; lia). subst px; lia. }
    assert (Hy' : Weighted.y block_coordinates height b ty = py).
    { unfold Weighted.y, Weighted.raw_y, kIterationsPerKernelCall.
      change (Weighted.origin_y block_coordinates b)
        with (Plain.origin_y block_coordinates b). fold py.
      rewrite (u32_small py), i32_small by (subst py; lia). subst py; lia. }
    by rewrite Hx, Hy, Hx', Hy'.
Qed.

End HoleProps.

(** ** Idealised arithmetic *)

Module FloatProps.
Import Invariants.

Lemma Qlt_bool_iff a b : Qlt_bool a b = true <-> (a < b)%Q.
Proof.
  unfold Qlt_bool. rewrite negb_true_iff. split.
  - intros H. apply Qnot_le_lt. intros Hle. apply Qle_bool_iff in Hle. congruence.
  - intros H. apply not_true_is_false. intros Hle. apply Qle_bool_iff in Hle.
    by apply Qlt_not_le in H.
Qed.

Lemma fgt_zero q : fgt (FNum q) zero = true <-> (0 < q)%Q.
Proof. apply Qlt_bool_iff. Qed.

Lemma fgt_zero_positive v : finite v -> fgt v zero = true -> positive v.
Proof. destruct v as [q| |]; [|done..]. intros _ H. exists q. by rewrite <- fgt_zero. Qed.

Lemma positive_fgt v : positive v -> fgt v zero = true.
Proof. intros (q & -> & Hq). by apply fgt_zero. Qed.

Lemma positive_finite v : positive v -> finite v.
Proof. by intros (q & -> & _). Qed.

Lemma positive_not_negative v : positive v -> flt v zero = false.
Proof.
  intros (q & -> & Hq). apply not_true_is_false. intros H.
  apply Qlt_bool_iff in H. lra.
Qed.

Lemma kDiagonal_positive : positive kDiagonal.
Proof. eexists. split; [reflexivity|]. reflexivity. Qed.

Lemma kAxis_positive : positive kAxis.
Proof. eexists. split; [reflexivity|]. reflexivity. Qed.

(** [gate * k * d] and [gate * k] for a finite [d]. *)
Lemma gated_product (gate : bool) qk qd :
  (0 < qk)%Q -> (gate = true -> (0 < qd)%Q) ->
  exists p w,
    fmul (fmul (of_bool gate) (FNum qk)) (FNum qd) = FNum p /\
    fmul (of_bool gate) (FNum qk) = FNum w /\
    (0 <= p)%Q /\ (0 <= w)%Q /\
    (gate = true -> (0 < p)%Q /\ (0 < w)%Q) /\
    (gate = false -> (p == 0)%Q /\ (w == 0)%Q).
Proof.
  intros Hk Hd. eexists _, _. split; [reflexivity|]. split; [reflexivity|].
  rewrite !Qred_correct. destruct gate; cbn.
  - specialize (Hd eq_refl). change (inject_Z 1) with 1%Q. rewrite !Qmult_1_l.
    pose proof (Qmult_lt_0_compat _ _ Hk Hd).
    repeat split; intros; try discriminate; lra.
  - change (inject_Z 0) with 0%Q. rewrite !Qmult_0_l.
    repeat split; intros; try discriminate; lra.
Qed.

Lemma fadd_FNum a b : fadd (FNum a) (FNum b) = FNum (Qred (a + b)).
Proof. done. Qed.

(** The quotient of a positive sum by a positive weight. *)
Lemma fdiv_positive qr qw :
  (0 < qr)%Q -> (0 < qw)%Q -> positive (fdiv (FNum qr) (FNum qw)).
Proof.
  intros Hr Hw. unfold fdiv.
  destruct (Qeq_bool qw 0) eqn:He.
  - apply Qeq_bool_iff in He. lra.
  - eexists. split; [reflexivity|]. rewrite Qred_correct.
    apply Qlt_shift_div_l; lra.
Qed.

Lemma inject_Z_nonneg z : 0 <= z -> (0 <= inject_Z z)%Q.
Proof. intros H. unfold Qle. cbn. lia. Qed.

Lemma of_Z_nonneg z : 0 <= z -> nonneg (of_Z z).
Proof. intros H. exists (inject_Z z). split; [done|by apply inject_Z_nonneg]. Qed.

Lemma of_bool_nonneg b : nonneg (of_bool b).
Proof. apply of_Z_nonneg. destruct b; lia. Qed.

Lemma positive_nonneg v : positive v -> nonneg v.
Proof. intros (q & -> & Hq). exists q. split; [done|lra]. Qed.

Lemma fmul_nonneg a b : nonneg a -> nonneg b -> nonneg (fmul a b).
Proof.
  intros (qa & -> & Ha) (qb & -> & Hb). eexists. split; [reflexivity|].
  rewrite Qred_correct. by apply Qmult_le_0_compat.
Qed.

Lemma fadd_positive a b : positive a -> nonneg b -> positive (fadd a b).
Proof.
  intros (qa & -> & Ha) (qb & -> & Hb). eexists. split; [reflexivity|].
  rewrite Qred_correct. lra.
Qed.

Lemma fdiv_nonneg a b : nonneg a -> positive b -> nonneg (fdiv a b).
Proof.
  intros (qa & -> & Ha) (qb & -> & Hb). unfold fdiv.
  destruct (Qeq_bool qb 0) eqn:He.
  - apply Qeq_bool_iff in He. lra.
  - eexists. split; [reflexivity|]. rewrite Qred_correct.
    apply Qle_shift_div_l; lra.
Qed.

Lemma kSqrt2_positive : positive kSqrt2.
Proof. eexists. split; [reflexivity|]. reflexivity. Qed.

Lemma zero_nonneg : nonneg zero.
Proof. exists 0%Q. split; [done|lra]. Qed.

Lemma one_positive : positive one.
Proof. exists 1%Q. split; [done|lra]. Qed.

End FloatProps.

(** ** The threads of a block *)

Module ThreadProps.
Import ArrayProps.

Lemma elem_of_threads bsx bsy tx ty :
  (tx, ty) ∈ threads bsx bsy <-> (0 <= tx < bsx) /\ (0 <= ty < bsy).
Proof.
  unfold threads. rewrite list_elem_of_bind. split.
  - intros (y & Hin & Hy). apply list_elem_of_bind in Hin as (x & Hin & Hx).
    apply list_elem_of_singleton in Hin as [= -> ->].
    apply elem_of_seqZ in Hx, Hy. lia.
  - intros [Hx Hy]. exists ty. split; [|apply elem_of_seqZ; lia].
    apply list_elem_of_bind. exists tx. split; [|apply elem_of_seqZ; lia].
    by apply list_elem_of_singleton.
Qed.

(** Two threads of a block have different cells of shared memory. *)
Lemma shared_mem_index_inj bsx tx ty tx' ty' :
  0 <= tx < bsx -> 0 <= tx' < bsx ->
  tx + bsx * ty = tx' + bsx * ty' -> tx = tx' /\ ty = ty'.
Proof.
  intros Hx Hx' He.
  assert (Hy : (ty * bsx + tx) / bsx = ty).
  { rewrite Z.div_add_l by lia. rewrite (Z.div_small tx) by lia. lia. }
  assert (Hy' : (ty' * bsx + tx') / bsx = ty').
  { rewrite Z.div_add_l by lia. rewrite (Z.div_small tx') by lia. lia. }
  replace (ty * bsx + tx) with (ty' * bsx + tx') in Hy by lia.
  rewrite Hy' in Hy. subst ty'. lia.
Qed.

Lemma shared_mem_index_range bsx bsy tx ty :
  0 <= tx < bsx -> 0 <= ty < bsy -> 0 <= tx + bsx * ty < bsx * bsy.
Proof. intros Hx Hy. nia. Qed.

Lemma zget_replicate {T : Type} (d : T) n j : zget d (replicate n d) j = d.
Proof.
  unfold zget. destruct (j <? 0); [done|].
  destruct (replicate n d !! Z.to_nat j) eqn:H; [|done].
  by apply lookup_replicate in H as [-> _].
Qed.

End ThreadProps.

(** ** The cell of a thread *)

Module CellProps.
Import ArrayProps FoldProps ThreadProps.

Section Block.
Variables block_size_x block_size_y : Z.
Variable check_convergence : bool.
Variable block_coordinates : CUDABuffer_ Z.
Variable depth_map_input : cudaTextureObject_t float.
Variable gradient_magnitude_div_sqrt2 : cudaTextureObject_t Z.
Variable max_change_rate_threshold : float.
Variables width height : Z.
Variable blockIdx_x : Z.

(** The cell of a thread of the plain kernel after a sub-iteration: the
    candidate when the pixel is a hole and the accumulated weight is
    positive, unchanged otherwise. *)
Lemma plain_sub_iteration_own_cell st i tx ty :
  (tx, ty) ∈ threads block_size_x block_size_y ->
  Z.of_nat (length st.1) = block_size_x * block_size_y ->
  zget zero
    (Plain.sub_iteration block_size_x block_size_y check_convergence
       block_coordinates depth_map_input max_change_rate_threshold
       width height blockIdx_x st i).1
    (Plain.shared_mem_index block_size_x tx ty)
  = if Plain.kIsPixelToInpaint block_coordinates depth_map_input width height
         blockIdx_x tx ty &&
       fgt (Plain.weight block_size_x block_size_y block_coordinates
              depth_map_input width height blockIdx_x st.1 tx ty) zero
    then Plain.new_depth block_size_x block_size_y block_coordinates
           depth_map_input width height blockIdx_x st.1 tx ty
    else zget zero st.1 (Plain.shared_mem_index block_size_x tx ty).
Proof.
  intros Hin Hlen. unfold Plain.sub_iteration. cbn [fst snd].
  pose proof Hin as Hin'. apply elem_of_threads in Hin' as [Hx Hy].
  match goal with |- context [writes ?g ?k ?v ?a ?l] =>
    pose proof (writes_lookup g k v zero a l (tx, ty)) as H end.
  cbn [fst snd] in H. apply H; [done| |].
  - intros [tx' ty'] Hin' He. cbn [fst snd] in He.
    apply elem_of_threads in Hin' as [Hx' Hy'].
    unfold Plain.shared_mem_index in He.
    by apply shared_mem_index_inj in He as [-> ->].
  - unfold Plain.shared_mem_index. rewrite Hlen.
    by apply shared_mem_index_range.
Qed.

(** The cell of a thread of the weighted kernel after a sub-iteration: the
    candidate when the pixel is a hole and the candidate is positive,
    unchanged otherwise. *)
Lemma weighted_sub_iteration_own_cell st i tx ty :
  (tx, ty) ∈ threads block_size_x block_size_y ->
  Z.of_nat (length st.1.1) = block_size_x * block_size_y ->
  zget zero
    (Weighted.sub_iteration block_size_x block_size_y check_convergence
       block_coordinates depth_map_input gradient_magnitude_div_sqrt2
       max_change_rate_threshold width height blockIdx_x st i).1.1
    (Weighted.shared_mem_index block_size_x tx ty)
  = if Weighted.kIsPixelToInpaint block_coordinates depth_map_input width height
         blockIdx_x tx ty &&
       fgt (Weighted.new_depth block_size_x block_size_y block_coordinates
              depth_map_input width height blockIdx_x st.1 tx ty) zero
    then Weighted.new_depth block_size_x block_size_y block_coordinates
           depth_map_input width height blockIdx_x st.1 tx ty
    else zget zero st.1.1 (Weighted.shared_mem_index block_size_x tx ty).
Proof.
  intros Hin Hlen. unfold Weighted.sub_iteration. cbn [fst snd].
  pose proof Hin as Hin'. apply elem_of_threads in Hin' as [Hx Hy].
  match goal with |- context [zget zero (writes ?g ?k ?v ?a ?l) _] =>
    pose proof (writes_lookup g k v zero a l (tx, ty)) as H end.
  cbn [fst snd] in H. apply H; [done| |].
  - intros [tx' ty'] Hin' He. cbn [fst snd] in He.
    apply elem_of_threads in Hin' as [Hx' Hy'].
    unfold Weighted.shared_mem_index in He.
    by apply shared_mem_index_inj in He as [-> ->].
  - unfold Weighted.shared_mem_index. rewrite Hlen.
    by apply shared_mem_index_range.
Qed.

(** The cell of a thread after the load: the pixel of the thread. *)
Lemma plain_load_shared_own_cell out tx ty :
  (tx, ty) ∈ threads block_size_x block_size_y ->
  zget zero
    (Plain.load_shared block_size_x block_size_y block_coordinates
       width height blockIdx_x out)
    (Plain.shared_mem_index block_size_x tx ty)
  = load zero out (Plain.y block_coordinates height blockIdx_x ty)
                  (Plain.x block_coordinates width blockIdx_x tx).
Proof.
  intros Hin. unfold Plain.load_shared.
  pose proof Hin as Hin'. apply elem_of_threads in Hin' as [Hx Hy].
  match goal with |- context [writes ?g ?k ?v ?a ?l] =>
    pose proof (writes_lookup g k v zero a l (tx, ty)) as H end.
  cbn [fst snd] in H. apply H; [done| |].
  - intros [tx' ty'] Hin' He. cbn [fst snd] in He.
    apply elem_of_threads in Hin' as [Hx' Hy'].
    unfold Plain.shared_mem_index in He.
    by apply shared_mem_index_inj in He as [-> ->].
  - unfold Plain.shared_mem_index. rewrite length_replicate.
    pose proof (shared_mem_index_range block_size_x block_size_y tx ty Hx Hy). lia.
Qed.

Lemma weighted_load_shared_own_cell out tx ty :
  (tx, ty) ∈ threads block_size_x block_size_y ->
  zget zero
    (Weighted.load_shared block_size_x block_size_y block_coordinates
       gradient_magnitude_div_sqrt2 width height blockIdx_x out).1
    (Weighted.shared_mem_index block_size_x tx ty)
  = load zero out (Weighted.y block_coordinates height blockIdx_x ty)
                  (Weighted.x block_coordinates width blockIdx_x tx).
Proof.
  intros Hin. unfold Weighted.load_shared. cbn [fst snd].
  pose proof Hin as Hin'. apply elem_of_threads in Hin' as [Hx Hy].
  match goal with |- context [writes ?g ?k ?v ?a ?l] =>
    pose proof (writes_lookup g k v zero a l (tx, ty)) as H end.
  cbn [fst snd] in H. apply H; [done| |].
  - intros [tx' ty'] Hin' He. cbn [fst snd] in He.
    apply elem_of_threads in Hin' as [Hx' Hy'].
    unfold Weighted.shared_mem_index in He.
    by apply shared_mem_index_inj in He as [-> ->].
  - unfold Weighted.shared_mem_index. rewrite length_replicate.
    pose proof (shared_mem_index_range block_size_x block_size_y tx ty Hx Hy). lia.
Qed.

End Block.
End CellProps.

(** ** The weights of the weighted kernel *)

Module WeightedProps.
Import FloatProps Invariants.

Section Block.
Variable block_coordinates : CUDABuffer_ Z.
Variable gradient_magnitude_div_sqrt2 : cudaTextureObject_t Z.
Variables width height : Z.
Variable blockIdx_x : Z.

Local Abbreviation base_weight :=
  (Weighted.base_weight block_coordinates gradient_magnitude_div_sqrt2
     width height blockIdx_x).

Lemma weighted_base_weight_nonneg tx ty : nonneg (base_weight tx ty).
Proof.
  unfold Weighted.base_weight. apply fdiv_nonneg.
  - apply fmul_nonneg; [|apply positive_nonneg, one_positive].
    apply of_Z_nonneg. destruct (Weighted.kInImage _ _ _ _ _ _); lia.
  - apply fadd_positive; [apply one_positive|].
    apply fdiv_nonneg; [|by eexists; split; [reflexivity|]].
    apply fmul_nonneg; [|apply positive_nonneg, kSqrt2_positive].
    apply fmul_nonneg; [by apply of_Z_nonneg|].
    apply of_Z_nonneg. unfold u8. apply Z.mod_pos_bound. lia.
Qed.

End Block.
End WeightedProps.

(** ** The initialisation kernel *)

Module InitProps.
Import ArrayProps FoldProps FrameProps ThreadProps CompactionProps HoleProps.

Lemma foldl_established {A B : Type} (Q P : A -> Prop) (f : A -> B -> A)
      (l : list B) (a : A) (b0 : B) :
  b0 ∈ l -> Q a ->
  (forall a b, b ∈ l -> Q a -> Q (f a b)) ->
  (forall a b, b ∈ l -> Q a -> P a -> P (f a b)) ->
  (forall a, Q a -> P (f a b0)) ->
  P (foldl f a l).
Proof.
  revert a. induction l as [|b l IH]; intros a Hin HQ Hkeep Hstable Hest.
  { by apply elem_of_nil in Hin. }
  cbn. apply elem_of_cons in Hin as [<-|Hin].
  - apply (foldl_preserves (fun a => Q a /\ P a)).
    + split; [apply Hkeep; [left|done]|by apply Hest].
    + intros a' b' Hb' [HQ' HP']. split.
      * apply Hkeep; [by right|done].
      * apply Hstable; [by right|done|done].
  - apply IH; try done.
    + apply Hkeep; [left|done].
    + intros a' b' Hb'. apply Hkeep. by right.
    + intros a' b' Hb'. apply Hstable. by right.
Qed.

Section Launch.
Variable grid_dim_x grid_dim_y : Z.
Variable depth_input_scaling_factor : float.
Variable depth_map_input : cudaTextureObject_t float.
Variables width height : Z.
Hypothesis width_range : 1 <= width <= 2 ^ 31 - 1.
Hypothesis height_range : 1 <= height <= 2 ^ 31 - 1.

Local Abbreviation scaled :=
  (fun px py => fmul depth_input_scaling_factor (tex2D depth_map_input px py)).
Local Abbreviation block :=
  (Init.block 32 32 grid_dim_x depth_input_scaling_factor depth_map_input).
Local Abbreviation launch :=
  (Init.launch 32 32 grid_dim_x depth_input_scaling_factor depth_map_input
     grid_dim_x grid_dim_y).

(** The buffer has the size of the image. *)
Local Abbreviation sized := (fun out : CUDABuffer_ float =>
  width_ out = width /\ height_ out = height /\
  Z.of_nat (length (address_ out)) = height * width).

Lemma kOutput_range bx by_ tx ty :
  Init.kOutput 32 32 width height bx by_ tx ty = true ->
  (4 <= tx < 28) /\ (4 <= ty < 28) /\
  0 <= Init.x 32 bx tx < width /\ 0 <= Init.y 32 by_ ty < height.
Proof.
  unfold Init.kOutput. rewrite !andb_true_iff, !Z.ltb_lt.
  rewrite (u32_small width), (u32_small height) by lia.
  intros [[Hreg Hx] Hy]. apply in_output_region_32 in Hreg.
  pose proof (Z.mod_pos_bound (bx * Init.kBlockOutputSizeX 32 + tx
                               - kIterationsPerKernelCall) (2 ^ 32) ltac:(lia)).
  pose proof (Z.mod_pos_bound (by_ * Init.kBlockOutputSizeY 32 + ty
                               - kIterationsPerKernelCall) (2 ^ 32) ltac:(lia)).
  unfold Init.x, Init.y, u32 in *. lia.
Qed.

Lemma block_sized st b : sized st.1 -> sized (block st b).1.
Proof.
  intros (Hw & Hh & Hl). destruct b as [bx by_]. unfold Init.block. cbn [fst snd].
  match goal with |- context [stores ?g ?r ?c ?v ?o ?l] =>
    destruct (width_stores g r c v o l) as (-> & -> & ->) end.
  done.
Qed.

(** A pixel that holds its scaled input keeps it. *)
Lemma block_stable st b px py :
  0 <= px < width -> 0 <= py < height -> sized st.1 ->
  load zero st.1 py px = scaled px py ->
  load zero (block st b).1 py px = scaled px py.
Proof.
  intros Hpx Hpy (Hw & Hh & Hl) Hv. destruct b as [bx by_].
  unfold Init.block. cbn [fst snd]. rewrite stores_are_writes.
  unfold load, at_ in *. cbn [address_ width_].
  apply writes_stable; [|done].
  intros [tx ty] _ Hg Hk. cbn [fst snd] in *. rewrite Hw, Hh in Hg.
  apply kOutput_range in Hg as (_ & _ & Hx & Hy).
  assert (Hxy : Init.x 32 bx tx = px /\ Init.y 32 by_ ty = py).
  { apply (at_inj st.1); [lia|lia|]. unfold at_. lia. }
  destruct Hxy as [Hx' Hy']. unfold Init.depth_input. by rewrite Hx', Hy'.
Qed.

(** The block of a pixel stores its scaled input. *)
Lemma block_writes st px py :
  0 <= px < width -> 0 <= py < height -> sized st.1 ->
  load zero (block st (px / 24, py / 24)).1 py px = scaled px py.
Proof.
  intros Hpx Hpy (Hw & Hh & Hl).
  unfold Init.block. cbn [fst snd]. rewrite stores_are_writes.
  unfold load, at_. cbn [address_ width_].
  pose proof (Z.div_mod px 24 ltac:(lia)) as Hdx.
  pose proof (Z.mod_pos_bound px 24 ltac:(lia)) as Hmx.
  pose proof (Z.div_mod py 24 ltac:(lia)) as Hdy.
  pose proof (Z.mod_pos_bound py 24 ltac:(lia)) as Hmy.
  assert (Hx0 : Init.x 32 (px / 24) (px mod 24 + 4) = px).
  { unfold Init.x, Init.kBlockOutputSizeX, kIterationsPerKernelCall.
    apply u32_small_eq; lia. }
  assert (Hy0 : Init.y 32 (py / 24) (py mod 24 + 4) = py).
  { unfold Init.y, Init.kBlockOutputSizeY, kIterationsPerKernelCall.
    apply u32_small_eq; lia. }
  apply writes_determined.
  - intros [tx ty] _ Hg Hk. cbn [fst snd] in *. rewrite Hw, Hh in Hg.
    apply kOutput_range in Hg as (_ & _ & Hx & Hy).
    assert (Hxy : Init.x 32 (px / 24) tx = px /\ Init.y 32 (py / 24) ty = py).
    { apply (at_inj st.1); [lia|lia|]. unfold at_. lia. }
    destruct Hxy as [Hx' Hy']. unfold Init.depth_input. by rewrite Hx', Hy'.
  - exists (px mod 24 + 4, py mod 24 + 4). cbn [fst snd]. split_and!.
    + apply elem_of_threads. lia.
    + rewrite Hw, Hh. unfold Init.kOutput. rewrite Hx0, Hy0.
      rewrite (u32_small width), (u32_small height) by lia.
      apply andb_true_iff. split; [apply andb_true_iff; split|].
      * apply in_output_region_32. lia.
      * apply Z.ltb_lt. lia.
      * apply Z.ltb_lt. lia.
    + by rewrite Hx0, Hy0.
  - nia.
Qed.

(** After the launch every pixel of the image holds its scaled input. *)
Lemma launch_output out block_coordinates px py :
  width <= grid_dim_x * 24 -> height <= grid_dim_y * 24 ->
  sized out -> 0 <= px < width -> 0 <= py < height ->
  sized (launch out block_coordinates).1 /\
  load zero (launch out block_coordinates).1 py px = scaled px py.
Proof.
  intros Hgx Hgy Hs Hpx Hpy. unfold Init.launch. split.
  - apply (foldl_preserves (fun st : CUDABuffer_ float * CUDABuffer_ Z => sized st.1));
      [done|].
    intros st b _. apply block_sized.
  - apply (foldl_established
             (fun st : CUDABuffer_ float * CUDABuffer_ Z => sized st.1)
             (fun st => load zero st.1 py px = scaled px py)
             _ _ _ (px / 24, py / 24)).
    + apply elem_of_blocks.
      pose proof (Z.div_mod px 24 ltac:(lia)).
      pose proof (Z.mod_pos_bound px 24 ltac:(lia)).
      pose proof (Z.div_mod py 24 ltac:(lia)).
      pose proof (Z.mod_pos_bound py 24 ltac:(lia)). lia.
    + done.
    + intros st b _. apply block_sized.
    + intros st b _ Hsz. by apply block_stable.
    + intros st Hsz. by apply block_writes.
Qed.

Lemma block_sum_zero {A : Type} (flag : A -> bool) (l : list A) :
  (forall t, t ∈ l -> flag t = false) -> block_sum flag l = 0.
Proof.
  intros H. unfold block_sum. apply (foldl_preserves (fun n => n = 0)); [done|].
  intros n t Hin ->. by rewrite (H t Hin).
Qed.

(** Without a pixel whose scaled input is zero no thread is active. *)
Lemma no_active_thread st bx by_ :
  (forall px py, 0 <= px < width -> 0 <= py < height ->
                 feq (scaled px py) zero = false) ->
  sized st.1 ->
  (block st (bx, by_)).2
  = store st.2 0 (u32 (bx + by_ * grid_dim_x)) 0.
Proof.
  intros Hnone (Hw & Hh & _). unfold Init.block. cbn [fst snd]. f_equal.
  rewrite block_sum_zero; [done|].
  intros [tx ty] _. cbn [fst snd]. unfold Init.thread_is_active. rewrite Hw, Hh.
  destruct (Init.kOutput 32 32 width height bx by_ tx ty) eqn:Hg; [|done].
  apply kOutput_range in Hg as (_ & _ & Hx & Hy). cbn. by apply Hnone.
Qed.

(** Without a pixel whose scaled input is zero the count of every tile of
    the grid reads as zero after the launch. *)
Lemma launch_no_activity out block_coordinates x y :
  (forall px py, 0 <= px < width -> 0 <= py < height ->
                 feq (scaled px py) zero = false) ->
  sized out -> (x, y) ∈ Init.blocks grid_dim_x grid_dim_y ->
  0 <= x + y * grid_dim_x < 2 ^ 32 ->
  zget 0 (address_ (launch out block_coordinates).2) (x + y * grid_dim_x) = 0.
Proof.
  intros Hnone Hs Hin Hk. unfold Init.launch.
  apply (foldl_established
           (fun st : CUDABuffer_ float * CUDABuffer_ Z => sized st.1)
           (fun st => zget 0 (address_ st.2) (x + y * grid_dim_x) = 0)
           _ _ _ (x, y)); try done.
  - intros st b _. apply block_sized.
  - intros st [bx by_] _ Hsz Hz. rewrite no_active_thread by done.
    cbn [store address_]. by apply zget_zset_zero.
  - intros st Hsz. rewrite no_active_thread by done.
    cbn [store address_]. unfold at_. rewrite u32_small by lia.
    replace (0 * width_ st.2 + (x + y * grid_dim_x)) with (x + y * grid_dim_x) by lia.
    apply zget_zset_same_zero.
Qed.

End Launch.

(** Without an active tile the compaction leaves its initial state. *)
Lemma compact_none grid_dim_x grid_dim_y block_activity :
  (forall b, b ∈ Init.blocks grid_dim_x grid_dim_y ->
             zget 0 block_activity (b.1 + b.2 * grid_dim_x) <= 0) ->
  Host.active_block_count (Host.compact grid_dim_x grid_dim_y block_activity) = 0 /\
  Host.pixel_to_inpaint_count (Host.compact grid_dim_x grid_dim_y block_activity) = 0.
Proof.
  intros Hz. unfold Host.compact.
  apply (foldl_preserves (fun c => Host.active_block_count c = 0 /\
                                   Host.pixel_to_inpaint_count c = 0)); [done|].
  intros c [bx by_] Hin Hc. unfold Host.compact_step.
  specialize (Hz _ Hin). cbn [fst snd] in Hz.
  by destruct (Z.ltb_spec 0 (zget 0 block_activity (bx + by_ * grid_dim_x))); [lia|].
Qed.

End InitProps.

(** ** An input without holes *)

Module NoOpProps.
Import Host ArrayProps CompactionProps InitProps HostProps.

Section Inpaint.
Variable GetBlockCount : Z -> Z -> Z.
Variable use_weighting : bool.
Variable max_num_iterations : Z.
Variable max_change_rate_threshold : float.
Variable depth_input_scaling_factor : float.
Variable gradient_magnitude_div_sqrt2 : cudaTextureObject_t Z.
Variable depth_map_input : cudaTextureObject_t float.
Variable max_change : CUDABuffer_ Z.
Variable depth_map_output : CUDABuffer_ float.
Variable block_coordinates : CUDABuffer_ Z.

Local Abbreviation width := (width_ depth_map_output).
Local Abbreviation height := (height_ depth_map_output).
Local Abbreviation gx := (grid_dim_x GetBlockCount depth_map_output).
Local Abbreviation gy := (grid_dim_y GetBlockCount depth_map_output).
Local Abbreviation scaled :=
  (fun px py => fmul depth_input_scaling_factor (tex2D depth_map_input px py)).

(** The image is not empty, its sizes are [int]s, and the buffer holds it. *)
Hypothesis width_range : 1 <= width <= 2 ^ 31 - 1.
Hypothesis height_range : 1 <= height <= 2 ^ 31 - 1.
Hypothesis allocated :
  Z.of_nat (length (address_ depth_map_output)) = height * width.
(** The grid of [GetBlockCount] covers the image. *)
Hypothesis grid_covers_width : width <= gx * kBlockOutputSizeX.
Hypothesis grid_covers_height : height <= gy * kBlockOutputSizeY.

(** C3.  When no pixel of the image has a scaled input equal to zero, the
    function returns 0 whatever the other arguments, launches no diffusion
    kernel, sets [pixel_to_inpaint_count] to 0, and leaves in the output
    buffer, at every pixel, the input scaled by
    [depth_input_scaling_factor]. *)
Theorem no_hole_is_a_no_op fuel :
  (forall px py, 0 <= px < width -> 0 <= py < height ->
                 feq (scaled px py) zero = false) ->
  exists r,
    InpaintDepthMapWithConvolutionCUDA GetBlockCount use_weighting
      max_num_iterations max_change_rate_threshold depth_input_scaling_factor
      gradient_magnitude_div_sqrt2 depth_map_input max_change depth_map_output
      block_coordinates fuel = Some r /\
    iterations r = 0 /\
    launches_out r = [] /\
    pixel_to_inpaint_count_out r = 0 /\
    width_ (depth_map_output_out r) = width /\
    height_ (depth_map_output_out r) = height /\
    forall px py, 0 <= px < width -> 0 <= py < height ->
      load zero (depth_map_output_out r) py px = scaled px py.
Proof.
  intros Hnone.
  unfold kBlockOutputSizeX, kBlockOutputSizeY, kBlockWidth, kBlockHeight,
    kIterationsPerKernelCall in *.
  change (32 - 2 * 4) with 24 in *.
  assert (Hs : width_ depth_map_output = width /\ height_ depth_map_output = height /\
               Z.of_nat (length (address_ depth_map_output)) = height * width) by done.
  destruct (compact_none gx gy
              (block_activity GetBlockCount depth_input_scaling_factor
                 depth_map_input depth_map_output block_coordinates)) as [Hn Hc].
  { intros [x y] Hin. cbn [fst snd]. unfold block_activity, DownloadPart.
    rewrite zget_take. destruct (decide _) as [Hk|Hk]; [|done].
    unfold initialized.
    rewrite (launch_no_activity gx gy depth_input_scaling_factor depth_map_input
               width height); try done.
    pose proof (Z.mod_pos_bound (gx * gy) (2 ^ 32) ltac:(lia)) as Hm.
    fold (u32 (gx * gy)) in Hm. lia. }
  exists (Result 0 0 (initialized GetBlockCount depth_input_scaling_factor
                        depth_map_input depth_map_output block_coordinates).1
            (initialized GetBlockCount depth_input_scaling_factor
               depth_map_input depth_map_output block_coordinates).2
            max_change [] []).
  split.
  { unfold InpaintDepthMapWithConvolutionCUDA, compacted. rewrite Hn. cbn.
    do 2 f_equal. by rewrite Hc. }
  cbn. split_and!; try done.
  - unfold initialized.
    by destruct (launch_output gx gy depth_input_scaling_factor depth_map_input
                   width height width_range height_range depth_map_output
                   block_coordinates 0 0) as [(? & ? & ?) _]; try done; try lia.
  - unfold initialized.
    by destruct (launch_output gx gy depth_input_scaling_factor depth_map_input
                   width height width_range height_range depth_map_output
                   block_coordinates 0 0) as [(? & ? & ?) _]; try done; try lia.
  - intros px py Hpx Hpy. unfold initialized.
    by destruct (launch_output gx gy depth_input_scaling_factor depth_map_input
                   width height width_range height_range depth_map_output
                   block_coordinates px py) as [_ ?].
Qed.

End Inpaint.
End NoOpProps.

(** ** The flags of a launch that checks convergence *)

Module FlagProps.
Import Host ArrayProps FoldProps.

Lemma seqZ_last n : 0 <= n -> seqZ 0 (n + 1) = seqZ 0 n ++ [n].
Proof.
  intros Hn. rewrite seqZ_app by lia. by f_equal.
Qed.

Lemma zget_store_other (mc : CUDABuffer_ Z) b j v :
  j <> b -> zget 0 (address_ (store mc 0 b v)) j = zget 0 (address_ mc) j.
Proof. intros Hne. cbn. apply zget_zset_ne. unfold at_. lia. Qed.

Lemma zget_store_zero (mc : CUDABuffer_ Z) b :
  zget 0 (address_ (store mc 0 b 0)) b = 0.
Proof.
  cbn. unfold at_. replace (0 * width_ mc + b) with b by lia.
  apply zget_zset_same_zero.
Qed.

(** No flag set among the downloaded ones: the count of the host is zero. *)
Lemma count_set_zero flags n :
  (forall j, 0 <= j < n -> zget 0 flags j = 0) -> count_set flags n = 0.
Proof.
  intros Hz. unfold count_set. apply (foldl_preserves (fun c => c = 0)); [done|].
  intros c j Hj ->. apply elem_of_seqZ in Hj. by rewrite Hz by lia.
Qed.

Section Launch.
Variable block_coordinates : CUDABuffer_ Z.
Variable depth_map_input : cudaTextureObject_t float.
Variable gradient_magnitude_div_sqrt2 : cudaTextureObject_t Z.
Variable max_change_rate_threshold : float.

(** The plain kernel stores flags at the index of its block only, and the
    flag that stays is the one of the last sub-iteration. *)
Lemma plain_sub_iterations_flags width height b k shared mc j :
  j <> b ->
  zget 0 (address_ (foldl (Plain.sub_iteration 32 32 true block_coordinates
                             depth_map_input max_change_rate_threshold
                             width height b) (shared, mc) k).2) j
  = zget 0 (address_ mc) j.
Proof.
  intros Hne.
  apply (foldl_preserves (fun st : list float * CUDABuffer_ Z =>
           zget 0 (address_ st.2) j = zget 0 (address_ mc) j)); [done|].
  intros st i _ Hst. unfold Plain.sub_iteration. cbn [fst snd].
  by rewrite zget_store_other.
Qed.

Lemma plain_block_flags st b :
  let st' := Plain.block 32 32 true block_coordinates depth_map_input
               max_change_rate_threshold st b in
  (forall j, j <> b -> zget 0 (address_ st'.1) j = zget 0 (address_ st.1) j) /\
  (block_final_active_pixels false max_change_rate_threshold
     gradient_magnitude_div_sqrt2 depth_map_input block_coordinates st b = 0 ->
   zget 0 (address_ st'.1) b = 0).
Proof.
  destruct st as [mc out]. unfold Plain.block, block_final_active_pixels.
  cbn [fst snd]. unfold Plain.final_active_pixels, Plain.before_sub_iteration.
  unfold Plain.sub_iterations, kIterationsPerKernelCall.
  change 4 with (3 + 1). change (3 + 1 - 1) with 3.
  rewrite seqZ_last by lia. rewrite foldl_app. cbn [foldl].
  set (before := foldl _ _ (seqZ 0 3)).
  assert (Hbefore : forall j, j <> b ->
            zget 0 (address_ before.2) j = zget 0 (address_ mc) j).
  { intros j Hj. by apply plain_sub_iterations_flags. }
  unfold Plain.sub_iteration. cbn [fst snd]. split.
  - intros j Hj. rewrite zget_store_other by done. by apply Hbefore.
  - intros ->. cbn [Z.ltb Z.compare]. apply zget_store_zero.
Qed.

Lemma weighted_sub_iterations_flags width height b k shared mc j :
  j <> b ->
  zget 0 (address_ (foldl (Weighted.sub_iteration 32 32 true block_coordinates
                             depth_map_input gradient_magnitude_div_sqrt2
                             max_change_rate_threshold width height b)
                          (shared, mc) k).2) j
  = zget 0 (address_ mc) j.
Proof.
  intros Hne.
  apply (foldl_preserves (fun st : (list float * list float) * CUDABuffer_ Z =>
           zget 0 (address_ st.2) j = zget 0 (address_ mc) j)); [done|].
  intros st i _ Hst. unfold Weighted.sub_iteration. cbn [fst snd].
  destruct (Weighted.tests_convergence true i); [|done].
  by rewrite zget_store_other.
Qed.

Lemma weighted_block_flags st b :
  let st' := Weighted.block 32 32 true block_coordinates depth_map_input
               gradient_magnitude_div_sqrt2 max_change_rate_threshold st b in
  (forall j, j <> b -> zget 0 (address_ st'.1) j = zget 0 (address_ st.1) j) /\
  (block_final_active_pixels true max_change_rate_threshold
     gradient_magnitude_div_sqrt2 depth_map_input block_coordinates st b = 0 ->
   zget 0 (address_ st'.1) b = 0).
Proof.
  destruct st as [mc out]. unfold Weighted.block, block_final_active_pixels.
  cbn [fst snd]. unfold Weighted.final_active_pixels, Weighted.before_sub_iteration.
  unfold Weighted.sub_iterations, kIterationsPerKernelCall.
  change 4 with (3 + 1). change (3 + 1 - 1) with 3.
  rewrite seqZ_last by lia. rewrite foldl_app. cbn [foldl].
  set (before := foldl _ _ (seqZ 0 3)).
  assert (Hbefore : forall j, j <> b ->
            zget 0 (address_ before.2) j = zget 0 (address_ mc) j).
  { intros j Hj. by apply weighted_sub_iterations_flags. }
  unfold Weighted.sub_iteration. change (Weighted.tests_convergence true 3) with true.
  cbn [fst snd]. split.
  - intros j Hj. rewrite zget_store_other by done. by apply Hbefore.
  - intros ->. cbn [Z.ltb Z.compare]. apply zget_store_zero.
Qed.

Lemma launch_blocks_succ use_weighting n mc out :
  0 <= n ->
  launch_blocks use_weighting max_change_rate_threshold
    gradient_magnitude_div_sqrt2 depth_map_input block_coordinates (n + 1) true mc out
  = (if use_weighting
     then Weighted.block 32 32 true block_coordinates depth_map_input
            gradient_magnitude_div_sqrt2 max_change_rate_threshold
     else Plain.block 32 32 true block_coordinates depth_map_input
            max_change_rate_threshold)
      (launch_blocks use_weighting max_change_rate_threshold
         gradient_magnitude_div_sqrt2 depth_map_input block_coordinates n true mc out)
      n.
Proof.
  intros Hn. unfold launch_blocks, Weighted.launch, Plain.launch.
  destruct use_weighting; rewrite seqZ_last by lia; by rewrite foldl_app.
Qed.

(** When no pixel of any tile exceeds the threshold, every flag of the
    launch reads as zero. *)
Lemma launch_flags_zero use_weighting (m : nat) mc out :
  (forall b, 0 <= b < Z.of_nat m ->
     block_final_active_pixels use_weighting max_change_rate_threshold
       gradient_magnitude_div_sqrt2 depth_map_input block_coordinates
       (launch_blocks use_weighting max_change_rate_threshold
          gradient_magnitude_div_sqrt2 depth_map_input block_coordinates b true mc out)
       b = 0) ->
  forall j, 0 <= j < Z.of_nat m ->
    zget 0 (address_ (launch_blocks use_weighting max_change_rate_threshold
                        gradient_magnitude_div_sqrt2 depth_map_input
                        block_coordinates (Z.of_nat m) true mc out).1) j = 0.
Proof.
  induction m as [|m IH]; intros Hz j Hj; [lia|].
  replace (Z.of_nat (S m)) with (Z.of_nat m + 1) by lia.
  rewrite launch_blocks_succ by lia.
  specialize (Hz (Z.of_nat m) ltac:(lia)) as Hm.
  destruct use_weighting.
  - destruct (weighted_block_flags
                (launch_blocks true max_change_rate_threshold
                   gradient_magnitude_div_sqrt2 depth_map_input block_coordinates
                   (Z.of_nat m) true mc out) (Z.of_nat m)) as [Hother Hown].
    destruct (Z.eq_dec j (Z.of_nat m)) as [->|Hne]; [by apply Hown|].
    rewrite Hother by done. apply IH; [|lia].
    intros b Hb. apply Hz. lia.
  - destruct (plain_block_flags
                (launch_blocks false max_change_rate_threshold
                   gradient_magnitude_div_sqrt2 depth_map_input block_coordinates
                   (Z.of_nat m) true mc out) (Z.of_nat m)) as [Hother Hown].
    destruct (Z.eq_dec j (Z.of_nat m)) as [->|Hne]; [by apply Hown|].
    rewrite Hother by done. apply IH; [|lia].
    intros b Hb. apply Hz. lia.
Qed.

(** When no pixel of any tile exceeds the threshold in a launch that checks
    convergence, the host counts no set flag. *)
Lemma no_flag_is_set use_weighting n st :
  - 2 ^ 31 <= n < 2 ^ 31 ->
  no_pixel_exceeds_threshold use_weighting max_change_rate_threshold
    gradient_magnitude_div_sqrt2 depth_map_input block_coordinates n
    (Host.max_change st) (Host.depth_map_output st) ->
  count_set (downloaded_flags use_weighting max_change_rate_threshold
               gradient_magnitude_div_sqrt2 depth_map_input block_coordinates n st) n
  = 0.
Proof.
  intros Hn Hnone. apply count_set_zero. intros j Hj.
  unfold downloaded_flags, DownloadPart, launch_kernel. rewrite zget_take.
  destruct (decide _) as [_|Hk]; [|done].
  unfold no_pixel_exceeds_threshold in Hnone.
  rewrite u32_small in * by lia.
  rewrite <- (Z2Nat.id n) at 1 by lia.
  apply launch_flags_zero; [|lia].
  intros b Hb. apply Hnone. lia.
Qed.

End Launch.

Lemma compact_count_range gx gy block_activity :
  - 2 ^ 31 <= active_block_count (compact gx gy block_activity) < 2 ^ 31.
Proof.
  unfold compact.
  apply (foldl_preserves (fun c => - 2 ^ 31 <= active_block_count c < 2 ^ 31)).
  - cbn. lia.
  - intros c [x y] _ Hc. unfold compact_step.
    destruct (0 <? _); [|done]. cbn. unfold i32.
    pose proof (Z.mod_pos_bound (active_block_count c + 1 + 2 ^ 31) (2 ^ 32)
                  ltac:(lia)). lia.
Qed.

End FlagProps.

(** ** The schedule of the convergence checks *)

Module ScheduleProps.
Import Host ArrayProps LoopProps HostProps FlagProps Stated Invariants.

Section Inpaint.
Variable GetBlockCount : Z -> Z -> Z.
Variable use_weighting : bool.
Variable max_num_iterations : Z.
Variable max_change_rate_threshold : float.
Variable depth_input_scaling_factor : float.
Variable gradient_magnitude_div_sqrt2 : cudaTextureObject_t Z.
Variable depth_map_input : cudaTextureObject_t float.
Variable max_change : CUDABuffer_ Z.
Variable depth_map_output : CUDABuffer_ float.
Variable block_coordinates : CUDABuffer_ Z.

Local Abbreviation Inpaint :=
  (InpaintDepthMapWithConvolutionCUDA GetBlockCount use_weighting
     max_num_iterations max_change_rate_threshold depth_input_scaling_factor
     gradient_magnitude_div_sqrt2 depth_map_input max_change depth_map_output
     block_coordinates).
Local Abbreviation the_compacted :=
  (compacted GetBlockCount depth_input_scaling_factor depth_map_input
     depth_map_output block_coordinates).
Local Abbreviation the_uploaded :=
  (uploaded GetBlockCount depth_input_scaling_factor depth_map_input
     depth_map_output block_coordinates).
Local Abbreviation the_initialized :=
  (initialized GetBlockCount depth_input_scaling_factor depth_map_input
     depth_map_output block_coordinates).
Local Abbreviation the_loop :=
  (iterate use_weighting max_num_iterations max_change_rate_threshold
     gradient_magnitude_div_sqrt2 depth_map_input the_uploaded
     (active_block_count the_compacted)).
Local Abbreviation the_body :=
  (body use_weighting max_change_rate_threshold
     gradient_magnitude_div_sqrt2 depth_map_input the_uploaded
     (active_block_count the_compacted)).
Local Abbreviation the_initial_state :=
  (initial_state GetBlockCount depth_input_scaling_factor depth_map_input
     max_change depth_map_output block_coordinates).

Local Abbreviation first_flags :=
  (downloaded_flags use_weighting max_change_rate_threshold
     gradient_magnitude_div_sqrt2 depth_map_input the_uploaded
     (active_block_count the_compacted) the_initial_state).
Local Abbreviation I_schedule :=
  (schedule_invariant the_initial_state first_flags
     (active_block_count the_compacted)).

(** Under the invariant the test [i - last >= 25] is [i mod 28 = 0], and a
    checking pass is the one numbered by the length of the check log. *)
Lemma schedule_check s :
  max_num_iterations <= 2 ^ 31 - 4 -> I_schedule s -> i s < max_num_iterations ->
  (25 <=? i32 (i s - last_convergence_check_iteration s)) = (i s mod 28 =? 0) /\
  (i s mod 28 = 0 -> i s = 28 * Z.of_nat (length (checks s))) /\
  i32 (i s + kIterationsPerKernelCall) = i s + 4.
Proof.
  intros Hmax (_ & Hi & Hcase) Hlt.
  assert (0 <= i s) by lia.
  unfold kIterationsPerKernelCall. rewrite (i32_small (i s + 4)) by lia.
  destruct Hcase as [-> |(_ & Hone & Hlast & Hd & _)]; [done|].
  rewrite i32_small by lia.
  assert (Hm : i s mod 28 = (i s - last_convergence_check_iteration s) mod 28).
  { rewrite Hlast.
    replace (i s) with
      (i s - 28 * (Z.of_nat (length (checks s)) - 1)
       + (Z.of_nat (length (checks s)) - 1) * 28) at 1 by lia.
    by rewrite Z.mod_add by lia. }
  assert (Hmul : (i s - last_convergence_check_iteration s) mod 4 = 0).
  { rewrite Hlast, Hi.
    replace (4 * Z.of_nat (length (launches s))
             - 28 * (Z.of_nat (length (checks s)) - 1))
      with ((Z.of_nat (length (launches s))
             - 7 * (Z.of_nat (length (checks s)) - 1)) * 4) by lia.
    apply Z.mod_mul. lia. }
  apply Z.mod_divide in Hmul; [|lia]. destruct Hmul as [q Hq].
  rewrite Hm.
  destruct (Z.eq_dec (i s - last_convergence_check_iteration s) 28) as [He|Hne].
  - rewrite He. split_and!; [|lia|done].
    destruct (Z.leb_spec 25 28); [done|lia].
  - rewrite Z.mod_small by lia. split_and!; [|lia|done].
    destruct (Z.leb_spec 25 (i s - last_convergence_check_iteration s)),
             (Z.eqb_spec (i s - last_convergence_check_iteration s) 0); lia.
Qed.

(** The logs after a pass. *)
Lemma schedule_logs_step s s' :
  max_num_iterations <= 2 ^ 31 - 4 -> I_schedule s -> i s < max_num_iterations ->
  the_body s = inl s' \/ the_body s = inr s' ->
  schedule_logs first_flags s' /\
  i s' = i s + 4 /\
  length (launches s') = S (length (launches s)) /\
  (1 <= length (checks s'))%nat.
Proof.
  intros Hmax HI Hlt Hb.
  destruct (schedule_check s Hmax HI Hlt) as (Hchk & Hidx & Hi4).
  destruct HI as ((HL & HC & HF) & Hi & Hcase).
  destruct (body_cases _ _ _ _ _ _ _ _ Hb) as (Hi' & Hlog & Hno & Hyes).
  rewrite Hi4 in Hi'. rewrite Hchk in Hlog, Hno, Hyes.
  assert (Hlen : length (launches s') = S (length (launches s))).
  { rewrite Hlog, length_app. cbn. lia. }
  assert (HL' : forall k l, launches s' !! k = Some l ->
            launch_i l = 4 * Z.of_nat k /\
            launch_check_convergence l = (launch_i l mod 28 =? 0)).
  { intros k l. rewrite Hlog. intros Hk.
    apply lookup_app_Some in Hk as [Hk|[Hge Hk]]; [by apply HL|].
    apply list_lookup_singleton_Some in Hk as [Hk <-]. cbn.
    split; [lia|done]. }
  destruct (Z.eqb_spec (i s mod 28) 0) as [Hz|Hnz].
  - destruct (Hyes eq_refl) as (Hchecks & _).
    split_and!; [split_and!| | |]; try done.
    + intros k c. rewrite Hchecks. intros Hk.
      apply lookup_app_Some in Hk as [Hk|[Hge Hk]]; [by apply HC|].
      apply list_lookup_singleton_Some in Hk as [Hk <-]. cbn.
      rewrite (Hidx Hz). lia.
    + intros c. rewrite Hchecks. intros Hk.
      apply lookup_app_Some in Hk as [Hk|[Hge Hk]]; [by apply HF|].
      apply list_lookup_singleton_Some in Hk as [Hk <-]. cbn.
      destruct Hcase as [-> |(_ & Hone & _)]; [done|]. cbn in Hge. lia.
    + rewrite Hchecks, length_app. cbn. lia.
  - destruct (Hno eq_refl) as (_ & Hchecks & _).
    split_and!; [split_and!| | |]; try done.
    + intros k c. rewrite Hchecks. apply HC.
    + intros c. rewrite Hchecks. apply HF.
    + rewrite Hchecks.
      destruct Hcase as [-> |(_ & Hone & _)]; [by exfalso; apply Hnz|lia].
Qed.

(** The logs of a run follow the schedule, and the first launch checks (at
    [i = 0], because of the initial [-9999]): when no flag is set after it,
    in particular when no pixel has a relative change above the threshold in
    its last sub-iteration, the function returns 4. *)
Lemma first_check_decides fuel r :
  max_num_iterations <= 2 ^ 31 - 4 ->
  Inpaint fuel = Some r ->
  (forall k l, launches_out r !! k = Some l ->
     launch_i l = 4 * Z.of_nat k /\
     launch_check_convergence l = (launch_i l mod 28 =? 0)) /\
  (forall k c, checks_out r !! k = Some c -> check_i c = 28 * Z.of_nat k) /\
  (active_block_count the_compacted <> 0 -> 0 < max_num_iterations ->
   exists l c,
     launches_out r !! 0%nat = Some l /\ checks_out r !! 0%nat = Some c /\
     launch_i l = 0 /\ launch_check_convergence l = true /\
     check_i c = 0 /\ check_max_change_cpu c = first_flags /\
     (count_set first_flags (active_block_count the_compacted) = 0 ->
      iterations r = 4) /\
     (no_pixel_exceeds_threshold use_weighting max_change_rate_threshold
        gradient_magnitude_div_sqrt2 depth_map_input the_uploaded
        (active_block_count the_compacted) max_change the_initialized.1 ->
      iterations r = 4)).
Proof.
  intros Hmax Hrun.
  destruct (Inpaint_cases _ _ _ _ _ _ _ _ _ _ _ _ Hrun) as [[Hz ->]|(Hnz & st & Hloop & ->)]; cbn.
  { split_and!; [intros ? ? [=]|intros ? ? [=]|done]. }
  assert (HF : schedule_logs first_flags st /\
               (0 < max_num_iterations ->
                (1 <= length (launches st))%nat /\ (1 <= length (checks st))%nat /\
                (count_set first_flags (active_block_count the_compacted) = 0 ->
                 i st = 4))).
  { revert Hloop.
    apply (iterate_rule _ _ _ _ _ _ _ I_schedule (fun s =>
      schedule_logs first_flags s /\
      (0 < max_num_iterations ->
       (1 <= length (launches s))%nat /\ (1 <= length (checks s))%nat /\
       (count_set first_flags (active_block_count the_compacted) = 0 -> i s = 4)))).
    - intros s s' HI Hlt Hb.
      destruct (schedule_logs_step s s' Hmax HI Hlt (or_introl Hb))
        as (Hlogs & Hi' & Hlen & Hone).
      destruct (schedule_check s Hmax HI Hlt) as (Hchk & Hidx & _).
      destruct (body_cases _ _ _ _ _ _ _ _ (or_introl Hb)) as (_ & _ & Hno & Hyes).
      rewrite Hchk in Hno, Hyes.
      destruct HI as (_ & Hi & Hcase).
      split_and!; [done|lia|]. right.
      destruct (Z.eqb_spec (i s mod 28) 0) as [Hz|Hnz'].
      + destruct (Hyes eq_refl) as (Hchecks & Hzero & Hnonzero).
        destruct (Z.eq_dec (count_set
          (downloaded_flags use_weighting max_change_rate_threshold
             gradient_magnitude_div_sqrt2 depth_map_input the_uploaded
             (active_block_count the_compacted) s)
          (active_block_count the_compacted)) 0) as [Hc0|Hc0].
        { destruct (Hzero Hc0) as [Hbr _]. congruence. }
        destruct (Hnonzero Hc0) as [_ Hlast].
        split; [lia|]. split; [done|]. split; [|split; [lia|]].
        * rewrite Hlast, Hchecks, length_app, (Hidx Hz). cbn. lia.
        * destruct Hcase as [-> |(_ & _ & _ & _ & Hc)]; done.
      + destruct (Hno eq_refl) as (Hlast & Hchecks & _).
        destruct Hcase as [-> |(_ & _ & Hl & Hd & Hc)]; [done|].
        rewrite Hlast, Hchecks.
        assert (i s - last_convergence_check_iteration s <> 28).
        { intros He. apply Hnz'. rewrite Hl in He.
          replace (i s) with (0 + Z.of_nat (length (checks s)) * 28) by lia.
          by rewrite Z.mod_add by lia. }
        assert (Hmul : (i s - last_convergence_check_iteration s) mod 4 = 0).
        { rewrite Hl, Hi.
          replace (4 * Z.of_nat (length (launches s))
                   - 28 * (Z.of_nat (length (checks s)) - 1))
            with ((Z.of_nat (length (launches s))
                   - 7 * (Z.of_nat (length (checks s)) - 1)) * 4) by lia.
          apply Z.mod_mul. lia. }
        apply Z.mod_divide in Hmul; [|lia]. destruct Hmul as [q Hq].
        split; [lia|]. split; [lia|]. split; [done|]. split; [lia|done].
    - intros s s' HI Hlt Hb.
      destruct (schedule_logs_step s s' Hmax HI Hlt (or_intror Hb))
        as (Hlogs & Hi' & Hlen & Hone).
      destruct (schedule_check s Hmax HI Hlt) as (Hchk & Hidx & _).
      destruct (body_cases _ _ _ _ _ _ _ _ (or_intror Hb)) as (_ & _ & Hno & Hyes).
      rewrite Hchk in Hno, Hyes.
      destruct HI as (_ & Hi & Hcase).
      split; [done|]. intros _. split_and!; [lia|done|].
      intros Hc0. destruct Hcase as [-> |(_ & _ & _ & _ & Hc)]; [by rewrite Hi'|done].
    - intros s (Hlogs & Hi & Hcase) Hge. split; [done|].
      intros Hpos. destruct Hcase as [-> |(Hl1 & Hc1 & _ & _ & Hc)]; [cbn in Hge; lia|].
      split_and!; done.
    - split_and!.
      + split_and!; [intros ? ? [=]|intros ? ? [=]|intros ? [=]].
      + done.
      + by left. }
  destruct HF as ((HL & HC & HF1) & Hpos).
  split_and!; [done|done|].
  intros _ Hmax0. destruct (Hpos Hmax0) as (Hl1 & Hc1 & Hret).
  destruct (launches st) as [|l ls] eqn:Hls; [cbn in Hl1; lia|].
  destruct (checks st) as [|c cs] eqn:Hcs; [cbn in Hc1; lia|].
  exists l, c. cbn.
  destruct (HL 0%nat l eq_refl) as [Hli Hlc].
  pose proof (HC 0%nat c eq_refl) as Hci.
  pose proof (HF1 c eq_refl) as Hcf.
  split_and!; try done.
  - by rewrite Hlc, Hli.
  - intros Hnone. apply Hret.
    apply (no_flag_is_set _ _ _ _ _ _ the_initial_state);
      [apply compact_count_range|exact Hnone].
Qed.

End Inpaint.
End ScheduleProps.

(** ** The values of the inpainted pixels *)

Module OverwriteProps.
Import Host ArrayProps FoldProps FrameProps ThreadProps LoopProps InitProps
       HostProps CellProps Overwrite.

Section Launch.
Variable check_convergence : bool.
Variable block_coordinates : CUDABuffer_ Z.
Variable depth_map_input : cudaTextureObject_t float.
Variable gradient_magnitude_div_sqrt2 : cudaTextureObject_t Z.
Variable max_change_rate_threshold : float.
Variables width height : Z.
Variable scaled : Z -> Z -> float.
Hypothesis width_range : 1 <= width <= 2 ^ 31 - 1.
Hypothesis height_range : 1 <= height <= 2 ^ 31 - 1.

Local Abbreviation plain_ok :=
  (held_or_written scaled depth_map_input
     (plain_candidate block_coordinates depth_map_input width height)
     width height).
Local Abbreviation weighted_ok :=
  (held_or_written scaled depth_map_input
     (weighted_candidate block_coordinates depth_map_input width height)
     width height).

(** After the sub-iterations of a block of the plain kernel a cell holds
    what was loaded or a candidate. *)
Lemma plain_sub_iterations_written b shared max_change j :
  let shared' :=
    (Plain.sub_iterations 32 32 check_convergence block_coordinates
       depth_map_input max_change_rate_threshold width height b
       shared max_change).1 in
  zget zero shared' j = zget zero shared j \/
  plain_candidate block_coordinates depth_map_input width height
    (zget zero shared' j).
Proof.
  cbv zeta. unfold Plain.sub_iterations.
  apply (foldl_preserves (fun st : list float * CUDABuffer_ Z =>
    zget zero st.1 j = zget zero shared j \/
    plain_candidate block_coordinates depth_map_input width height
      (zget zero st.1 j))).
  - by left.
  - intros st i _ Hst. unfold Plain.sub_iteration. cbn [fst snd].
    match goal with |- context [writes ?g ?k ?v ?a ?l] =>
      destruct (writes_cases g k v zero a l j) as [->|(t & _ & Hg & _ & ->)] end.
    + done.
    + right. unfold Plain.writes_shared in Hg.
      apply andb_true_iff in Hg as [_ Hg].
      by exists b, st.1, t.1, t.2.
Qed.

(** Likewise for the weighted kernel. *)
Lemma weighted_sub_iterations_written b shared max_change j :
  let shared' :=
    (Weighted.sub_iterations 32 32 check_convergence block_coordinates
       depth_map_input gradient_magnitude_div_sqrt2 max_change_rate_threshold
       width height b shared max_change).1 in
  zget zero shared'.1 j = zget zero shared.1 j \/
  weighted_candidate block_coordinates depth_map_input width height
    (zget zero shared'.1 j).
Proof.
  cbv zeta. unfold Weighted.sub_iterations.
  apply (foldl_preserves
    (fun st : (list float * list float) * CUDABuffer_ Z =>
       zget zero st.1.1 j = zget zero shared.1 j \/
       weighted_candidate block_coordinates depth_map_input width height
         (zget zero st.1.1 j))).
  - by left.
  - intros st i _ Hst. unfold Weighted.sub_iteration. cbn [fst snd].
    match goal with |- context [zget zero (writes ?g ?k ?v ?a ?l) _] =>
      destruct (writes_cases g k v zero a l j) as [->|(t & _ & Hg & _ & ->)] end.
    + done.
    + right. unfold Weighted.writes_shared in Hg.
      apply andb_true_iff in Hg as [_ Hg].
      split; [done|]. by exists b, st.1, t.1, t.2.
Qed.

(** One block of the plain kernel keeps the invariant of the working
    buffer, from whatever the buffer holds when the block runs. *)
Lemma plain_block_written st b :
  plain_ok st.2 ->
  plain_ok (Plain.block 32 32 check_convergence block_coordinates
              depth_map_input max_change_rate_threshold st b).2.
Proof.
  destruct st as [max_change out]. cbn [snd].
  intros (Hw & Hh & Hpix). unfold Plain.block. cbn [fst snd]. rewrite Hw, Hh.
  pose proof (plain_sub_iterations_written b
                (Plain.load_shared 32 32 block_coordinates width height b out)
                max_change) as Hcells.
  cbv zeta in Hcells.
  destruct (Plain.sub_iterations _ _ _ _ _ _ _ _ _ _ _) as [shared mc'].
  cbn [fst snd] in *. unfold Plain.write_back.
  destruct (width_stores
    (fun t : Z * Z =>
       Plain.kOutput 32 32 block_coordinates width height b t.1 t.2 &&
       Plain.kIsPixelToInpaint block_coordinates depth_map_input width height
         b t.1 t.2)
    (fun t => Plain.y block_coordinates height b t.2)
    (fun t => Plain.x block_coordinates width b t.1)
    (fun t => zget zero shared (Plain.shared_mem_index 32 t.1 t.2))
    out (threads 32 32)) as (Hw' & Hh' & _).
  split; [by rewrite Hw'|]. split; [by rewrite Hh'|].
  intros px py Hpx Hpy Hhole. specialize (Hpix px py Hpx Hpy Hhole).
  rewrite stores_are_writes. unfold load, at_. cbn [address_ width_].
  match goal with |- context [writes ?g ?k ?v ?a ?l] =>
    destruct (writes_cases g k v zero a l (py * width_ out + px))
      as [->|(t & Hin & Hg & Hk & ->)] end.
  { done. }
  destruct t as [tx ty]. cbn [fst snd] in *.
  assert (Hxy : Plain.x block_coordinates width b tx = px /\
                Plain.y block_coordinates height b ty = py).
  { apply (at_inj out); [rewrite Hw; apply plain_x_range; lia|lia|].
    unfold at_. lia. }
  destruct Hxy as [Hx Hy].
  destruct (Hcells (Plain.shared_mem_index 32 tx ty)) as [He|Hc].
  - rewrite He, plain_load_shared_own_cell, Hx, Hy by (done || lia).
    done.
  - by right.
Qed.

Lemma weighted_block_written st b :
  weighted_ok st.2 ->
  weighted_ok (Weighted.block 32 32 check_convergence block_coordinates
                 depth_map_input gradient_magnitude_div_sqrt2
                 max_change_rate_threshold st b).2.
Proof.
  destruct st as [max_change out]. cbn [snd].
  intros (Hw & Hh & Hpix). unfold Weighted.block. cbn [fst snd]. rewrite Hw, Hh.
  pose proof (weighted_sub_iterations_written b
                (Weighted.load_shared 32 32 block_coordinates
                   gradient_magnitude_div_sqrt2 width height b out)
                max_change) as Hcells.
  cbv zeta in Hcells.
  destruct (Weighted.sub_iterations _ _ _ _ _ _ _ _ _ _ _ _) as [shared mc'].
  cbn [fst snd] in *. unfold Weighted.write_back.
  destruct (width_stores
    (fun t : Z * Z =>
       Weighted.kOutput 32 32 block_coordinates depth_map_input
         width height b t.1 t.2)
    (fun t => Weighted.y block_coordinates height b t.2)
    (fun t => Weighted.x block_coordinates width b t.1)
    (fun t => zget zero shared.1 (Weighted.shared_mem_index 32 t.1 t.2))
    out (threads 32 32)) as (Hw' & Hh' & _).
  split; [by rewrite Hw'|]. split; [by rewrite Hh'|].
  intros px py Hpx Hpy Hhole. specialize (Hpix px py Hpx Hpy Hhole).
  rewrite stores_are_writes. unfold load, at_. cbn [address_ width_].
  match goal with |- context [writes ?g ?k ?v ?a ?l] =>
    destruct (writes_cases g k v zero a l (py * width_ out + px))
      as [->|(t & Hin & Hg & Hk & ->)] end.
  { done. }
  destruct t as [tx ty]. cbn [fst snd] in *.
  assert (Hxy : Weighted.x block_coordinates width b tx = px /\
                Weighted.y block_coordinates height b ty = py).
  { apply (at_inj out); [rewrite Hw; apply weighted_x_range; lia|lia|].
    unfold at_. lia. }
  destruct Hxy as [Hx Hy].
  destruct (Hcells (Weighted.shared_mem_index 32 tx ty)) as [He|Hc].
  - rewrite He, weighted_load_shared_own_cell, Hx, Hy
      by (done || lia).
    done.
  - by right.
Qed.

End Launch.

Section Inpaint.
Variable GetBlockCount : Z -> Z -> Z.
Variable use_weighting : bool.
Variable max_num_iterations : Z.
Variable max_change_rate_threshold : float.
Variable depth_input_scaling_factor : float.
Variable gradient_magnitude_div_sqrt2 : cudaTextureObject_t Z.
Variable depth_map_input : cudaTextureObject_t float.
Variable max_change : CUDABuffer_ Z.
Variable depth_map_output : CUDABuffer_ float.
Variable block_coordinates : CUDABuffer_ Z.

Local Abbreviation width := (width_ depth_map_output).
Local Abbreviation height := (height_ depth_map_output).
Local Abbreviation gx := (grid_dim_x GetBlockCount depth_map_output).
Local Abbreviation gy := (grid_dim_y GetBlockCount depth_map_output).
Local Abbreviation scaled :=
  (fun px py => fmul depth_input_scaling_factor (tex2D depth_map_input px py)).
Local Abbreviation the_uploaded :=
  (uploaded GetBlockCount depth_input_scaling_factor depth_map_input
     depth_map_output block_coordinates).
Local Abbreviation written :=
  (fun v => if use_weighting
            then weighted_candidate the_uploaded depth_map_input width height v
            else plain_candidate the_uploaded depth_map_input width height v).

Hypothesis width_range : 1 <= width <= 2 ^ 31 - 1.
Hypothesis height_range : 1 <= height <= 2 ^ 31 - 1.
Hypothesis allocated :
  Z.of_nat (length (address_ depth_map_output)) = height * width.
Hypothesis grid_covers_width : width <= gx * kBlockOutputSizeX.
Hypothesis grid_covers_height : height <= gy * kBlockOutputSizeY.

Lemma initialized_written :
  held_or_written scaled depth_map_input written width height
    (initialized GetBlockCount depth_input_scaling_factor depth_map_input
       depth_map_output block_coordinates).1.
Proof.
  unfold kBlockOutputSizeX, kBlockOutputSizeY, kBlockWidth, kBlockHeight,
    kIterationsPerKernelCall in *.
  change (32 - 2 * 4) with 24 in *. unfold initialized.
  destruct (launch_output gx gy depth_input_scaling_factor depth_map_input
              width height width_range height_range depth_map_output
              block_coordinates 0 0) as [(Hw & Hh & _) _]; try done; try lia.
  split; [done|]. split; [done|].
  intros px py Hpx Hpy _.
  destruct (launch_output gx gy depth_input_scaling_factor depth_map_input
              width height width_range height_range depth_map_output
              block_coordinates px py) as [_ ->]; try done.
  by left.
Qed.

Lemma launch_kernel_written n check mc out :
  held_or_written scaled depth_map_input written width height out ->
  held_or_written scaled depth_map_input written width height
    (launch_kernel use_weighting max_change_rate_threshold
       gradient_magnitude_div_sqrt2 depth_map_input the_uploaded n check mc out).2.
Proof.
  intros Hok. unfold launch_kernel, launch_blocks. destruct use_weighting.
  - unfold Weighted.launch.
    apply (foldl_preserves (fun st : CUDABuffer_ Z * CUDABuffer_ float =>
      held_or_written scaled depth_map_input
        (weighted_candidate the_uploaded depth_map_input width height)
        width height st.2)); [done|].
    intros st b _ Hst. by apply weighted_block_written.
  - unfold Plain.launch.
    apply (foldl_preserves (fun st : CUDABuffer_ Z * CUDABuffer_ float =>
      held_or_written scaled depth_map_input
        (plain_candidate the_uploaded depth_map_input width height)
        width height st.2)); [done|].
    intros st b _ Hst. by apply plain_block_written.
Qed.


End Inpaint.
End OverwriteProps.

(** ** What the convergence check does not change *)

Module IndependenceProps.
Import Host FoldProps.

Lemma foldl_related {A A' B : Type} (R : A -> A' -> Prop)
      (f : A -> B -> A) (f' : A' -> B -> A') (l : list B) a a' :
  R a a' -> (forall a a' b, b ∈ l -> R a a' -> R (f a b) (f' a' b)) ->
  R (foldl f a l) (foldl f' a' l).
Proof.
  revert a a'. induction l as [|b l IH]; intros a a' Ha Hf; cbn; [done|].
  apply IH.
  - apply Hf; [left|done].
  - intros a1 a1' b' Hb'. apply Hf. by right.
Qed.

Section Launch.
Variables block_size_x block_size_y : Z.
Variable block_coordinates : CUDABuffer_ Z.
Variable depth_map_input : cudaTextureObject_t float.
Variable gradient_magnitude_div_sqrt2 : cudaTextureObject_t Z.

(** The shared memory after the sub-iterations depends neither on
    [check_convergence] nor on the threshold nor on the flags. *)
Lemma plain_sub_iterations_depth check check' thr thr' w h b shared mc mc' :
  (Plain.sub_iterations block_size_x block_size_y check block_coordinates
     depth_map_input thr w h b shared mc).1
  = (Plain.sub_iterations block_size_x block_size_y check' block_coordinates
       depth_map_input thr' w h b shared mc').1.
Proof.
  unfold Plain.sub_iterations.
  apply (foldl_related (fun st st' : list float * CUDABuffer_ Z => st.1 = st'.1));
    [done|].
  intros st st' i _ He. unfold Plain.sub_iteration. cbn [fst snd]. by rewrite He.
Qed.

Lemma plain_sub_iterations_unchecked thr w h b shared mc :
  (Plain.sub_iterations block_size_x block_size_y false block_coordinates
     depth_map_input thr w h b shared mc).2 = mc.
Proof.
  unfold Plain.sub_iterations.
  by apply (foldl_preserves (fun st : list float * CUDABuffer_ Z => st.2 = mc)).
Qed.

Lemma weighted_sub_iterations_depth check check' thr thr' w h b shared mc mc' :
  (Weighted.sub_iterations block_size_x block_size_y check block_coordinates
     depth_map_input gradient_magnitude_div_sqrt2 thr w h b shared mc).1
  = (Weighted.sub_iterations block_size_x block_size_y check' block_coordinates
       depth_map_input gradient_magnitude_div_sqrt2 thr' w h b shared mc').1.
Proof.
  unfold Weighted.sub_iterations.
  apply (foldl_related
           (fun st st' : (list float * list float) * CUDABuffer_ Z => st.1 = st'.1));
    [done|].
  intros st st' i _ He. unfold Weighted.sub_iteration. cbn [fst snd]. by rewrite He.
Qed.

Lemma weighted_sub_iterations_unchecked thr w h b shared mc :
  (Weighted.sub_iterations block_size_x block_size_y false block_coordinates
     depth_map_input gradient_magnitude_div_sqrt2 thr w h b shared mc).2 = mc.
Proof.
  unfold Weighted.sub_iterations.
  by apply (foldl_preserves
              (fun st : (list float * list float) * CUDABuffer_ Z => st.2 = mc)).
Qed.

Lemma plain_block_depth check check' thr thr' st st' b :
  st.2 = st'.2 ->
  (Plain.block block_size_x block_size_y check block_coordinates depth_map_input
     thr st b).2
  = (Plain.block block_size_x block_size_y check' block_coordinates depth_map_input
       thr' st' b).2.
Proof.
  destruct st as [mc out], st' as [mc' out']. cbn [fst snd]. intros <-.
  unfold Plain.block.
  pose proof (plain_sub_iterations_depth check check' thr thr'
                (width_ out) (height_ out) b
                (Plain.load_shared block_size_x block_size_y block_coordinates
                   (width_ out) (height_ out) b out) mc mc') as He.
  destruct (Plain.sub_iterations _ _ check _ _ _ _ _ _ _ _) as [s1 m1].
  destruct (Plain.sub_iterations _ _ check' _ _ _ _ _ _ _ _) as [s2 m2].
  cbn [fst snd] in *. by rewrite He.
Qed.

Lemma plain_block_unchecked thr st b :
  (Plain.block block_size_x block_size_y false block_coordinates depth_map_input
     thr st b).1 = st.1.
Proof.
  destruct st as [mc out]. unfold Plain.block.
  pose proof (plain_sub_iterations_unchecked thr (width_ out) (height_ out) b
                (Plain.load_shared block_size_x block_size_y block_coordinates
                   (width_ out) (height_ out) b out) mc) as He.
  by destruct (Plain.sub_iterations _ _ _ _ _ _ _ _ _ _ _) as [s1 m1].
Qed.

Lemma weighted_block_depth check check' thr thr' st st' b :
  st.2 = st'.2 ->
  (Weighted.block block_size_x block_size_y check block_coordinates depth_map_input
     gradient_magnitude_div_sqrt2 thr st b).2
  = (Weighted.block block_size_x block_size_y check' block_coordinates
       depth_map_input gradient_magnitude_div_sqrt2 thr' st' b).2.
Proof.
  destruct st as [mc out], st' as [mc' out']. cbn [fst snd]. intros <-.
  unfold Weighted.block.
  pose proof (weighted_sub_iterations_depth check check' thr thr'
                (width_ out) (height_ out) b
                (Weighted.load_shared block_size_x block_size_y block_coordinates
                   gradient_magnitude_div_sqrt2 (width_ out) (height_ out) b out)
                mc mc') as He.
  destruct (Weighted.sub_iterations _ _ check _ _ _ _ _ _ _ _ _) as [s1 m1].
  destruct (Weighted.sub_iterations _ _ check' _ _ _ _ _ _ _ _ _) as [s2 m2].
  cbn [fst snd] in *. by rewrite He.
Qed.

Lemma weighted_block_unchecked thr st b :
  (Weighted.block block_size_x block_size_y false block_coordinates depth_map_input
     gradient_magnitude_div_sqrt2 thr st b).1 = st.1.
Proof.
  destruct st as [mc out]. unfold Weighted.block.
  pose proof (weighted_sub_iterations_unchecked thr (width_ out) (height_ out) b
                (Weighted.load_shared block_size_x block_size_y block_coordinates
                   gradient_magnitude_div_sqrt2 (width_ out) (height_ out) b out)
                mc) as He.
  by destruct (Weighted.sub_iterations _ _ _ _ _ _ _ _ _ _ _ _) as [s1 m1].
Qed.

End Launch.

(** A diffusion launch computes the same depths whether or not it checks
    convergence, whatever the threshold and the contents of [max_change]; and
    a launch that does not check convergence leaves [max_change] as it is. *)
Theorem check_does_not_change_depths use_weighting
        (gradient_magnitude_div_sqrt2 : cudaTextureObject_t Z)
        (depth_map_input : cudaTextureObject_t float)
        (block_coordinates : CUDABuffer_ Z) active_block_count
        threshold threshold' check check' max_change max_change' depth_map_output :
  (launch_kernel use_weighting threshold gradient_magnitude_div_sqrt2
     depth_map_input block_coordinates active_block_count check
     max_change depth_map_output).2
  = (launch_kernel use_weighting threshold' gradient_magnitude_div_sqrt2
       depth_map_input block_coordinates active_block_count check'
       max_change' depth_map_output).2 /\
  (launch_kernel use_weighting threshold gradient_magnitude_div_sqrt2
     depth_map_input block_coordinates active_block_count false
     max_change depth_map_output).1 = max_change.
Proof.
  unfold launch_kernel, launch_blocks.
  destruct use_weighting; unfold Weighted.launch, Plain.launch; split.
  - apply (foldl_related
             (fun st st' : CUDABuffer_ Z * CUDABuffer_ float => st.2 = st'.2)); [done|].
    intros st st' b _ He. by apply weighted_block_depth.
  - apply (foldl_preserves
             (fun st : CUDABuffer_ Z * CUDABuffer_ float => st.1 = max_change)); [done|].
    intros st b _ He. by rewrite weighted_block_unchecked.
  - apply (foldl_related
             (fun st st' : CUDABuffer_ Z * CUDABuffer_ float => st.2 = st'.2)); [done|].
    intros st st' b _ He. by apply plain_block_depth.
  - apply (foldl_preserves
             (fun st : CUDABuffer_ Z * CUDABuffer_ float => st.1 = max_change)); [done|].
    intros st b _ He. by rewrite plain_block_unchecked.
Qed.

End IndependenceProps.

(** ** The flags that a checking launch writes *)

Module FlagValueProps.
Import Host ArrayProps FoldProps FlagProps.

Lemma zget_store_same (mc : CUDABuffer_ Z) b v :
  0 <= b < Z.of_nat (length (address_ mc)) ->
  zget 0 (address_ (store mc 0 b v)) b = v.
Proof.
  intros Hb. cbn. unfold at_. replace (0 * width_ mc + b) with b by lia.
  by apply zget_zset_eq.
Qed.

Lemma length_store {T : Type} (b : CUDABuffer_ T) y x v :
  length (address_ (store b y x v)) = length (address_ b).
Proof. cbn. apply length_zset. Qed.

Section Launch.
Variable block_coordinates : CUDABuffer_ Z.
Variable depth_map_input : cudaTextureObject_t float.
Variable gradient_magnitude_div_sqrt2 : cudaTextureObject_t Z.
Variable max_change_rate_threshold : float.

Local Abbreviation flag_of use_weighting st b :=
  (if 0 <? block_final_active_pixels use_weighting max_change_rate_threshold
             gradient_magnitude_div_sqrt2 depth_map_input block_coordinates st b
   then 1 else 0).

Lemma plain_sub_iterations_length width height b k shared mc :
  length (address_ (foldl (Plain.sub_iteration 32 32 true block_coordinates
                             depth_map_input max_change_rate_threshold
                             width height b) (shared, mc) k).2)
  = length (address_ mc).
Proof.
  apply (foldl_preserves (fun st : list float * CUDABuffer_ Z =>
           length (address_ st.2) = length (address_ mc))); [done|].
  intros st i _ Hst. unfold Plain.sub_iteration. cbn [fst snd].
  by rewrite length_store.
Qed.

Lemma plain_block_flag st b :
  0 <= b < Z.of_nat (length (address_ st.1)) ->
  let st' := Plain.block 32 32 true block_coordinates depth_map_input
               max_change_rate_threshold st b in
  length (address_ st'.1) = length (address_ st.1) /\
  zget 0 (address_ st'.1) b = flag_of false st b.
Proof.
  destruct st as [mc out]. unfold Plain.block, block_final_active_pixels.
  cbn [fst snd]. intros Hb.
  unfold Plain.final_active_pixels, Plain.before_sub_iteration.
  unfold Plain.sub_iterations, kIterationsPerKernelCall.
  change 4 with (3 + 1). change (3 + 1 - 1) with 3.
  rewrite seqZ_last by lia. rewrite foldl_app. cbn [foldl].
  set (before := foldl _ _ (seqZ 0 3)).
  assert (Hlen : length (address_ before.2) = length (address_ mc)).
  { apply plain_sub_iterations_length. }
  unfold Plain.sub_iteration. cbn [fst snd]. split.
  - by rewrite length_store.
  - apply zget_store_same. by rewrite Hlen.
Qed.

Lemma weighted_sub_iterations_length width height b k shared mc :
  length (address_ (foldl (Weighted.sub_iteration 32 32 true block_coordinates
                             depth_map_input gradient_magnitude_div_sqrt2
                             max_change_rate_threshold width height b)
                          (shared, mc) k).2)
  = length (address_ mc).
Proof.
  apply (foldl_preserves (fun st : (list float * list float) * CUDABuffer_ Z =>
           length (address_ st.2) = length (address_ mc))); [done|].
  intros st i _ Hst. unfold Weighted.sub_iteration. cbn [fst snd].
  destruct (Weighted.tests_convergence true i); [|done].
  by rewrite length_store.
Qed.

Lemma weighted_block_flag st b :
  0 <= b < Z.of_nat (length (address_ st.1)) ->
  let st' := Weighted.block 32 32 true block_coordinates depth_map_input
               gradient_magnitude_div_sqrt2 max_change_rate_threshold st b in
  length (address_ st'.1) = length (address_ st.1) /\
  zget 0 (address_ st'.1) b = flag_of true st b.
Proof.
  destruct st as [mc out]. unfold Weighted.block, block_final_active_pixels.
  cbn [fst snd]. intros Hb.
  unfold Weighted.final_active_pixels, Weighted.before_sub_iteration.
  unfold Weighted.sub_iterations, kIterationsPerKernelCall.
  change 4 with (3 + 1). change (3 + 1 - 1) with 3.
  rewrite seqZ_last by lia. rewrite foldl_app. cbn [foldl].
  set (before := foldl _ _ (seqZ 0 3)).
  assert (Hlen : length (address_ before.2) = length (address_ mc)).
  { apply weighted_sub_iterations_length. }
  unfold Weighted.sub_iteration. change (Weighted.tests_convergence true 3) with true.
  cbn [fst snd]. split.
  - by rewrite length_store.
  - apply zget_store_same. by rewrite Hlen.
Qed.

(** One block of the kernel selected by [use_weighting], instantiated with
    [check_convergence]. *)
Local Abbreviation checking_block use_weighting :=
  (fun (st : CUDABuffer_ Z * CUDABuffer_ float) (b : Z) =>
     if use_weighting : bool
     then Weighted.block 32 32 true block_coordinates depth_map_input
            gradient_magnitude_div_sqrt2 max_change_rate_threshold st b
     else Plain.block 32 32 true block_coordinates depth_map_input
            max_change_rate_threshold st b).

Lemma checking_block_flag use_weighting st b :
  0 <= b < Z.of_nat (length (address_ st.1)) ->
  length (address_ (checking_block use_weighting st b).1)
  = length (address_ st.1) /\
  zget 0 (address_ (checking_block use_weighting st b).1) b
  = flag_of use_weighting st b /\
  (forall j, j <> b ->
     zget 0 (address_ (checking_block use_weighting st b).1) j
     = zget 0 (address_ st.1) j).
Proof.
  intros Hb. destruct use_weighting.
  - destruct (weighted_block_flag st b Hb) as [Hlen Hown].
    destruct (weighted_block_flags block_coordinates depth_map_input
                gradient_magnitude_div_sqrt2 max_change_rate_threshold st b)
      as [Hother _].
    split_and!; [done|done|]. intros j Hj. by apply Hother.
  - destruct (plain_block_flag st b Hb) as [Hlen Hown].
    destruct (plain_block_flags block_coordinates depth_map_input
                gradient_magnitude_div_sqrt2 max_change_rate_threshold st b)
      as [Hother _].
    split_and!; [done|done|]. intros j Hj. by apply Hother.
Qed.

(** Blocks that run one after the other, in any order. *)
Lemma checking_blocks_flags use_weighting (order : list Z) st :
  (forall b, b ∈ order -> 0 <= b < Z.of_nat (length (address_ st.1))) ->
  length (address_ (foldl (checking_block use_weighting) st order).1)
  = length (address_ st.1) /\
  (forall b, b ∈ order ->
     zget 0 (address_ (foldl (checking_block use_weighting) st order).1) b = 0 \/
     zget 0 (address_ (foldl (checking_block use_weighting) st order).1) b = 1) /\
  (forall j, j ∉ order ->
     zget 0 (address_ (foldl (checking_block use_weighting) st order).1) j
     = zget 0 (address_ st.1) j).
Proof.
  revert st. induction order as [|b order IH]; intros st Hrange.
  { cbn [foldl]. split_and!; [done| |done]. intros b Hb. by apply elem_of_nil in Hb. }
  cbn [foldl].
  destruct (checking_block_flag use_weighting st b) as (Hlen & Hown & Hother).
  { apply Hrange. left. }
  destruct (IH (checking_block use_weighting st b)) as (Hlen' & Hin & Hout).
  { intros b' Hb'. rewrite Hlen. apply Hrange. by right. }
  split_and!; [congruence| |].
  - intros b' Hb'. destruct (decide (b' ∈ order)) as [Hlater|Hlast]; [by apply Hin|].
    apply elem_of_cons in Hb' as [->|Hb']; [|done].
    rewrite (Hout b Hlast), Hown. destruct (0 <? _); [by right|by left].
  - intros j Hj. apply not_elem_of_cons in Hj as [Hne Hj].
    rewrite (Hout j Hj). by apply Hother.
Qed.


End Launch.
End FlagValueProps.

(** ** The passes of a run *)

Module RunProps.
Import Host ArrayProps FoldProps LoopProps HostProps FlagProps ScheduleProps
       Stated Invariants.

(** The count of the set flags. *)
Lemma count_fold_ge (flags : list Z) (l : list Z) c :
  c <= foldl (fun c j => if zget 0 flags j =? 0 then c else c + 1) c l.
Proof.
  revert c. induction l as [|j l IH]; intros c; cbn; [lia|].
  destruct (zget 0 flags j =? 0); [apply IH|].
  pose proof (IH (c + 1)). lia.
Qed.

Lemma count_fold_gt (flags : list Z) (l : list Z) c j :
  j ∈ l -> zget 0 flags j <> 0 ->
  c < foldl (fun c j => if zget 0 flags j =? 0 then c else c + 1) c l.
Proof.
  revert c. induction l as [|k l IH]; intros c Hin Hj.
  { by apply elem_of_nil in Hin. }
  cbn. apply elem_of_cons in Hin as [<-|Hin].
  - destruct (Z.eqb_spec (zget 0 flags j) 0); [done|].
    pose proof (count_fold_ge flags l (c + 1)). lia.
  - destruct (zget 0 flags k =? 0); [by apply IH|].
    pose proof (IH (c + 1) Hin Hj). lia.
Qed.

Lemma count_set_zero_iff flags n :
  count_set flags n = 0 <-> forall j, 0 <= j < n -> zget 0 flags j = 0.
Proof.
  split; [|apply count_set_zero].
  intros Hc j Hj. destruct (Z.eq_dec (zget 0 flags j) 0) as [|Hne]; [done|].
  pose proof (count_fold_gt flags (seqZ 0 n) 0 j) as Hgt.
  unfold count_set in Hc. rewrite Hc in Hgt.
  exfalso. apply (Z.lt_irrefl 0). apply Hgt; [|done]. apply elem_of_seqZ. lia.
Qed.

Section Inpaint.
Variable GetBlockCount : Z -> Z -> Z.
Variable use_weighting : bool.
Variable max_num_iterations : Z.
Variable max_change_rate_threshold : float.
Variable depth_input_scaling_factor : float.
Variable gradient_magnitude_div_sqrt2 : cudaTextureObject_t Z.
Variable depth_map_input : cudaTextureObject_t float.
Variable max_change : CUDABuffer_ Z.
Variable depth_map_output : CUDABuffer_ float.
Variable block_coordinates : CUDABuffer_ Z.

Local Abbreviation Inpaint :=
  (InpaintDepthMapWithConvolutionCUDA GetBlockCount use_weighting
     max_num_iterations max_change_rate_threshold depth_input_scaling_factor
     gradient_magnitude_div_sqrt2 depth_map_input max_change depth_map_output
     block_coordinates).
Local Abbreviation the_compacted :=
  (compacted GetBlockCount depth_input_scaling_factor depth_map_input
     depth_map_output block_coordinates).
Local Abbreviation the_uploaded :=
  (uploaded GetBlockCount depth_input_scaling_factor depth_map_input
     depth_map_output block_coordinates).
Local Abbreviation the_loop :=
  (iterate use_weighting max_num_iterations max_change_rate_threshold
     gradient_magnitude_div_sqrt2 depth_map_input the_uploaded
     (active_block_count the_compacted)).
Local Abbreviation the_body :=
  (body use_weighting max_change_rate_threshold
     gradient_magnitude_div_sqrt2 depth_map_input the_uploaded
     (active_block_count the_compacted)).
Local Abbreviation the_initial_state :=
  (initial_state GetBlockCount depth_input_scaling_factor depth_map_input
     max_change depth_map_output block_coordinates).
Local Abbreviation the_flags :=
  (downloaded_flags use_weighting max_change_rate_threshold
     gradient_magnitude_div_sqrt2 depth_map_input the_uploaded
     (active_block_count the_compacted)).
Local Abbreviation first_flags := (the_flags the_initial_state).
Local Abbreviation I_schedule :=
  (schedule_invariant the_initial_state first_flags
     (active_block_count the_compacted)).

Hypothesis no_overflow : max_num_iterations <= 2 ^ 31 - 4.

(** The function returns for every input. *)
Lemma Inpaint_returns : exists fuel r, Inpaint fuel = Some r.
Proof.
  unfold InpaintDepthMapWithConvolutionCUDA.
  destruct (active_block_count the_compacted =? 0); [by exists 0%nat; eauto|].
  destruct (iterate_terminates use_weighting max_num_iterations
              max_change_rate_threshold gradient_magnitude_div_sqrt2
              depth_map_input the_uploaded (active_block_count the_compacted)
              (Z.to_nat (Z.max 0 max_num_iterations)) the_initial_state)
    as [st Hst]; [done|cbn; lia|cbn; lia|].
  exists (Z.to_nat (Z.max 0 max_num_iterations)). rewrite Hst. cbn. eauto.
Qed.

(** The invariant of the schedule is kept by a pass that goes on. *)
Lemma schedule_invariant_kept s s' :
  I_schedule s -> i s < max_num_iterations -> the_body s = inl s' -> I_schedule s'.
Proof.
  intros HI Hlt Hb.
  destruct (schedule_logs_step _ _ _ _ _ _ _ _ _ _ s s' no_overflow HI Hlt
              (or_introl Hb)) as (Hlogs & Hi' & Hlen & Hone).
  destruct (schedule_check _ _ _ _ _ _ _ _ _ _ s no_overflow HI Hlt)
    as (Hchk & Hidx & _).
  destruct (body_cases _ _ _ _ _ _ _ _ (or_introl Hb)) as (_ & _ & Hno & Hyes).
  rewrite Hchk in Hno, Hyes. destruct HI as (_ & Hi & Hcase).
  split; [done|]. split; [lia|]. right.
  destruct (Z.eqb_spec (i s mod 28) 0) as [Hz|Hnz'].
  - destruct (Hyes eq_refl) as (Hchecks & Hzero & Hnonzero).
    destruct (Z.eq_dec (count_set (the_flags s) (active_block_count the_compacted)) 0)
      as [Hc0|Hc0].
    { destruct (Hzero Hc0) as [Hbr _]. congruence. }
    destruct (Hnonzero Hc0) as [_ Hlast].
    split; [lia|]. split; [done|]. split; [|split; [lia|]].
    + rewrite Hlast, Hchecks, length_app, (Hidx Hz). cbn. lia.
    + destruct Hcase as [-> |(_ & _ & _ & _ & Hc)]; done.
  - destruct (Hno eq_refl) as (Hlast & Hchecks & _).
    destruct Hcase as [-> |(_ & _ & Hl & Hd & Hc)]; [done|].
    rewrite Hlast, Hchecks.
    assert (i s - last_convergence_check_iteration s <> 28).
    { intros He. apply Hnz'. rewrite Hl in He.
      replace (i s) with (0 + Z.of_nat (length (checks s)) * 28) by lia.
      by rewrite Z.mod_add by lia. }
    assert (Hmul : (i s - last_convergence_check_iteration s) mod 4 = 0).
    { rewrite Hl, Hi.
      replace (4 * Z.of_nat (length (launches s))
               - 28 * (Z.of_nat (length (checks s)) - 1))
        with ((Z.of_nat (length (launches s))
               - 7 * (Z.of_nat (length (checks s)) - 1)) * 4) by lia.
      apply Z.mod_mul. lia. }
    apply Z.mod_divide in Hmul; [|lia]. destruct Hmul as [q Hq].
    split; [lia|]. split; [lia|]. split; [done|]. split; [lia|done].
Qed.

(** The returned count is four times the number of diffusion launches, and a
    run of [L] launches checks convergence, downloading the flags and
    synchronising the stream, [ceil (L / 7)] times. *)
Theorem launches_and_checks_are_counted fuel r :
  InpaintDepthMapWithConvolutionCUDA GetBlockCount use_weighting
    max_num_iterations max_change_rate_threshold depth_input_scaling_factor
    gradient_magnitude_div_sqrt2 depth_map_input max_change depth_map_output
    block_coordinates fuel = Some r ->
  iterations r = 4 * Z.of_nat (length (launches_out r)) /\
  Z.of_nat (length (checks_out r)) = (Z.of_nat (length (launches_out r)) + 6) / 7.
Proof.
  intros Hrun.
  destruct (Inpaint_cases _ _ _ _ _ _ _ _ _ _ _ _ Hrun)
    as [[Hz ->]|(Hnz & st & Hloop & ->)]; cbn; [done|].
  revert Hloop.
  apply (iterate_rule _ _ _ _ _ _ _ I_schedule
           (fun s => i s = 4 * Z.of_nat (length (launches s)) /\
                     Z.of_nat (length (checks s))
                     = (Z.of_nat (length (launches s)) + 6) / 7)).
  - intros s s'. apply schedule_invariant_kept.
  - intros s s' HI Hlt Hb.
    destruct (schedule_logs_step _ _ _ _ _ _ _ _ _ _ s s' no_overflow HI Hlt
                (or_intror Hb)) as (_ & Hi' & Hlen & _).
    destruct (schedule_check _ _ _ _ _ _ _ _ _ _ s no_overflow HI Hlt)
      as (Hchk & Hidx & _).
    destruct (body_cases _ _ _ _ _ _ _ _ (or_intror Hb)) as (_ & _ & Hno & Hyes).
    rewrite Hchk in Hno, Hyes. destruct HI as (_ & Hi & _).
    destruct (Z.eqb_spec (i s mod 28) 0) as [Hz|Hnz'].
    + destruct (Hyes eq_refl) as (Hchecks & _). specialize (Hidx Hz).
      rewrite Hchecks, length_app, Hlen. cbn [length]. split; [lia|].
      apply Z.div_unique with (r := 0); lia.
    + destruct (Hno eq_refl) as (_ & _ & Hinl). congruence.
  - intros s (_ & Hi & Hcase) _. split; [done|].
    destruct Hcase as [-> |(_ & _ & Hl & Hd & _)]; [done|].
    apply Z.div_unique
      with (r := Z.of_nat (length (launches s)) + 6 - 7 * Z.of_nat (length (checks s)));
      lia.
  - split_and!; [|done|by left].
    split_and!; [intros ? ? [=]|intros ? ? [=]|intros ? [=]].
Qed.


End Inpaint.
End RunProps.

(** ** What a convergence check decides *)

Module DecisionProps.
Import Host ArrayProps FoldProps LoopProps HostProps FlagProps ScheduleProps
       RunProps Stated Invariants.

(** The count of a check is the number of the flags of the active tiles
    that are not zero. *)
Lemma count_fold_filter (flags : list Z) (l : list Z) c :
  foldl (fun c j => if zget 0 flags j =? 0 then c else c + 1) c l
  = c + Z.of_nat (length (filter (fun j => zget 0 flags j <> 0) l)).
Proof.
  revert c. induction l as [|j l IH]; intros c; cbn [foldl].
  { cbn. lia. }
  rewrite IH. destruct (Z.eqb_spec (zget 0 flags j) 0) as [He|Hne].
  - rewrite filter_cons_False by (intros H; by apply H). done.
  - rewrite filter_cons_True by done. cbn [length]. lia.
Qed.

Lemma count_set_filter flags n :
  count_set flags n
  = Z.of_nat (length (filter (fun j => zget 0 flags j <> 0) (seqZ 0 n))).
Proof. unfold count_set. by rewrite count_fold_filter. Qed.

Lemma count_set_nonzero_iff flags n :
  count_set flags n <> 0 <-> exists j, 0 <= j < n /\ zget 0 flags j <> 0.
Proof.
  split.
  - intros Hc.
    destruct (decide (Exists (fun j => zget 0 flags j <> 0) (seqZ 0 n))) as [He|He].
    + apply Exists_exists in He as (j & Hj & Hne). apply elem_of_seqZ in Hj.
      exists j. split; [lia|done].
    + exfalso. apply Hc, count_set_zero. intros j Hj.
      destruct (Z.eq_dec (zget 0 flags j) 0) as [|Hne]; [done|].
      exfalso. apply He, Exists_exists. exists j. split; [|done].
      apply elem_of_seqZ. lia.
  - intros (j & Hj & Hne) Hc. apply Hne.
    by apply (proj1 (count_set_zero_iff flags n) Hc).
Qed.

Section Inpaint.
Variable GetBlockCount : Z -> Z -> Z.
Variable use_weighting : bool.
Variable max_num_iterations : Z.
Variable max_change_rate_threshold : float.
Variable depth_input_scaling_factor : float.
Variable gradient_magnitude_div_sqrt2 : cudaTextureObject_t Z.
Variable depth_map_input : cudaTextureObject_t float.
Variable max_change : CUDABuffer_ Z.
Variable depth_map_output : CUDABuffer_ float.
Variable block_coordinates : CUDABuffer_ Z.

Local Abbreviation Inpaint :=
  (InpaintDepthMapWithConvolutionCUDA GetBlockCount use_weighting
     max_num_iterations max_change_rate_threshold depth_input_scaling_factor
     gradient_magnitude_div_sqrt2 depth_map_input max_change depth_map_output
     block_coordinates).
Local Abbreviation the_compacted :=
  (compacted GetBlockCount depth_input_scaling_factor depth_map_input
     depth_map_output block_coordinates).
Local Abbreviation the_uploaded :=
  (uploaded GetBlockCount depth_input_scaling_factor depth_map_input
     depth_map_output block_coordinates).
Local Abbreviation the_initialized :=
  (initialized GetBlockCount depth_input_scaling_factor depth_map_input
     depth_map_output block_coordinates).
Local Abbreviation the_body :=
  (body use_weighting max_change_rate_threshold
     gradient_magnitude_div_sqrt2 depth_map_input the_uploaded
     (active_block_count the_compacted)).
Local Abbreviation the_initial_state :=
  (initial_state GetBlockCount depth_input_scaling_factor depth_map_input
     max_change depth_map_output block_coordinates).
Local Abbreviation the_flags :=
  (downloaded_flags use_weighting max_change_rate_threshold
     gradient_magnitude_div_sqrt2 depth_map_input the_uploaded
     (active_block_count the_compacted)).
Local Abbreviation first_flags := (the_flags the_initial_state).
Local Abbreviation I_schedule :=
  (schedule_invariant the_initial_state first_flags
     (active_block_count the_compacted)).
Local Abbreviation n := (active_block_count the_compacted).

(** The logs of a run and what its checks decided: a check that finds every
    flag of the active tiles zero is the last one, and the function returns
    right after its launch; a check that finds a flag set is followed by
    another check unless the loop has run up to [max_num_iterations]. *)
Lemma run_decisions fuel r :
  max_num_iterations <= 2 ^ 31 - 4 ->
  Inpaint fuel = Some r ->
  (forall k l, launches_out r !! k = Some l ->
     launch_i l = 4 * Z.of_nat k /\
     launch_check_convergence l = (launch_i l mod 28 =? 0)) /\
  (forall k c, checks_out r !! k = Some c -> check_i c = 28 * Z.of_nat k) /\
  iterations r = 4 * Z.of_nat (length (launches_out r)) /\
  Z.of_nat (length (checks_out r)) = (Z.of_nat (length (launches_out r)) + 6) / 7 /\
  (forall k c, checks_out r !! k = Some c ->
     (forall j, 0 <= j < n -> zget 0 (check_max_change_cpu c) j = 0) ->
     iterations r = check_i c + 4 /\ length (checks_out r) = S k) /\
  (forall k c, checks_out r !! k = Some c ->
     (exists j, 0 <= j < n /\ zget 0 (check_max_change_cpu c) j <> 0) ->
     (S k < length (checks_out r))%nat \/ max_num_iterations <= iterations r).
Proof.
  intros Hmax Hrun.
  destruct (Inpaint_cases _ _ _ _ _ _ _ _ _ _ _ _ Hrun)
    as [[Hz ->]|(Hnz & st & Hloop & ->)]; cbn.
  { split_and!; try done; intros ? ? [=]. }
  set (flagged := fun c : check_record =>
         exists j, 0 <= j < n /\ zget 0 (check_max_change_cpu c) j <> 0).
  set (clean := fun c : check_record =>
         forall j, 0 <= j < n -> zget 0 (check_max_change_cpu c) j = 0).
  assert (Hexcl : forall c, flagged c -> clean c -> False).
  { intros c (j & Hj & Hne) Hc. by apply Hne, Hc. }
  revert Hloop.
  apply (iterate_rule _ _ _ _ _ _ _
           (fun s => I_schedule s /\ forall c, c ∈ checks s -> flagged c)
           (fun s =>
              (forall k l, launches s !! k = Some l ->
                 launch_i l = 4 * Z.of_nat k /\
                 launch_check_convergence l = (launch_i l mod 28 =? 0)) /\
              (forall k c, checks s !! k = Some c -> check_i c = 28 * Z.of_nat k) /\
              i s = 4 * Z.of_nat (length (launches s)) /\
              Z.of_nat (length (checks s))
              = (Z.of_nat (length (launches s)) + 6) / 7 /\
              (forall k c, checks s !! k = Some c -> clean c ->
                 i s = check_i c + 4 /\ length (checks s) = S k) /\
              (forall k c, checks s !! k = Some c -> flagged c ->
                 (S k < length (checks s))%nat \/ max_num_iterations <= i s))).
  - intros s s' [HI Hall] Hlt Hb. split.
    { by apply (schedule_invariant_kept _ _ _ _ _ _ _ _ _ _ Hmax s s'). }
    destruct (body_cases _ _ _ _ _ _ _ _ (or_introl Hb)) as (_ & _ & Hno & Hyes).
    intros c.
    destruct (25 <=? i32 (i s - last_convergence_check_iteration s)).
    + destruct (Hyes eq_refl) as (-> & Hzero & _).
      rewrite elem_of_app, list_elem_of_singleton. intros [Hin| ->]; [by apply Hall|].
      apply count_set_nonzero_iff. cbn.
      intros Hc0. destruct (Hzero Hc0) as [Hbr _]. congruence.
    + destruct (Hno eq_refl) as (_ & -> & _). apply Hall.
  - intros s s' [HI Hall] Hlt Hb.
    destruct (schedule_logs_step _ _ _ _ _ _ _ _ _ _ s s' Hmax HI Hlt
                (or_intror Hb)) as ((HL & HC & _) & Hi' & Hlen & _).
    destruct (schedule_check _ _ _ _ _ _ _ _ _ _ s Hmax HI Hlt)
      as (Hchk & Hidx & _).
    destruct (body_cases _ _ _ _ _ _ _ _ (or_intror Hb)) as (_ & _ & Hno & Hyes).
    rewrite Hchk in Hno, Hyes. destruct HI as (_ & Hi & _).
    destruct (Z.eqb_spec (i s mod 28) 0) as [Hz|Hnz'].
    2: { destruct (Hno eq_refl) as (_ & _ & Hinl). congruence. }
    destruct (Hyes eq_refl) as (Hchecks & _ & Hnonzero). specialize (Hidx Hz).
    destruct (Z.eq_dec (count_set (the_flags s) n) 0) as [Hc0|Hc0].
    2: { destruct (Hnonzero Hc0) as [Hinl _]. congruence. }
    assert (Hnew : clean (Check (i s) n (tiles_read the_uploaded n) (the_flags s))).
    { intros j Hj. cbn. by apply (proj1 (count_set_zero_iff _ _) Hc0). }
    split_and!; [done|done|lia| | |].
    + rewrite Hchecks, length_app, Hlen. cbn [length].
      apply Z.div_unique with (r := 0); lia.
    + intros k c. rewrite Hchecks. intros Hk Hclean.
      apply lookup_app_Some in Hk as [Hk|[Hge Hk]].
      * exfalso. apply (Hexcl c); [|done].
        apply Hall. by apply list_elem_of_lookup_2 in Hk.
      * apply list_lookup_singleton_Some in Hk as [Hk <-]. cbn [check_i].
        rewrite length_app. cbn [length]. split; lia.
    + intros k c. rewrite Hchecks. intros Hk Hflag.
      apply lookup_app_Some in Hk as [Hk|[Hge Hk]].
      * left. apply lookup_lt_Some in Hk. rewrite length_app. cbn [length]. lia.
      * apply list_lookup_singleton_Some in Hk as [Hk <-].
        exfalso. by apply (Hexcl _ Hflag).
  - intros s [((HL & HC & _) & Hi & Hcase) Hall] Hge.
    split_and!; [done|done|done| | |].
    + destruct Hcase as [-> |(_ & _ & Hl & Hd & _)]; [done|].
      apply Z.div_unique
        with (r := Z.of_nat (length (launches s)) + 6 - 7 * Z.of_nat (length (checks s)));
        lia.
    + intros k c Hk Hclean. exfalso. apply (Hexcl c); [|done].
      apply Hall. by apply list_elem_of_lookup_2 in Hk.
    + intros k c _ _. by right.
  - split.
    + split_and!; [|done|by left].
      split_and!; [intros ? ? [=]|intros ? ? [=]|intros ? [=]].
    + intros c Hc. by apply elem_of_nil in Hc.
Qed.

(** C1 (as the code has it).  A convergence check only counts the flags of
    the active tiles that are set.  When the count is zero the loop ends: the
    function returns right after the launch of that check, which is the last
    launch.  Otherwise nothing is dropped: the next launch, like every launch
    of the run, is issued over the whole list built by the initial
    compaction, whatever the flags were, and the size of the active list
    sampled at the checks is constant, hence non-increasing. *)
Theorem active_list_is_never_compacted fuel r :
  Inpaint fuel = Some r ->
  (forall l, l ∈ launches_out r ->
     launch_grid_dim_active l = u32 (active_block_count the_compacted) /\
     launch_tiles l = tiles_read the_uploaded (u32 (active_block_count the_compacted))) /\
  (forall c, c ∈ checks_out r ->
     check_active_block_count c = active_block_count the_compacted /\
     check_tiles c = tiles_read the_uploaded (active_block_count the_compacted)) /\
  (forall j k c c', (j <= k)%nat ->
     checks_out r !! j = Some c -> checks_out r !! k = Some c' ->
     check_active_block_count c' <= check_active_block_count c) /\
  (forall c, c ∈ checks_out r ->
     count_set (check_max_change_cpu c) (check_active_block_count c)
     = Z.of_nat (length (filter (fun j => zget 0 (check_max_change_cpu c) j <> 0)
                                (seqZ 0 (check_active_block_count c))))) /\
  (max_num_iterations <= 2 ^ 31 - 4 ->
   forall k c, checks_out r !! k = Some c ->
     (count_set (check_max_change_cpu c) (check_active_block_count c) = 0 ->
      iterations r = check_i c + 4 /\
      length (checks_out r) = S k /\
      forall l, l ∈ launches_out r -> launch_i l <= check_i c) /\
     (count_set (check_max_change_cpu c) (check_active_block_count c) <> 0 ->
      check_i c + 4 < max_num_iterations ->
      exists l, l ∈ launches_out r /\
        launch_i l = check_i c + 4 /\
        launch_grid_dim_active l = u32 (check_active_block_count c) /\
        launch_tiles l = tiles_read the_uploaded (u32 (check_active_block_count c)) /\
        (0 <= check_active_block_count c -> launch_tiles l = check_tiles c))).
Proof.
  intros Hrun.
  destruct (active_list_is_constant _ _ _ _ _ _ _ _ _ _ _ _ Hrun)
    as (Hlaunches & Hchecks & Hmono).
  split_and!; [done|done|done| |].
  { intros c _. apply count_set_filter. }
  intros Hmax k c Hk.
  destruct (run_decisions fuel r Hmax Hrun) as (HL & HC & Hi & Hcount & Hclean & Hflag).
  pose proof (HC k c Hk) as Hci.
  destruct (Hchecks c) as [Hn Htiles]; [by apply list_elem_of_lookup_2 in Hk|].
  rewrite Hn. split.
  - intros Hc0.
    destruct (Hclean k c Hk (proj1 (count_set_zero_iff _ _) Hc0)) as [Hret Hlast].
    split_and!; [done|done|].
    intros l Hl. apply list_elem_of_lookup_1 in Hl as [k' Hk'].
    destruct (HL k' l Hk') as [-> _]. apply lookup_lt_Some in Hk'. lia.
  - intros Hc0 Hroom.
    assert (Hlt : (7 * k + 1 < length (launches_out r))%nat).
    { destruct (Hflag k c Hk (proj1 (count_set_nonzero_iff _ _) Hc0)) as [Hmore|Hend].
      - assert (Z.of_nat k + 2 <= (Z.of_nat (length (launches_out r)) + 6) / 7) by lia.
        pose proof (Z.mul_div_le (Z.of_nat (length (launches_out r)) + 6) 7).
        lia.
      - lia. }
    destruct (lookup_lt_is_Some_2 _ _ Hlt) as [l Hl].
    exists l. destruct (HL _ l Hl) as [Hli _].
    destruct (Hlaunches l) as [Hg Ht]; [by apply list_elem_of_lookup_2 in Hl|].
    split_and!; [by apply list_elem_of_lookup_2 in Hl|lia|done|done|].
    intros Hpos. rewrite Ht, Htiles.
    pose proof (compact_count_range
                  (grid_dim_x GetBlockCount depth_map_output)
                  (grid_dim_y GetBlockCount depth_map_output)
                  (block_activity GetBlockCount depth_input_scaling_factor
                     depth_map_input depth_map_output block_coordinates)) as Hr.
    change (compact _ _ _) with the_compacted in Hr.
    rewrite u32_small; [done|]. lia.
Qed.

(** C10.  The function returns for every input (with [max_num_iterations] at
    most [2^31 - 4]).  Its launches are issued at [i = 0, 4, 8, ..], and a
    launch checks convergence exactly when [i] is a multiple of 28: the first
    launch checks (at [i = 0], because of the initial [-9999]), and the
    checks of a run are those of its launches at 0, 28, 56, ...  A check that
    finds no flag of an active tile set ends the run right after its launch;
    a check that finds one set is followed by the launches up to the next
    check, 28 iterations later, as far as [max_num_iterations] allows.  In
    particular, when no pixel has a relative change above the threshold in
    the last sub-iteration of the first launch, the function returns 4,
    whatever holes remain. *)
Theorem convergence_check_schedule :
  max_num_iterations <= 2 ^ 31 - 4 ->
  (exists fuel r, Inpaint fuel = Some r) /\
  forall fuel r, Inpaint fuel = Some r ->
    (forall k l, launches_out r !! k = Some l ->
       launch_i l = 4 * Z.of_nat k /\
       launch_check_convergence l = (launch_i l mod 28 =? 0)) /\
    (forall k c, checks_out r !! k = Some c ->
       check_i c = 28 * Z.of_nat k /\
       exists l, launches_out r !! (7 * k)%nat = Some l /\
                 launch_i l = check_i c /\ launch_check_convergence l = true) /\
    (forall k l, launches_out r !! k = Some l ->
       launch_check_convergence l = true ->
       exists c, checks_out r !! (k / 7)%nat = Some c /\ check_i c = launch_i l) /\
    (active_block_count the_compacted <> 0 -> 0 < max_num_iterations ->
     exists l c,
       launches_out r !! 0%nat = Some l /\ checks_out r !! 0%nat = Some c /\
       launch_i l = 0 /\ launch_check_convergence l = true /\
       check_i c = 0 /\ check_max_change_cpu c = first_flags /\
       (count_set first_flags (active_block_count the_compacted) = 0 ->
        iterations r = 4) /\
       (no_pixel_exceeds_threshold use_weighting max_change_rate_threshold
          gradient_magnitude_div_sqrt2 depth_map_input the_uploaded
          (active_block_count the_compacted) max_change the_initialized.1 ->
        iterations r = 4)) /\
    (forall k c, checks_out r !! k = Some c ->
       ((forall j, 0 <= j < active_block_count the_compacted ->
                   zget 0 (check_max_change_cpu c) j = 0) ->
        iterations r = check_i c + 4 /\ length (checks_out r) = S k) /\
       ((exists j, 0 <= j < active_block_count the_compacted /\
                   zget 0 (check_max_change_cpu c) j <> 0) ->
        (forall i', check_i c < i' <= check_i c + 28 -> i' < max_num_iterations ->
                    i' mod 4 = 0 ->
           exists l, launches_out r !! Z.to_nat (i' / 4) = Some l /\ launch_i l = i') /\
        (check_i c + 28 < max_num_iterations ->
         exists c', checks_out r !! S k = Some c' /\
                    check_i c' = check_i c + 28))).
Proof.
  intros Hmax. split.
  { apply (Inpaint_returns _ _ _ _ _ _ _ _ _ _ Hmax). }
  intros fuel r Hrun.
  destruct (run_decisions fuel r Hmax Hrun) as (HL & HC & Hi & Hcount & Hclean & Hflag).
  destruct (first_check_decides _ _ _ _ _ _ _ _ _ _ fuel r Hmax Hrun)
    as (_ & _ & Hfirst).
  pose proof (Z.mul_div_le (Z.of_nat (length (launches_out r)) + 6) 7) as Hdiv1.
  pose proof (Z.mul_succ_div_gt (Z.of_nat (length (launches_out r)) + 6) 7) as Hdiv2.
  split_and!; [done| | |done|].
  - intros k c Hk. split; [by apply HC|].
    pose proof (lookup_lt_Some _ _ _ Hk) as Hlt.
    assert (Hlt' : (7 * k < length (launches_out r))%nat) by lia.
    destruct (lookup_lt_is_Some_2 _ _ Hlt') as [l Hl].
    exists l. destruct (HL _ l Hl) as [Hli Hlc].
    rewrite (HC k c Hk). split_and!; [done|lia|].
    rewrite Hlc, Hli.
    replace (4 * Z.of_nat (7 * k)) with (Z.of_nat k * 28) by lia.
    by rewrite Z.mod_mul by lia.
  - intros k l Hl Hchk. destruct (HL k l Hl) as [Hli Hlc].
    rewrite Hlc in Hchk. apply Z.eqb_eq in Hchk.
    pose proof (lookup_lt_Some _ _ _ Hl) as Hlt.
    assert (Hk7 : Z.of_nat k mod 7 = 0).
    { rewrite Hli in Hchk.
      pose proof (Z.div_mod (Z.of_nat k) 7 ltac:(lia)) as Hdm.
      pose proof (Z.mod_pos_bound (Z.of_nat k) 7 ltac:(lia)) as Hb.
      assert (He : 4 * Z.of_nat k
                   = 4 * (Z.of_nat k mod 7) + (Z.of_nat k / 7) * 28) by lia.
      rewrite He, Z.mod_add in Hchk by lia.
      assert (Z.of_nat k mod 7 = 0 \/ Z.of_nat k mod 7 = 1 \/
              Z.of_nat k mod 7 = 2 \/ Z.of_nat k mod 7 = 3 \/
              Z.of_nat k mod 7 = 4 \/ Z.of_nat k mod 7 = 5 \/
              Z.of_nat k mod 7 = 6) as Hcases by lia.
      destruct Hcases as [H|[H|[H|[H|[H|[H|H]]]]]]; rewrite H in Hchk;
        first [done|discriminate Hchk]. }
    pose proof (Z.div_mod (Z.of_nat k) 7 ltac:(lia)) as Hdm.
    assert (Hq : Z.of_nat (k / 7) = Z.of_nat k / 7) by (rewrite Nat2Z.inj_div; done).
    assert (Hlt' : (k / 7 < length (checks_out r))%nat) by lia.
    destruct (lookup_lt_is_Some_2 _ _ Hlt') as [c Hc].
    exists c. split; [done|]. rewrite (HC _ c Hc), Hli. lia.
  - intros k c Hk. pose proof (HC k c Hk) as Hci. split.
    + intros Hc0. by apply Hclean.
    + intros Hfl.
      assert (Hrun_on : (S k < length (checks_out r))%nat \/
                        max_num_iterations <= iterations r) by by apply (Hflag k c).
      split.
      * intros i' Hi' Hroom Hmod.
        pose proof (Z.div_mod i' 4 ltac:(lia)) as Hdm. rewrite Hmod in Hdm.
        assert (Hlt : (Z.to_nat (i' / 4) < length (launches_out r))%nat).
        { destruct Hrun_on as [Hmore|Hend]; lia. }
        destruct (lookup_lt_is_Some_2 _ _ Hlt) as [l Hl].
        exists l. split; [done|]. destruct (HL _ l Hl) as [-> _]. lia.
      * intros Hroom.
        assert (Hlt : (S k < length (checks_out r))%nat).
        { destruct Hrun_on as [Hmore|Hend]; lia. }
        destruct (lookup_lt_is_Some_2 _ _ Hlt) as [c' Hc'].
        exists c'. split; [done|]. rewrite (HC _ c' Hc'). lia.
Qed.

End Inpaint.
End DecisionProps.

(** ** The output buffer of a run *)

Module OutputProps.
Import Host ArrayProps FoldProps FrameProps LoopProps InitProps HostProps.

(** A launch keeps the size of the working buffer and every pixel that does
    not test as a hole. *)
Lemma launch_kernel_frame use_weighting thr
      (grad : cudaTextureObject_t Z) (tex : cudaTextureObject_t float)
      (bc : CUDABuffer_ Z) n check mc out px py :
  fle (tex2D tex px py) zero = false ->
  width_ out <= 2 ^ 31 - 1 -> 0 <= px < width_ out ->
  let out' := (launch_kernel use_weighting thr grad tex bc n check mc out).2 in
  load zero out' py px = load zero out py px /\
  width_ out' = width_ out /\ height_ out' = height_ out.
Proof.
  intros Hnot Hw Hpx. unfold launch_kernel, launch_blocks.
  set (P := fun st : CUDABuffer_ Z * CUDABuffer_ float =>
              load zero st.2 py px = load zero out py px /\
              width_ st.2 = width_ out /\ height_ st.2 = height_ out).
  destruct use_weighting; unfold Weighted.launch, Plain.launch;
    apply (foldl_preserves P); try done.
  - intros st b _ (Hl & Hwd & Hht).
    destruct (weighted_block_frame check bc tex grad thr px py Hnot 32 32 st b zero)
      as (Hl' & Hw' & Hh'); [lia|].
    unfold P. rewrite Hl', Hw', Hh'. done.
  - intros st b _ (Hl & Hwd & Hht).
    destruct (plain_block_frame check bc tex thr px py Hnot 32 32 st b zero)
      as (Hl' & Hw' & Hh'); [lia|lia|].
    unfold P. rewrite Hl', Hw', Hh'. done.
Qed.

(** The size of the working buffer is kept by a launch. *)
Lemma launch_kernel_size use_weighting thr
      (grad : cudaTextureObject_t Z) (tex : cudaTextureObject_t float)
      (bc : CUDABuffer_ Z) n check mc out :
  let out' := (launch_kernel use_weighting thr grad tex bc n check mc out).2 in
  width_ out' = width_ out /\ height_ out' = height_ out /\
  length (address_ out') = length (address_ out).
Proof.
  unfold launch_kernel, launch_blocks.
  set (P := fun st : CUDABuffer_ Z * CUDABuffer_ float =>
              width_ st.2 = width_ out /\ height_ st.2 = height_ out /\
              length (address_ st.2) = length (address_ out)).
  destruct use_weighting; unfold Weighted.launch, Plain.launch;
    apply (foldl_preserves P); try done.
  - intros [mc' o] b _ (Hw & Hh & Hl). unfold P, Weighted.block. cbn [fst snd] in *.
    destruct (Weighted.sub_iterations _ _ _ _ _ _ _ _ _ _ _ _) as [shared mc''].
    cbn [fst snd]. unfold Weighted.write_back.
    match goal with |- context [stores ?g ?r ?c ?v ?o ?l] =>
      destruct (width_stores g r c v o l) as (-> & -> & ->) end. done.
  - intros [mc' o] b _ (Hw & Hh & Hl). unfold P, Plain.block. cbn [fst snd] in *.
    destruct (Plain.sub_iterations _ _ _ _ _ _ _ _ _ _ _) as [shared mc''].
    cbn [fst snd]. unfold Plain.write_back.
    match goal with |- context [stores ?g ?r ?c ?v ?o ?l] =>
      destruct (width_stores g r c v o l) as (-> & -> & ->) end. done.
Qed.

Section Inpaint.
Variable GetBlockCount : Z -> Z -> Z.
Variable use_weighting : bool.
Variable max_num_iterations : Z.
Variable max_change_rate_threshold : float.
Variable depth_input_scaling_factor : float.
Variable gradient_magnitude_div_sqrt2 : cudaTextureObject_t Z.
Variable depth_map_input : cudaTextureObject_t float.
Variable max_change : CUDABuffer_ Z.
Variable depth_map_output : CUDABuffer_ float.
Variable block_coordinates : CUDABuffer_ Z.

Local Abbreviation width := (width_ depth_map_output).
Local Abbreviation height := (height_ depth_map_output).
Local Abbreviation gx := (grid_dim_x GetBlockCount depth_map_output).
Local Abbreviation gy := (grid_dim_y GetBlockCount depth_map_output).
Local Abbreviation scaled :=
  (fun px py => fmul depth_input_scaling_factor (tex2D depth_map_input px py)).
Local Abbreviation the_initialized :=
  (initialized GetBlockCount depth_input_scaling_factor depth_map_input
     depth_map_output block_coordinates).

(** The image is not empty, its sizes are [int]s, the buffer holds it, and
    the grid of [GetBlockCount] covers it. *)
Hypothesis width_range : 1 <= width <= 2 ^ 31 - 1.
Hypothesis height_range : 1 <= height <= 2 ^ 31 - 1.
Hypothesis allocated :
  Z.of_nat (length (address_ depth_map_output)) = height * width.
Hypothesis grid_covers_width : width <= gx * kBlockOutputSizeX.
Hypothesis grid_covers_height : height <= gy * kBlockOutputSizeY.

Lemma grid_covers :
  width <= gx * 24 /\ height <= gy * 24.
Proof.
  unfold kBlockOutputSizeX, kBlockOutputSizeY, kBlockWidth, kBlockHeight,
    kIterationsPerKernelCall in *. lia.
Qed.

(** The buffer that the initialisation pass leaves. *)
Lemma initialised_buffer :
  width_ the_initialized.1 = width /\
  height_ the_initialized.1 = height /\
  length (address_ the_initialized.1) = length (address_ depth_map_output) /\
  forall px py, 0 <= px < width -> 0 <= py < height ->
    load zero the_initialized.1 py px = scaled px py.
Proof.
  destruct grid_covers as [Hgx Hgy]. unfold initialized.
  destruct (launch_output gx gy depth_input_scaling_factor depth_map_input
              width height width_range height_range depth_map_output
              block_coordinates 0 0) as [(Hw & Hh & Hl) _]; try done; try lia.
  split_and!; [done|done|lia|].
  intros px py Hpx Hpy.
  by destruct (launch_output gx gy depth_input_scaling_factor depth_map_input
                 width height width_range height_range depth_map_output
                 block_coordinates px py) as [_ ?].
Qed.

(** The initialisation pass writes every pixel of the image, hole or not,
    with the input scaled by [depth_input_scaling_factor], whatever the
    buffer held, and keeps the size of the buffer. *)
Theorem initialisation_scales_every_pixel :
  width_ the_initialized.1 = width /\
  height_ the_initialized.1 = height /\
  length (address_ the_initialized.1) = length (address_ depth_map_output) /\
  forall px py, 0 <= px < width -> 0 <= py < height ->
    load zero the_initialized.1 py px = scaled px py.
Proof. exact initialised_buffer. Qed.

(** Whatever the number of passes, the function returns the working buffer
    with its size, and with the scaled input at every pixel whose input does
    not test as a hole ([> 0], or NaN): measurements are never altered by the
    diffusion. *)
Theorem measurements_are_returned_scaled fuel r :
  InpaintDepthMapWithConvolutionCUDA GetBlockCount use_weighting
    max_num_iterations max_change_rate_threshold depth_input_scaling_factor
    gradient_magnitude_div_sqrt2 depth_map_input max_change depth_map_output
    block_coordinates fuel = Some r ->
  width_ (depth_map_output_out r) = width /\
  height_ (depth_map_output_out r) = height /\
  length (address_ (depth_map_output_out r)) = length (address_ depth_map_output) /\
  forall px py, 0 <= px < width -> 0 <= py < height ->
    fle (tex2D depth_map_input px py) zero = false ->
    load zero (depth_map_output_out r) py px = scaled px py.
Proof.
  intros Hrun.
  destruct initialised_buffer as (Hw0 & Hh0 & Hl0 & Hp0).
  pose (P := fun out : CUDABuffer_ float =>
    width_ out = width /\ height_ out = height /\
    length (address_ out) = length (address_ depth_map_output) /\
    forall px py, 0 <= px < width -> 0 <= py < height ->
      fle (tex2D depth_map_input px py) zero = false ->
      load zero out py px = scaled px py).
  assert (HP0 : P the_initialized.1).
  { split_and!; try done. intros px py Hpx Hpy _. by apply Hp0. }
  change (P (depth_map_output_out r)).
  destruct (Inpaint_cases _ _ _ _ _ _ _ _ _ _ _ _ Hrun)
    as [[_ ->]|(_ & st & Hloop & ->)]; cbn [depth_map_output_out]; [done|].
  revert Hloop.
  apply (iterate_invariant _ _ _ _ _ _ _ (fun s => P (Host.depth_map_output s)));
    [|done].
  intros s s' (Hw & Hh & Hl & Hp) _ Hb. rewrite (body_output _ _ _ _ _ _ _ _ Hb).
  match goal with |- P (launch_kernel ?u ?t ?g ?x ?b ?n ?c ?m ?o).2 =>
    destruct (launch_kernel_size u t g x b n c m o) as (Hw' & Hh' & Hl') end.
  split_and!; [congruence|congruence|congruence|].
  intros px py Hpx Hpy Hnot.
  match goal with |- load zero (launch_kernel ?u ?t ?g ?x ?b ?n ?c ?m ?o).2 _ _ = _ =>
    destruct (launch_kernel_frame u t g x b n c m o px py Hnot) as (-> & _) end;
    [lia|lia|]. by apply Hp.
Qed.

End Inpaint.
End OutputProps.

(** ** The pixels a block writes *)

Module TileProps.
Import Host ArrayProps FoldProps FrameProps HoleProps.

Section Tiles.
Variable block_coordinates : CUDABuffer_ Z.
Variable depth_map_input : cudaTextureObject_t float.
Variable gradient_magnitude_div_sqrt2 : cudaTextureObject_t Z.
Variable max_change_rate_threshold : float.
(** The entries of [block_coordinates] are [uint16_t] values. *)
Hypothesis entries_are_uint16 :
  forall j, 0 <= zget 0 (address_ block_coordinates) j < 2 ^ 16.

Local Abbreviation origin_x := (Plain.origin_x block_coordinates).
Local Abbreviation origin_y := (Plain.origin_y block_coordinates).

Lemma origin_range b : 0 <= origin_x b < 2 ^ 16 /\ 0 <= origin_y b < 2 ^ 16.
Proof. split; apply entries_are_uint16. Qed.

(** A thread of the plain kernel that passes [kOutput] works on the pixel
    [(origin_x + threadIdx.x - 4, origin_y + threadIdx.y - 4)], which is in
    the image. *)
Lemma plain_output_pixel width height b tx ty :
  1 <= width <= 2 ^ 31 - 1 -> 1 <= height <= 2 ^ 31 - 1 ->
  Plain.kOutput 32 32 block_coordinates width height b tx ty = true ->
  (4 <= tx < 28 /\ 4 <= ty < 28) /\
  Plain.x block_coordinates width b tx = origin_x b + tx - 4 /\
  Plain.y block_coordinates height b ty = origin_y b + ty - 4 /\
  origin_x b + tx - 4 < width /\ origin_y b + ty - 4 < height.
Proof.
  intros Hw Hh. unfold Plain.kOutput. rewrite !andb_true_iff, !Z.ltb_lt.
  intros [[Hreg Hx] Hy]. apply in_output_region_32 in Hreg.
  destruct (origin_range b) as [Hox Hoy].
  unfold Plain.x, Plain.y, Plain.raw_x, Plain.raw_y, kIterationsPerKernelCall in *.
  rewrite (u32_small width), (u32_small (origin_x b + tx - 4)) in Hx by lia.
  rewrite (u32_small height), (u32_small (origin_y b + ty - 4)) in Hy by lia.
  rewrite (u32_small 0), (u32_small (width - 1)), (u32_small (height - 1)),
    (u32_small (origin_x b + tx - 4)), (u32_small (origin_y b + ty - 4)) by lia.
  rewrite !i32_small by lia. lia.
Qed.

(** The same for the weighted kernel. *)
Lemma weighted_output_pixel width height b tx ty :
  1 <= width <= 2 ^ 31 - 1 -> 1 <= height <= 2 ^ 31 - 1 ->
  Weighted.kOutput 32 32 block_coordinates depth_map_input width height b tx ty
  = true ->
  (4 <= tx < 28 /\ 4 <= ty < 28) /\
  Weighted.x block_coordinates width b tx = origin_x b + tx - 4 /\
  Weighted.y block_coordinates height b ty = origin_y b + ty - 4 /\
  origin_x b + tx - 4 < width /\ origin_y b + ty - 4 < height.
Proof.
  intros Hw Hh. unfold Weighted.kOutput, Weighted.kInImage.
  rewrite !andb_true_iff, !Z.ltb_lt, !Z.leb_le.
  intros [[Hreg [[[Hx0 Hy0] Hx] Hy]] _]. apply in_output_region_32 in Hreg.
  destruct (origin_range b) as [Hox Hoy].
  unfold Weighted.x, Weighted.y, Weighted.raw_x, Weighted.raw_y,
    kIterationsPerKernelCall in *.
  change (Weighted.origin_x block_coordinates b) with (origin_x b) in *.
  change (Weighted.origin_y block_coordinates b) with (origin_y b) in *.
  rewrite (u32_small (origin_x b + tx - 4)), i32_small in * by lia.
  rewrite (u32_small (origin_y b + ty - 4)), i32_small in * by lia.
  lia.
Qed.

(** The pixel lies outside the output tile of block [b]. *)
Local Abbreviation outside px py b :=
  (~ (origin_x b <= px < origin_x b + kBlockOutputSizeX /\
      origin_y b <= py < origin_y b + kBlockOutputSizeY)).

Lemma plain_block_tile check st b d px py :
  1 <= width_ st.2 <= 2 ^ 31 - 1 -> 1 <= height_ st.2 <= 2 ^ 31 - 1 ->
  0 <= px < width_ st.2 -> outside px py b ->
  load d (Plain.block 32 32 check block_coordinates depth_map_input
            max_change_rate_threshold st b).2 py px
  = load d st.2 py px.
Proof.
  intros Hw Hh Hpx Hout. destruct st as [mc out]. unfold Plain.block.
  cbn [fst snd] in *.
  destruct (Plain.sub_iterations _ _ _ _ _ _ _ _ _ _ _) as [shared mc'].
  cbn [fst snd]. unfold Plain.write_back.
  apply load_stores_untouched. intros [tx ty] _ Hg Hat. cbn [fst snd] in *.
  apply andb_true_iff in Hg as [Hg _].
  apply plain_output_pixel in Hg as (Ht & Hx & Hy & Hxw & Hyh); [|done..].
  destruct (origin_range b) as [Hox Hoy].
  apply at_inj in Hat as [Hx' Hy']; [|lia|done].
  apply Hout. unfold kBlockOutputSizeX, kBlockOutputSizeY, kBlockWidth,
    kBlockHeight, kIterationsPerKernelCall. lia.
Qed.

Lemma weighted_block_tile check st b d px py :
  1 <= width_ st.2 <= 2 ^ 31 - 1 -> 1 <= height_ st.2 <= 2 ^ 31 - 1 ->
  0 <= px < width_ st.2 -> outside px py b ->
  load d (Weighted.block 32 32 check block_coordinates depth_map_input
            gradient_magnitude_div_sqrt2 max_change_rate_threshold st b).2 py px
  = load d st.2 py px.
Proof.
  intros Hw Hh Hpx Hout. destruct st as [mc out]. unfold Weighted.block.
  cbn [fst snd] in *.
  destruct (Weighted.sub_iterations _ _ _ _ _ _ _ _ _ _ _ _) as [shared mc'].
  cbn [fst snd]. unfold Weighted.write_back.
  apply load_stores_untouched. intros [tx ty] _ Hg Hat. cbn [fst snd] in *.
  apply weighted_output_pixel in Hg as (Ht & Hx & Hy & Hxw & Hyh); [|done..].
  destruct (origin_range b) as [Hox Hoy].
  apply at_inj in Hat as [Hx' Hy']; [|lia|done].
  apply Hout. unfold kBlockOutputSizeX, kBlockOutputSizeY, kBlockWidth,
    kBlockHeight, kIterationsPerKernelCall. lia.
Qed.

(** A diffusion launch writes only inside the 24 x 24 output tiles at the
    origins that its blocks read from [block_coordinates]: a pixel of the
    image that lies in none of these tiles keeps its value, hole or not. *)
Theorem launch_writes_inside_its_tiles use_weighting active_block_count check
        max_change depth_map_output d px py :
  1 <= width_ depth_map_output <= 2 ^ 31 - 1 ->
  1 <= height_ depth_map_output <= 2 ^ 31 - 1 ->
  0 <= px < width_ depth_map_output ->
  (forall b, 0 <= b < u32 active_block_count -> outside px py b) ->
  load d (launch_kernel use_weighting max_change_rate_threshold
            gradient_magnitude_div_sqrt2 depth_map_input block_coordinates
            active_block_count check max_change depth_map_output).2 py px
  = load d depth_map_output py px.
Proof.
  intros Hw Hh Hpx Hout. unfold launch_kernel, launch_blocks.
  set (P := fun st : CUDABuffer_ Z * CUDABuffer_ float =>
              load d st.2 py px = load d depth_map_output py px /\
              width_ st.2 = width_ depth_map_output /\
              height_ st.2 = height_ depth_map_output).
  assert (HP : P (if use_weighting
                  then Weighted.launch 32 32 check (u32 active_block_count)
                         block_coordinates depth_map_input
                         gradient_magnitude_div_sqrt2 max_change
                         max_change_rate_threshold depth_map_output
                  else Plain.launch 32 32 check (u32 active_block_count)
                         block_coordinates depth_map_input max_change
                         max_change_rate_threshold depth_map_output));
    [|by destruct HP].
  destruct use_weighting; unfold Weighted.launch, Plain.launch;
    apply (foldl_preserves P); try done.
  - intros st b Hb (Hl & Hwd & Hht). apply elem_of_seqZ in Hb.
    unfold P. rewrite weighted_block_tile by (try apply Hout; lia).
    split; [done|]. destruct st as [mc out]. unfold Weighted.block. cbn [fst snd] in *.
    destruct (Weighted.sub_iterations _ _ _ _ _ _ _ _ _ _ _ _) as [shared mc'].
    cbn [fst snd]. unfold Weighted.write_back.
    match goal with |- context [stores ?g ?r ?c ?v ?o ?l] =>
      destruct (width_stores g r c v o l) as (-> & -> & _) end. done.
  - intros st b Hb (Hl & Hwd & Hht). apply elem_of_seqZ in Hb.
    unfold P. rewrite plain_block_tile by (try apply Hout; lia).
    split; [done|]. destruct st as [mc out]. unfold Plain.block. cbn [fst snd] in *.
    destruct (Plain.sub_iterations _ _ _ _ _ _ _ _ _ _ _) as [shared mc'].
    cbn [fst snd]. unfold Plain.write_back.
    match goal with |- context [stores ?g ?r ?c ?v ?o ?l] =>
      destruct (width_stores g r c v o l) as (-> & -> & _) end. done.
Qed.

End Tiles.
End TileProps.

(** ** The indices of the array accesses of the diffusion kernels *)

Module BoundsProps.
Import Host ArrayProps FrameProps ThreadProps.

(** Every array access of a thread of a 32 x 32 block stays inside its
    array: the thread's own cell of shared memory, the eight neighbour cells
    that the guard on [threadIdx] lets it read, and the pixel
    [depth_map_output(y, x)] it loads and stores, in the plain kernel as in
    the weighted one. *)
Theorem diffusion_accesses_are_in_bounds
        (block_coordinates : CUDABuffer_ Z) (out : CUDABuffer_ float) b tx ty :
  1 <= width_ out <= 2 ^ 31 - 1 -> 1 <= height_ out <= 2 ^ 31 - 1 ->
  (tx, ty) ∈ threads 32 32 ->
  0 <= Plain.shared_mem_index 32 tx ty < 32 * 32 /\
  (Plain.is_inner 32 32 tx ty = true ->
   forall n, n ∈ Plain.neighbours 32 (width_ out) (height_ out)
                  (Plain.x block_coordinates (width_ out) b tx)
                  (Plain.y block_coordinates (height_ out) b ty) ->
     0 <= Plain.shared_mem_index 32 tx ty + n.1.1 < 32 * 32) /\
  (Weighted.is_inner 32 32 tx ty = true ->
   forall n, n ∈ Weighted.neighbours 32 ->
     0 <= Weighted.shared_mem_index 32 tx ty + n.1 < 32 * 32) /\
  0 <= at_ out (Plain.y block_coordinates (height_ out) b ty)
               (Plain.x block_coordinates (width_ out) b tx)
    < height_ out * width_ out /\
  0 <= at_ out (Weighted.y block_coordinates (height_ out) b ty)
               (Weighted.x block_coordinates (width_ out) b tx)
    < height_ out * width_ out.
Proof.
  intros Hw Hh Hin. apply elem_of_threads in Hin as [Hx Hy].
  pose proof (plain_x_range block_coordinates (width_ out) b tx ltac:(lia)) as Hpx.
  pose proof (plain_y_range block_coordinates (height_ out) b ty ltac:(lia)) as Hpy.
  pose proof (weighted_x_range block_coordinates (width_ out) b tx ltac:(lia)) as Hwx.
  pose proof (weighted_y_range block_coordinates (height_ out) b ty ltac:(lia)) as Hwy.
  unfold Plain.shared_mem_index, Weighted.shared_mem_index, at_.
  split_and!.
  - lia.
  - lia.
  - unfold Plain.is_inner. rewrite !andb_true_iff, !Z.ltb_lt.
    intros [[[? ?] ?] ?] n Hn. unfold Plain.neighbours in Hn.
    repeat (apply elem_of_cons in Hn as [->|Hn]; [cbn [fst snd]; lia|]).
    by apply elem_of_nil in Hn.
  - unfold Weighted.is_inner. rewrite !andb_true_iff, !Z.ltb_lt.
    intros [[[? ?] ?] ?] n Hn. unfold Weighted.neighbours in Hn.
    repeat (apply elem_of_cons in Hn as [->|Hn]; [cbn [fst snd]; lia|]).
    by apply elem_of_nil in Hn.
  - nia.
  - nia.
  - nia.
  - nia.
Qed.

(** The halo threads left of the image and above it: in the plain kernel the
    sum [block_coordinates(..) + threadIdx.x - 4] is unsigned, a negative
    column wraps around and the clamp gives the last column of the image; the
    weighted kernel converts the sum to [int] first and the clamp gives
    column 0.  The same holds for the rows. *)
Theorem halo_clamp_of_the_two_kernels (block_coordinates : CUDABuffer_ Z)
        width height b tx ty :
  1 <= width <= 2 ^ 31 - 1 -> 1 <= height <= 2 ^ 31 - 1 ->
  0 <= tx -> 0 <= ty ->
  0 <= Plain.origin_x block_coordinates b -> 0 <= Plain.origin_y block_coordinates b ->
  (Plain.origin_x block_coordinates b + tx - kIterationsPerKernelCall < 0 ->
   Plain.x block_coordinates width b tx = width - 1 /\
   Weighted.x block_coordinates width b tx = 0) /\
  (Plain.origin_y block_coordinates b + ty - kIterationsPerKernelCall < 0 ->
   Plain.y block_coordinates height b ty = height - 1 /\
   Weighted.y block_coordinates height b ty = 0).
Proof.
  intros Hw Hh Htx Hty Hox Hoy.
  unfold Plain.x, Plain.y, Plain.raw_x, Plain.raw_y,
    Weighted.x, Weighted.y, Weighted.raw_x, Weighted.raw_y.
  change (Weighted.origin_x block_coordinates b)
    with (Plain.origin_x block_coordinates b).
  change (Weighted.origin_y block_coordinates b)
    with (Plain.origin_y block_coordinates b).
  unfold kIterationsPerKernelCall in *.
  set (ox := Plain.origin_x block_coordinates b) in *.
  set (oy := Plain.origin_y block_coordinates b) in *.
  assert (Hwrap : forall z, - 4 <= z < 0 ->
            u32 z = z + 2 ^ 32 /\ i32 (z + 2 ^ 32) = z).
  { intros z Hz. split.
    - unfold u32. symmetry. apply (Z.mod_unique _ _ (-1)); lia.
    - unfold i32. replace (z + 2 ^ 32 + 2 ^ 31) with (z + 2 ^ 31 + 1 * 2 ^ 32) by lia.
      rewrite Z.mod_add by lia. rewrite Z.mod_small; lia. }
  rewrite (u32_small 0), (u32_small (width - 1)), (u32_small (height - 1)) by lia.
  split; intros Hneg.
  - destruct (Hwrap (ox + tx - 4) ltac:(lia)) as [-> ->].
    split; [rewrite i32_small; lia|lia].
  - destruct (Hwrap (oy + ty - 4) ltac:(lia)) as [-> ->].
    split; [rewrite i32_small; lia|lia].
Qed.

End BoundsProps.

(** ** The transfers between the host and the device *)

Module TransferProps.
Import Host ArrayProps.

Lemma zget_UploadPart_lt {T : Type} (b : CUDABuffer_ T) (n : Z) (data : list T) d j :
  n <= Z.of_nat (length data) -> 0 <= j < n ->
  zget d (address_ (UploadPart b n data)) j = zget d data j.
Proof.
  intros Hn Hj. unfold UploadPart. cbn [address_]. unfold zget.
  destruct (Z.ltb_spec j 0); [lia|].
  rewrite lookup_app_l by (rewrite length_take; lia). by rewrite lookup_take_lt by lia.
Qed.

Lemma zget_UploadPart_ge {T : Type} (b : CUDABuffer_ T) (n : Z) (data : list T) d j :
  0 <= n <= Z.of_nat (length data) -> n <= j ->
  zget d (address_ (UploadPart b n data)) j = zget d (address_ b) j.
Proof.
  intros Hn Hj. unfold UploadPart. cbn [address_]. unfold zget.
  assert (Hlen : length (take (Z.to_nat n) data) = Z.to_nat n).
  { rewrite length_take. lia. }
  destruct (Z.ltb_spec j 0); [lia|].
  rewrite lookup_app_r by lia. rewrite lookup_drop. do 2 f_equal. lia.
Qed.

End TransferProps.

(** ** Sums over lists *)

Module SumProps.
Import Counting.

Section Sums.
Context {A : Type}.
Implicit Types (f g : A -> Z) (l : list A).

Lemma sumZ_acc f l a : foldl (fun n t => n + f t) a l = a + sumZ f l.
Proof.
  unfold sumZ. revert a. induction l as [|x l IH]; intros a; cbn; [lia|].
  rewrite (IH (a + f x)), (IH (0 + f x)). lia.
Qed.

Lemma sumZ_cons f x l : sumZ f (x :: l) = f x + sumZ f l.
Proof. unfold sumZ at 1. cbn. by rewrite sumZ_acc. Qed.

Lemma sumZ_app f l1 l2 : sumZ f (l1 ++ l2) = sumZ f l1 + sumZ f l2.
Proof.
  induction l1 as [|x l1 IH]; [done|]. cbn [app]. rewrite !sumZ_cons, IH. lia.
Qed.

Lemma sumZ_ext f g l : (forall x, x ∈ l -> f x = g x) -> sumZ f l = sumZ g l.
Proof.
  induction l as [|x l IH]; intros H; [done|]. rewrite !sumZ_cons.
  rewrite (H x) by left. rewrite IH; [done|]. intros y Hy. apply H. by right.
Qed.

Lemma sumZ_zero f l : (forall x, x ∈ l -> f x = 0) -> sumZ f l = 0.
Proof.
  induction l as [|x l IH]; intros H; [done|]. rewrite sumZ_cons.
  rewrite (H x) by left. rewrite IH; [done|]. intros y Hy. apply H. by right.
Qed.

Lemma sumZ_add f g l : sumZ (fun x => f x + g x) l = sumZ f l + sumZ g l.
Proof.
  induction l as [|x l IH]; [done|]. rewrite !sumZ_cons, IH. lia.
Qed.

Lemma sumZ_bounds f l :
  (forall x, x ∈ l -> 0 <= f x <= 1) -> 0 <= sumZ f l <= Z.of_nat (length l).
Proof.
  induction l as [|x l IH]; intros H; [done|]. rewrite sumZ_cons. cbn [length].
  pose proof (H x ltac:(left)). destruct IH; [|lia].
  intros y Hy. apply H. by right.
Qed.

Lemma sumZ_nonneg f l : (forall x, x ∈ l -> 0 <= f x) -> 0 <= sumZ f l.
Proof.
  induction l as [|x l IH]; intros H; [done|]. rewrite sumZ_cons.
  pose proof (H x ltac:(left)). assert (0 <= sumZ f l); [|lia].
  apply IH. intros y Hy. apply H. by right.
Qed.

(** A sum of terms that are not negative is zero only when every term is. *)
Lemma sumZ_zero_inv f l x :
  (forall x, x ∈ l -> 0 <= f x) -> sumZ f l = 0 -> x ∈ l -> f x = 0.
Proof.
  induction l as [|y l IH]; intros H Hs Hx; [by apply elem_of_nil in Hx|].
  rewrite sumZ_cons in Hs. pose proof (H y ltac:(left)).
  assert (0 <= sumZ f l).
  { apply sumZ_nonneg. intros z Hz. apply H. by right. }
  apply elem_of_cons in Hx as [->|Hx]; [lia|].
  apply IH; [|lia|done]. intros z Hz. apply H. by right.
Qed.

End Sums.

Lemma sumZ_bind {A B : Type} (f : B -> Z) (k : A -> list B) (l : list A) :
  sumZ f (l ≫= k) = sumZ (fun a => sumZ f (k a)) l.
Proof.
  induction l as [|a l IH]; [done|].
  change ((a :: l) ≫= k) with (k a ++ (l ≫= k)).
  by rewrite sumZ_app, sumZ_cons, IH.
Qed.

Lemma sumZ_fmap {A B : Type} (f : B -> Z) (h : A -> B) (l : list A) :
  sumZ f (h <$> l) = sumZ (fun a => f (h a)) l.
Proof.
  induction l as [|a l IH]; [done|].
  change (h <$> a :: l) with (h a :: (h <$> l)).
  by rewrite !sumZ_cons, IH.
Qed.

Lemma sumZ_swap {A B : Type} (f : A -> B -> Z) (la : list A) (lb : list B) :
  sumZ (fun a => sumZ (f a) lb) la = sumZ (fun b => sumZ (fun a => f a b) la) lb.
Proof.
  induction la as [|a la IH].
  - cbn. symmetry. by apply sumZ_zero.
  - rewrite sumZ_cons, IH. rewrite <- sumZ_add. apply sumZ_ext.
    intros b _. by rewrite sumZ_cons.
Qed.

Lemma block_sum_sumZ {A : Type} (flag : A -> bool) (l : list A) :
  block_sum flag l = sumZ (fun t => if flag t then 1 else 0) l.
Proof. done. Qed.

(** The sum over the pixels of a rectangle, row by row. *)
Lemma sumZ_pixels (f : Z * Z -> Z) x0 nx y0 ny :
  sumZ f (pixels x0 nx y0 ny)
  = sumZ (fun py => sumZ (fun px => f (px, py)) (seqZ x0 nx)) (seqZ y0 ny).
Proof.
  unfold pixels. rewrite sumZ_bind. apply sumZ_ext. intros py _.
  rewrite sumZ_bind. apply sumZ_ext. intros px _. rewrite sumZ_cons.
  change (sumZ f []) with 0. lia.
Qed.

(** The threads of the output region of a block of 32 that fall on the
    columns [c, c + 24) of an image of [w] columns. *)
Lemma sumZ_window (g : Z -> Z) c w :
  sumZ (fun t => if (4 <=? t) && (t <? 28) && (c + t - 4 <? w)
                 then g (c + t - 4) else 0) (seqZ 0 32)
  = sumZ g (seqZ c (tile_extent w c)).
Proof.
  unfold tile_extent. set (k := Z.max 0 (Z.min 24 (w - c))).
  assert (Hk : 0 <= k <= 24) by lia.
  assert (Hsplit : seqZ 0 32
            = seqZ 0 4 ++ seqZ 4 k ++ seqZ (4 + k) (24 - k) ++ seqZ 28 4).
  { replace 32 with (4 + (k + ((24 - k) + 4))) by lia.
    rewrite seqZ_app by lia. rewrite (seqZ_app _ k) by lia.
    rewrite (seqZ_app _ (24 - k)) by lia. do 3 f_equal. f_equal. lia. }
  rewrite Hsplit, !sumZ_app.
  rewrite (sumZ_zero _ (seqZ 0 4)).
  2: { intros t Ht. apply elem_of_seqZ in Ht.
       by destruct (Z.leb_spec 4 t); [lia|]. }
  rewrite (sumZ_zero _ (seqZ (4 + k) (24 - k))).
  2: { intros t Ht. apply elem_of_seqZ in Ht.
       destruct (Z.leb_spec 4 t); [|done]. destruct (Z.ltb_spec t 28); [|done].
       by destruct (Z.ltb_spec (c + t - 4) w); [lia|]. }
  rewrite (sumZ_zero _ (seqZ 28 4)).
  2: { intros t Ht. apply elem_of_seqZ in Ht.
       destruct (Z.leb_spec 4 t); [|done]. by destruct (Z.ltb_spec t 28); [lia|]. }
  replace (seqZ c k) with (Z.add (c - 4) <$> seqZ 4 k)
    by (rewrite fmap_add_seqZ; f_equal; lia).
  rewrite sumZ_fmap.
  rewrite !Z.add_0_l, !Z.add_0_r. apply sumZ_ext.
  intros t Ht. apply elem_of_seqZ in Ht.
  destruct (Z.leb_spec 4 t); [|lia]. destruct (Z.ltb_spec t 28); [|lia].
  destruct (Z.ltb_spec (c + t - 4) w); [|lia]. cbn. f_equal. lia.
Qed.

(** The tiles of 24 columns cover the columns of the image once. *)
Lemma sumZ_tiles (g : Z -> Z) w (n : nat) :
  sumZ (fun b => sumZ g (seqZ (b * 24) (tile_extent w (b * 24)))) (seqZ 0 (Z.of_nat n))
  = sumZ g (seqZ 0 (Z.max 0 (Z.min w (24 * Z.of_nat n)))).
Proof.
  induction n as [|n IH].
  { rewrite (seqZ_nil 0 (Z.max _ _)) by lia. done. }
  replace (Z.of_nat (S n)) with (Z.of_nat n + 1) by lia.
  rewrite seqZ_app by lia. rewrite sumZ_app, IH.
  change (seqZ (0 + Z.of_nat n) 1) with [0 + Z.of_nat n].
  rewrite sumZ_cons. change (sumZ _ []) with 0. rewrite Z.add_0_l, Z.add_0_r.
  unfold tile_extent.
  destruct (Z.le_gt_cases w (24 * Z.of_nat n)) as [Hle|Hgt].
  - replace (Z.max 0 (Z.min 24 (w - Z.of_nat n * 24))) with 0 by lia.
    rewrite (seqZ_nil _ 0) by lia. change (sumZ g []) with 0.
    replace (Z.max 0 (Z.min w (24 * (Z.of_nat n + 1))))
      with (Z.max 0 (Z.min w (24 * Z.of_nat n))) by lia. lia.
  - replace (Z.max 0 (Z.min w (24 * (Z.of_nat n + 1))))
      with (Z.max 0 (Z.min w (24 * Z.of_nat n))
            + Z.max 0 (Z.min 24 (w - Z.of_nat n * 24))) by lia.
    rewrite seqZ_app by lia. rewrite sumZ_app. do 3 f_equal. lia.
Qed.

End SumProps.

(** ** The counts of the initialisation kernel *)

Module InitCountProps.
Import Counting ArrayProps FoldProps FrameProps ThreadProps CompactionProps
       HoleProps InitProps SumProps.

Section Launch.
Variable grid_dim_x grid_dim_y : Z.
Variable depth_input_scaling_factor : float.
Variable depth_map_input : cudaTextureObject_t float.
Variables width height : Z.
Hypothesis width_range : 1 <= width <= 2 ^ 31 - 1.
Hypothesis height_range : 1 <= height <= 2 ^ 31 - 1.

Local Abbreviation scaled :=
  (fun px py => fmul depth_input_scaling_factor (tex2D depth_map_input px py)).
Local Abbreviation block :=
  (Init.block 32 32 grid_dim_x depth_input_scaling_factor depth_map_input).
Local Abbreviation launch :=
  (Init.launch 32 32 grid_dim_x depth_input_scaling_factor depth_map_input
     grid_dim_x grid_dim_y).
Local Abbreviation thread_is_active :=
  (Init.thread_is_active 32 32 depth_input_scaling_factor depth_map_input
     width height).
Local Abbreviation sized := (fun out : CUDABuffer_ float =>
  width_ out = width /\ height_ out = height /\
  Z.of_nat (length (address_ out)) = height * width).

(** A thread is active when it is in the output region, its pixel is in the
    image, and the scaled input of the pixel equals zero. *)
Lemma thread_is_active_spec bx by_ tx ty :
  0 <= bx -> 0 <= by_ -> bx * 24 + 24 <= 2 ^ 32 -> by_ * 24 + 24 <= 2 ^ 32 ->
  thread_is_active bx by_ tx ty
  = (4 <=? ty) && (ty <? 28) && (by_ * 24 + ty - 4 <? height) &&
    ((4 <=? tx) && (tx <? 28) && (bx * 24 + tx - 4 <? width) &&
     feq (scaled (bx * 24 + tx - 4) (by_ * 24 + ty - 4)) zero).
Proof.
  intros Hbx Hby Hgx Hgy.
  unfold Init.thread_is_active, Init.kOutput, Init.depth_input.
  destruct (in_output_region 32 32 tx ty) eqn:Hreg.
  - apply in_output_region_32 in Hreg as [Htx Hty].
    unfold Init.x, Init.y, Init.kBlockOutputSizeX, Init.kBlockOutputSizeY,
      kIterationsPerKernelCall.
    change (32 - 2 * 4) with 24.
    rewrite (u32_small (bx * 24 + tx - 4)), (u32_small (by_ * 24 + ty - 4)),
      (u32_small width), (u32_small height) by lia.
    destruct (Z.leb_spec 4 ty); [|lia]. destruct (Z.ltb_spec ty 28); [|lia].
    destruct (Z.leb_spec 4 tx); [|lia]. destruct (Z.ltb_spec tx 28); [|lia].
    cbn [andb].
    by destruct (bx * 24 + tx - 4 <? width), (by_ * 24 + ty - 4 <? height).
  - cbn [andb].
    destruct (Z.leb_spec 4 ty); [|done]. destruct (Z.ltb_spec ty 28); [|done].
    destruct (Z.leb_spec 4 tx); [|by rewrite andb_false_r].
    destruct (Z.ltb_spec tx 28); [|by rewrite andb_false_r].
    assert (in_output_region 32 32 tx ty = true) by (apply in_output_region_32; lia).
    congruence.
Qed.

(** The number of active threads of a block is the number of pixels of its
    tile, as far as the tile lies in the image, whose scaled input equals
    zero. *)
Lemma active_threads_of_a_block bx by_ :
  0 <= bx -> 0 <= by_ -> bx * 24 + 24 <= 2 ^ 32 -> by_ * 24 + 24 <= 2 ^ 32 ->
  block_sum (fun t : Z * Z => thread_is_active bx by_ t.1 t.2) (threads 32 32)
  = tile_zero_pixels scaled width height bx by_.
Proof.
  intros Hbx Hby Hgx Hgy.
  unfold tile_zero_pixels, zero_pixels. rewrite !block_sum_sumZ.
  change (threads 32 32) with (pixels 0 32 0 32). rewrite !sumZ_pixels.
  cbn [fst snd].
  rewrite <- (sumZ_window
    (fun py => sumZ (fun px => if feq (scaled px py) zero then 1 else 0)
                 (seqZ (bx * 24) (tile_extent width (bx * 24)))) (by_ * 24) height).
  apply sumZ_ext. intros ty _.
  destruct ((4 <=? ty) && (ty <? 28) && (by_ * 24 + ty - 4 <? height)) eqn:Hy.
  - rewrite <- (sumZ_window
      (fun px => if feq (scaled px (by_ * 24 + ty - 4)) zero then 1 else 0)
      (bx * 24) width).
    apply sumZ_ext. intros tx _.
    rewrite thread_is_active_spec, Hy by done. cbn [andb].
    by destruct ((4 <=? tx) && (tx <? 28) && (bx * 24 + tx - 4 <? width)).
  - apply sumZ_zero. intros tx _.
    by rewrite thread_is_active_spec, Hy by done.
Qed.

Lemma length_threads_32 : length (threads 32 32) = 1024%nat.
Proof. vm_compute. reflexivity. Qed.

Lemma active_threads_range bx by_ :
  0 <= block_sum (fun t : Z * Z => thread_is_active bx by_ t.1 t.2) (threads 32 32)
    <= 1024.
Proof.
  rewrite block_sum_sumZ.
  pose proof (sumZ_bounds
    (fun t : Z * Z => if thread_is_active bx by_ t.1 t.2 then 1 else 0)
    (threads 32 32)) as H.
  rewrite length_threads_32 in H. apply H.
  intros t _. destruct (thread_is_active _ _ _ _); lia.
Qed.

(** What a block leaves in [block_coordinates]. *)
Lemma block_count st bx by_ :
  sized st.1 ->
  (block st (bx, by_)).2
  = store st.2 0 (u32 (bx + by_ * grid_dim_x))
      (block_sum (fun t : Z * Z => thread_is_active bx by_ t.1 t.2) (threads 32 32)).
Proof.
  intros (Hw & Hh & _). unfold Init.block. cbn [fst snd]. rewrite Hw, Hh.
  f_equal. apply u16_small.
  pose proof (active_threads_range bx by_). lia.
Qed.

(** After the launch the count of every tile of the grid is the number of
    pixels of the tile whose scaled input equals zero. *)
Lemma launch_count out block_coordinates x y :
  sized out -> (x, y) ∈ Init.blocks grid_dim_x grid_dim_y ->
  grid_dim_x * 24 <= 2 ^ 32 -> grid_dim_y * 24 <= 2 ^ 32 ->
  grid_dim_x * grid_dim_y <= 2 ^ 32 ->
  grid_dim_x * grid_dim_y <= Z.of_nat (length (address_ block_coordinates)) ->
  zget 0 (address_ (launch out block_coordinates).2) (x + y * grid_dim_x)
  = tile_zero_pixels scaled width height x y.
Proof.
  intros Hs Hin Hgx Hgy Hg Hlen. unfold Init.launch.
  pose proof Hin as Hin'. apply elem_of_blocks in Hin' as [Hx Hy].
  assert (Hk : 0 <= x + y * grid_dim_x < grid_dim_x * grid_dim_y) by nia.
  apply (foldl_established
           (fun st : CUDABuffer_ float * CUDABuffer_ Z =>
              sized st.1 /\
              length (address_ st.2) = length (address_ block_coordinates))
           (fun st => zget 0 (address_ st.2) (x + y * grid_dim_x)
                      = tile_zero_pixels scaled width height x y)
           _ _ _ (x, y)); try done.
  - intros st [bx by_] _ [Hsz Hl]. split; [by apply block_sized|].
    rewrite block_count by done. cbn [store address_]. by rewrite length_zset.
  - intros st [bx by_] Hb [Hsz Hl] Hz. rewrite block_count by done.
    cbn [store address_]. unfold at_.
    apply elem_of_blocks in Hb as [Hbx Hby].
    assert (Hk' : 0 <= bx + by_ * grid_dim_x < grid_dim_x * grid_dim_y) by nia.
    rewrite u32_small by lia.
    destruct (Z.eq_dec (bx + by_ * grid_dim_x) (x + y * grid_dim_x)) as [He|Hne].
    + assert (bx = x /\ by_ = y) as [-> ->].
      { apply (shared_mem_index_inj grid_dim_x); [lia|lia|lia]. }
      replace (0 * width_ st.2 + (x + y * grid_dim_x)) with (x + y * grid_dim_x)
        by lia.
      rewrite zget_zset_eq by lia. apply active_threads_of_a_block; nia.
    + rewrite zget_zset_ne by lia. done.
  - intros st [Hsz Hl]. rewrite block_count by done.
    cbn [store address_]. unfold at_. rewrite u32_small by lia.
    replace (0 * width_ st.2 + (x + y * grid_dim_x)) with (x + y * grid_dim_x)
      by lia.
    rewrite zget_zset_eq by lia. apply active_threads_of_a_block; nia.
Qed.

End Launch.
End InitCountProps.

(** ** The census of the hole pixels *)

Module CensusProps.
Import Counting Host ArrayProps FoldProps LoopProps HostProps CompactionProps
       InitProps SumProps InitCountProps TransferProps Stated.

Lemma filter_ext_in {A : Type} (P Q : A -> Prop)
      `{!forall x, Decision (P x)} `{!forall x, Decision (Q x)} (l : list A) :
  (forall x, x ∈ l -> P x <-> Q x) -> filter P l = filter Q l.
Proof.
  induction l as [|x l IH]; intros HPQ; [done|].
  rewrite !filter_cons.
  assert (Hl : filter P l = filter Q l).
  { apply IH. intros y Hy. apply HPQ. by right. }
  pose proof (HPQ x ltac:(left)) as Hx.
  destruct (decide (P x)), (decide (Q x)); try tauto; by rewrite Hl.
Qed.

Lemma sum_counts_sumZ gx act l :
  sum_counts gx act l = sumZ (fun b : Z * Z => zget 0 act (b.1 + b.2 * gx)) l.
Proof.
  induction l as [|b l IH]; [done|]. rewrite sumZ_cons, <- IH. done.
Qed.

(** Leaving out the terms that are zero does not change a sum. *)
Lemma sumZ_filter_positive {A : Type} (f : A -> Z) (l : list A) :
  (forall x, x ∈ l -> 0 <= f x) ->
  sumZ f (filter (fun x => 0 < f x) l) = sumZ f l.
Proof.
  induction l as [|x l IH]; intros H; [done|].
  rewrite filter_cons, sumZ_cons.
  assert (Hl : sumZ f (filter (fun x => 0 < f x) l) = sumZ f l).
  { apply IH. intros y Hy. apply H. by right. }
  pose proof (H x ltac:(left)).
  destruct (decide (0 < f x)); [by rewrite sumZ_cons, Hl|]. rewrite Hl. lia.
Qed.

(** The compaction, for a grid of less than [2^30] tiles. *)
Lemma compact_spec grid_dim_x grid_dim_y block_activity :
  0 <= grid_dim_x -> 0 <= grid_dim_y -> grid_dim_x * grid_dim_y < 2 ^ 30 ->
  let c := compact grid_dim_x grid_dim_y block_activity in
  active_block_count c
  = Z.of_nat (length (active_tiles grid_dim_x grid_dim_y block_activity)) /\
  origins (block_coordinates_cpu c) (active_block_count c)
  = (fun b : Z * Z => (u16 (b.1 * kBlockOutputSizeX), u16 (b.2 * kBlockOutputSizeY)))
      <$> active_tiles grid_dim_x grid_dim_y block_activity /\
  pixel_to_inpaint_count c
  = u32 (sum_counts grid_dim_x block_activity
           (active_tiles grid_dim_x grid_dim_y block_activity)) /\
  2 * active_block_count c <= Z.of_nat (length (block_coordinates_cpu c)) /\
  active_block_count c <= grid_dim_x * grid_dim_y.
Proof.
  intros Hx Hy Hcells. cbv zeta. unfold compact.
  pose proof (length_blocks grid_dim_x grid_dim_y Hx Hy) as Hlen.
  match goal with |- context [foldl _ ?c0 _] => set (c0' := c0) end.
  destruct (compact_fold grid_dim_x block_activity
              (Init.blocks grid_dim_x grid_dim_y) c0')
    as (Hcount & Horig & Hs & Hrange).
  { done. }
  { subst c0'. cbn. rewrite length_replicate, u32_small by nia. nia. }
  { subst c0'. cbn. lia. }
  fold (active_tiles grid_dim_x grid_dim_y block_activity) in Hcount, Horig, Hs.
  assert (Hfl : Z.of_nat (length (active_tiles grid_dim_x grid_dim_y block_activity))
                <= grid_dim_x * grid_dim_y).
  { rewrite <- Hlen. apply inj_le. apply length_filter. }
  split_and!.
  - rewrite Hcount. subst c0'. cbn. lia.
  - rewrite Horig. subst c0'. cbn [block_coordinates_cpu active_block_count].
    unfold origins at 1. by rewrite seqZ_nil by lia.
  - rewrite <- (u32_small (pixel_to_inpaint_count _)) by (apply Hrange; by cbn).
    rewrite Hs. subst c0'. cbn [pixel_to_inpaint_count]. done.
  - rewrite Hcount.
    assert (Hl : length (block_coordinates_cpu
                  (foldl (compact_step grid_dim_x block_activity) c0'
                     (Init.blocks grid_dim_x grid_dim_y)))
                 = length (block_coordinates_cpu c0')).
    { apply (foldl_preserves (fun c => length (block_coordinates_cpu c)
                                       = length (block_coordinates_cpu c0')));
        [done|].
      intros c [x y] _ Hc. unfold compact_step.
      destruct (0 <? _); [|done]. cbn. by rewrite !length_zset. }
    rewrite Hl. subst c0'. cbn. rewrite length_replicate, u32_small by nia. nia.
  - rewrite Hcount. subst c0'. cbn. lia.
Qed.

(** The tiles of a grid that covers the image count every pixel once. *)
Lemma zero_pixels_tiles (value : Z -> Z -> float) w h (nx ny : nat) :
  0 <= w <= 24 * Z.of_nat nx -> 0 <= h <= 24 * Z.of_nat ny ->
  sumZ (fun b : Z * Z => tile_zero_pixels value w h b.1 b.2)
       (pixels 0 (Z.of_nat nx) 0 (Z.of_nat ny))
  = zero_pixels value 0 w 0 h.
Proof.
  intros Hw Hh. rewrite sumZ_pixels. cbn [fst snd].
  pose (z := fun px py : Z => if feq (value px py) zero then 1 else 0).
  transitivity
    (sumZ (fun by_ =>
             sumZ (fun py => sumZ (fun px => z px py) (seqZ 0 w))
                  (seqZ (by_ * 24) (tile_extent h (by_ * 24))))
          (seqZ 0 (Z.of_nat ny))).
  - apply sumZ_ext. intros by_ _.
    transitivity
      (sumZ (fun bx =>
               sumZ (fun py => sumZ (fun px => z px py)
                                 (seqZ (bx * 24) (tile_extent w (bx * 24))))
                    (seqZ (by_ * 24) (tile_extent h (by_ * 24))))
            (seqZ 0 (Z.of_nat nx))).
    + apply sumZ_ext. intros bx _. unfold tile_zero_pixels, zero_pixels.
      by rewrite block_sum_sumZ, sumZ_pixels.
    + rewrite sumZ_swap. apply sumZ_ext. intros py _.
      rewrite (sumZ_tiles (fun px => z px py) w nx). do 2 f_equal. lia.
  - rewrite (sumZ_tiles (fun py => sumZ (fun px => z px py) (seqZ 0 w)) h ny).
    replace (Z.max 0 (Z.min h (24 * Z.of_nat ny))) with h by lia.
    unfold zero_pixels. by rewrite block_sum_sumZ, sumZ_pixels.
Qed.

Lemma zero_pixels_nonneg (value : Z -> Z -> float) x0 nx y0 ny :
  0 <= zero_pixels value x0 nx y0 ny.
Proof.
  unfold zero_pixels. rewrite block_sum_sumZ. apply sumZ_nonneg.
  intros p _. destruct (feq _ _); lia.
Qed.

Section Inpaint.
Variable GetBlockCount : Z -> Z -> Z.
Variable use_weighting : bool.
Variable max_num_iterations : Z.
Variable max_change_rate_threshold : float.
Variable depth_input_scaling_factor : float.
Variable gradient_magnitude_div_sqrt2 : cudaTextureObject_t Z.
Variable depth_map_input : cudaTextureObject_t float.
Variable max_change : CUDABuffer_ Z.
Variable depth_map_output : CUDABuffer_ float.
Variable block_coordinates : CUDABuffer_ Z.

Local Abbreviation width := (width_ depth_map_output).
Local Abbreviation height := (height_ depth_map_output).
Local Abbreviation gx := (grid_dim_x GetBlockCount depth_map_output).
Local Abbreviation gy := (grid_dim_y GetBlockCount depth_map_output).
Local Abbreviation scaled :=
  (fun px py => fmul depth_input_scaling_factor (tex2D depth_map_input px py)).
Local Abbreviation the_initialized :=
  (initialized GetBlockCount depth_input_scaling_factor depth_map_input
     depth_map_output block_coordinates).
Local Abbreviation the_block_activity :=
  (block_activity GetBlockCount depth_input_scaling_factor depth_map_input
     depth_map_output block_coordinates).
Local Abbreviation the_compacted :=
  (compacted GetBlockCount depth_input_scaling_factor depth_map_input
     depth_map_output block_coordinates).
Local Abbreviation the_uploaded :=
  (uploaded GetBlockCount depth_input_scaling_factor depth_map_input
     depth_map_output block_coordinates).
Local Abbreviation the_initial_state :=
  (initial_state GetBlockCount depth_input_scaling_factor depth_map_input
     max_change depth_map_output block_coordinates).
Local Abbreviation Inpaint :=
  (InpaintDepthMapWithConvolutionCUDA GetBlockCount use_weighting
     max_num_iterations max_change_rate_threshold depth_input_scaling_factor
     gradient_magnitude_div_sqrt2 depth_map_input max_change depth_map_output
     block_coordinates).
(** The tiles of the grid that hold a pixel whose scaled input is zero. *)
Local Abbreviation hole_tiles :=
  (filter (fun b : Z * Z => 0 < tile_zero_pixels scaled width height b.1 b.2)
          (Init.blocks gx gy)).

(** The image is not empty, its sizes are [int]s, the buffer holds it; the
    grid of [GetBlockCount] covers it, its tile origins fit 16 bits, and
    [block_coordinates] has a cell for every tile. *)
Hypothesis width_range : 1 <= width <= 2 ^ 31 - 1.
Hypothesis height_range : 1 <= height <= 2 ^ 31 - 1.
Hypothesis allocated :
  Z.of_nat (length (address_ depth_map_output)) = height * width.
Hypothesis grid_covers_width : width <= gx * kBlockOutputSizeX.
Hypothesis grid_covers_height : height <= gy * kBlockOutputSizeY.
Hypothesis origins_fit_x : (gx - 1) * kBlockOutputSizeX < 2 ^ 16.
Hypothesis origins_fit_y : (gy - 1) * kBlockOutputSizeY < 2 ^ 16.
Hypothesis room_for_the_counts :
  gx * gy <= Z.of_nat (length (address_ block_coordinates)).

Lemma grid_facts :
  0 <= gx /\ 0 <= gy /\ width <= gx * 24 /\ height <= gy * 24 /\
  (gx - 1) * 24 < 2 ^ 16 /\ (gy - 1) * 24 < 2 ^ 16 /\ gx * gy < 2 ^ 30.
Proof.
  unfold kBlockOutputSizeX, kBlockOutputSizeY, kBlockWidth, kBlockHeight,
    kIterationsPerKernelCall in *.
  change (32 - 2 * 4) with 24 in *.
  assert (0 <= gx) by apply Z.mod_pos_bound, eq_refl.
  assert (0 <= gy) by apply Z.mod_pos_bound, eq_refl.
  split_and!; try done; try lia. nia.
Qed.

Lemma block_activity_count bx by_ :
  (bx, by_) ∈ Init.blocks gx gy ->
  zget 0 the_block_activity (bx + by_ * gx)
  = tile_zero_pixels scaled width height bx by_.
Proof.
  intros Hin. destruct grid_facts as (Hgx & Hgy & Hcx & Hcy & Hfx & Hfy & Hg).
  pose proof Hin as Hin'. apply elem_of_blocks in Hin' as [Hx Hy].
  unfold block_activity, DownloadPart. rewrite zget_take.
  rewrite u32_small by lia.
  destruct (decide _) as [_|Hk]; [|exfalso; apply Hk; nia].
  unfold initialized.
  apply (launch_count gx gy depth_input_scaling_factor depth_map_input
           width height); try done; lia.
Qed.

Lemma active_tiles_are_hole_tiles :
  active_tiles gx gy the_block_activity = hole_tiles.
Proof.
  unfold active_tiles. apply filter_ext_in. intros [bx by_] Hb. cbn [fst snd].
  by rewrite block_activity_count.
Qed.

(** The counts of the tiles add up to the number of pixels of the image
    whose scaled input equals zero. *)
Lemma sum_of_the_counts :
  sum_counts gx the_block_activity (active_tiles gx gy the_block_activity)
  = zero_pixels scaled 0 width 0 height.
Proof.
  destruct grid_facts as (Hgx & Hgy & Hcx & Hcy & Hfx & Hfy & Hg).
  rewrite sum_counts_sumZ. unfold active_tiles.
  rewrite (sumZ_filter_positive
             (fun b : Z * Z => zget 0 the_block_activity (b.1 + b.2 * gx))).
  2: { intros [bx by_] Hb. cbn [fst snd]. rewrite block_activity_count by done.
       apply zero_pixels_nonneg. }
  rewrite (sumZ_ext _ (fun b : Z * Z => tile_zero_pixels scaled width height b.1 b.2)).
  2: { intros [bx by_] Hb. cbn [fst snd]. by apply block_activity_count. }
  change (Init.blocks gx gy) with (pixels 0 gx 0 gy).
  rewrite <- (Z2Nat.id gx), <- (Z2Nat.id gy) by lia.
  apply zero_pixels_tiles; lia.
Qed.

(** The count that the initialisation pass leaves for a tile, as the host
    reads it, is the number of pixels of the tile, as far as it lies in the
    image, whose scaled input equals zero. *)
Theorem tile_counts_are_the_zero_pixels bx by_ :
  (bx, by_) ∈ Init.blocks gx gy ->
  zget 0 the_block_activity (bx + by_ * gx)
  = tile_zero_pixels scaled width height bx by_.
Proof. apply block_activity_count. Qed.

(** The list of every diffusion launch of a run. *)
Lemma launches_cover_the_list fuel r l :
  Inpaint fuel = Some r -> l ∈ launches_out r ->
  launch_grid_dim_active l = u32 (active_block_count the_compacted) /\
  launch_tiles l = tiles_read the_uploaded (u32 (active_block_count the_compacted)).
Proof.
  intros Hrun. revert l.
  destruct (Inpaint_cases _ _ _ _ _ _ _ _ _ _ _ _ Hrun)
    as [[_ ->]|(_ & st & Hloop & ->)]; cbn.
  { intros ? H. by apply elem_of_nil in H. }
  revert Hloop.
  apply (iterate_invariant _ _ _ _ _ _ _ (fun s =>
    forall l, l ∈ launches s ->
      launch_grid_dim_active l = u32 (active_block_count the_compacted) /\
      launch_tiles l = tiles_read the_uploaded (u32 (active_block_count the_compacted)))).
  - intros st1 st2 Hl _ Hb.
    destruct (body_cases _ _ _ _ _ _ _ _ Hb) as (_ & Hlog & _).
    intros l. rewrite Hlog, elem_of_app, list_elem_of_singleton.
    intros [Hin| ->]; [by apply Hl|done].
  - intros ? H. by apply elem_of_nil in H.
Qed.

(** A run that finds a tile to work on and may iterate launches a kernel. *)
Lemma a_launch_is_issued fuel r :
  Inpaint fuel = Some r -> active_block_count the_compacted <> 0 ->
  0 < max_num_iterations -> launches_out r <> [].
Proof.
  intros Hrun Hn Hmax.
  destruct (Inpaint_cases _ _ _ _ _ _ _ _ _ _ _ _ Hrun)
    as [[Hz _]|(_ & st & Hloop & ->)]; [done|]. cbn. revert Hloop.
  apply (iterate_rule _ _ _ _ _ _ _
           (fun s => s = the_initial_state \/ launches s <> [])
           (fun s => launches s <> [])).
  - intros s s' _ _ Hb.
    destruct (body_cases _ _ _ _ _ _ _ _ (or_introl Hb)) as (_ & -> & _).
    right. intros H. by apply app_eq_nil in H as [_ ?].
  - intros s s' _ _ Hb.
    destruct (body_cases _ _ _ _ _ _ _ _ (or_intror Hb)) as (_ & -> & _).
    intros H. by apply app_eq_nil in H as [_ ?].
  - intros s [-> |H] Hge; [cbn in Hge; lia|done].
  - by left.
Qed.

(** [pixel_to_inpaint_count] is the number of pixels of the image whose
    scaled input equals zero, as long as that number is below [2^32]; the
    active list has one entry for every tile that holds such a pixel; and,
    with a positive [max_num_iterations], a diffusion kernel is launched
    exactly when there is such a pixel. *)
Theorem pixel_to_inpaint_count_is_the_number_of_zero_pixels fuel r :
  zero_pixels scaled 0 width 0 height < 2 ^ 32 ->
  InpaintDepthMapWithConvolutionCUDA GetBlockCount use_weighting
    max_num_iterations max_change_rate_threshold depth_input_scaling_factor
    gradient_magnitude_div_sqrt2 depth_map_input max_change depth_map_output
    block_coordinates fuel = Some r ->
  pixel_to_inpaint_count_out r = zero_pixels scaled 0 width 0 height /\
  active_block_count the_compacted = Z.of_nat (length hole_tiles) /\
  (0 < max_num_iterations ->
   launches_out r = [] <-> zero_pixels scaled 0 width 0 height = 0).
Proof.
  intros Hsum Hrun.
  destruct grid_facts as (Hgx & Hgy & Hcx & Hcy & Hfx & Hfy & Hg).
  destruct (compact_spec gx gy the_block_activity Hgx Hgy Hg)
    as (Hcount & _ & Hpix & _).
  fold the_compacted in Hcount, Hpix.
  rewrite sum_of_the_counts in Hpix. rewrite active_tiles_are_hole_tiles in Hcount.
  pose proof (zero_pixels_nonneg scaled 0 width 0 height) as Hnn.
  rewrite u32_small in Hpix by lia.
  assert (Hiff : active_block_count the_compacted = 0
                 <-> zero_pixels scaled 0 width 0 height = 0).
  { rewrite <- sum_of_the_counts, active_tiles_are_hole_tiles, sum_counts_sumZ.
    rewrite Hcount. split.
    - intros Hz. destruct hole_tiles; [done|cbn in Hz; lia].
    - intros Hz. destruct hole_tiles as [|[bx by_] tiles] eqn:Ht; [done|].
      exfalso.
      assert (Hb : (bx, by_) ∈ hole_tiles) by (rewrite Ht; left).
      apply list_elem_of_filter in Hb as [Hpos Hb]. cbn [fst snd] in Hpos.
      rewrite <- block_activity_count in Hpos by done.
      rewrite sumZ_cons in Hz. cbn [fst snd] in Hz.
      assert (0 <= sumZ (fun b : Z * Z => zget 0 the_block_activity (b.1 + b.2 * gx))
                     tiles); [|lia].
      apply sumZ_nonneg. intros [x y] Hxy. cbn [fst snd].
      assert (Hin : (x, y) ∈ hole_tiles) by (rewrite Ht; by right).
      apply list_elem_of_filter in Hin as [_ Hin].
      rewrite block_activity_count by done. apply zero_pixels_nonneg. }
  split_and!; [|done|].
  - destruct (Inpaint_cases _ _ _ _ _ _ _ _ _ _ _ _ Hrun)
      as [[_ ->]|(_ & st & _ & ->)]; done.
  - intros Hmax. rewrite <- Hiff. split.
    + intros Hl. destruct (Z.eq_dec (active_block_count the_compacted) 0); [done|].
      by destruct (a_launch_is_issued fuel r).
    + intros Hz.
      destruct (Inpaint_cases _ _ _ _ _ _ _ _ _ _ _ _ Hrun)
        as [[_ ->]|(Hnz & _)]; done.
Qed.

(** Every diffusion launch of a run has one block for every tile of the grid
    that holds a pixel whose scaled input equals zero, and block [b] reads
    the origin [(24 * tile_x, 24 * tile_y)] of the [b]-th of these tiles, in
    row-major order. *)
Theorem launches_cover_the_tiles_with_holes fuel r l :
  2 * Z.of_nat (length hole_tiles) <= Z.of_nat (length (address_ block_coordinates)) ->
  InpaintDepthMapWithConvolutionCUDA GetBlockCount use_weighting
    max_num_iterations max_change_rate_threshold depth_input_scaling_factor
    gradient_magnitude_div_sqrt2 depth_map_input max_change depth_map_output
    block_coordinates fuel = Some r -> l ∈ launches_out r ->
  launch_grid_dim_active l = Z.of_nat (length hole_tiles) /\
  launch_tiles l
  = (fun b : Z * Z => (b.1 * kBlockOutputSizeX, b.2 * kBlockOutputSizeY))
      <$> hole_tiles.
Proof.
  intros Hroom Hrun Hl.
  destruct grid_facts as (Hgx & Hgy & Hcx & Hcy & Hfx & Hfy & Hg).
  destruct (compact_spec gx gy the_block_activity Hgx Hgy Hg)
    as (Hcount & Horig & _ & Hcpu & Hle).
  fold the_compacted in Hcount, Horig, Hcpu, Hle.
  rewrite active_tiles_are_hole_tiles in Hcount, Horig.
  destruct (launches_cover_the_list fuel r l Hrun Hl) as [-> ->].
  rewrite u32_small by lia. split; [done|].
  transitivity (origins (block_coordinates_cpu the_compacted)
                  (active_block_count the_compacted)).
  - unfold tiles_read, origins. apply list_fmap_ext. intros k b Hb.
    apply list_elem_of_lookup_2, elem_of_seqZ in Hb.
    unfold Plain.origin_x, Plain.origin_y, load, at_.
    rewrite !u32_small by lia. unfold uploaded.
    rewrite !zget_UploadPart_lt by lia. f_equal; f_equal; lia.
  - rewrite Horig. apply list_fmap_ext. intros k [bx by_] Hb.
    apply list_elem_of_lookup_2, list_elem_of_filter in Hb as [_ Hb].
    apply elem_of_blocks in Hb. cbn [fst snd].
    unfold kBlockOutputSizeX, kBlockOutputSizeY, kBlockWidth, kBlockHeight,
      kIterationsPerKernelCall.
    rewrite !u16_small by lia. done.
Qed.

End Inpaint.
End CensusProps.

(** ** The range of the depths: the plain kernel *)

Module PlainRangeProps.
Import ArrayProps FoldProps FrameProps ThreadProps FloatProps Invariants Range.

Lemma within_zero lo hi : within lo hi zero.
Proof. exists 0%Q. split; [done|]. intros H. lra. Qed.

(** [gate * k * d] and [gate * k], exactly. *)
Lemma gated_product_value (gate : bool) qk qd :
  exists p w,
    fmul (fmul (of_bool gate) (FNum qk)) (FNum qd) = FNum p /\
    fmul (of_bool gate) (FNum qk) = FNum w /\
    (p == if gate then qk * qd else 0)%Q /\ (w == if gate then qk else 0)%Q.
Proof.
  eexists _, _. split; [reflexivity|]. split; [reflexivity|].
  rewrite !Qred_correct. destruct gate; cbn.
  - change (inject_Z 1) with 1%Q. split; ring.
  - change (inject_Z 0) with 0%Q. split; ring.
Qed.

(** The quotient of a sum by its positive weight is within the range. *)
Lemma fdiv_within lo hi qr qw :
  (0 < qw)%Q -> (lo * qw <= qr <= hi * qw)%Q ->
  exists q, fdiv (FNum qr) (FNum qw) = FNum q /\ (lo <= q <= hi)%Q.
Proof.
  intros Hw [Hlo Hhi]. unfold fdiv.
  destruct (Qeq_bool qw 0) eqn:He.
  - apply Qeq_bool_iff in He. lra.
  - eexists. split; [reflexivity|]. rewrite Qred_correct. split.
    + by apply Qle_shift_div_l.
    + by apply Qle_shift_div_r.
Qed.

Section Block.
Variables block_size_x block_size_y : Z.
Variable check_convergence : bool.
Variable block_coordinates : CUDABuffer_ Z.
Variable depth_map_input : cudaTextureObject_t float.
Variable max_change_rate_threshold : float.
Variables width height : Z.
Variable blockIdx_x : Z.
Variables lo hi : Q.

Local Abbreviation accumulate :=
  (Plain.accumulate block_size_x block_size_y block_coordinates depth_map_input
     width height blockIdx_x).
Local Abbreviation weight :=
  (Plain.weight block_size_x block_size_y block_coordinates depth_map_input
     width height blockIdx_x).
Local Abbreviation new_depth :=
  (Plain.new_depth block_size_x block_size_y block_coordinates depth_map_input
     width height blockIdx_x).
Local Abbreviation sub_iteration :=
  (Plain.sub_iteration block_size_x block_size_y check_convergence block_coordinates
     depth_map_input max_change_rate_threshold width height blockIdx_x).
Local Abbreviation sub_iterations :=
  (Plain.sub_iterations block_size_x block_size_y check_convergence block_coordinates
     depth_map_input max_change_rate_threshold width height blockIdx_x).

Lemma plain_add_neighbour_ranged shared i acc n :
  ranged_cells lo hi shared -> positive n.2 -> ranged_sums lo hi acc ->
  ranged_sums lo hi (Plain.add_neighbour shared i acc n).
Proof.
  intros Hcells (qk & Hk & Hkpos) (qr & qw & -> & Hw & Hlo & Hhi).
  unfold Plain.add_neighbour. cbn [fst snd]. rewrite Hk.
  destruct (Hcells (i + n.1.1)) as (qd & -> & Hd).
  destruct (gated_product_value (n.1.2 && fgt (FNum qd) zero) qk qd)
    as (p & w & -> & -> & Hp & Hw').
  exists (Qred (qr + p)), (Qred (qw + w)). split; [done|].
  rewrite !Qred_correct, Hp, Hw'.
  destruct (n.1.2 && fgt (FNum qd) zero) eqn:Hg.
  - apply andb_true_iff in Hg as [_ Hg]. apply fgt_zero in Hg.
    destruct (Hd Hg) as [Hdlo Hdhi].
    assert (lo * qk <= qk * qd)%Q.
    { rewrite (Qmult_comm lo). apply Qmult_le_l; done. }
    assert (qk * qd <= hi * qk)%Q.
    { rewrite (Qmult_comm hi). apply Qmult_le_l; done. }
    split; [lra|]. split; lra.
  - split; [lra|]. split; lra.
Qed.

Lemma plain_accumulate_ranged shared tx ty :
  ranged_cells lo hi shared -> ranged_sums lo hi (accumulate shared tx ty).
Proof.
  intros Hcells. unfold Plain.accumulate.
  assert (H0 : ranged_sums lo hi (zero, zero)).
  { exists 0%Q, 0%Q. split; [done|]. split; [lra|]. split; lra. }
  destruct (_ && _); [|done].
  apply foldl_preserves; [done|].
  intros acc n Hin Hacc. apply plain_add_neighbour_ranged; [done| |done].
  unfold Plain.neighbours in Hin.
  repeat (apply elem_of_cons in Hin as [->|Hin];
          [first [apply kDiagonal_positive|apply kAxis_positive]|]).
  by apply elem_of_nil in Hin.
Qed.

(** With a positive accumulated weight the candidate lies in the range. *)
Lemma plain_new_depth_within shared tx ty :
  ranged_cells lo hi shared -> fgt (weight shared tx ty) zero = true ->
  exists q, new_depth shared tx ty = FNum q /\ (lo <= q <= hi)%Q.
Proof.
  intros Hcells Hw. unfold Plain.new_depth, Plain.weight in *.
  destruct (plain_accumulate_ranged shared tx ty Hcells)
    as (qr & qw & Hacc & Hqw & Hr).
  rewrite Hacc in *. cbn [fst snd] in *. apply fgt_zero in Hw.
  by apply fdiv_within.
Qed.

Lemma plain_sub_iteration_ranged st i :
  ranged_cells lo hi st.1 -> ranged_cells lo hi (sub_iteration st i).1.
Proof.
  intros Hcells j. unfold Plain.sub_iteration. cbn [fst snd].
  match goal with |- context [writes ?g ?k ?v ?a ?l] =>
    destruct (writes_cases g k v zero a l j) as [->|(t & _ & Hg & _ & ->)] end.
  - apply Hcells.
  - unfold Plain.writes_shared in Hg. apply andb_true_iff in Hg as [_ Hg].
    destruct (plain_new_depth_within st.1 t.1 t.2 Hcells Hg) as (q & -> & Hq).
    by exists q.
Qed.

Lemma plain_sub_iterations_ranged shared max_change :
  ranged_cells lo hi shared ->
  ranged_cells lo hi (sub_iterations shared max_change).1.
Proof.
  intros Hcells. unfold Plain.sub_iterations.
  apply (foldl_preserves (fun st : list float * CUDABuffer_ Z =>
                            ranged_cells lo hi st.1)); [done|].
  intros st i _. apply plain_sub_iteration_ranged.
Qed.

End Block.

Section Launch.
Variable check_convergence : bool.
Variable block_coordinates : CUDABuffer_ Z.
Variable depth_map_input : cudaTextureObject_t float.
Variable max_change_rate_threshold : float.
Variables width height : Z.
Variables lo hi : Q.
Hypothesis width_range : 1 <= width <= 2 ^ 31 - 1.
Hypothesis height_range : 1 <= height <= 2 ^ 31 - 1.

Lemma plain_load_shared_ranged b out :
  ranged lo hi width height out ->
  ranged_cells lo hi (Plain.load_shared 32 32 block_coordinates width height b out).
Proof.
  intros (Hw & Hh & Hpix) j. unfold Plain.load_shared.
  match goal with |- context [writes ?g ?k ?v ?a ?l] =>
    destruct (writes_cases g k v zero a l j) as [->|(t & _ & _ & _ & ->)] end.
  - rewrite zget_replicate. apply within_zero.
  - apply Hpix; [apply plain_x_range|apply plain_y_range]; lia.
Qed.

Lemma plain_block_ranged max_change out b :
  ranged lo hi width height out ->
  ranged lo hi width height
    (Plain.block 32 32 check_convergence block_coordinates depth_map_input
       max_change_rate_threshold (max_change, out) b).2.
Proof.
  intros Hok. pose proof Hok as (Hw & Hh & Hpix). unfold Plain.block.
  rewrite Hw, Hh.
  pose proof (plain_sub_iterations_ranged 32 32 check_convergence block_coordinates
                depth_map_input max_change_rate_threshold width height b lo hi
                _ max_change (plain_load_shared_ranged b out Hok)) as Hcells.
  destruct (Plain.sub_iterations _ _ _ _ _ _ _ _ _ _ _) as [shared mc'].
  cbn [fst snd] in *. unfold Plain.write_back.
  match goal with |- context [stores ?g ?r ?c ?v ?o ?l] =>
    destruct (width_stores g r c v o l) as (Hw' & Hh' & _) end.
  split; [by rewrite Hw'|]. split; [by rewrite Hh'|].
  intros px py Hpx Hpy.
  rewrite stores_are_writes. unfold load, at_. cbn [address_ width_].
  match goal with |- context [writes ?g ?k ?v ?a ?l] =>
    destruct (writes_cases g k v zero a l (py * width_ out + px))
      as [->|(t & _ & _ & _ & ->)] end.
  - by apply Hpix.
  - apply Hcells.
Qed.

Lemma plain_launch_ranged grid_dim_active max_change out :
  ranged lo hi width height out ->
  ranged lo hi width height
    (Plain.launch 32 32 check_convergence grid_dim_active block_coordinates
       depth_map_input max_change max_change_rate_threshold out).2.
Proof.
  intros Hok. unfold Plain.launch.
  apply (foldl_preserves (fun st : CUDABuffer_ Z * CUDABuffer_ float =>
                            ranged lo hi width height st.2)); [done|].
  intros [mc o] b _ Ho. by apply plain_block_ranged.
Qed.

End Launch.
End PlainRangeProps.

(** ** The range of the depths: the weighted kernel *)

Module WeightedRangeProps.
Import ArrayProps FoldProps FrameProps ThreadProps FloatProps Invariants Range
       WeightedProps PlainRangeProps.

(** Every cell of the shared memory of a block is the cell of one thread. *)
Lemma cell_of_a_thread bsx bsy j :
  0 < bsx -> 0 <= j < bsx * bsy ->
  exists tx ty, (tx, ty) ∈ threads bsx bsy /\ tx + bsx * ty = j.
Proof.
  intros Hx Hj. exists (j mod bsx), (j / bsx).
  pose proof (Z.div_mod j bsx ltac:(lia)).
  pose proof (Z.mod_pos_bound j bsx ltac:(lia)).
  split; [|lia]. apply elem_of_threads. split; [lia|].
  split; [apply Z.div_pos; lia|]. apply Z.div_lt_upper_bound; lia.
Qed.

Lemma zget_outside {T : Type} (d : T) (l : list T) j :
  ~ 0 <= j < Z.of_nat (length l) -> zget d l j = d.
Proof.
  intros Hj. unfold zget. destruct (Z.ltb_spec j 0); [done|].
  by rewrite lookup_ge_None_2 by lia.
Qed.

(** With one thread per cell, the cell of a thread after a phase. *)
Lemma writes_own_cell {T : Type} (g : Z * Z -> bool) (val : Z * Z -> T)
      (d : T) (a : list T) bsx bsy tx ty :
  (tx, ty) ∈ threads bsx bsy -> Z.of_nat (length a) = bsx * bsy ->
  zget d (writes g (fun t => t.1 + bsx * t.2) val a (threads bsx bsy)) (tx + bsx * ty)
  = if g (tx, ty) then val (tx, ty) else zget d a (tx + bsx * ty).
Proof.
  intros Hin Hlen. pose proof Hin as Hin'. apply elem_of_threads in Hin' as [Hx Hy].
  pose proof (writes_lookup g (fun t : Z * Z => t.1 + bsx * t.2) val d a
                (threads bsx bsy) (tx, ty)) as H.
  cbn [fst snd] in H. apply H; [done| |].
  - intros [tx' ty'] Hin' He. cbn [fst snd] in He.
    apply elem_of_threads in Hin' as [Hx' Hy'].
    by apply shared_mem_index_inj in He as [-> ->].
  - rewrite Hlen. by apply shared_mem_index_range.
Qed.

Section Block.
Variables block_size_x block_size_y : Z.
Variable check_convergence : bool.
Variable block_coordinates : CUDABuffer_ Z.
Variable depth_map_input : cudaTextureObject_t float.
Variable gradient_magnitude_div_sqrt2 : cudaTextureObject_t Z.
Variable max_change_rate_threshold : float.
Variables width height : Z.
Variable blockIdx_x : Z.
Variables lo hi : Q.
Hypothesis block_size_x_positive : 0 < block_size_x.

Local Abbreviation size := (block_size_x * block_size_y).
Local Abbreviation accumulate :=
  (Weighted.accumulate block_size_x block_size_y block_coordinates depth_map_input
     width height blockIdx_x).
Local Abbreviation new_depth :=
  (Weighted.new_depth block_size_x block_size_y block_coordinates depth_map_input
     width height blockIdx_x).
Local Abbreviation base_weight :=
  (Weighted.base_weight block_coordinates gradient_magnitude_div_sqrt2
     width height blockIdx_x).
Local Abbreviation sub_iteration :=
  (Weighted.sub_iteration block_size_x block_size_y check_convergence block_coordinates
     depth_map_input gradient_magnitude_div_sqrt2 max_change_rate_threshold
     width height blockIdx_x).
Local Abbreviation sub_iterations :=
  (Weighted.sub_iterations block_size_x block_size_y check_convergence block_coordinates
     depth_map_input gradient_magnitude_div_sqrt2 max_change_rate_threshold
     width height blockIdx_x).

Lemma weighted_add_neighbour_ranged shared i acc n :
  ranged_pairs lo hi size shared -> positive n.2 -> ranged_sums lo hi acc ->
  ranged_sums lo hi (Weighted.add_neighbour shared i acc n).
Proof.
  intros (_ & _ & Hcells) (qk & Hk & Hkpos) (qr & qw & -> & Hw & Hlo & Hhi).
  unfold Weighted.add_neighbour. cbn [fst snd]. rewrite Hk.
  destruct (Hcells (i + n.1)) as (qd & qs & -> & -> & Hs & Hd & Hsd).
  cbn [fmul fadd]. eexists _, _. split; [reflexivity|]. rewrite !Qred_correct.
  pose proof (Qmult_le_0_compat qk qs ltac:(lra) Hs) as Hpw.
  split; [lra|].
  destruct (Qlt_le_dec 0 qs) as [Hpos|Hzero].
  - destruct (Hd (Hsd Hpos)) as [Hdlo Hdhi].
    pose proof (Qmult_lt_0_compat qk qs Hkpos Hpos) as Hpw'.
    assert (lo * (qk * qs) <= qk * qs * qd)%Q.
    { rewrite (Qmult_comm lo). apply Qmult_le_l; done. }
    assert (qk * qs * qd <= hi * (qk * qs))%Q.
    { rewrite (Qmult_comm hi). apply Qmult_le_l; done. }
    split; lra.
  - assert (Hqs : (qs == 0)%Q) by lra. rewrite Hqs.
    split; [ring_simplify; lra|ring_simplify; lra].
Qed.

Lemma weighted_accumulate_ranged shared tx ty :
  ranged_pairs lo hi size shared -> ranged_sums lo hi (accumulate shared tx ty).
Proof.
  intros Hok. unfold Weighted.accumulate.
  assert (H0 : ranged_sums lo hi (zero, zero)).
  { exists 0%Q, 0%Q. split; [done|]. split; [lra|]. split; lra. }
  destruct (_ && _); [|done].
  apply foldl_preserves; [done|].
  intros acc n Hin Hacc. apply weighted_add_neighbour_ranged; [done| |done].
  unfold Weighted.neighbours in Hin.
  repeat (apply elem_of_cons in Hin as [->|Hin];
          [first [apply kDiagonal_positive|apply kAxis_positive]|]).
  by apply elem_of_nil in Hin.
Qed.

(** A positive candidate lies in the range. *)
Lemma weighted_new_depth_within shared tx ty :
  ranged_pairs lo hi size shared -> fgt (new_depth shared tx ty) zero = true ->
  exists q, new_depth shared tx ty = FNum q /\ (0 < q)%Q /\ (lo <= q <= hi)%Q.
Proof.
  intros Hok. unfold Weighted.new_depth.
  destruct (weighted_accumulate_ranged shared tx ty Hok)
    as (qr & qw & Hacc & Hqw & Hr).
  destruct (_ && _); [|done]. rewrite Hacc. cbn [fst snd].
  destruct (Qlt_le_dec 0 qw) as [Hpos|Hzero].
  - destruct (fdiv_within lo hi qr qw Hpos Hr) as (q & -> & Hq).
    intros Hgt. apply fgt_zero in Hgt. by exists q.
  - assert (Hw0 : (qw == 0)%Q) by lra.
    assert (Hr0 : (qr == 0)%Q).
    { destruct Hr as [H1 H2]. rewrite Hw0 in H1, H2. lra. }
    unfold fdiv. apply Qeq_bool_iff in Hw0, Hr0. by rewrite Hw0, Hr0.
Qed.

Lemma weighted_sub_iteration_ranged st i :
  ranged_pairs lo hi size st.1 -> ranged_pairs lo hi size (sub_iteration st i).1.
Proof.
  intros Hok. pose proof Hok as (Hl1 & Hl2 & Hcells).
  unfold Weighted.sub_iteration, ranged_pairs. cbn [fst snd].
  rewrite !length_writes. split; [done|]. split; [done|].
  intros j. destruct (decide (0 <= j < size)) as [Hj|Hj].
  - destruct (cell_of_a_thread block_size_x block_size_y j block_size_x_positive Hj)
      as (tx & ty & Hin & <-).
    unfold Weighted.shared_mem_index.
    rewrite (writes_own_cell _ _ zero st.1.1 block_size_x block_size_y tx ty Hin Hl1).
    rewrite (writes_own_cell _ _ zero st.1.2 block_size_x block_size_y tx ty Hin Hl2).
    cbn [fst snd].
    destruct (Hcells (tx + block_size_x * ty)) as (qd & qs & Hd & Hs & Hs0 & Hdr & Hsd).
    destruct (Weighted.writes_shared _ _ _ _ _ _ _ st.1 tx ty) eqn:Hg.
    + unfold Weighted.writes_shared in Hg. apply andb_true_iff in Hg as [_ Hg].
      destruct (weighted_new_depth_within st.1 tx ty Hok Hg) as (q & Hq & Hq0 & Hqr).
      rewrite Hq. destruct (i <? kIterationsPerKernelCall - 1); cbn [andb].
      * destruct (fmul_nonneg (base_weight tx ty) (of_bool (fgt (FNum q) zero)))
          as (qs' & Hqs' & Hnn);
          [apply weighted_base_weight_nonneg|apply of_bool_nonneg|].
        exists q, qs'. by rewrite Hqs'.
      * exists q, qs. by rewrite Hs.
    + cbn [andb]. exists qd, qs. by rewrite Hd, Hs.
  - rewrite !zget_outside by (rewrite length_writes; lia).
    exists 0%Q, 0%Q. split_and!; [done|done|lra|intros; lra|intros; lra].
Qed.

Lemma weighted_sub_iterations_ranged shared max_change :
  ranged_pairs lo hi size shared ->
  ranged_pairs lo hi size (sub_iterations shared max_change).1.
Proof.
  intros Hok. unfold Weighted.sub_iterations.
  apply (foldl_preserves (fun st : (list float * list float) * CUDABuffer_ Z =>
                            ranged_pairs lo hi size st.1)); [done|].
  intros st i _. apply weighted_sub_iteration_ranged.
Qed.

End Block.

Section Launch.
Variable check_convergence : bool.
Variable block_coordinates : CUDABuffer_ Z.
Variable depth_map_input : cudaTextureObject_t float.
Variable gradient_magnitude_div_sqrt2 : cudaTextureObject_t Z.
Variable max_change_rate_threshold : float.
Variables width height : Z.
Variables lo hi : Q.
Hypothesis width_range : 1 <= width.
Hypothesis height_range : 1 <= height.

Lemma weighted_load_shared_ranged b out :
  ranged lo hi width height out ->
  ranged_pairs lo hi (32 * 32)
    (Weighted.load_shared 32 32 block_coordinates gradient_magnitude_div_sqrt2
       width height b out).
Proof.
  intros (Hw & Hh & Hpix). unfold Weighted.load_shared.
  assert (Hlen : Z.of_nat (length (replicate (Z.to_nat (32 * 32)) zero)) = 32 * 32).
  { by rewrite length_replicate. }
  unfold ranged_pairs. cbn [fst snd].
  rewrite !length_writes. split; [done|]. split; [done|].
  intros j. destruct (decide (0 <= j < 32 * 32)) as [Hj|Hj].
  - destruct (cell_of_a_thread 32 32 j ltac:(lia) Hj) as (tx & ty & Hin & <-).
    unfold Weighted.shared_mem_index.
    rewrite !(writes_own_cell _ _ zero _ 32 32 tx ty Hin Hlen). cbn [fst snd].
    destruct (Hpix (Weighted.x block_coordinates width b tx)
                   (Weighted.y block_coordinates height b ty))
      as (qd & Hd & Hdr);
      [apply weighted_x_range; lia|apply weighted_y_range; lia|].
    rewrite Hd.
    destruct (weighted_base_weight_nonneg block_coordinates
                gradient_magnitude_div_sqrt2 width height b tx ty)
      as (qb & Hb & Hb0).
    rewrite Hb. eexists qd, _. split; [done|]. split; [reflexivity|].
    rewrite Qred_correct.
    destruct (fgt (FNum qd) zero) eqn:Hg; cbn.
    + apply fgt_zero in Hg. change (inject_Z 1) with 1%Q.
      split_and!; [lra|done|done].
    + change (inject_Z 0) with 0%Q. split_and!; [lra|done|intros; lra].
  - rewrite !zget_outside by (rewrite length_writes; lia).
    exists 0%Q, 0%Q. split_and!; [done|done|lra|intros; lra|intros; lra].
Qed.

Lemma weighted_block_ranged max_change out b :
  ranged lo hi width height out ->
  ranged lo hi width height
    (Weighted.block 32 32 check_convergence block_coordinates depth_map_input
       gradient_magnitude_div_sqrt2 max_change_rate_threshold (max_change, out) b).2.
Proof.
  intros Hok. pose proof Hok as (Hw & Hh & Hpix). unfold Weighted.block.
  rewrite Hw, Hh.
  pose proof (weighted_sub_iterations_ranged 32 32 check_convergence
                block_coordinates depth_map_input gradient_magnitude_div_sqrt2
                max_change_rate_threshold width height b lo hi ltac:(lia)
                _ max_change (weighted_load_shared_ranged b out Hok))
    as (_ & _ & Hcells).
  destruct (Weighted.sub_iterations _ _ _ _ _ _ _ _ _ _ _ _) as [shared mc'].
  cbn [fst snd] in *. unfold Weighted.write_back.
  match goal with |- context [stores ?g ?r ?c ?v ?o ?l] =>
    destruct (width_stores g r c v o l) as (Hw' & Hh' & _) end.
  split; [by rewrite Hw'|]. split; [by rewrite Hh'|].
  intros px py Hpx Hpy.
  rewrite stores_are_writes. unfold load, at_. cbn [address_ width_].
  match goal with |- context [writes ?g ?k ?v ?a ?l] =>
    destruct (writes_cases g k v zero a l (py * width_ out + px))
      as [->|(t & _ & _ & _ & ->)] end.
  - by apply Hpix.
  - destruct (Hcells (Weighted.shared_mem_index 32 t.1 t.2))
      as (qd & qs & Hd & _ & _ & Hdr & _).
    exists qd. split; [exact Hd|exact Hdr].
Qed.

Lemma weighted_launch_ranged grid_dim_active max_change out :
  ranged lo hi width height out ->
  ranged lo hi width height
    (Weighted.launch 32 32 check_convergence grid_dim_active block_coordinates
       depth_map_input gradient_magnitude_div_sqrt2 max_change
       max_change_rate_threshold out).2.
Proof.
  intros Hok. unfold Weighted.launch.
  apply (foldl_preserves (fun st : CUDABuffer_ Z * CUDABuffer_ float =>
                            ranged lo hi width height st.2)); [done|].
  intros [mc o] b _ Ho. by apply weighted_block_ranged.
Qed.

End Launch.
End WeightedRangeProps.

(** ** An image without a positive depth *)

Module QuietProps.
Import Host ArrayProps FoldProps FrameProps ThreadProps FloatProps LoopProps
       HostProps InitProps FlagProps Range PlainRangeProps WeightedRangeProps
       OutputProps Invariants.

Lemma writes_none {A T : Type} (g : A -> bool) (key : A -> Z) (val : A -> T)
      (a : list T) (l : list A) :
  (forall t, t ∈ l -> g t = false) -> writes g key val a l = a.
Proof.
  intros Hg. unfold writes. apply (foldl_preserves (fun a' => a' = a)); [done|].
  intros a' t Ht ->. by rewrite (Hg t Ht).
Qed.

(** Stores of the values that the cells hold change no load. *)
Lemma load_stores_same {A T : Type} (g : A -> bool) (row col : A -> Z)
      (val : A -> T) (b : CUDABuffer_ T) (l : list A) (d : T) (py px : Z) :
  (forall t, t ∈ l -> g t = true -> val t = load d b (row t) (col t)) ->
  load d (stores g row col val b l) py px = load d b py px.
Proof.
  intros Hv. rewrite stores_are_writes. unfold load, at_. cbn [address_ width_].
  match goal with |- context [writes ?g ?k ?v ?a ?l] =>
    destruct (writes_cases g k v d a l (py * width_ b + px))
      as [->|(t & Hin & Hg & Hk & ->)] end; [done|].
  rewrite (Hv t Hin Hg). unfold load, at_. by rewrite Hk.
Qed.

(** With the empty range from 1 to 0 the sums are zero. *)
Lemma empty_sums acc :
  ranged_sums 1 0 acc ->
  exists qr qw, acc = (FNum qr, FNum qw) /\ (qr == 0)%Q /\ (qw == 0)%Q.
Proof.
  intros (qr & qw & -> & Hw & Hlo & Hhi). exists qr, qw.
  split; [done|]. split; lra.
Qed.

Lemma fdiv_zero_zero qr qw :
  (qr == 0)%Q -> (qw == 0)%Q -> fdiv (FNum qr) (FNum qw) = FNaN.
Proof.
  intros Hr Hw. unfold fdiv. apply Qeq_bool_iff in Hr, Hw. by rewrite Hr, Hw.
Qed.

Lemma change_of_nan old : fabs (fdiv (fsub FNaN old) old) = FNaN.
Proof. by destruct old. Qed.

Lemma fgt_nan thr : fgt FNaN thr = false.
Proof. by destruct thr. Qed.

Section Plain.
Variable check_convergence : bool.
Variable block_coordinates : CUDABuffer_ Z.
Variable depth_map_input : cudaTextureObject_t float.
Variable max_change_rate_threshold : float.
Variables width height : Z.
Variable blockIdx_x : Z.
Hypothesis threshold_not_negative : flt max_change_rate_threshold zero = false.

Local Abbreviation sub_iteration :=
  (Plain.sub_iteration 32 32 check_convergence block_coordinates
     depth_map_input max_change_rate_threshold width height blockIdx_x).

Lemma plain_sums_are_zero shared tx ty :
  ranged_cells 1 0 shared ->
  exists qr qw,
    Plain.accumulate 32 32 block_coordinates depth_map_input width height
      blockIdx_x shared tx ty = (FNum qr, FNum qw) /\ (qr == 0)%Q /\ (qw == 0)%Q.
Proof. intros Hc. by apply empty_sums, plain_accumulate_ranged. Qed.

Lemma plain_sub_iteration_idle st i :
  ranged_cells 1 0 st.1 -> (sub_iteration st i).1 = st.1.
Proof.
  intros Hc. unfold Plain.sub_iteration. cbn [fst snd]. apply writes_none.
  intros [tx ty] _. cbn [fst snd]. unfold Plain.writes_shared, Plain.weight.
  destruct (plain_sums_are_zero st.1 tx ty Hc) as (qr & qw & -> & _ & Hw).
  cbn [snd]. apply andb_false_iff. right.
  apply not_true_is_false. intros H. apply fgt_zero in H. lra.
Qed.

Lemma plain_sub_iterations_idle shared mc l :
  ranged_cells 1 0 shared -> (foldl sub_iteration (shared, mc) l).1 = shared.
Proof.
  intros Hc.
  apply (foldl_preserves (fun st : list float * CUDABuffer_ Z => st.1 = shared));
    [done|].
  intros st i _ He. rewrite plain_sub_iteration_idle; [done|]. by rewrite He.
Qed.

Lemma plain_active_pixels_zero shared i :
  ranged_cells 1 0 shared ->
  Plain.active_pixels 32 32 check_convergence block_coordinates depth_map_input
    max_change_rate_threshold width height blockIdx_x shared i = 0.
Proof.
  intros Hc. unfold Plain.active_pixels. apply block_sum_zero.
  intros [tx ty] _. cbn [fst snd]. unfold Plain.change.
  destruct (Plain.tests_convergence _ _ _ _ _ _ _ _ _ _ _); [|done].
  unfold Plain.change_operands, Plain.new_depth. cbn [fst snd].
  destruct (plain_sums_are_zero shared tx ty Hc) as (qr & qw & -> & Hr & Hw).
  cbn [fst snd]. rewrite fdiv_zero_zero by done.
  by rewrite change_of_nan, fgt_nan.
Qed.

End Plain.

Section Weighted.
Variable check_convergence : bool.
Variable block_coordinates : CUDABuffer_ Z.
Variable depth_map_input : cudaTextureObject_t float.
Variable gradient_magnitude_div_sqrt2 : cudaTextureObject_t Z.
Variable max_change_rate_threshold : float.
Variables width height : Z.
Variable blockIdx_x : Z.
Hypothesis threshold_not_negative : flt max_change_rate_threshold zero = false.

Local Abbreviation sub_iteration :=
  (Weighted.sub_iteration 32 32 check_convergence block_coordinates
     depth_map_input gradient_magnitude_div_sqrt2 max_change_rate_threshold
     width height blockIdx_x).

(** No candidate is positive. *)
Lemma weighted_new_depth_idle shared tx ty :
  ranged_pairs 1 0 (32 * 32) shared ->
  fgt (Weighted.new_depth 32 32 block_coordinates depth_map_input width height
         blockIdx_x shared tx ty) zero = false.
Proof.
  intros Hok. apply not_true_is_false. intros Hgt.
  destruct (weighted_new_depth_within 32 32 block_coordinates depth_map_input
              width height blockIdx_x 1 0 shared tx ty Hok Hgt)
    as (q & _ & _ & Hq). lra.
Qed.

Lemma weighted_sub_iteration_idle st i :
  ranged_pairs 1 0 (32 * 32) st.1 -> (sub_iteration st i).1 = st.1.
Proof.
  intros Hok. unfold Weighted.sub_iteration. cbn [fst snd].
  rewrite !writes_none.
  - by destruct st.1.
  - intros [tx ty] _. cbn [fst snd]. unfold Weighted.writes_shared.
    rewrite weighted_new_depth_idle by done. by rewrite andb_false_r.
  - intros [tx ty] _. cbn [fst snd]. unfold Weighted.writes_shared.
    rewrite weighted_new_depth_idle by done. by rewrite andb_false_r.
Qed.

Lemma weighted_sub_iterations_idle shared mc l :
  ranged_pairs 1 0 (32 * 32) shared -> (foldl sub_iteration (shared, mc) l).1 = shared.
Proof.
  intros Hok.
  apply (foldl_preserves
           (fun st : (list float * list float) * CUDABuffer_ Z => st.1 = shared));
    [done|].
  intros st i _ He. rewrite weighted_sub_iteration_idle; [done|]. by rewrite He.
Qed.

Lemma weighted_active_pixels_zero shared :
  ranged_pairs 1 0 (32 * 32) shared ->
  Weighted.active_pixels 32 32 block_coordinates depth_map_input
    max_change_rate_threshold width height blockIdx_x shared = 0.
Proof.
  intros Hok. unfold Weighted.active_pixels. apply block_sum_zero.
  intros [tx ty] _. cbn [fst snd]. unfold Weighted.change.
  destruct (Weighted.kOutput _ _ _ _ _ _ _ _ _) eqn:Hout; [|done].
  unfold Weighted.change_operands. cbn [fst snd].
  pose proof (weighted_new_depth_idle shared tx ty Hok) as Hidle.
  unfold Weighted.new_depth in *.
  destruct (weighted_accumulate_ranged 32 32 block_coordinates depth_map_input
              width height blockIdx_x 1 0 shared tx ty Hok)
    as (qr & qw & Hacc & Hw & Hlo & Hhi).
  destruct (_ && _) eqn:Hin.
  - rewrite Hacc. cbn [fst snd]. rewrite fdiv_zero_zero by lra.
    by rewrite change_of_nan, fgt_nan.
  - exfalso. unfold Weighted.kOutput in Hout.
    apply andb_true_iff in Hout as [Hout Hhole].
    apply andb_true_iff in Hout as [Hreg _].
    apply HoleProps.in_output_region_32 in Hreg. rewrite Hhole in Hin.
    unfold Weighted.is_inner in Hin. cbn [andb] in Hin.
    rewrite !andb_false_iff, !Z.ltb_ge in Hin. lia.
Qed.

End Weighted.

Section Launch.
Variable use_weighting : bool.
Variable block_coordinates : CUDABuffer_ Z.
Variable depth_map_input : cudaTextureObject_t float.
Variable gradient_magnitude_div_sqrt2 : cudaTextureObject_t Z.
Variable max_change_rate_threshold : float.
Variables width height : Z.
Hypothesis width_range : 1 <= width <= 2 ^ 31 - 1.
Hypothesis height_range : 1 <= height <= 2 ^ 31 - 1.
Hypothesis threshold_not_negative : flt max_change_rate_threshold zero = false.

(** A block changes no pixel of a buffer without a positive depth. *)
Lemma plain_block_idle check mc out b py px :
  ranged 1 0 width height out ->
  load zero (Plain.block 32 32 check block_coordinates depth_map_input
               max_change_rate_threshold (mc, out) b).2 py px
  = load zero out py px.
Proof.
  intros Hok. pose proof Hok as (Hw & Hh & _). unfold Plain.block. rewrite Hw, Hh.
  pose proof (plain_load_shared_ranged block_coordinates width height 1 0
                width_range height_range b out Hok) as Hc.
  pose proof (plain_sub_iterations_idle check block_coordinates depth_map_input
                max_change_rate_threshold width height b _ mc
                (seqZ 0 kIterationsPerKernelCall) Hc) as Hidle.
  fold (Plain.sub_iterations 32 32 check block_coordinates depth_map_input
          max_change_rate_threshold width height b
          (Plain.load_shared 32 32 block_coordinates width height b out) mc)
    in Hidle.
  destruct (Plain.sub_iterations _ _ _ _ _ _ _ _ _ _ _) as [shared mc'].
  cbn [fst snd] in Hidle. subst shared. unfold Plain.write_back.
  apply load_stores_same. intros [tx ty] Hin _. cbn [fst snd].
  unfold Plain.load_shared, Plain.shared_mem_index.
  rewrite (writes_own_cell _ _ zero _ 32 32 tx ty Hin);
    [done|by rewrite length_replicate].
Qed.

Lemma weighted_block_idle check mc out b py px :
  ranged 1 0 width height out ->
  load zero (Weighted.block 32 32 check block_coordinates depth_map_input
               gradient_magnitude_div_sqrt2 max_change_rate_threshold
               (mc, out) b).2 py px
  = load zero out py px.
Proof.
  intros Hok. pose proof Hok as (Hw & Hh & _). unfold Weighted.block.
  rewrite Hw, Hh.
  pose proof (weighted_load_shared_ranged block_coordinates
                gradient_magnitude_div_sqrt2 width height 1 0
                ltac:(lia) ltac:(lia) b out Hok) as Hc.
  pose proof (weighted_sub_iterations_idle check block_coordinates depth_map_input
                gradient_magnitude_div_sqrt2 max_change_rate_threshold
                width height b _ mc (seqZ 0 kIterationsPerKernelCall) Hc) as Hidle.
  fold (Weighted.sub_iterations 32 32 check block_coordinates depth_map_input
          gradient_magnitude_div_sqrt2 max_change_rate_threshold width height b
          (Weighted.load_shared 32 32 block_coordinates
             gradient_magnitude_div_sqrt2 width height b out) mc) in Hidle.
  destruct (Weighted.sub_iterations _ _ _ _ _ _ _ _ _ _ _ _) as [shared mc'].
  cbn [fst snd] in Hidle. subst shared. unfold Weighted.write_back.
  apply load_stores_same. intros [tx ty] Hin _. cbn [fst snd].
  unfold Weighted.load_shared, Weighted.shared_mem_index. cbn [fst snd].
  rewrite (writes_own_cell _ _ zero _ 32 32 tx ty Hin);
    [done|by rewrite length_replicate].
Qed.

(** The buffer after some blocks of a launch: still without a positive
    depth, and with the same value at every pixel. *)
Lemma launch_blocks_idle n check mc out :
  ranged 1 0 width height out ->
  let out' := (launch_blocks use_weighting max_change_rate_threshold
                 gradient_magnitude_div_sqrt2 depth_map_input block_coordinates
                 n check mc out).2 in
  ranged 1 0 width height out' /\
  forall py px, load zero out' py px = load zero out py px.
Proof.
  intros Hok. unfold launch_blocks.
  set (P := fun st : CUDABuffer_ Z * CUDABuffer_ float =>
              ranged 1 0 width height st.2 /\
              forall py px, load zero st.2 py px = load zero out py px).
  destruct use_weighting; unfold Weighted.launch, Plain.launch;
    apply (foldl_preserves P); try done.
  - intros [mc' o] b _ [Ho Hl]. split.
    + apply weighted_block_ranged; (done || lia).
    + intros py px. cbn [snd] in *. by rewrite weighted_block_idle.
  - intros [mc' o] b _ [Ho Hl]. split.
    + by apply plain_block_ranged.
    + intros py px. cbn [snd] in *. by rewrite plain_block_idle.
Qed.

(** On a buffer without a positive depth no pixel exceeds the threshold. *)
Lemma no_pixel_exceeds n mc out :
  ranged 1 0 width height out ->
  no_pixel_exceeds_threshold use_weighting max_change_rate_threshold
    gradient_magnitude_div_sqrt2 depth_map_input block_coordinates n mc out.
Proof.
  intros Hok b Hb.
  destruct (launch_blocks_idle b true mc out Hok) as [Hr _].
  set (st := launch_blocks use_weighting max_change_rate_threshold
               gradient_magnitude_div_sqrt2 depth_map_input block_coordinates
               b true mc out) in *.
  pose proof Hr as (Hw & Hh & _).
  unfold block_final_active_pixels. rewrite Hw, Hh. destruct use_weighting.
  - unfold Weighted.final_active_pixels, Weighted.before_sub_iteration.
    pose proof (weighted_load_shared_ranged block_coordinates
                  gradient_magnitude_div_sqrt2 width height 1 0
                  ltac:(lia) ltac:(lia) b st.2 Hr) as Hc.
    rewrite weighted_sub_iterations_idle by done.
    by apply weighted_active_pixels_zero.
  - unfold Plain.final_active_pixels, Plain.before_sub_iteration.
    pose proof (plain_load_shared_ranged block_coordinates width height 1 0
                  width_range height_range b st.2 Hr) as Hc.
    rewrite plain_sub_iterations_idle by done.
    by apply plain_active_pixels_zero.
Qed.

End Launch.

Section Inpaint.
Variable GetBlockCount : Z -> Z -> Z.
Variable use_weighting : bool.
Variable max_num_iterations : Z.
Variable max_change_rate_threshold : float.
Variable depth_input_scaling_factor : float.
Variable gradient_magnitude_div_sqrt2 : cudaTextureObject_t Z.
Variable depth_map_input : cudaTextureObject_t float.
Variable max_change : CUDABuffer_ Z.
Variable depth_map_output : CUDABuffer_ float.
Variable block_coordinates : CUDABuffer_ Z.

Local Abbreviation width := (width_ depth_map_output).
Local Abbreviation height := (height_ depth_map_output).
Local Abbreviation gx := (grid_dim_x GetBlockCount depth_map_output).
Local Abbreviation gy := (grid_dim_y GetBlockCount depth_map_output).
Local Abbreviation scaled :=
  (fun px py => fmul depth_input_scaling_factor (tex2D depth_map_input px py)).
Local Abbreviation the_initialized :=
  (initialized GetBlockCount depth_input_scaling_factor depth_map_input
     depth_map_output block_coordinates).
Local Abbreviation the_compacted :=
  (compacted GetBlockCount depth_input_scaling_factor depth_map_input
     depth_map_output block_coordinates).
Local Abbreviation the_uploaded :=
  (uploaded GetBlockCount depth_input_scaling_factor depth_map_input
     depth_map_output block_coordinates).
Local Abbreviation the_initial_state :=
  (initial_state GetBlockCount depth_input_scaling_factor depth_map_input
     max_change depth_map_output block_coordinates).

Hypothesis width_range : 1 <= width <= 2 ^ 31 - 1.
Hypothesis height_range : 1 <= height <= 2 ^ 31 - 1.
Hypothesis allocated :
  Z.of_nat (length (address_ depth_map_output)) = height * width.
Hypothesis grid_covers_width : width <= gx * kBlockOutputSizeX.
Hypothesis grid_covers_height : height <= gy * kBlockOutputSizeY.
(** No pixel of the image has a positive scaled input, and the threshold is
    not negative. *)
Hypothesis nothing_positive :
  forall px py, 0 <= px < width -> 0 <= py < height ->
    exists q, scaled px py = FNum q /\ (q <= 0)%Q.
Hypothesis threshold_not_negative : flt max_change_rate_threshold zero = false.

Lemma initialized_quiet :
  ranged 1 0 width height the_initialized.1 /\
  forall px py, 0 <= px < width -> 0 <= py < height ->
    load zero the_initialized.1 py px = scaled px py.
Proof.
  destruct (initialised_buffer GetBlockCount depth_input_scaling_factor
              depth_map_input depth_map_output block_coordinates
              width_range height_range allocated grid_covers_width
              grid_covers_height) as (Hw & Hh & _ & Hp).
  split; [|done]. split; [done|]. split; [done|]. intros px py Hpx Hpy.
  rewrite Hp by done. destruct (nothing_positive px py Hpx Hpy) as (q & -> & Hq).
  exists q. split; [done|]. intros. lra.
Qed.

(** An image without a positive depth has nothing to diffuse from: the
    function returns the scaled input at every pixel, and it returns after
    at most one launch, whose check finds no flag set: it returns 0 without
    a launch, or 4 after one launch. *)
Theorem nothing_to_diffuse_from fuel r :
  InpaintDepthMapWithConvolutionCUDA GetBlockCount use_weighting
    max_num_iterations max_change_rate_threshold depth_input_scaling_factor
    gradient_magnitude_div_sqrt2 depth_map_input max_change depth_map_output
    block_coordinates fuel = Some r ->
  (forall px py, 0 <= px < width -> 0 <= py < height ->
     load zero (depth_map_output_out r) py px = scaled px py) /\
  ((iterations r = 0 /\ launches_out r = []) \/
   (iterations r = 4 /\ exists l, launches_out r = [l])).
Proof.
  intros Hrun. destruct initialized_quiet as [Hq0 Hp0].
  destruct (Inpaint_cases _ _ _ _ _ _ _ _ _ _ _ _ Hrun)
    as [[_ ->]|(Hnz & st & Hloop & ->)]; cbn.
  { split; [done|]. by left. }
  split.
  - revert Hloop.
    apply (iterate_invariant _ _ _ _ _ _ _
             (fun s => ranged 1 0 width height (Host.depth_map_output s) /\
                       forall px py, 0 <= px < width -> 0 <= py < height ->
                         load zero (Host.depth_map_output s) py px = scaled px py));
      [|done].
    intros s s' [Hr Hp] _ Hb. rewrite (body_output _ _ _ _ _ _ _ _ Hb).
    unfold launch_kernel.
    match goal with |- context [launch_blocks ?u ?t ?g ?x ?b ?n ?c ?m ?o] =>
      destruct (launch_blocks_idle u b x g t width height width_range
                  height_range n c m o Hr) as [Hr' Hl'] end.
    split; [done|]. intros px py Hpx Hpy. rewrite Hl'. by apply Hp.
  - pose proof (no_flag_is_set the_uploaded depth_map_input
                  gradient_magnitude_div_sqrt2 max_change_rate_threshold
                  use_weighting (active_block_count the_compacted)
                  the_initial_state
                  (compact_count_range _ _ _)) as Hflags.
    cbn [Host.max_change Host.depth_map_output initial_state] in Hflags.
    specialize (Hflags (no_pixel_exceeds use_weighting the_uploaded depth_map_input
                          gradient_magnitude_div_sqrt2 max_change_rate_threshold
                          width height width_range height_range
                          threshold_not_negative _ _ _ Hq0)).
    destruct fuel as [|fuel]; cbn in Hloop.
    + destruct (Z.ltb_spec 0 max_num_iterations); [done|].
      injection Hloop as <-. by left.
    + destruct (Z.ltb_spec 0 max_num_iterations).
      2: { injection Hloop as <-. by left. }
      destruct (body_cases use_weighting max_change_rate_threshold
                  gradient_magnitude_div_sqrt2 depth_map_input the_uploaded
                  (active_block_count the_compacted) the_initial_state)
        with (st' := st) as (Hi & Hlog & _ & Hyes).
      { destruct (body _ _ _ _ _ _ the_initial_state) as [s1|s1] eqn:Hb.
        - exfalso.
          destruct (body_cases _ _ _ _ _ _ _ _ (or_introl Hb)) as (_ & _ & _ & Hy).
          destruct (Hy eq_refl) as (_ & Hz & _).
          destruct (Hz Hflags) as [Hbr _]. congruence.
        - injection Hloop as <-. by right. }
      right. split; [by rewrite Hi|]. rewrite Hlog. cbn. eauto.
Qed.

End Inpaint.
End QuietProps.

(** ** The texture objects and the memory of a buffer over its lifetime *)

Module LifetimeProps.
Import TextureCache Lifetime.

Lemma created_handles_app l1 l2 :
  created_handles (l1 ++ l2) = created_handles l1 ++ created_handles l2.
Proof. apply omap_app. Qed.

Lemma destroyed_handles_app l1 l2 :
  destroyed_handles (l1 ++ l2) = destroyed_handles l1 ++ destroyed_handles l2.
Proof. apply omap_app. Qed.

Lemma fresh_is_dead rt h :
  fresh_handles rt -> (next_handle rt <= h)%N -> live rt !! h = None.
Proof.
  intros Hfresh Hh. apply eq_None_not_Some. intros Hs.
  apply Hfresh in Hs. lia.
Qed.

Lemma owned_cached_handle rt0 this rt :
  owned rt0 this rt -> texture_object_allocated_ this = true ->
  (next_handle rt0 <= texture_object_ this < next_handle rt)%N.
Proof.
  intros (_ & new & _ & _ & Hrange & Hrest) Ha. rewrite Ha in Hrest.
  destruct Hrest as [Hperm _]. apply Hrange. rewrite Hperm. left.
Qed.

(** No texture object has a handle from the next fresh one on. *)
Lemma owned_fresh rt0 this rt :
  fresh_handles rt0 -> owned rt0 this rt -> fresh_handles rt.
Proof.
  intros Hfresh Hown h Hs.
  pose proof Hown as (Hle & new & _ & _ & _ & Hrest).
  destruct (texture_object_allocated_ this) eqn:Ha.
  - destruct Hrest as [_ Hlive]. rewrite Hlive in Hs.
    destruct (decide (h = texture_object_ this)) as [->|Hne].
    + by apply (owned_cached_handle rt0 this rt).
    + rewrite lookup_insert_ne in Hs by done. apply Hfresh in Hs. lia.
  - destruct Hrest as [_ Hlive]. rewrite Hlive in Hs. apply Hfresh in Hs. lia.
Qed.

Lemma owned_start rt0 tex ax ay f r n :
  owned rt0 (CachedBuffer false tex ax ay f r n) rt0.
Proof.
  split; [lia|]. exists []. rewrite app_nil_r. cbn.
  split_and!; try done; [constructor|]. intros h Hh. by apply elem_of_nil in Hh.
Qed.

(** A texture object is created and cached while none is cached. *)
Lemma owned_rebuild rt0 rt ax ay f r n :
  fresh_handles rt0 ->
  (next_handle rt0 <= next_handle rt)%N ->
  (exists new,
     calls rt = calls rt0 ++ new /\
     NoDup (created_handles new) /\
     (forall h, h ∈ created_handles new -> (next_handle rt0 <= h < next_handle rt)%N) /\
     created_handles new ≡ₚ destroyed_handles new /\
     live rt = live rt0) ->
  let '(obj, this', rt') := rebuild ax ay f r n rt in
  owned rt0 this' rt' /\ obj = next_handle rt /\ texture_object_ this' = obj /\
  texture_object_allocated_ this' = true /\
  cached_descriptor this' = TextureDesc ax ay f r (if n then 1 else 0).
Proof.
  intros Hfresh Hle (new & Hcalls & Hnd & Hrange & Hperm & Hlive).
  cbn. split_and!; try done.
  split; [cbn; lia|].
  exists (new ++ [Created (next_handle rt) (TextureDesc ax ay f r (if n then 1 else 0))]).
  cbn. rewrite created_handles_app, destroyed_handles_app. cbn.
  rewrite app_nil_r. split_and!.
  - by rewrite Hcalls, <- app_assoc.
  - apply NoDup_app. split_and!; [done| |apply NoDup_singleton].
    intros h Hh Hh'. apply list_elem_of_singleton in Hh'. subst h.
    apply Hrange in Hh. lia.
  - intros h Hh. apply elem_of_app in Hh as [Hh|Hh].
    + apply Hrange in Hh. lia.
    + apply list_elem_of_singleton in Hh. subst h. lia.
  - rewrite Hperm. by rewrite Permutation_app_comm.
  - by rewrite Hlive.
Qed.

(** A request keeps the runtime in this shape, and returns the handle of a
    live texture object with the requested descriptor. *)
Lemma owned_request rt0 this rt ax ay f r n :
  fresh_handles rt0 -> owned rt0 this rt ->
  let '(obj, this', rt') := TextureCache.GetCachedTextureObject ax ay f r n this rt in
  owned rt0 this' rt' /\ texture_object_ this' = obj /\
  texture_object_allocated_ this' = true /\
  cached_descriptor this' = TextureDesc ax ay f r (if n then 1 else 0).
Proof.
  intros Hfresh Hown.
  pose proof Hown as (Hle & new & Hcalls & Hnd & Hrange & Hrest).
  unfold TextureCache.GetCachedTextureObject.
  destruct (texture_object_allocated_ this) eqn:Ha.
  - destruct (_ && _) eqn:Heq.
    + rewrite !andb_true_iff, !bool_decide_eq_true in Heq.
      destruct Heq as [[[[H1 H2] H3] H4] H5].
      split_and!; try done. unfold cached_descriptor.
      by rewrite H1, H2, H3, H4, H5.
    + pose proof (owned_cached_handle _ _ _ Hown Ha) as Htex.
      destruct Hrest as [Hperm Hlive].
      pose proof (owned_rebuild rt0
                    (cudaDestroyTextureObject (texture_object_ this) rt)
                    ax ay f r n Hfresh) as Hr.
      destruct (rebuild ax ay f r n _) as [[obj this'] rt'].
      destruct Hr as (Hown' & _ & Hobj & Ha' & Hd'); [cbn; lia| |done].
      exists (new ++ [Destroyed (texture_object_ this)]).
      cbn. rewrite created_handles_app, destroyed_handles_app. cbn.
      rewrite app_nil_r. split_and!.
      * by rewrite Hcalls, <- app_assoc.
      * done.
      * done.
      * rewrite Hperm. by rewrite Permutation_cons_append.
      * rewrite Hlive, delete_insert_eq. apply delete_id.
        apply fresh_is_dead; [done|lia].
  - destruct Hrest as [Hperm Hlive].
    pose proof (owned_rebuild rt0 rt ax ay f r n Hfresh Hle) as Hr.
    destruct (rebuild ax ay f r n rt) as [[obj this'] rt'].
    destruct Hr as (Hown' & _ & Hobj & Ha' & Hd'); [|done].
    exists new. by split_and!.
Qed.

Section Buffer.
Variable pitch_of : Z -> Z.
Variable sizeof_T : Z.
Variable device : Type.
Variable data_SetTo : N -> Lifetime.CUDABuffer_ -> device -> device.

(** A copy between buffers creates a texture object and destroys it. *)
Lemma owned_SetTo rt0 cache this other rt dev :
  fresh_handles rt0 -> owned rt0 cache rt ->
  owned rt0 cache (SetTo device data_SetTo this other rt dev).1.
Proof.
  intros Hfresh Hown.
  pose proof (owned_fresh _ _ _ Hfresh Hown) as Hfresh'.
  pose proof Hown as (Hle & new & Hcalls & Hnd & Hrange & Hrest).
  cbn. split; [cbn; lia|].
  set (desc := TextureDesc _ _ _ _ _).
  exists (new ++ [Created (next_handle rt) desc; Destroyed (next_handle rt)]).
  cbn. rewrite created_handles_app, destroyed_handles_app. cbn. split_and!.
  - by rewrite Hcalls, <- !app_assoc.
  - apply NoDup_app. split_and!; [done| |apply NoDup_singleton].
    intros h Hh Hh'. apply list_elem_of_singleton in Hh'. subst h.
    apply Hrange in Hh. lia.
  - intros h Hh. apply elem_of_app in Hh as [Hh|Hh].
    + apply Hrange in Hh. lia.
    + apply list_elem_of_singleton in Hh. subst h. lia.
  - assert (Hlive : delete (next_handle rt) (<[next_handle rt := desc]> (live rt))
                    = live rt).
    { rewrite delete_insert_eq. apply delete_id.
      apply eq_None_not_Some. intros Hs. apply Hfresh' in Hs. lia. }
    rewrite Hlive.
    destruct (texture_object_allocated_ cache).
    + destruct Hrest as [Hperm Hl]. split; [|done].
      rewrite Hperm. rewrite <- !Permutation_cons_append. apply perm_swap.
    + destruct Hrest as [Hperm Hl]. split; [|done].
      by rewrite Hperm.
Qed.

Lemma owned_perform rt0 this rt dev op :
  fresh_handles rt0 -> owned rt0 (cache_ this) rt ->
  let '(this', rt', _) := perform device data_SetTo (this, rt, dev) op in
  owned rt0 (cache_ this') rt' /\ data_ this' = data_ this.
Proof.
  intros Hfresh Hown. destruct op as [ax ay f r n|destination|source]; cbn [perform].
  - unfold GetCachedTextureObject.
    pose proof (owned_request rt0 (cache_ this) rt ax ay f r n Hfresh Hown) as Hr.
    destruct (TextureCache.GetCachedTextureObject _ _ _ _ _ _ _) as [[obj cache'] rt'].
    by destruct Hr as [Hr _].
  - pose proof (owned_SetTo rt0 (cache_ this) destination this rt dev Hfresh Hown) as Hs.
    destruct (SetTo device data_SetTo destination this rt dev) as [rt' dev'].
    done.
  - pose proof (owned_SetTo rt0 (cache_ this) this source rt dev Hfresh Hown) as Hs.
    destruct (SetTo device data_SetTo this source rt dev) as [rt' dev'].
    done.
Qed.

Lemma owned_operations rt0 ops this rt dev :
  fresh_handles rt0 -> owned rt0 (cache_ this) rt ->
  let '(this', rt', _) := foldl (perform device data_SetTo) (this, rt, dev) ops in
  owned rt0 (cache_ this') rt' /\ data_ this' = data_ this.
Proof.
  intros Hfresh. revert this rt dev.
  induction ops as [|op ops IH]; intros this rt dev Hown; cbn [foldl]; [done|].
  pose proof (owned_perform rt0 this rt dev op Hfresh Hown) as Hp.
  destruct (perform device data_SetTo (this, rt, dev) op) as [[this1 rt1] dev1].
  destruct Hp as [Hown1 Hdata1].
  specialize (IH this1 rt1 dev1 Hown1).
  destruct (foldl _ _ ops) as [[this' rt'] dev'].
  destruct IH as [Hown' Hdata']. split; [done|congruence].
Qed.

(** Over the lifetime of a buffer (construction, any sequence of texture
    requests and copies, destruction) nothing is left behind and nothing of
    others is touched: the live texture objects and the allocations are
    afterwards what they were before; the handles created in between are
    fresh and distinct, and they are exactly the handles destroyed in
    between, each once. *)
Theorem lifetime_leaves_nothing_behind uninitialized height width ops rt mem dev :
  fresh_handles rt -> fresh_addresses mem ->
  let '(rt', mem', _) :=
    lifetime pitch_of sizeof_T device data_SetTo uninitialized height width ops
             rt mem dev in
  live rt' = live rt /\
  allocated mem' = allocated mem /\
  exists new,
    calls rt' = calls rt ++ new /\
    NoDup (created_handles new) /\
    (forall h, h ∈ created_handles new -> (next_handle rt <= h)%N) /\
    created_handles new ≡ₚ destroyed_handles new.
Proof.
  intros Hfresh Hmem. unfold lifetime, constructor, cudaMallocPitch.
  set (this0 := Object _ _).
  pose proof (owned_operations rt ops this0 rt dev Hfresh) as Hops.
  destruct (foldl _ _ ops) as [[this' rt'] dev'].
  destruct Hops as [Hown Hdata]; [apply owned_start|].
  unfold destructor. rewrite Hdata. cbn [data_ this0 address_].
  pose proof Hown as (Hle & new & Hcalls & Hnd & Hrange & Hrest).
  assert (Hfree : allocated (cudaFree (next_address mem)
                    (Allocator ({[next_address mem]} ∪ allocated mem)
                               (N.succ (next_address mem)))) = allocated mem).
  { cbn. apply set_eq. intros a. rewrite elem_of_difference, elem_of_union,
      elem_of_singleton. split; [intros [[?|?] ?]; done|].
    intros Ha. split; [by right|]. intros ->. apply Hmem in Ha. lia. }
  destruct (texture_object_allocated_ (cache_ this')) eqn:Ha.
  - destruct Hrest as [Hperm Hlive]. split_and!; [|done|].
    + cbn. rewrite Hlive, delete_insert_eq. apply delete_id.
      apply fresh_is_dead; [done|].
      by apply (owned_cached_handle rt (cache_ this') rt').
    + exists (new ++ [Destroyed (texture_object_ (cache_ this'))]). cbn.
      rewrite created_handles_app, destroyed_handles_app. cbn.
      rewrite app_nil_r. split_and!.
      * by rewrite Hcalls, <- app_assoc.
      * done.
      * intros h Hh. apply Hrange in Hh. lia.
      * rewrite Hperm. by rewrite Permutation_cons_append.
  - destruct Hrest as [Hperm Hlive]. split_and!; [done|done|].
    exists new. split_and!; try done. intros h Hh. apply Hrange in Hh. lia.
Qed.

(** While a buffer lives, after any sequence of texture requests and
    copies, a request returns the handle of a live texture object that has
    the requested descriptor; it is a fresh handle, and it is the only
    texture object alive beside those of the runtime in which the buffer was
    constructed, which are all still alive. *)
Theorem requested_texture_is_live uninitialized height width ops ax ay f r n rt mem dev :
  fresh_handles rt ->
  let '(this, _, _) := constructor pitch_of sizeof_T uninitialized height width mem in
  let '(this', rt', _) := foldl (perform device data_SetTo) (this, rt, dev) ops in
  let '(obj, this'', rt'') := GetCachedTextureObject ax ay f r n this' rt' in
  live rt'' = <[obj := TextureDesc ax ay f r (if n then 1 else 0)]> (live rt) /\
  live rt'' !! obj = Some (TextureDesc ax ay f r (if n then 1 else 0)) /\
  (next_handle rt <= obj)%N /\
  (forall h, is_Some (live rt !! h) -> live rt'' !! h = live rt !! h) /\
  data_ this'' = data_ this.
Proof.
  intros Hfresh. unfold constructor, cudaMallocPitch.
  set (this0 := Object _ _).
  pose proof (owned_operations rt ops this0 rt dev Hfresh) as Hops.
  destruct (foldl _ _ ops) as [[this' rt'] dev'].
  destruct Hops as [Hown Hdata]; [apply owned_start|].
  unfold GetCachedTextureObject.
  pose proof (owned_request rt (cache_ this') rt' ax ay f r n Hfresh Hown) as Hr.
  destruct (TextureCache.GetCachedTextureObject _ _ _ _ _ _ _) as [[obj cache''] rt''].
  destruct Hr as (Hown'' & Hobj & Ha & Hd).
  pose proof (owned_cached_handle _ _ _ Hown'' Ha) as Hrange.
  destruct Hown'' as (_ & new & _ & _ & _ & Hrest). rewrite Ha in Hrest.
  destruct Hrest as [_ Hlive]. rewrite Hd, Hobj in Hlive. rewrite Hobj in Hrange.
  split_and!.
  - done.
  - rewrite Hlive. apply lookup_insert_eq.
  - lia.
  - intros h Hs. rewrite Hlive. apply lookup_insert_ne.
    intros ->. apply Hfresh in Hs. lia.
  - done.
Qed.

End Buffer.
End LifetimeProps.

(** ** Uploads and downloads *)

Module MemcpyProps.
Import ArrayProps FoldProps Counting Lifetime Transfer.

Lemma elem_of_pixels x0 nx y0 ny c r :
  (c, r) ∈ pixels x0 nx y0 ny <-> (x0 <= c < x0 + nx /\ y0 <= r < y0 + ny).
Proof.
  unfold pixels. rewrite list_elem_of_bind. split.
  - intros (y & Hin & Hy). apply elem_of_seqZ in Hy.
    apply list_elem_of_bind in Hin as (x & Hin & Hx). apply elem_of_seqZ in Hx.
    apply list_elem_of_singleton in Hin. injection Hin as -> ->. lia.
  - intros [Hc Hr]. exists r. split; [|apply elem_of_seqZ; lia].
    apply list_elem_of_bind. exists c. split; [|apply elem_of_seqZ; lia].
    by apply list_elem_of_singleton.
Qed.

Section Bytes.
Context {B : Type}.
Variable zero_byte : B.

Local Abbreviation memcpy := (cudaMemcpy2D zero_byte).

Lemma length_cudaMemcpy2D (dst_mem : list B) dst dpitch src_mem src spitch width height :
  length (memcpy dst_mem dst dpitch src_mem src spitch width height) = length dst_mem.
Proof. apply length_writes. Qed.

(** A byte of a copied row is the byte of the source row. *)
Lemma cudaMemcpy2D_copied (dst_mem : list B) dst dpitch src_mem src spitch width height r c :
  0 <= r < height -> 0 <= c < width -> width <= dpitch ->
  0 <= dst + r * dpitch + c < Z.of_nat (length dst_mem) ->
  zget zero_byte (memcpy dst_mem dst dpitch src_mem src spitch width height)
       (dst + r * dpitch + c)
  = zget zero_byte src_mem (src + r * spitch + c).
Proof.
  intros Hr Hc Hw Hin. unfold cudaMemcpy2D.
  pose proof (writes_lookup (fun _ : Z * Z => true)
                (fun p => dst + p.2 * dpitch + p.1)
                (fun p => zget zero_byte src_mem (src + p.2 * spitch + p.1))
                zero_byte dst_mem (pixels 0 width 0 height) (c, r)) as Hl.
  cbn [fst snd] in Hl. apply Hl; [apply elem_of_pixels; lia| |done].
  intros [c' r'] Hin' He. cbn [fst snd] in He.
  apply elem_of_pixels in Hin'.
  assert (r' = r) by nia. subst r'. f_equal. lia.
Qed.

(** Only the bytes of the rows are written. *)
Lemma cudaMemcpy2D_untouched (dst_mem : list B) dst dpitch src_mem src spitch width height j :
  (forall r c, 0 <= r < height -> 0 <= c < width -> j <> dst + r * dpitch + c) ->
  zget zero_byte (memcpy dst_mem dst dpitch src_mem src spitch width height) j
  = zget zero_byte dst_mem j.
Proof.
  intros Hne. unfold cudaMemcpy2D. apply writes_untouched.
  intros [c r] Hin _ He. cbn [fst snd] in He. apply elem_of_pixels in Hin.
  apply (Hne r c); lia.
Qed.

End Bytes.

Section Buffer.
Context {B : Type}.
Variable zero_byte : B.
Variable sizeof_T : Z.
Variable this : CUDABuffer_.
Variable dev : list B.
Hypothesis buffer_allocated : allocated_in sizeof_T this dev.

Lemma row_bytes_small : row_bytes sizeof_T this = width_ this * sizeof_T.
Proof.
  destruct buffer_allocated as (Hh & Hw & Hs & Hp & Hd).
  unfold row_bytes, size_t. apply Z.mod_small. nia.
Qed.

Lemma height_small : size_t (height_ this) = height_ this.
Proof.
  destruct buffer_allocated as (Hh & Hw & Hs & Hp & Hd).
  unfold size_t. apply Z.mod_small. lia.
Qed.

(** An upload from a host array with rows [pitch] bytes apart followed
    by a download into a host array with rows [pitch'] bytes apart copies
    the bytes of every row of the image, whatever the pitch of the buffer
    on the device; the download writes no other byte of its array, and the
    upload no byte of the device memory outside the rows of the buffer.
    [DebugUpload], [UploadAsync], [DebugDownload] and [DownloadAsync] are
    the case of a host pitch of [width * sizeof(T)]. *)
Theorem upload_then_download_through_the_pitch (pitch pitch' : Z) (a o : list B) :
  width_ this * sizeof_T <= pitch -> height_ this * pitch <= Z.of_nat (length a) ->
  width_ this * sizeof_T <= pitch' -> height_ this * pitch' <= Z.of_nat (length o) ->
  exists dev' o',
    DebugUploadPitched zero_byte sizeof_T this pitch (Some a) dev = Some dev' /\
    DebugDownloadPitched zero_byte sizeof_T this pitch' (Some o) dev' = Some o' /\
    length dev' = length dev /\ length o' = length o /\
    (forall r c, 0 <= r < height_ this -> 0 <= c < width_ this * sizeof_T ->
       zget zero_byte o' (r * pitch' + c) = zget zero_byte a (r * pitch + c)) /\
    (forall j,
       (forall r c, 0 <= r < height_ this -> 0 <= c < width_ this * sizeof_T ->
          j <> r * pitch' + c) ->
       zget zero_byte o' j = zget zero_byte o j) /\
    (forall j,
       (forall r c, 0 <= r < height_ this -> 0 <= c < width_ this * sizeof_T ->
          j <> Z.of_N (address_ this) + r * pitch_ this + c) ->
       zget zero_byte dev' j = zget zero_byte dev j) /\
    (forall data dev0,
       DebugUpload zero_byte sizeof_T this data dev0
       = DebugUploadPitched zero_byte sizeof_T this (width_ this * sizeof_T) data dev0 /\
       UploadAsync zero_byte sizeof_T this data dev0
       = DebugUploadPitched zero_byte sizeof_T this (width_ this * sizeof_T) data dev0 /\
       UploadPitchedAsync zero_byte sizeof_T this pitch data dev0
       = DebugUploadPitched zero_byte sizeof_T this pitch data dev0 /\
       DebugDownload zero_byte sizeof_T this data dev0
       = DebugDownloadPitched zero_byte sizeof_T this (width_ this * sizeof_T) data dev0 /\
       DownloadAsync zero_byte sizeof_T this data dev0
       = DebugDownloadPitched zero_byte sizeof_T this (width_ this * sizeof_T) data dev0 /\
       DownloadPitchedAsync zero_byte sizeof_T this pitch' data dev0
       = DebugDownloadPitched zero_byte sizeof_T this pitch' data dev0).
Proof.
  intros Hp Ha Hp' Ho.
  pose proof buffer_allocated as (Hh & Hw & Hs & Hpitch & Hd).
  unfold DebugUploadPitched, DebugDownloadPitched, DebugUpload, UploadAsync,
    UploadPitchedAsync, DebugDownload, DownloadAsync, DownloadPitchedAsync.
  cbn [mbind option_bind]. rewrite row_bytes_small, height_small.
  eexists _, _. split; [reflexivity|]. split; [reflexivity|].
  split_and!.
  - apply length_cudaMemcpy2D.
  - apply length_cudaMemcpy2D.
  - intros r c Hr Hc.
    pose proof (cudaMemcpy2D_copied zero_byte o 0 pitch'
                  (cudaMemcpy2D zero_byte dev (Z.of_N (address_ this)) (pitch_ this)
                     a 0 pitch (width_ this * sizeof_T) (height_ this))
                  (Z.of_N (address_ this)) (pitch_ this)
                  (width_ this * sizeof_T) (height_ this) r c Hr Hc Hp') as H1.
    rewrite !Z.add_0_l in H1. rewrite H1 by nia.
    pose proof (cudaMemcpy2D_copied zero_byte dev (Z.of_N (address_ this)) (pitch_ this)
                  a 0 pitch (width_ this * sizeof_T) (height_ this) r c Hr Hc) as H2.
    rewrite !Z.add_0_l in H2. apply H2; [lia|]. nia.
  - intros j Hj. apply cudaMemcpy2D_untouched. intros r c Hr Hc.
    rewrite Z.add_0_l. by apply Hj.
  - intros j Hj. apply cudaMemcpy2D_untouched. intros r c Hr Hc. by apply Hj.
  - intros data dev0. by split_and!.
Qed.

(** On a buffer of height 1, [UploadPartAsync(start, length, ..)]
    followed by [DownloadPartAsync(start, length, ..)] returns the [length]
    uploaded bytes and leaves the rest of the host array as it was; the
    upload writes the bytes from [start] to [start + length] of the buffer
    and no other byte of the device memory.  On a buffer of another height,
    and with a null pointer, both fail. *)
Theorem part_upload_then_download (start length_ : Z) (a o : list B) :
  0 <= start -> 0 <= length_ ->
  start + length_ <= pitch_ this -> length_ <= width_ this * sizeof_T ->
  length_ <= Z.of_nat (length a) -> length_ <= Z.of_nat (length o) ->
  (height_ this = 1 ->
   exists dev' o',
     UploadPartAsync zero_byte sizeof_T this start length_ (Some a) dev = Some dev' /\
     DownloadPartAsync zero_byte sizeof_T this start length_ (Some o) dev' = Some o' /\
     length dev' = length dev /\ length o' = length o /\
     (forall k, 0 <= k < length_ -> zget zero_byte o' k = zget zero_byte a k) /\
     (forall k, length_ <= k -> zget zero_byte o' k = zget zero_byte o k) /\
     (forall k, 0 <= k < length_ ->
        zget zero_byte dev' (Z.of_N (address_ this) + start + k) = zget zero_byte a k) /\
     (forall j, ~ (Z.of_N (address_ this) + start <= j
                   < Z.of_N (address_ this) + start + length_) ->
        zget zero_byte dev' j = zget zero_byte dev j)) /\
  (height_ this <> 1 ->
   forall data dev0,
     UploadPartAsync zero_byte sizeof_T this start length_ data dev0 = None /\
     DownloadPartAsync zero_byte sizeof_T this start length_ data dev0 = None) /\
  (forall dev0,
     UploadPartAsync zero_byte sizeof_T this start length_ None dev0 = None /\
     DownloadPartAsync zero_byte sizeof_T this start length_ None dev0 = None).
Proof.
  intros Hstart Hlen Hfit Hrow Ha Ho.
  pose proof buffer_allocated as (Hh & Hw & Hs & Hpitch & Hd).
  unfold UploadPartAsync, DownloadPartAsync. split_and!.
  - intros H1. rewrite H1. change (negb (1 =? 1)) with false. cbn [mbind option_bind].
    change (size_t 1) with 1. rewrite row_bytes_small.
    rewrite H1 in Hd.
    assert (Hcopy : forall k, 0 <= k < length_ ->
              zget zero_byte
                (cudaMemcpy2D zero_byte dev (Z.of_N (address_ this) + start)
                   (pitch_ this) a 0 (width_ this * sizeof_T) length_ 1)
                (Z.of_N (address_ this) + start + k) = zget zero_byte a k).
    { intros k Hk.
      pose proof (cudaMemcpy2D_copied zero_byte dev (Z.of_N (address_ this) + start)
                    (pitch_ this) a 0 (width_ this * sizeof_T) length_ 1 0 k) as H2.
      rewrite !Z.mul_0_l, !Z.add_0_r, Z.add_0_l in H2. apply H2; lia. }
    eexists _, _. split; [reflexivity|]. split; [reflexivity|].
    split_and!.
    + apply length_cudaMemcpy2D.
    + apply length_cudaMemcpy2D.
    + intros k Hk.
      pose proof (cudaMemcpy2D_copied zero_byte o 0 (width_ this * sizeof_T)
                    (cudaMemcpy2D zero_byte dev (Z.of_N (address_ this) + start)
                       (pitch_ this) a 0 (width_ this * sizeof_T) length_ 1)
                    (Z.of_N (address_ this) + start) (pitch_ this) length_ 1 0 k) as H2.
      rewrite !Z.mul_0_l, !Z.add_0_r, Z.add_0_l in H2.
      rewrite H2 by lia. by apply Hcopy.
    + intros k Hk. apply cudaMemcpy2D_untouched. intros r c Hr Hc. lia.
    + exact Hcopy.
    + intros j Hj. apply cudaMemcpy2D_untouched. intros r c Hr Hc.
      assert (r = 0) by lia. subst r. lia.
  - intros Hne data dev0.
    assert (Hb : (height_ this =? 1) = false) by (apply Z.eqb_neq; exact Hne).
    by rewrite Hb.
  - intros dev0. by destruct (negb (height_ this =? 1)).
Qed.

(** [DownloadRectAsync] copies the rectangle of [height] rows and
    [width] columns at [(src_y, src_x)] of the buffer to the rectangle at
    [(dest_y, dest_x)] of the image, element by element, and writes no other
    byte of the image. *)
Theorem DownloadRectAsync_copies_the_rectangle
        (src_y src_x height width dest_y dest_x image_step : Z) (o : list B) :
  0 <= src_y -> 0 <= src_x -> 0 <= height -> 0 <= width ->
  src_y + height <= height_ this -> src_x + width <= width_ this ->
  0 <= dest_y < 2 ^ 31 -> 0 <= dest_x < 2 ^ 31 ->
  (dest_x + width) * sizeof_T <= image_step < 2 ^ 32 ->
  (dest_y + height) * image_step <= Z.of_nat (length o) ->
  exists o',
    DownloadRectAsync zero_byte sizeof_T this src_y src_x height width dest_y dest_x
      (Some (image_step, o)) dev = Some o' /\
    length o' = length o /\
    (forall r c k, 0 <= r < height -> 0 <= c < width -> 0 <= k < sizeof_T ->
       zget zero_byte o' ((dest_y + r) * image_step + (dest_x + c) * sizeof_T + k)
       = zget zero_byte dev
           (Z.of_N (address_ this) + (src_y + r) * pitch_ this
            + (src_x + c) * sizeof_T + k)) /\
    (forall j,
       (forall r c k, 0 <= r < height -> 0 <= c < width -> 0 <= k < sizeof_T ->
          j <> (dest_y + r) * image_step + (dest_x + c) * sizeof_T + k) ->
       zget zero_byte o' j = zget zero_byte o j).
Proof.
  intros Hsy Hsx Hh Hw Hfy Hfx Hdy Hdx Hstep Ho.
  pose proof buffer_allocated as (Hbh & Hbw & Hs & Hpitch & Hd).
  unfold DownloadRectAsync. cbn [mbind option_bind].
  assert (E1 : size_t (dest_y * image_step) = dest_y * image_step).
  { unfold size_t. apply Z.mod_small. nia. }
  assert (E2 : size_t (dest_x * sizeof_T) = dest_x * sizeof_T).
  { unfold size_t. apply Z.mod_small. nia. }
  assert (E3 : size_t (src_y * pitch_ this) = src_y * pitch_ this).
  { unfold size_t. apply Z.mod_small. nia. }
  assert (E4 : size_t (width * sizeof_T) = width * sizeof_T).
  { unfold size_t. apply Z.mod_small. nia. }
  assert (E5 : size_t height = height).
  { unfold size_t. apply Z.mod_small. lia. }
  rewrite E1, E2, E3, E4, E5.
  eexists. split; [reflexivity|]. split_and!.
  - apply length_cudaMemcpy2D.
  - intros r c k Hr Hc Hk.
    pose proof (cudaMemcpy2D_copied zero_byte o
                  (dest_y * image_step + dest_x * sizeof_T) image_step dev
                  (Z.of_N (address_ this) + src_y * pitch_ this + src_x * sizeof_T)
                  (pitch_ this) (width * sizeof_T) height r (c * sizeof_T + k)) as H1.
    replace ((dest_y + r) * image_step + (dest_x + c) * sizeof_T + k)
      with (dest_y * image_step + dest_x * sizeof_T + r * image_step
            + (c * sizeof_T + k)) by lia.
    rewrite H1; [f_equal; lia|lia|nia|nia|nia].
  - intros j Hj. apply cudaMemcpy2D_untouched. intros r c' Hr Hc'.
    specialize (Hj r (c' / sizeof_T) (c' mod sizeof_T) Hr).
    pose proof (Z.div_mod c' sizeof_T ltac:(lia)) as Hdm.
    pose proof (Z.mod_pos_bound c' sizeof_T ltac:(lia)) as Hm.
    assert (Hq : 0 <= c' / sizeof_T < width).
    { split; [apply Z.div_pos; lia|apply Z.div_lt_upper_bound; lia]. }
    specialize (Hj Hq Hm). nia.
Qed.

End Buffer.
End MemcpyProps.

(** ** The division in the convergence test of the plain kernel *)

Module DivisionProps.
Import Host Examples.

(** C8.  The convergence test of the plain kernel divides by the cached
    value without a guard, and a zero denominator is reachable: on a row of
    four holes next to one measurement the first launch checks convergence,
    and in its last sub-iteration the thread of the pixel four columns from
    the measurement evaluates the test with a cached value of zero and a
    positive candidate; the quotient is an infinity and the tile is flagged. *)
Theorem zero_denominator_is_reachable :
  let depth_map_input := image_texture zero four_holes in
  let threshold := FNum (1 # 100) in
  let block_coordinates :=
    uploaded GetBlockCount one depth_map_input (filled zero 1 5) (filled 0 1 2) in
  let depth_map_output :=
    (initialized GetBlockCount one depth_map_input (filled zero 1 5) (filled 0 1 2)).1 in
  let depth_shared :=
    (Plain.before_sub_iteration 32 32 true block_coordinates depth_map_input
       threshold 5 1 0 3
       (Plain.load_shared 32 32 block_coordinates 5 1 0 depth_map_output)
       (filled 0 1 1)).1 in
  (fun r => (launches_out r, check_max_change_cpu <$> checks_out r))
    <$> inpaint_row false 4 four_holes 5
  = Some ([Launch 0 true 1 [(0, 0)]], [[1]]) /\
  (Plain.tests_convergence 32 32 true block_coordinates depth_map_input 5 1 0 3 4 4,
   Plain.change_operands 32 32 block_coordinates depth_map_input 5 1 0 depth_shared 4 4,
   Plain.change 32 32 true block_coordinates depth_map_input 5 1 0 depth_shared 3 4 4)
  = (true, (FNum 10, FNum 0), FInf false) /\
  fdiv (FNum 10) (FNum 0) = FInf false.
Proof.
  cbv zeta. split_and!.
  - vm_cast_no_check (@eq_refl (option (list launch_record * list (list Z)))
                        (Some ([Launch 0 true 1 [(0, 0)]], [[1]]))).
  - vm_cast_no_check (@eq_refl (bool * (float * float) * float)
                        (true, (FNum 10, FNum 0), FInf false)).
  - reflexivity.
Qed.

End DivisionProps.

(** ** The statements at concrete inputs *)

Module Concrete.
Import Host Examples Stated Invariants.

(** The run on one hole with at most four iterations: one launch, which
    checks convergence and finds no flag set. *)
Lemma one_hole_run :
  inpaint_row false 4 one_hole 1
  = Some (Result 4 1 (Buffer [FNum 0] 1 1) (Buffer [0; 0] 1 2) (Buffer [0] 1 1)
            [Launch 0 true 1 [(0, 0)]] [Check 0 1 [(0, 0)] [0]]).
Proof.
  vm_cast_no_check
    (@eq_refl (option result)
       (Some (Result 4 1 (Buffer [FNum 0] 1 1) (Buffer [0; 0] 1 2) (Buffer [0] 1 1)
                [Launch 0 true 1 [(0, 0)]] [Check 0 1 [(0, 0)] [0]]))).
Qed.

(** The logs of the run on the row of two tiles with at most eight
    iterations. *)
Lemma two_tiles_logs :
  (fun r => (launches_out r, checks_out r)) <$> inpaint_row false 8 two_tiles 48
  = Some ([Launch 0 true 2 [(0, 0); (24, 0)]; Launch 4 false 2 [(0, 0); (24, 0)]],
          [Check 0 2 [(0, 0); (24, 0)] [0; 1]]).
Proof.
  vm_cast_no_check
    (@eq_refl (option (list launch_record * list check_record))
       (Some ([Launch 0 true 2 [(0, 0); (24, 0)]; Launch 4 false 2 [(0, 0); (24, 0)]],
              [Check 0 2 [(0, 0); (24, 0)] [0; 1]]))).
Qed.

(** C1, on the code.  On the row of two tiles the first check finds the flag
    of the tile at the origin unset, and the next launch still covers that
    tile. *)
Lemma unflagged_tile_is_launched_again :
  exists r, inpaint_row false 8 two_tiles 48 = Some r /\
            ~ drops_unflagged_tiles r.
Proof.
  pose proof two_tiles_logs as Hlogs.
  destruct (inpaint_row false 8 two_tiles 48) as [r|]; [|discriminate Hlogs].
  exists r. split; [reflexivity|].
  injection Hlogs as Hl Hc. intros H.
  apply (H (Check 0 2 [(0, 0); (24, 0)] [0; 1])
           (Launch 4 false 2 [(0, 0); (24, 0)]) 0%nat (0, 0)).
  - rewrite Hc. apply list_elem_of_singleton. reflexivity.
  - rewrite Hl. right. apply list_elem_of_singleton. reflexivity.
  - cbn. lia.
  - reflexivity.
  - reflexivity.
  - cbn. left.
Qed.

(** C2, on the code.  At an input of [-1] scaled by 1 the plain kernel takes
    the pixel as a hole, and the initialisation pass, with weighting as
    without, does not. *)
Lemma negative_input_is_a_hole_of_the_plain_kernel :
  let depth_map_input : cudaTextureObject_t float := fun _ _ => FNum (-1) in
  let block_coordinates := filled 0 1 2 in
  Plain.kIsPixelToInpaint block_coordinates depth_map_input 1 1 0 4 4 = true /\
  hole_as_stated false (fmul one (tex2D depth_map_input 0 0)) = false /\
  Init.thread_is_active 32 32 one depth_map_input 1 1 0 0 4 4 = false /\
  hole_as_stated true (fmul one (tex2D depth_map_input 0 0)) = true.
Proof. vm_compute. repeat split. Qed.

Lemma hole_tests_witness :
  let depth_map_input : cudaTextureObject_t float := fun _ _ => FNum (-1) in
  Plain.kIsPixelToInpaint (filled 0 1 2) depth_map_input 1 1 0 4 4
  = fle (tex2D depth_map_input 0 0) zero.
Proof.
  intros depth_map_input.
  destruct (HoleProps.hole_tests one depth_map_input (filled 0 1 2) 1 1 4 4
              ltac:(lia) ltac:(lia) ltac:(reflexivity)) as [_ H].
  destruct (H 0 ltac:(vm_compute; discriminate) ltac:(vm_compute; discriminate)
              ltac:(vm_compute; reflexivity) ltac:(vm_compute; reflexivity))
    as [Hp _].
  exact Hp.
Defined.

(** C4, on the code.  With [max_num_iterations = -8] the loop is not
    entered and the function returns 0, which is above -8 rounded up to a
    multiple of four. *)
Lemma negative_maximum_returns_zero :
  iterations <$> inpaint_row false (-8) one_hole 1 = Some 0 /\
  ~ 0 <= round_up (-8) 4.
Proof.
  split.
  - vm_cast_no_check (@eq_refl (option Z) (Some 0)).
  - vm_compute. intros H. apply H. reflexivity.
Qed.

Lemma iteration_count_is_bounded_witness :
  exists fuel r,
    InpaintDepthMapWithConvolutionCUDA GetBlockCount false 10 (FNum (1 # 100)) one
      no_gradient (image_texture zero four_holes) (filled 0 1 1) (filled zero 1 5)
      (filled 0 1 2) fuel = Some r /\
    0 <= iterations r <= 12.
Proof.
  destruct (HostProps.iteration_count_is_bounded GetBlockCount false 10
              (FNum (1 # 100)) one no_gradient (image_texture zero four_holes)
              (filled 0 1 1) (filled zero 1 5) (filled 0 1 2) ltac:(lia))
    as (fuel & r & Hrun & _ & Hbound & _).
  exists fuel, r. split; [exact Hrun|exact Hbound].
Defined.

(** C7, on the code.  A grid of 2732 tiles in a row with a hole in its last
    tile: the origin [2731 * 24 = 65544] does not fit the 16-bit entry, which
    holds 8. *)
Lemma wide_grid_origin_wraps :
  let block_activity := replicate 2731 0 ++ [1] in
  origins (block_coordinates_cpu (compact 2732 1 block_activity))
          (active_block_count (compact 2732 1 block_activity)) = [(8, 0)] /\
  active_tiles 2732 1 block_activity = [(2731, 0)] /\
  ~ compaction_as_stated 2732 1 block_activity.
Proof.
  cbv zeta.
  assert (Ho : origins (block_coordinates_cpu (compact 2732 1 (replicate 2731 0 ++ [1])))
                 (active_block_count (compact 2732 1 (replicate 2731 0 ++ [1])))
               = [(8, 0)]).
  { vm_cast_no_check (@eq_refl (list (Z * Z)) [(8, 0)]). }
  assert (Ha : active_tiles 2732 1 (replicate 2731 0 ++ [1]) = [(2731, 0)]).
  { vm_cast_no_check (@eq_refl (list (Z * Z)) [(2731, 0)]). }
  split_and!; [exact Ho|exact Ha|].
  unfold compaction_as_stated. cbv zeta. rewrite Ho, Ha. intros [H _].
  discriminate H.
Qed.

Lemma compaction_lists_active_tiles_witness :
  origins (block_coordinates_cpu (compact 3 2 [0; 5; 0; 7; 0; 1]))
          (active_block_count (compact 3 2 [0; 5; 0; 7; 0; 1]))
  = [(24, 0); (0, 24); (48, 24)] /\
  pixel_to_inpaint_count (compact 3 2 [0; 5; 0; 7; 0; 1]) = 13.
Proof.
  destruct (CompactionProps.compaction_lists_active_tiles 3 2 [0; 5; 0; 7; 0; 1]
              ltac:(lia) ltac:(lia) ltac:(vm_compute; reflexivity)
              ltac:(vm_compute; reflexivity) ltac:(vm_compute; reflexivity))
    as [[Ho Hc] _].
  split; [rewrite Ho|rewrite Hc]; vm_compute; reflexivity.
Defined.

Lemma no_hole_is_a_no_op_witness :
  exists r, inpaint_row true 100 no_hole 2 = Some r /\
            iterations r = 0 /\ launches_out r = [] /\
            load zero (depth_map_output_out r) 0 1 = fmul one (FNum 2).
Proof.
  destruct (NoOpProps.no_hole_is_a_no_op GetBlockCount true 100 (FNum (1 # 100)) one
              no_gradient (image_texture zero no_hole)
              (filled 0 1 (GetBlockCount 2 24)) (filled zero 1 2)
              (filled 0 1 (2 * GetBlockCount 2 24))
              ltac:(cbn; lia) ltac:(cbn; lia) ltac:(reflexivity)
              ltac:(vm_compute; discriminate) ltac:(vm_compute; discriminate)
              100%nat)
    as (r & Hrun & Hi & Hl & _ & _ & _ & Hout).
  { intros px py Hpx Hpy. cbn in Hpx, Hpy.
    assert (py = 0) as -> by lia.
    assert (px = 0 \/ px = 1) as [-> | ->] by lia; reflexivity. }
  exists r. split_and!; [exact Hrun|exact Hi|exact Hl|].
  apply Hout; cbn; lia.
Defined.

Lemma launch_keeps_valid_pixels_witness :
  load zero
    (launch_kernel false (FNum (1 # 100)) no_gradient
       (image_texture zero hole_and_measurement) (filled 0 1 2) 1 true
       (filled 0 1 1) (Buffer [FNum 0; FNum 10] 1 2)).2 0 1
  = FNum 10.
Proof.
  destruct (FrameProps.launch_keeps_valid_pixels true (filled 0 1 2)
              (image_texture zero hole_and_measurement) no_gradient
              (FNum (1 # 100)) 1 0 ltac:(reflexivity) false 1 (filled 0 1 1)
              (Buffer [FNum 0; FNum 10] 1 2) zero
              ltac:(cbn; lia) ltac:(cbn; lia) ltac:(cbn; lia)) as [H _].
  rewrite H. reflexivity.
Defined.

End Concrete.

(** ** Runs at concrete inputs *)

Module ConcreteRuns.
Import Host Examples Stated Overwrite.

(** The run of the plain kernel on a hole next to a measurement, with at
    most four iterations: the hole takes the depth of its neighbour. *)
Lemma hole_and_measurement_run :
  inpaint_row false 4 hole_and_measurement 2
  = Some (Result 4 1 (Buffer [FNum 10; FNum 10] 1 2) (Buffer [0; 0] 1 2)
            (Buffer [0] 1 1) [Launch 0 true 1 [(0, 0)]] [Check 0 1 [(0, 0)] [0]]).
Proof.
  vm_cast_no_check
    (@eq_refl (option result)
       (Some (Result 4 1 (Buffer [FNum 10; FNum 10] 1 2) (Buffer [0; 0] 1 2)
                (Buffer [0] 1 1) [Launch 0 true 1 [(0, 0)]]
                [Check 0 1 [(0, 0)] [0]]))).
Qed.

(** The run of the plain kernel on a hole next to an infinite depth. *)
Lemma infinite_neighbour_run :
  inpaint_row false 4 infinite_neighbour 2
  = Some (Result 4 1 (Buffer [FInf false; FNaN] 1 2) (Buffer [0; 0] 1 2)
            (Buffer [0] 1 1) [Launch 0 true 1 [(0, 0)]] [Check 0 1 [(0, 0)] [0]]).
Proof.
  vm_cast_no_check
    (@eq_refl (option result)
       (Some (Result 4 1 (Buffer [FInf false; FNaN] 1 2) (Buffer [0; 0] 1 2)
                (Buffer [0] 1 1) [Launch 0 true 1 [(0, 0)]]
                [Check 0 1 [(0, 0)] [0]]))).
Qed.

(** The flags that the first launch on the row of two tiles leaves. *)
Lemma two_tiles_first_flags :
  downloaded_flags false (FNum (1 # 100)) no_gradient
    (image_texture zero two_tiles)
    (uploaded GetBlockCount one (image_texture zero two_tiles)
       (filled zero 1 48) (filled 0 1 (2 * GetBlockCount 48 24)))
    (active_block_count
       (compacted GetBlockCount one (image_texture zero two_tiles)
          (filled zero 1 48) (filled 0 1 (2 * GetBlockCount 48 24))))
    (initial_state GetBlockCount one (image_texture zero two_tiles)
       (filled 0 1 (GetBlockCount 48 24)) (filled zero 1 48)
       (filled 0 1 (2 * GetBlockCount 48 24)))
  = [0; 1] /\
  active_block_count
    (compacted GetBlockCount one (image_texture zero two_tiles)
       (filled zero 1 48) (filled 0 1 (2 * GetBlockCount 48 24))) = 2.
Proof.
  split.
  - vm_cast_no_check (@eq_refl (list Z) [0; 1]).
  - vm_cast_no_check (@eq_refl Z 2).
Qed.

(** C1, at an input.  On the row of two tiles the first check counts one set
    flag, and the launch that follows, at [i = 4], covers both tiles. *)
Lemma active_list_is_never_compacted_witness :
  exists r, inpaint_row false 8 two_tiles 48 = Some r /\
    exists l, l ∈ launches_out r /\ launch_i l = 4 /\
              launch_tiles l = [(0, 0); (24, 0)].
Proof.
  pose proof Concrete.two_tiles_logs as Hlogs.
  destruct (inpaint_row false 8 two_tiles 48) as [r|] eqn:Hrun;
    [|discriminate Hlogs].
  exists r. split; [reflexivity|]. injection Hlogs as Hl Hc.
  destruct (DecisionProps.active_list_is_never_compacted GetBlockCount false 8
              (FNum (1 # 100)) one no_gradient (image_texture zero two_tiles)
              (filled 0 1 (GetBlockCount 48 24)) (filled zero 1 48)
              (filled 0 1 (2 * GetBlockCount 48 24)) 100%nat r Hrun)
    as (_ & _ & _ & _ & H).
  destruct (H ltac:(lia) 0%nat (Check 0 2 [(0, 0); (24, 0)] [0; 1])) as [_ Hgo].
  { rewrite Hc. reflexivity. }
  destruct Hgo as (l & Hin & Hi & _ & _ & Ht).
  { vm_compute. discriminate. }
  { cbn. lia. }
  exists l. split_and!; [exact Hin|exact Hi|]. apply Ht. cbn. lia.
Defined.



(** C10, at an input.  On the row of two tiles the first check finds a flag
    set, and with room for 100 iterations the run has its second check at
    [i = 28]. *)
Lemma convergence_check_schedule_witness :
  exists fuel r,
    InpaintDepthMapWithConvolutionCUDA GetBlockCount false 100 (FNum (1 # 100))
      one no_gradient (image_texture zero two_tiles)
      (filled 0 1 (GetBlockCount 48 24)) (filled zero 1 48)
      (filled 0 1 (2 * GetBlockCount 48 24)) fuel = Some r /\
    exists c, checks_out r !! 1%nat = Some c /\ check_i c = 28.
Proof.
  destruct (DecisionProps.convergence_check_schedule GetBlockCount false 100
              (FNum (1 # 100)) one no_gradient (image_texture zero two_tiles)
              (filled 0 1 (GetBlockCount 48 24)) (filled zero 1 48)
              (filled 0 1 (2 * GetBlockCount 48 24)) ltac:(lia))
    as [(fuel & r & Hrun) H].
  exists fuel, r. split; [exact Hrun|].
  destruct two_tiles_first_flags as [Hflags Hn].
  destruct (H fuel r Hrun) as (_ & _ & _ & Hfirst & Hdec).
  destruct Hfirst as (l & c & _ & Hc & _ & _ & Hi & Hf & _).
  { rewrite Hn. discriminate. }
  { lia. }
  destruct (Hdec 0%nat c Hc) as [_ Hgo].
  destruct Hgo as [_ Hnext].
  { exists 1. rewrite Hn, Hf, Hflags. split; [lia|discriminate]. }
  destruct Hnext as (c' & Hc' & Hi'); [lia|].
  exists c'. split; [exact Hc'|]. lia.
Defined.

End ConcreteRuns.

(** ** Further statements at concrete inputs *)

Module Instances.
Import Host Examples Counting.

(** The function on an image of one row with a threshold of 1/100, a scaling
    factor of 1, no gradient and scratch buffers of the size of the grid. *)
Local Abbreviation inpaint use_weighting max_num_iterations rows width :=
  (InpaintDepthMapWithConvolutionCUDA GetBlockCount use_weighting
     max_num_iterations (FNum (1 # 100)) one no_gradient
     (image_texture zero rows)
     (filled 0 1 (GetBlockCount width 24))
     (filled zero 1 width)
     (filled 0 1 (2 * GetBlockCount width 24))).

Lemma entries_of_a_cleared_buffer n j :
  0 <= zget 0 (address_ (filled 0 1 n)) j < 2 ^ 16.
Proof. unfold filled. cbn [address_]. rewrite ThreadProps.zget_replicate. lia. Qed.


Lemma launches_and_checks_are_counted_witness :
  exists fuel r,
    inpaint true 100 hole_and_measurement 2 fuel = Some r /\
    iterations r = 4 * Z.of_nat (length (launches_out r)).
Proof.
  destruct (RunProps.Inpaint_returns GetBlockCount true 100 (FNum (1 # 100)) one
              no_gradient (image_texture zero hole_and_measurement)
              (filled 0 1 (GetBlockCount 2 24)) (filled zero 1 2)
              (filled 0 1 (2 * GetBlockCount 2 24)) ltac:(lia))
    as (fuel & r & Hrun).
  exists fuel, r. split; [exact Hrun|].
  destruct (RunProps.launches_and_checks_are_counted
              GetBlockCount true 100 (FNum (1 # 100)) one
              no_gradient (image_texture zero hole_and_measurement)
              (filled 0 1 (GetBlockCount 2 24)) (filled zero 1 2)
              (filled 0 1 (2 * GetBlockCount 2 24))
              ltac:(lia) fuel r Hrun) as [H _].
  exact H.
Defined.


Lemma initialisation_scales_every_pixel_witness :
  load zero (initialized GetBlockCount (FNum 2)
               (image_texture zero hole_and_measurement)
               (Buffer [FNum 5; FNum 6] 1 2) (filled 0 1 2)).1 0 1
  = fmul (FNum 2) (tex2D (image_texture zero hole_and_measurement) 1 0).
Proof.
  destruct (OutputProps.initialisation_scales_every_pixel GetBlockCount (FNum 2)
              (image_texture zero hole_and_measurement)
              (Buffer [FNum 5; FNum 6] 1 2) (filled 0 1 2)
              ltac:(cbn; lia) ltac:(cbn; lia) ltac:(reflexivity)
              ltac:(vm_compute; discriminate) ltac:(vm_compute; discriminate))
    as (_ & _ & _ & H).
  apply H; cbn; lia.
Defined.

Lemma measurements_are_returned_scaled_witness :
  exists fuel r,
    inpaint false 100 hole_and_measurement 2 fuel = Some r /\
    load zero (depth_map_output_out r) 0 1
    = fmul one (tex2D (image_texture zero hole_and_measurement) 1 0).
Proof.
  destruct (RunProps.Inpaint_returns GetBlockCount false 100 (FNum (1 # 100)) one
              no_gradient (image_texture zero hole_and_measurement)
              (filled 0 1 (GetBlockCount 2 24)) (filled zero 1 2)
              (filled 0 1 (2 * GetBlockCount 2 24)) ltac:(lia))
    as (fuel & r & Hrun).
  exists fuel, r. split; [exact Hrun|].
  destruct (OutputProps.measurements_are_returned_scaled
              GetBlockCount false 100 (FNum (1 # 100)) one
              no_gradient (image_texture zero hole_and_measurement)
              (filled 0 1 (GetBlockCount 2 24)) (filled zero 1 2)
              (filled 0 1 (2 * GetBlockCount 2 24))
              ltac:(cbn; lia) ltac:(cbn; lia) ltac:(reflexivity)
              ltac:(vm_compute; discriminate) ltac:(vm_compute; discriminate)
              fuel r Hrun) as (_ & _ & _ & H).
  apply H; [cbn; lia|cbn; lia|reflexivity].
Defined.

Lemma launch_writes_inside_its_tiles_witness :
  load zero
    (launch_kernel true (FNum (1 # 100)) no_gradient (fun _ _ => FNum 0)
       (filled 0 1 2) 1 true (filled 0 1 1) (filled (FNum 3) 1 30)).2 0 25
  = load zero (filled (FNum 3) 1 30) 0 25.
Proof.
  apply (TileProps.launch_writes_inside_its_tiles (filled 0 1 2) (fun _ _ => FNum 0)
           no_gradient (FNum (1 # 100)) (entries_of_a_cleared_buffer 2) true 1 true
           (filled 0 1 1) (filled (FNum 3) 1 30) zero 25 0);
    [cbn; lia|cbn; lia|cbn; lia|].
  intros b Hb. change (u32 1) with 1 in Hb. assert (b = 0) as -> by lia.
  change (Plain.origin_x (filled 0 1 2) 0) with 0.
  change (Plain.origin_y (filled 0 1 2) 0) with 0.
  unfold kBlockOutputSizeX, kBlockWidth, kIterationsPerKernelCall. lia.
Defined.

Lemma diffusion_accesses_are_in_bounds_witness :
  0 <= Plain.shared_mem_index 32 5 6 < 32 * 32 /\
  0 <= at_ (filled zero 3 7) (Plain.y (filled 0 1 2) 3 0 6) (Plain.x (filled 0 1 2) 7 0 5)
    < 3 * 7.
Proof.
  destruct (BoundsProps.diffusion_accesses_are_in_bounds (filled 0 1 2)
              (filled zero 3 7) 0 5 6 ltac:(cbn; lia) ltac:(cbn; lia)
              ltac:(apply ThreadProps.elem_of_threads; lia))
    as (H1 & _ & _ & H2 & _).
  split; [exact H1|exact H2].
Defined.

Lemma halo_clamp_of_the_two_kernels_witness :
  Plain.x (filled 0 1 2) 10 0 1 = 9 /\ Weighted.x (filled 0 1 2) 10 0 1 = 0.
Proof.
  destruct (BoundsProps.halo_clamp_of_the_two_kernels (filled 0 1 2) 10 10 0 1 1
              ltac:(lia) ltac:(lia) ltac:(lia) ltac:(lia)
              ltac:(vm_compute; discriminate) ltac:(vm_compute; discriminate))
    as [H _].
  apply H. vm_compute. reflexivity.
Defined.

Lemma tile_counts_are_the_zero_pixels_witness :
  zget 0 (block_activity GetBlockCount one (image_texture zero hole_and_measurement)
            (filled zero 1 2) (filled 0 1 2))
       (0 + 0 * grid_dim_x GetBlockCount (filled zero 1 2))
  = 1.
Proof.
  rewrite (CensusProps.tile_counts_are_the_zero_pixels GetBlockCount one
             (image_texture zero hole_and_measurement) (filled zero 1 2)
             (filled 0 1 2)
             ltac:(cbn; lia) ltac:(cbn; lia) ltac:(reflexivity)
             ltac:(vm_compute; discriminate) ltac:(vm_compute; discriminate)
             ltac:(vm_compute; reflexivity) ltac:(vm_compute; reflexivity)
             ltac:(vm_compute; discriminate) 0 0).
  - vm_compute. reflexivity.
  - apply CompactionProps.elem_of_blocks. vm_compute. repeat split; discriminate.
Defined.

Lemma pixel_to_inpaint_count_is_the_number_of_zero_pixels_witness :
  exists fuel r,
    inpaint false 100 hole_and_measurement 2 fuel = Some r /\
    pixel_to_inpaint_count_out r = 1.
Proof.
  destruct (RunProps.Inpaint_returns GetBlockCount false 100 (FNum (1 # 100)) one
              no_gradient (image_texture zero hole_and_measurement)
              (filled 0 1 (GetBlockCount 2 24)) (filled zero 1 2)
              (filled 0 1 (2 * GetBlockCount 2 24)) ltac:(lia))
    as (fuel & r & Hrun).
  exists fuel, r. split; [exact Hrun|].
  destruct (CensusProps.pixel_to_inpaint_count_is_the_number_of_zero_pixels
              GetBlockCount false 100 (FNum (1 # 100)) one
              no_gradient (image_texture zero hole_and_measurement)
              (filled 0 1 (GetBlockCount 2 24)) (filled zero 1 2)
              (filled 0 1 (2 * GetBlockCount 2 24))
              ltac:(cbn; lia) ltac:(cbn; lia) ltac:(reflexivity)
              ltac:(vm_compute; discriminate) ltac:(vm_compute; discriminate)
              ltac:(vm_compute; reflexivity) ltac:(vm_compute; reflexivity)
              ltac:(vm_compute; discriminate)
              fuel r ltac:(vm_compute; reflexivity) Hrun) as [H _].
  rewrite H. vm_compute. reflexivity.
Defined.

Lemma launches_cover_the_tiles_with_holes_witness :
  exists fuel r,
    inpaint false 100 hole_and_measurement 2 fuel = Some r /\
    forall l, l ∈ launches_out r -> launch_tiles l = [(0, 0)].
Proof.
  destruct (RunProps.Inpaint_returns GetBlockCount false 100 (FNum (1 # 100)) one
              no_gradient (image_texture zero hole_and_measurement)
              (filled 0 1 (GetBlockCount 2 24)) (filled zero 1 2)
              (filled 0 1 (2 * GetBlockCount 2 24)) ltac:(lia))
    as (fuel & r & Hrun).
  exists fuel, r. split; [exact Hrun|]. intros l Hl.
  destruct (CensusProps.launches_cover_the_tiles_with_holes
              GetBlockCount false 100 (FNum (1 # 100)) one
              no_gradient (image_texture zero hole_and_measurement)
              (filled 0 1 (GetBlockCount 2 24)) (filled zero 1 2)
              (filled 0 1 (2 * GetBlockCount 2 24))
              ltac:(cbn; lia) ltac:(cbn; lia) ltac:(reflexivity)
              ltac:(vm_compute; discriminate) ltac:(vm_compute; discriminate)
              ltac:(vm_compute; reflexivity) ltac:(vm_compute; reflexivity)
              ltac:(vm_compute; discriminate)
              fuel r l ltac:(vm_compute; discriminate) Hrun Hl) as [_ H].
  rewrite H. vm_compute. reflexivity.
Defined.

Lemma nothing_to_diffuse_from_witness :
  exists fuel r,
    inpaint true 100 one_hole 1 fuel = Some r /\
    load zero (depth_map_output_out r) 0 0
    = fmul one (tex2D (image_texture zero one_hole) 0 0).
Proof.
  destruct (RunProps.Inpaint_returns GetBlockCount true 100 (FNum (1 # 100)) one
              no_gradient (image_texture zero one_hole)
              (filled 0 1 (GetBlockCount 1 24)) (filled zero 1 1)
              (filled 0 1 (2 * GetBlockCount 1 24)) ltac:(lia))
    as (fuel & r & Hrun).
  exists fuel, r. split; [exact Hrun|].
  destruct (QuietProps.nothing_to_diffuse_from
              GetBlockCount true 100 (FNum (1 # 100)) one no_gradient
              (image_texture zero one_hole)
              (filled 0 1 (GetBlockCount 1 24)) (filled zero 1 1)
              (filled 0 1 (2 * GetBlockCount 1 24))
              ltac:(cbn; lia) ltac:(cbn; lia) ltac:(reflexivity)
              ltac:(vm_compute; discriminate) ltac:(vm_compute; discriminate))
    with (fuel := fuel) (r := r) as [H _].
  - intros px py Hpx Hpy. cbn in Hpx, Hpy.
    assert (py = 0) as -> by lia. assert (px = 0) as -> by lia.
    exists 0%Q. split; [reflexivity|discriminate].
  - reflexivity.
  - exact Hrun.
  - apply H; cbn; lia.
Defined.

(** A buffer of 2 rows of 3 elements of 4 bytes, with a pitch of 512 bytes,
    in a runtime without texture objects and a device without allocations. *)
Local Abbreviation no_textures := (TextureCache.Runtime ∅ 0 []).
Local Abbreviation no_allocations := (Lifetime.Allocator ∅ 0).
Local Abbreviation garbage :=
  (TextureCache.CachedBuffer true 7 TextureCache.cudaAddressModeWrap
     TextureCache.cudaAddressModeWrap TextureCache.cudaFilterModePoint
     TextureCache.cudaReadModeElementType false).
Local Abbreviation some_operations :=
  [Lifetime.Request TextureCache.cudaAddressModeClamp
     TextureCache.cudaAddressModeClamp TextureCache.cudaFilterModePoint
     TextureCache.cudaReadModeElementType false;
   Lifetime.CopyTo (Lifetime.Object (Lifetime.Data 9 2 3 512) garbage);
   Lifetime.Request TextureCache.cudaAddressModeClamp
     TextureCache.cudaAddressModeClamp TextureCache.cudaFilterModeLinear
     TextureCache.cudaReadModeElementType false].

Lemma no_textures_fresh : Lifetime.fresh_handles no_textures.
Proof. intros h [d Hd]. cbn in Hd. by rewrite lookup_empty in Hd. Qed.

Lemma no_allocations_fresh : Lifetime.fresh_addresses no_allocations.
Proof. intros a Ha. cbn in Ha. by apply not_elem_of_empty in Ha. Qed.

Lemma lifetime_leaves_nothing_behind_witness :
  TextureCache.live
    (Lifetime.lifetime (fun _ => 512) 4 unit (fun _ _ dev => dev) garbage 2 3
       some_operations no_textures no_allocations tt).1.1
  = ∅.
Proof.
  pose proof (LifetimeProps.lifetime_leaves_nothing_behind (fun _ => 512) 4 unit
                (fun _ _ dev => dev) garbage 2 3 some_operations no_textures
                no_allocations tt no_textures_fresh no_allocations_fresh) as H.
  destruct (Lifetime.lifetime _ _ _ _ _ _ _ _ _ _ _) as [[rt' mem'] dev'].
  by destruct H as [H _].
Defined.

Lemma requested_texture_is_live_witness :
  let '(this, _, _) :=
    Lifetime.constructor (fun _ => 512) 4 garbage 2 3 no_allocations in
  let '(this', rt', _) :=
    foldl (Lifetime.perform unit (fun _ _ dev => dev)) (this, no_textures, tt)
          some_operations in
  let '(obj, _, rt'') :=
    Lifetime.GetCachedTextureObject TextureCache.cudaAddressModeBorder
      TextureCache.cudaAddressModeBorder TextureCache.cudaFilterModePoint
      TextureCache.cudaReadModeElementType true this' rt' in
  TextureCache.live rt'' !! obj
  = Some (TextureCache.TextureDesc TextureCache.cudaAddressModeBorder
            TextureCache.cudaAddressModeBorder TextureCache.cudaFilterModePoint
            TextureCache.cudaReadModeElementType 1).
Proof.
  pose proof (LifetimeProps.requested_texture_is_live (fun _ => 512) 4 unit
                (fun _ _ dev => dev) garbage 2 3 some_operations
                TextureCache.cudaAddressModeBorder TextureCache.cudaAddressModeBorder
                TextureCache.cudaFilterModePoint TextureCache.cudaReadModeElementType
                true no_textures no_allocations tt no_textures_fresh) as H.
  destruct (Lifetime.constructor _ _ _ _ _ _) as [[this w] mem1].
  destruct (foldl _ _ _) as [[this' rt'] dev'].
  destruct (Lifetime.GetCachedTextureObject _ _ _ _ _ _ _) as [[obj this''] rt''].
  by destruct H as (_ & H & _).
Defined.

(** The same buffer with a pitch of 16 bytes, at the start of a device
    memory of 32 bytes. *)
Local Abbreviation small_buffer := (Lifetime.Data 0 2 3 16).
Local Abbreviation small_device := (replicate 32 0).
(** A buffer of one row of 6 elements of 2 bytes. *)
Local Abbreviation row_buffer := (Lifetime.Data 0 1 6 16).

Lemma small_buffer_allocated : Transfer.allocated_in 4 small_buffer small_device.
Proof. unfold Transfer.allocated_in. cbn. lia. Qed.

Lemma row_buffer_allocated : Transfer.allocated_in 2 row_buffer small_device.
Proof. unfold Transfer.allocated_in. cbn. lia. Qed.

Lemma upload_then_download_through_the_pitch_witness :
  exists dev' o',
    Transfer.DebugUploadPitched 0 4 small_buffer 12 (Some (seqZ 1 24)) small_device
    = Some dev' /\
    Transfer.DebugDownloadPitched 0 4 small_buffer 14 (Some (replicate 28 0)) dev'
    = Some o' /\
    zget 0 o' (1 * 14 + 5) = zget 0 (seqZ 1 24) (1 * 12 + 5).
Proof.
  destruct (MemcpyProps.upload_then_download_through_the_pitch 0 4 small_buffer
              small_device small_buffer_allocated 12 14 (seqZ 1 24) (replicate 28 0)
              ltac:(vm_compute; repeat split; done) ltac:(vm_compute; repeat split; done) ltac:(vm_compute; repeat split; done) ltac:(vm_compute; repeat split; done))
    as (dev' & o' & Hup & Hdown & _ & _ & Hrows & _).
  exists dev', o'. split; [exact Hup|]. split; [exact Hdown|].
  apply Hrows; cbn; lia.
Defined.

Lemma part_upload_then_download_witness :
  exists dev' o',
    Transfer.UploadPartAsync 0 2 row_buffer 4 6 (Some (seqZ 1 8)) small_device
    = Some dev' /\
    Transfer.DownloadPartAsync 0 2 row_buffer 4 6 (Some (replicate 8 0)) dev'
    = Some o' /\
    zget 0 o' 5 = zget 0 (seqZ 1 8) 5.
Proof.
  destruct (MemcpyProps.part_upload_then_download 0 2 row_buffer small_device
              row_buffer_allocated 4 6 (seqZ 1 8) (replicate 8 0)
              ltac:(lia) ltac:(lia) ltac:(vm_compute; repeat split; done) ltac:(vm_compute; repeat split; done)
              ltac:(vm_compute; repeat split; done) ltac:(vm_compute; repeat split; done)) as (H & _).
  destruct (H eq_refl) as (dev' & o' & Hup & Hdown & _ & _ & Hcopy & _).
  exists dev', o'. split; [exact Hup|]. split; [exact Hdown|].
  apply Hcopy. lia.
Defined.

Lemma DownloadRectAsync_copies_the_rectangle_witness :
  exists o',
    Transfer.DownloadRectAsync 0 4 small_buffer 1 1 1 2 0 1
      (Some (12, replicate 24 0)) small_device = Some o' /\
    zget 0 o' ((0 + 0) * 12 + (1 + 1) * 4 + 3)
    = zget 0 small_device (0 + (1 + 0) * 16 + (1 + 1) * 4 + 3).
Proof.
  destruct (MemcpyProps.DownloadRectAsync_copies_the_rectangle 0 4 small_buffer
              small_device small_buffer_allocated 1 1 1 2 0 1 12 (replicate 24 0)
              ltac:(lia) ltac:(lia) ltac:(lia) ltac:(lia)
              ltac:(vm_compute; repeat split; done) ltac:(vm_compute; repeat split; done) ltac:(lia) ltac:(lia)
              ltac:(lia) ltac:(vm_compute; repeat split; done)) as (o' & Hrect & _ & Hcopy & _).
  exists o'. split; [exact Hrect|].
  apply (Hcopy 0 1 3); lia.
Defined.

End Instances.
